(** * pi-mogo: the agent runtime core

    A shallow embedding of the Go packages [pkg/ai] and [pkg/agent]
    (event streams, streaming JSON repair, overflow detection, cost
    calculation, the agent loop and the agent facade), together with the
    properties of the specification that are stated about them.

    Conventions.
    - Go [string] is a byte sequence: [string] of the Standard Library.
    - Go [int] is the 64-bit two's complement integer: a [Z] together with
      [Go.wrap], which is applied wherever the source does arithmetic.
    - Go [float64] is the kernel's binary64 [float].
    - [type X string] enumerations keep their string representation, so the
      zero value and unknown tags are values of the model too.
    - A pointer that may be nil is an [option]; a struct is a [Record]. *)

From Stdlib Require Import ZArith QArith Qabs Qpower Lqa List String Ascii
  Floats Uint63 Lia Permutation.
From stdpp Require Import base option gmap strings list.

Local Open Scope Z_scope.

(** ** Go base types *)

Module Go.

Definition int := Z.

Definition int_min : Z := - 2 ^ 63.
Definition int_max : Z := 2 ^ 63 - 1.

(** Two's complement reduction of a mathematical integer to [int]. *)
Definition wrap (z : Z) : int := (z + 2 ^ 63) mod 2 ^ 64 - 2 ^ 63.

Definition in_range (z : Z) : Prop := int_min <= z <= int_max.

(** [a + b] on [int]. *)
Definition add (a b : int) : int := wrap (a + b).

(** What can happen when a goroutine runs an operation to its end:
    it returns, it waits forever on a channel, or it panics. *)
Inductive outcome (A : Type) : Type :=
| Done (a : A)
| Blocks
| Panics.
Arguments Done {A} a.
Arguments Blocks {A}.
Arguments Panics {A}.

Definition obind {A B} (o : outcome A) (f : A -> outcome B) : outcome B :=
  match o with
  | Done a => f a
  | Blocks => Blocks
  | Panics => Panics
  end.

End Go.

(** ** pkg/ai/eventstream.go *)

Module EventStream.
Section EventStream.

Context {T R : Type}.

(** The two closures given to [NewEventStream]. *)
Variable isComplete : T -> bool.
Variable extractResult : T -> R.

(** The mutable part of an [EventStream[T, R]]:
    [ch] is the content of the buffered channel [s.ch] (capacity 64),
    [ch_closed] whether [close(s.ch)] has run, [once] whether [s.once]
    has fired, [resultCh] the content of [s.resultCh] (capacity 1). *)
Record t : Type := mk {
  ch : list T;
  ch_closed : bool;
  once : bool;
  resultCh : option R;
}.

Definition ch_cap : nat := 64.

Definition NewEventStream : t :=
  {| ch := []; ch_closed := false; once := false; resultCh := None |}.

(** [s.resultCh <- r]: waits while the one-slot buffer is full. *)
Definition send_result (r : R) (s : t) : Go.outcome t :=
  match resultCh s with
  | Some _ => Go.Blocks
  | None => Go.Done {| ch := ch s; ch_closed := ch_closed s; once := once s;
                       resultCh := Some r |}
  end.

(** [select { case s.resultCh <- r: default: }]. *)
Definition try_send_result (r : R) (s : t) : t :=
  match resultCh s with
  | Some _ => s
  | None => {| ch := ch s; ch_closed := ch_closed s; once := once s;
               resultCh := Some r |}
  end.

(** [s.ch <- event]: panics on a closed channel, waits on a full one. *)
Definition send (event : T) (s : t) : Go.outcome t :=
  if ch_closed s then Go.Panics
  else if (ch_cap <=? length (ch s))%nat then Go.Blocks
  else Go.Done {| ch := ch s ++ [event]; ch_closed := false; once := once s;
                  resultCh := resultCh s |}.

(** [close(s.ch)]: panics when the channel is closed already. *)
Definition close_ch (s : t) : Go.outcome t :=
  if ch_closed s then Go.Panics
  else Go.Done {| ch := ch s; ch_closed := true; once := once s;
                  resultCh := resultCh s |}.

(** [s.once.Do(func() { close(s.ch) })]. *)
Definition once_close (s : t) : Go.outcome t :=
  if once s then Go.Done s
  else close_ch {| ch := ch s; ch_closed := ch_closed s; once := true;
                   resultCh := resultCh s |}.

Definition Push (event : T) (s : t) : Go.outcome t :=
  Go.obind (if isComplete event then send_result (extractResult event) s
            else Go.Done s) (fun s1 =>
  Go.obind (send event s1) (fun s2 =>
  if isComplete event then once_close s2 else Go.Done s2)).

Definition End (result : R) (s : t) : Go.outcome t :=
  once_close (try_send_result result s).

(** One receive on [Events()]: [Some e] is the next event, [None] the
    end of the [range] loop over a closed and drained channel. *)
Definition recv (s : t) : Go.outcome (option T * t) :=
  match ch s with
  | e :: rest =>
      Go.Done (Some e, {| ch := rest; ch_closed := ch_closed s;
                          once := once s; resultCh := resultCh s |})
  | [] => if ch_closed s then Go.Done (None, s) else Go.Blocks
  end.

(** [<-s.resultCh]: takes the value out of the one-slot buffer. *)
Definition Result (s : t) : Go.outcome (R * t) :=
  match resultCh s with
  | Some r => Go.Done (r, {| ch := ch s; ch_closed := ch_closed s;
                             once := once s; resultCh := None |})
  | None => Go.Blocks
  end.

(** A run of later [End] calls, in order. *)
Fixpoint EndAll (results : list R) (s : t) : Go.outcome t :=
  match results with
  | [] => Go.Done s
  | r :: rs => Go.obind (End r s) (EndAll rs)
  end.

(** A run of [Push] calls, in order. *)
Fixpoint PushAll (events : list T) (s : t) : Go.outcome t :=
  match events with
  | [] => Go.Done s
  | e :: es => Go.obind (Push e s) (PushAll es)
  end.

(** [Push] on a stream nobody receives from, as far as it gets: the
    stream when [Push] has returned, or else as the last of its
    operations that returned has left it. *)
Definition Push_leaves (event : T) (s : t) : t :=
  match (if isComplete event then send_result (extractResult event) s
         else Go.Done s) with
  | Go.Done s1 =>
      match send event s1 with
      | Go.Done s2 =>
          match (if isComplete event then once_close s2 else Go.Done s2) with
          | Go.Done s3 => s3
          | _ => s2
          end
      | _ => s1
      end
  | _ => s
  end.

(** The stream as a producer goroutine leaves it that pushes [events] in
    order while nobody receives: it goes on as long as its [Push] calls
    return, and stays in the first one that does not. *)
Fixpoint producer (events : list T) (s : t) : t :=
  match events with
  | [] => s
  | e :: es =>
      match Push e s with
      | Go.Done s' => producer es s'
      | _ => Push_leaves e s
      end
  end.

(** [for event := range s.Events() { ... }] on a stream no producer
    touches any more: the events the loop meets, and the stream when the
    loop ends.  Each iteration takes one unit of [fuel]. *)
Fixpoint rangeLoop (fuel : nat) (s : t) : Go.outcome (list T * t) :=
  match fuel with
  | O => Go.Blocks
  | S fuel' =>
      Go.obind (recv s) (fun r =>
        match r with
        | (None, s') => Go.Done ([], s')
        | (Some e, s') =>
            Go.obind (rangeLoop fuel' s') (fun r' =>
              Go.Done (e :: fst r', snd r'))
        end)
  end.

(** The loop with fuel for every event in the buffer and for the
    receive that finds the channel closed. *)
Definition drain (s : t) : Go.outcome (list T * t) :=
  rangeLoop (S (length (ch s))) s.

(** A stream nobody has resolved yet. *)
Definition unresolved (s : t) : Prop :=
  resultCh s = None /\ once s = false /\ ch_closed s = false.

(** A stream whose result is recorded and not yet taken. *)
Definition resolved_with (r : R) (s : t) : Prop :=
  resultCh s = Some r /\ once s = true /\ ch_closed s = true.

End EventStream.

Arguments t : clear implicits.
Arguments NewEventStream {T R}.

End EventStream.

(** ** pkg/ai: content, messages, tools, models, stream events *)

Module ai.

Local Open Scope string_scope.

(** A value of Go's [any] as this code meets it: what [encoding/json]
    decodes into an [any], where [nil] is [ANil]. *)
#[warnings="-register-all"]
Inductive any : Type :=
| ANil
| ABool (b : bool)
| ANumber (f : float)
| AString (s : string)
| AList (l : list any)
| AMap (m : gmap string any).

(** [map[string]any]: [None] is the nil map. *)
Definition Map : Type := option (gmap string any).

(** An [error] is kept as the text of its [Error()]. *)
Definition error : Type := string.

Definition nl : string := String (ascii_of_nat 10) EmptyString.

Definition Api := string.
Definition Provider := string.
Definition ThinkingLevel := string.
Definition ThinkingOff : ThinkingLevel := "off".

Record ThinkingBudgets : Type := {
  tb_Minimal : option Go.int;
  tb_Low : option Go.int;
  tb_Medium : option Go.int;
  tb_High : option Go.int;
}.

Definition CacheRetention := string.

(** [SimpleStreamOptions], with the embedded [StreamOptions] flattened. *)
Record SimpleStreamOptions : Type := {
  Temperature : option float;
  MaxTokens : option Go.int;
  ApiKey : string;
  opt_CacheRetention : CacheRetention;
  SessionID : string;
  Headers : option (gmap string string);
  MaxRetryDelayMs : option Go.int;
  Reasoning : ThinkingLevel;
  opt_ThinkingBudgets : option ThinkingBudgets;
}.

Definition with_ApiKey (key : string) (o : SimpleStreamOptions) :=
  {| Temperature := Temperature o; MaxTokens := MaxTokens o; ApiKey := key;
     opt_CacheRetention := opt_CacheRetention o; SessionID := SessionID o;
     Headers := Headers o; MaxRetryDelayMs := MaxRetryDelayMs o;
     Reasoning := Reasoning o; opt_ThinkingBudgets := opt_ThinkingBudgets o |}.

Definition ContentType := string.
Definition ContentText : ContentType := "text".
Definition ContentThinking : ContentType := "thinking".
Definition ContentImage : ContentType := "image".
Definition ContentToolCall : ContentType := "toolCall".

Record TextContent : Type := {
  txt_Type : ContentType;
  txt_Text : string;
  txt_TextSignature : string;
}.

Record ThinkingContent : Type := {
  thk_Type : ContentType;
  thk_Thinking : string;
  thk_ThinkingSignature : string;
}.

Record ImageContent : Type := {
  img_Type : ContentType;
  img_Data : string;
  img_MimeType : string;
}.

Record ToolCall : Type := {
  tc_Type : ContentType;
  tc_ID : string;
  tc_Name : string;
  tc_Arguments : Map;
  tc_ThoughtSignature : string;
}.

(** [Content]: a struct of four pointers, of which one is meant to be set. *)
Record Content : Type := {
  c_Text : option TextContent;
  c_Thinking : option ThinkingContent;
  c_Image : option ImageContent;
  c_ToolCall : option ToolCall;
}.

Definition NewTextContent (text : string) : Content :=
  {| c_Text := Some {| txt_Type := ContentText; txt_Text := text;
                       txt_TextSignature := "" |};
     c_Thinking := None; c_Image := None; c_ToolCall := None |}.

Definition NewToolCallContent (id name : string) (args : Map) : Content :=
  {| c_Text := None; c_Thinking := None; c_Image := None;
     c_ToolCall := Some {| tc_Type := ContentToolCall; tc_ID := id;
                           tc_Name := name; tc_Arguments := args;
                           tc_ThoughtSignature := "" |} |}.

Record Cost : Type := {
  cost_Input : float;
  cost_Output : float;
  cost_CacheRead : float;
  cost_CacheWrite : float;
  cost_Total : float;
}.

Record Usage : Type := {
  u_Input : Go.int;
  u_Output : Go.int;
  u_CacheRead : Go.int;
  u_CacheWrite : Go.int;
  u_TotalTokens : Go.int;
  u_Cost : Cost;
}.

(** The zero values [Cost{}] and [Usage{}]. *)
Definition zeroCost : Cost :=
  {| cost_Input := 0; cost_Output := 0; cost_CacheRead := 0;
     cost_CacheWrite := 0; cost_Total := 0 |}.

Definition zeroUsage : Usage :=
  {| u_Input := 0; u_Output := 0; u_CacheRead := 0; u_CacheWrite := 0;
     u_TotalTokens := 0; u_Cost := zeroCost |}.

Definition StopReason := string.
Definition StopReasonStop : StopReason := "stop".
Definition StopReasonLength : StopReason := "length".
Definition StopReasonToolUse : StopReason := "toolUse".
Definition StopReasonError : StopReason := "error".
Definition StopReasonAborted : StopReason := "aborted".

Definition MessageRole := string.
Definition RoleUser : MessageRole := "user".
Definition RoleAssistant : MessageRole := "assistant".
Definition RoleToolResult : MessageRole := "toolResult".

Record UserMessage : Type := {
  um_Role : MessageRole;
  um_Content : list Content;
  um_Timestamp : Z;
}.

Record AssistantMessage : Type := {
  am_Role : MessageRole;
  am_Content : list Content;
  am_Api : Api;
  am_Provider : Provider;
  am_Model : string;
  am_Usage : Usage;
  am_StopReason : StopReason;
  am_ErrorMessage : string;
  am_Timestamp : Z;
}.

Record ToolResultMessage : Type := {
  tr_Role : MessageRole;
  tr_ToolCallID : string;
  tr_ToolName : string;
  tr_Content : list Content;
  tr_Details : any;
  tr_IsError : bool;
  tr_Timestamp : Z;
}.

(** [Message]: a struct of three pointers, of which one is meant to be set. *)
Record Message : Type := {
  m_User : option UserMessage;
  m_Assistant : option AssistantMessage;
  m_ToolResult : option ToolResultMessage;
}.

Definition Role (m : Message) : MessageRole :=
  match m_User m, m_Assistant m, m_ToolResult m with
  | Some _, _, _ => RoleUser
  | None, Some _, _ => RoleAssistant
  | None, None, Some _ => RoleToolResult
  | None, None, None => ""
  end.

Definition userMsg (u : UserMessage) : Message :=
  {| m_User := Some u; m_Assistant := None; m_ToolResult := None |}.
Definition assistantMsg (a : option AssistantMessage) : Message :=
  {| m_User := None; m_Assistant := a; m_ToolResult := None |}.
Definition toolResultMsg (r : ToolResultMessage) : Message :=
  {| m_User := None; m_Assistant := None; m_ToolResult := Some r |}.

Definition ToolSchema : Type := Map.

Record Tool : Type := {
  tool_Name : string;
  tool_Description : string;
  tool_Parameters : ToolSchema;
}.

Record Context : Type := {
  ctx_SystemPrompt : string;
  ctx_Messages : list Message;
  ctx_Tools : list Tool;
}.

Record ModelCost : Type := {
  mc_Input : float;
  mc_Output : float;
  mc_CacheRead : float;
  mc_CacheWrite : float;
}.

Record Model : Type := {
  model_ID : string;
  model_Name : string;
  model_Api : Api;
  model_Provider : Provider;
  model_BaseURL : string;
  model_Reasoning : bool;
  model_Input : list string;
  model_Cost : ModelCost;
  model_ContextWindow : Go.int;
  model_MaxTokens : Go.int;
  model_Headers : option (gmap string string);
}.

Definition AssistantMessageEventType := string.
Definition EventStart : AssistantMessageEventType := "start".
Definition EventTextStart : AssistantMessageEventType := "text_start".
Definition EventTextDelta : AssistantMessageEventType := "text_delta".
Definition EventTextEnd : AssistantMessageEventType := "text_end".
Definition EventThinkingStart : AssistantMessageEventType := "thinking_start".
Definition EventThinkingDelta : AssistantMessageEventType := "thinking_delta".
Definition EventThinkingEnd : AssistantMessageEventType := "thinking_end".
Definition EventToolCallStart : AssistantMessageEventType := "toolcall_start".
Definition EventToolCallDelta : AssistantMessageEventType := "toolcall_delta".
Definition EventToolCallEnd : AssistantMessageEventType := "toolcall_end".
Definition EventDone : AssistantMessageEventType := "done".
Definition EventError : AssistantMessageEventType := "error".

Record AssistantMessageEvent : Type := {
  ev_Type : AssistantMessageEventType;
  ev_ContentIndex : Go.int;
  ev_Delta : string;
  ev_Content : string;
  ev_Partial : option AssistantMessage;
  ev_Message : option AssistantMessage;
  ev_Error : option AssistantMessage;
  ev_ToolCallData : option ToolCall;
  ev_Reason : StopReason;
}.

(** [==] on strings. *)
Definition eqs (a b : string) : bool := bool_decide (a = b).

(** The two closures of [NewAssistantMessageEventStream]. *)
Definition assistantIsComplete (e : AssistantMessageEvent) : bool :=
  eqs (ev_Type e) EventDone || eqs (ev_Type e) EventError.

Definition assistantExtractResult (e : AssistantMessageEvent)
  : option AssistantMessage :=
  if eqs (ev_Type e) EventDone then ev_Message e
  else if eqs (ev_Type e) EventError then ev_Error e
  else None.

Definition AssistantMessageEventStream : Type :=
  EventStream.t AssistantMessageEvent (option AssistantMessage).

(** *** Go's [strings] functions used by the package *)

Definition bytes (s : string) : list ascii := list_ascii_of_string s.
Definition str (l : list ascii) : string := string_of_list_ascii l.

Definition byte (n : nat) : ascii := ascii_of_nat n.

(** The UTF-8 encodings of the code points for which [unicode.IsSpace]
    holds: U+0009..U+000D, U+0020, U+0085, U+00A0, U+1680,
    U+2000..U+200A, U+2028, U+2029, U+202F, U+205F, U+3000. *)
Definition space_encodings : list (list ascii) :=
  map (map byte)
    [ [9]; [10]; [11]; [12]; [13]; [32]; [194; 133]; [194; 160];
      [225; 154; 128];
      [226; 128; 128]; [226; 128; 129]; [226; 128; 130]; [226; 128; 131];
      [226; 128; 132]; [226; 128; 133]; [226; 128; 134]; [226; 128; 135];
      [226; 128; 136]; [226; 128; 137]; [226; 128; 138];
      [226; 128; 168]; [226; 128; 169]; [226; 128; 175]; [226; 129; 159];
      [227; 128; 128] ]%nat.

Definition ascii_eqb_list (a b : list ascii) : bool := bool_decide (a = b).

(** [strip p l]: the rest of [l] after its prefix [p], if [p] is one. *)
Fixpoint strip (p l : list ascii) : option (list ascii) :=
  match p, l with
  | [], _ => Some l
  | a :: p', b :: l' => if Ascii.eqb a b then strip p' l' else None
  | _ :: _, [] => None
  end.

(** The rest of [l] after one leading rune taken from [encs]. *)
Fixpoint strip_any (encs : list (list ascii)) (l : list ascii)
  : option (list ascii) :=
  match encs with
  | [] => None
  | p :: encs' =>
      match strip p l with
      | Some rest => Some rest
      | None => strip_any encs' l
      end
  end.

(** [TrimLeftFunc]-style loop: drop leading runes of [encs] ([fuel] bounds
    the iterations by the length of the input). *)
Fixpoint trim_left (encs : list (list ascii)) (fuel : nat) (l : list ascii)
  : list ascii :=
  match fuel with
  | O => l
  | S fuel' =>
      match strip_any encs l with
      | Some rest => trim_left encs fuel' rest
      | None => l
      end
  end.

(** The same from the right end: [DecodeLastRune] finds a space exactly
    when the bytes end with one of the encodings. *)
Definition trim_right (encs : list (list ascii)) (l : list ascii)
  : list ascii :=
  rev (trim_left (map (@rev ascii) encs) (length l) (rev l)).

(** [strings.TrimSpace]. *)
Definition TrimSpace (s : string) : string :=
  let l := bytes s in
  str (trim_right space_encodings (trim_left space_encodings (length l) l)).

(** [strings.TrimRight(s, cutset)] for a cutset of ASCII bytes. *)
Definition TrimRight (s : string) (cutset : list ascii) : string :=
  let l := bytes s in
  str (trim_right (map (fun c => [c]) cutset) l).

(** [strings.TrimSuffix(s, suffix)]. *)
Definition TrimSuffix (s suffix : string) : string :=
  match strip (rev (bytes suffix)) (rev (bytes s)) with
  | Some rest => str (rev rest)
  | None => s
  end.

(** [strings.Join]. *)
Fixpoint Join (elems : list string) (sep : string) : string :=
  match elems with
  | [] => ""
  | [e] => e
  | e :: rest => e +:+ sep +:+ Join rest sep
  end.

(** *** pkg/ai/jsonparse.go *)

Section JSON.

(** [json.Unmarshal(data, &result)] for a nil [result map[string]any]:
    the map left in [result] and the error.  It belongs to Go's
    [encoding/json], not to this repository. *)
Variable Unmarshal : string -> Map * option error.

(** The loop state of [tryRepairAndParse]. *)
Record scan : Type := {
  openBraces : Go.int;
  openBrackets : Go.int;
  inString : bool;
  escaped : bool;
}.

Definition scan0 : scan :=
  {| openBraces := 0; openBrackets := 0; inString := false; escaped := false |}.

Definition chr (n : nat) : ascii := ascii_of_nat n.
Definition c_backslash : ascii := chr 92.
Definition c_quote : ascii := chr 34.
Definition c_lbrace : ascii := chr 123.
Definition c_rbrace : ascii := chr 125.
Definition c_lbracket : ascii := chr 91.
Definition c_rbracket : ascii := chr 93.

(** One iteration of [for _, c := range trimmed].  The loop ranges over
    runes; every byte of a multi-byte or invalid rune is at least 0x80 and
    so none of the six characters tested, and a rune costs one [escaped]
    flag however many bytes it has: stepping byte by byte reaches the same
    state. *)
Definition scan_step (st : scan) (c : ascii) : scan :=
  if escaped st then
    {| openBraces := openBraces st; openBrackets := openBrackets st;
       inString := inString st; escaped := false |}
  else if Ascii.eqb c c_backslash && inString st then
    {| openBraces := openBraces st; openBrackets := openBrackets st;
       inString := inString st; escaped := true |}
  else if Ascii.eqb c c_quote then
    {| openBraces := openBraces st; openBrackets := openBrackets st;
       inString := negb (inString st); escaped := false |}
  else if inString st then st
  else if Ascii.eqb c c_lbrace then
    {| openBraces := Go.add (openBraces st) 1; openBrackets := openBrackets st;
       inString := false; escaped := false |}
  else if Ascii.eqb c c_rbrace then
    {| openBraces := Go.add (openBraces st) (-1);
       openBrackets := openBrackets st; inString := false; escaped := false |}
  else if Ascii.eqb c c_lbracket then
    {| openBraces := openBraces st; openBrackets := Go.add (openBrackets st) 1;
       inString := false; escaped := false |}
  else if Ascii.eqb c c_rbracket then
    {| openBraces := openBraces st;
       openBrackets := Go.add (openBrackets st) (-1);
       inString := false; escaped := false |}
  else st.

(** [n] copies of [c]: what [for k > 0 { trimmed += c; k-- }] appends. *)
Definition closers (c : string) (k : Go.int) : string :=
  String.concat "" (repeat c (Z.to_nat k)).

Definition tryRepairAndParse (s : string) : Map :=
  let trimmed := TrimRight s (map chr [32; 9; 10; 13]%nat) in
  let trimmed := TrimSuffix trimmed "," in
  let st := fold_left scan_step (bytes trimmed) scan0 in
  let trimmed := if inString st then trimmed +:+ str [c_quote] else trimmed in
  let trimmed := trimmed +:+ closers "]" (openBrackets st) in
  let trimmed := trimmed +:+ closers "}" (openBraces st) in
  match Unmarshal trimmed with
  | (result, None) => result
  | (_, Some _) => None
  end.

(** The four whitespace characters of JSON. *)
Definition json_ws (c : ascii) : bool :=
  existsb (Ascii.eqb c) (map chr [32; 9; 10; 13]%nat).

(** The text of an object: from an opening to a closing brace. *)
Definition object_text (core : list ascii) : Prop :=
  exists mid, core = (c_lbrace :: mid ++ [c_rbrace])%list.

(** What the repair relies on in [json.Unmarshal]: a document that
    decodes into a map without error is the text of an object with JSON
    whitespace around it, and decodes the same without that
    whitespace. *)
Definition Unmarshal_skips_whitespace : Prop :=
  forall s m,
    Unmarshal s = (Some m, None) ->
    exists l core r,
      bytes s = (l ++ core ++ r)%list
      /\ forallb json_ws l = true /\ forallb json_ws r = true
      /\ object_text core
      /\ Unmarshal (str core) = (Some m, None).

Definition ParseStreamingJSON (partial : string) : Map :=
  let partial := TrimSpace partial in
  if eqs partial "" then Some ∅
  else
    match Unmarshal partial with
    | (result, None) => result
    | (_, Some _) =>
        match tryRepairAndParse partial with
        | Some result => Some result
        | None => Some ∅
        end
    end.

End JSON.

(** *** Go's [regexp], as far as the overflow patterns use it

    A pattern is matched on the bytes of the text.  RE2 matches runes, but
    every literal of the patterns is ASCII except for the two extra members
    of the case-folding orbits of [k] (U+212A) and [s] (U+017F), which are
    matched as their UTF-8 bytes, and [.] occurs only as [.*], so that the
    byte-wise reading accepts the same texts. *)

Inductive re : Type :=
| Never
| Eps
| OneOf (l : list ascii)
| NotNL
| Cat (r1 r2 : re)
| Alt (r1 r2 : re)
| Star (r : re).

Fixpoint nullable (r : re) : bool :=
  match r with
  | Never => false
  | Eps => true
  | OneOf _ => false
  | NotNL => false
  | Cat r1 r2 => nullable r1 && nullable r2
  | Alt r1 r2 => nullable r1 || nullable r2
  | Star _ => true
  end.

Definition cat (r1 r2 : re) : re :=
  match r1, r2 with
  | Never, _ => Never
  | _, Never => Never
  | Eps, _ => r2
  | _, _ => Cat r1 r2
  end.

Definition alt (r1 r2 : re) : re :=
  match r1, r2 with
  | Never, _ => r2
  | _, Never => r1
  | _, _ => Alt r1 r2
  end.

(** Brzozowski derivative of [r] by the byte [a]. *)
Fixpoint deriv (a : ascii) (r : re) : re :=
  match r with
  | Never => Never
  | Eps => Never
  | OneOf l => if existsb (Ascii.eqb a) l then Eps else Never
  | NotNL => if Ascii.eqb a (chr 10) then Never else Eps
  | Cat r1 r2 =>
      alt (cat (deriv a r1) r2) (if nullable r1 then deriv a r2 else Never)
  | Alt r1 r2 => alt (deriv a r1) (deriv a r2)
  | Star r1 => cat (deriv a r1) (Star r1)
  end.

(** Some prefix of [l] matches [r]. *)
Fixpoint prefix_match (r : re) (l : list ascii) : bool :=
  nullable r ||
  match l with
  | [] => false
  | a :: l' => prefix_match (deriv a r) l'
  end.

(** Some substring of [l] matches [r]. *)
Fixpoint search (r : re) (l : list ascii) : bool :=
  prefix_match r l ||
  match l with
  | [] => false
  | _ :: l' => search r l'
  end.

(** A compiled pattern: [anchored] when it starts with [^]. *)
Record Regexp : Type := {
  anchored : bool;
  body : re;
}.

Definition MatchString (p : Regexp) (s : string) : bool :=
  if anchored p then prefix_match (body p) (bytes s)
  else search (body p) (bytes s).

Definition is_lower (c : ascii) : bool :=
  ((97 <=? nat_of_ascii c) && (nat_of_ascii c <=? 122))%nat.
Definition is_upper (c : ascii) : bool :=
  ((65 <=? nat_of_ascii c) && (nat_of_ascii c <=? 90))%nat.

(** One literal character under [(?i)]: the runes of its simple case
    folding orbit. *)
Definition ci (c : ascii) : re :=
  let n := nat_of_ascii c in
  let lower := if is_upper c then chr (n + 32) else c in
  if is_lower lower then
    let upper := chr (nat_of_ascii lower - 32) in
    let extra :=
      if Ascii.eqb lower (chr 107) then
        Cat (OneOf [chr 226]) (Cat (OneOf [chr 132]) (OneOf [chr 170]))
      else if Ascii.eqb lower (chr 115) then
        Cat (OneOf [chr 197]) (OneOf [chr 191])
      else Never in
    alt (OneOf [lower; upper]) extra
  else OneOf [c].

(** A literal string under [(?i)]. *)
Definition lit (s : string) : re :=
  fold_right (fun c r => cat (ci c) r) Eps (bytes s).

(** [\d] and [\s] of RE2. *)
Definition digit : re := OneOf (bytes "0123456789").
Definition space : re := OneOf (map chr [9; 10; 12; 13; 32]%nat).
Definition plus (r : re) : re := Cat r (Star r).
Definition opt (r : re) : re := Alt Eps r.

Definition unanchored (r : re) : Regexp := {| anchored := false; body := r |}.

(** *** overflow.go *)

Definition overflowPatterns : list Regexp :=
  map unanchored
    [ lit "prompt is too long";
      lit "input is too long for requested model";
      lit "exceeds the context window";
      Cat (lit "input token count") (Cat (Star NotNL) (lit "exceeds the maximum"));
      Cat (lit "maximum prompt length is ") (plus digit);
      lit "reduce the length of the messages";
      Cat (lit "maximum context length is ") (Cat (plus digit) (lit " tokens"));
      Cat (lit "exceeds the limit of ") (plus digit);
      lit "exceeds the available context size";
      lit "greater than the context length";
      lit "context window exceeds limit";
      lit "exceeded model token limit";
      Cat (lit "context") (Cat (OneOf (bytes "_ ")) (Cat (lit "length")
        (Cat (OneOf (bytes "_ ")) (lit "exceeded"))));
      lit "too many tokens";
      lit "token limit exceeded" ].

Definition noBodyPattern : Regexp :=
  {| anchored := true;
     body := Cat (lit "4") (Cat (Alt (lit "00") (lit "13")) (Cat (Star space)
             (Cat (opt (lit "status code")) (Cat (Star space)
             (lit "(no body)"))))) |}.

Definition IsContextOverflow (msg : AssistantMessage) (contextWindow : Go.int)
  : bool :=
  if eqs (am_StopReason msg) StopReasonError
     && negb (eqs (am_ErrorMessage msg) "")
     && (existsb (fun p => MatchString p (am_ErrorMessage msg)) overflowPatterns
         || MatchString noBodyPattern (am_ErrorMessage msg))
  then true
  else if (0 <? contextWindow)%Z && eqs (am_StopReason msg) StopReasonStop
          && (contextWindow <?
              Go.add (u_Input (am_Usage msg)) (u_CacheRead (am_Usage msg)))%Z
  then true
  else false.

(** *** The overflow phrases, read on the text

    What [IsContextOverflow] looks for in an error text, told on the
    bytes of the text with no pattern: the phrases of the providers in
    any letter case, with a number where the phrase has one. *)

(** The lower-case letter of an upper-case ASCII letter; any other byte
    is left as it is. *)
Definition to_lower (c : ascii) : ascii :=
  match find (fun p => Ascii.eqb (fst p) c)
             (combine (bytes "ABCDEFGHIJKLMNOPQRSTUVWXYZ")
                      (bytes "abcdefghijklmnopqrstuvwxyz")) with
  | Some p => snd p
  | None => c
  end.

(** The two runes outside ASCII that are a letter of ASCII in another
    case, in UTF-8: the Kelvin sign U+212A for [k], the long s U+017F
    for [s]. *)
Definition kelvin_sign : list ascii := map chr [226; 132; 170]%nat.
Definition long_s : list ascii := map chr [197; 191]%nat.

(** The bytes [l] are the character [c] in some letter case. *)
Definition is_char (c : ascii) (l : list ascii) : Prop :=
  (exists a, l = [a] /\ to_lower a = to_lower c)
  \/ (to_lower c = chr 107 /\ l = kelvin_sign)
  \/ (to_lower c = chr 115 /\ l = long_s).

(** Bytes of which [P] holds, followed by bytes of which [Q] holds. *)
Definition then_ (P Q : list ascii -> Prop) (l : list ascii) : Prop :=
  exists l1 l2, l = (l1 ++ l2)%list /\ P l1 /\ Q l2.

Definition either (P Q : list ascii -> Prop) (l : list ascii) : Prop :=
  P l \/ Q l.

Definition maybe (P : list ascii -> Prop) (l : list ascii) : Prop :=
  l = [] \/ P l.

(** The bytes [l] spell the phrase, letter case ignored. *)
Fixpoint spells (phrase : list ascii) (l : list ascii) : Prop :=
  match phrase with
  | [] => l = []
  | c :: rest => then_ (is_char c) (spells rest) l
  end.

Definition says (phrase : string) : list ascii -> Prop := spells (bytes phrase).

(** A number: one or more decimal digits. *)
Definition number (l : list ascii) : Prop :=
  l <> [] /\ Forall (fun a => In a (bytes "0123456789")) l.

(** Any bytes of one line. *)
Definition one_line (l : list ascii) : Prop := Forall (fun a => a <> chr 10) l.

(** White space: any number of tabs, line feeds, form feeds, carriage
    returns and spaces. *)
Definition blanks (l : list ascii) : Prop :=
  Forall (fun a => In a (map chr [9; 10; 12; 13; 32]%nat)) l.

(** An underscore or a space. *)
Definition separator (l : list ascii) : Prop :=
  l = bytes "_" \/ l = bytes " ".

(** The phrases by which the providers report a context overflow. *)
Definition overflowPhrases : list (list ascii -> Prop) :=
  [ says "prompt is too long";
    says "input is too long for requested model";
    says "exceeds the context window";
    then_ (says "input token count") (then_ one_line (says "exceeds the maximum"));
    then_ (says "maximum prompt length is ") number;
    says "reduce the length of the messages";
    then_ (says "maximum context length is ") (then_ number (says " tokens"));
    then_ (says "exceeds the limit of ") number;
    says "exceeds the available context size";
    says "greater than the context length";
    says "context window exceeds limit";
    says "exceeded model token limit";
    then_ (says "context") (then_ separator (then_ (says "length")
      (then_ separator (says "exceeded"))));
    says "too many tokens";
    says "token limit exceeded" ].

(** The text has one of the overflow phrases somewhere in it. *)
Definition mentionsOverflow (text : string) : Prop :=
  exists pre m post,
    bytes text = (pre ++ m ++ post)%list /\ Exists (fun P => P m) overflowPhrases.

(** The text begins with the report of a 400 or 413 response without a
    body: [400] or [413], then [(no body)], with [status code] or
    nothing between them and white space around that. *)
Definition bodyless4xx (text : string) : Prop :=
  exists m post,
    bytes text = (m ++ post)%list
    /\ then_ (says "4") (then_ (either (says "00") (says "13"))
         (then_ blanks (then_ (maybe (says "status code"))
            (then_ blanks (says "(no body)"))))) m.

(** *** The texts a pattern matches *)

Inductive star (P : list ascii -> Prop) : list ascii -> Prop :=
| star_nil : star P []
| star_app l1 l2 : P l1 -> star P l2 -> star P (l1 ++ l2)%list.

Fixpoint matches (r : re) : list ascii -> Prop :=
  match r with
  | Never => fun _ => False
  | Eps => fun l => l = []
  | OneOf cs => fun l => exists a, l = [a] /\ In a cs
  | NotNL => fun l => exists a, l = [a] /\ a <> chr 10
  | Cat r1 r2 => then_ (matches r1) (matches r2)
  | Alt r1 r2 => either (matches r1) (matches r2)
  | Star r1 => star (matches r1)
  end.

(** *** registry.go: CalculateCost *)

(** The arithmetic [CalculateCost] is written in.  The code runs it on
    [float64]; the same formulas read on exact rationals give the pricing
    rule the rounding approximates. *)
Record Arith (F : Type) : Type := {
  a_add : F -> F -> F;
  a_mul : F -> F -> F;
  a_div : F -> F -> F;
  a_lit : Z -> F;
  a_of_int : Go.int -> F;
}.
Arguments a_add {F}.
Arguments a_mul {F}.
Arguments a_div {F}.
Arguments a_lit {F}.
Arguments a_of_int {F}.

(** The conversion [float64(n)] of an [int]: the nearest binary64. *)
Definition float64_of_int (n : Go.int) : float :=
  if (n =? Go.int_min)%Z then (- 9223372036854775808)%float
  else if (n <? 0)%Z then (- PrimFloat.of_uint63 (Uint63.of_Z (- n)))%float
  else PrimFloat.of_uint63 (Uint63.of_Z n).

Definition float64 : Arith float :=
  {| a_add := PrimFloat.add; a_mul := PrimFloat.mul; a_div := PrimFloat.div;
     a_lit := float64_of_int; a_of_int := float64_of_int |}.

Definition exact : Arith Q :=
  {| a_add := Qplus; a_mul := Qmult; a_div := Qdiv;
     a_lit := inject_Z; a_of_int := inject_Z |}.

(** The five numbers [CalculateCost] stores. *)
Record Costs (F : Type) : Type := {
  k_Input : F;
  k_Output : F;
  k_CacheRead : F;
  k_CacheWrite : F;
  k_Total : F;
}.
Arguments k_Input {F}.
Arguments k_Output {F}.
Arguments k_CacheRead {F}.
Arguments k_CacheWrite {F}.
Arguments k_Total {F}.

(** The four token counts of a [Usage]. *)
Record Tokens : Type := {
  t_Input : Go.int;
  t_Output : Go.int;
  t_CacheRead : Go.int;
  t_CacheWrite : Go.int;
}.

Section Pricing.

Context {F : Type} (A : Arith F).

(** [(price / 1_000_000) * float64(tokens)]. *)
Definition category (price : F) (tokens : Go.int) : F :=
  a_mul A (a_div A price (a_lit A 1000000)) (a_of_int A tokens).

Definition pricing (pInput pOutput pCacheRead pCacheWrite : F) (t : Tokens)
  : Costs F :=
  let input := category pInput (t_Input t) in
  let output := category pOutput (t_Output t) in
  let cacheRead := category pCacheRead (t_CacheRead t) in
  let cacheWrite := category pCacheWrite (t_CacheWrite t) in
  {| k_Input := input; k_Output := output; k_CacheRead := cacheRead;
     k_CacheWrite := cacheWrite;
     k_Total := a_add A (a_add A (a_add A input output) cacheRead) cacheWrite |}.

End Pricing.

Definition tokens_of (usage : Usage) : Tokens :=
  {| t_Input := u_Input usage; t_Output := u_Output usage;
     t_CacheRead := u_CacheRead usage; t_CacheWrite := u_CacheWrite usage |}.

(** [CalculateCost(model, usage)]: the cost it returns and the usage it
    leaves behind ([usage.Cost] is overwritten in place). *)
Definition CalculateCost (model : Model) (usage : Usage) : Cost * Usage :=
  let k := pricing float64
             (mc_Input (model_Cost model)) (mc_Output (model_Cost model))
             (mc_CacheRead (model_Cost model)) (mc_CacheWrite (model_Cost model))
             (tokens_of usage) in
  let cost := {| cost_Input := k_Input k; cost_Output := k_Output k;
                 cost_CacheRead := k_CacheRead k;
                 cost_CacheWrite := k_CacheWrite k;
                 cost_Total := k_Total k |} in
  (cost, {| u_Input := u_Input usage; u_Output := u_Output usage;
            u_CacheRead := u_CacheRead usage; u_CacheWrite := u_CacheWrite usage;
            u_TotalTokens := u_TotalTokens usage; u_Cost := cost |}).

(** The sum of two usage records, category by category. *)
Definition tokens_add (t1 t2 : Tokens) : Tokens :=
  {| t_Input := t_Input t1 + t_Input t2;
     t_Output := t_Output t1 + t_Output t2;
     t_CacheRead := t_CacheRead t1 + t_CacheRead t2;
     t_CacheWrite := t_CacheWrite t1 + t_CacheWrite t2 |}.

(** *** The numbers behind the costs

    [CalculateCost] rounds: what its binary64 results stand for, and
    how far from each other two of them are. *)

(** The rational number a binary64 number stands for; 0 for the zeros,
    and for the infinities and NaN, which [finite] keeps apart. *)
Definition SF2Q (x : spec_float) : Q :=
  match x with
  | S754_finite s m e =>
      ((if s then -1 else 1) * (inject_Z (Zpos m) * 2 ^ e))%Q
  | _ => 0%Q
  end.

Definition valueOf (f : float) : Q := SF2Q (Prim2SF f).

Definition finite (f : float) : bool :=
  match Prim2SF f with
  | S754_zero _ | S754_finite _ _ _ => true
  | _ => false
  end.

(** The unit roundoff of binary64, [2 ^ -53]. *)
Definition roundoff : Q := 1 # 9007199254740992.

(** [x] is [y] up to the factors [lo] and [hi]. *)
Definition upTo (lo hi x y : Q) : Prop := (lo * y <= x /\ x <= hi * y)%Q.

(** [f] is [+0] or a positive normal number whose exponent, for a
    mantissa of 53 digits, lies between [lo] and [hi]. *)
Definition normalIn (lo hi : Z) (f : float) : Prop :=
  Prim2SF f = S754_zero false
  \/ exists m e,
       Prim2SF f = S754_finite false m e
       /\ (2 ^ 52 <= Zpos m < 2 ^ 53)%Z /\ (lo <= e <= hi)%Z.

(** A rate that is [+0] or a positive normal number below [2 ^ 900]. *)
Definition usableRate (f : float) : bool :=
  match Prim2SF f with
  | S754_zero false => true
  | S754_finite false m e =>
      ((2 ^ 52 <=? Zpos m) && (Zpos m <? 2 ^ 53) && (e <=? 847))%Z
  | _ => false
  end.

(** The two numbers are finite, and differ by at most [eps] times the
    first. *)
Definition agree (eps : Q) (x y : float) : Prop :=
  finite x = true /\ finite y = true
  /\ (Qabs (valueOf x - valueOf y) <= eps * valueOf x)%Q.

(** The four rates of a model, as [CalculateCost] computes them: the
    prices divided by a million, in binary64. *)
Definition rates (model : Model) : list float :=
  map (fun price => PrimFloat.div price (float64_of_int 1000000%Z))
    [mc_Input (model_Cost model); mc_Output (model_Cost model);
     mc_CacheRead (model_Cost model); mc_CacheWrite (model_Cost model)].

(** The four counts are no negative numbers, and fit an [int]. *)
Definition counts (t : Tokens) : Prop :=
  Forall (fun n => (0 <= n < 2 ^ 63)%Z)
    [t_Input t; t_Output t; t_CacheRead t; t_CacheWrite t].

(** *** validation.go *)

Section Validation.

(** [fmt]'s [%q] and [json.MarshalIndent(args, "", "  ")], both of Go's
    standard library. *)
Variable Quote : string -> string.
Variable MarshalIndent : gmap string any -> string.

(** The strings of [reqList] that are no key of [args]. *)
Definition missingRequired (reqList : list any) (args : gmap string any)
  : list string :=
  omap (fun r => match r with
                 | AString name =>
                     match args !! name with
                     | Some _ => None
                     | None => Some name
                     end
                 | _ => None
                 end) reqList.

Definition ValidateToolArguments (tool : Tool) (tc : ToolCall)
  : Map * option error :=
  let args := match tc_Arguments tc with
              | Some args => args
              | None => ∅
              end in
  match tool_Parameters tool with
  | None => (Some args, None)
  | Some schema =>
      match schema !! "required" with
      | Some (AList reqList) =>
          let missing := missingRequired reqList args in
          if (0 <? length missing)%nat then
            (None,
             Some ("validation failed for tool " +:+ Quote (tc_Name tc)
                   +:+ ":" +:+ nl +:+ "  - missing required: "
                   +:+ Join missing ", " +:+ nl +:+ nl
                   +:+ "Received arguments:" +:+ nl +:+ MarshalIndent args))
          else (Some args, None)
      | _ => (Some args, None)
      end
  end.

(** [for i := range tools { if tools[i].Name == tc.Name { tool = &tools[i];
    break } }] of [ValidateToolCall]. *)
Fixpoint lookupTool (tools : list Tool) (name : string) : option Tool :=
  match tools with
  | [] => None
  | t :: rest => if eqs (tool_Name t) name then Some t else lookupTool rest name
  end.

Definition ValidateToolCall (tools : list Tool) (tc : ToolCall)
  : Map * option error :=
  match lookupTool tools (tc_Name tc) with
  | None => (None, Some ("tool " +:+ Quote (tc_Name tc) +:+ " not found"))
  | Some tool => ValidateToolArguments tool tc
  end.

End Validation.

(** The arguments of a call as the validation reads them: a nil map is
    read as the empty one. *)
Definition argumentsOf (tc : ToolCall) : gmap string any :=
  match tc_Arguments tc with
  | Some args => args
  | None => ∅
  end.

(** The names a tool requires: the strings of the list under the key
    [required] of its schema. *)
Definition requiredNames (tool : Tool) : list string :=
  match tool_Parameters tool with
  | Some schema =>
      match schema !! "required" with
      | Some (AList reqList) =>
          omap (fun r => match r with
                         | AString name => Some name
                         | _ => None
                         end) reqList
      | _ => []
      end
  | None => []
  end.

(** *** models.go: the model registry *)

(** [modelRegistry], a [map[Provider]map[string]*Model]: by provider,
    then by model id.  The variable is private to the package and
    [RegisterModel] alone writes it, never with a nil inner map or a nil
    model; a provider that is no key and one with a nil inner map are
    the same to the functions below. *)
Definition ModelRegistry : Type := gmap string (gmap string Model).

(** [RegisterModel(m)], for [m] not nil. *)
Definition RegisterModel (m : Model) (reg : ModelRegistry) : ModelRegistry :=
  let pm := match reg !! model_Provider m with
            | Some pm => pm
            | None => ∅
            end in
  <[model_Provider m := <[model_ID m := m]> pm]> reg.

Definition GetModel (provider : Provider) (modelID : string)
  (reg : ModelRegistry) : option Model :=
  match reg !! provider with
  | Some pm => pm !! modelID
  | None => None
  end.

(** [GetProviders] and [GetModels] fill their slice in the order of a
    [range] over a map, which Go leaves open: [out] is a slice that one
    call may return. *)
Definition GetProviders (reg : ModelRegistry) (out : list Provider) : Prop :=
  Permutation out (map fst (map_to_list reg)).

Definition GetModels (provider : Provider) (reg : ModelRegistry)
  (out : option (list Model)) : Prop :=
  match reg !! provider with
  | Some pm => exists l, out = Some l /\ Permutation l (map snd (map_to_list pm))
  | None => out = None
  end.

(** A run of [RegisterModel] calls, in order. *)
Definition RegisterModels (ms : list Model) (reg : ModelRegistry)
  : ModelRegistry :=
  fold_left (fun reg m => RegisterModel m reg) ms reg.

(** Every model sits under its own provider and id, and no provider has
    an empty inner map. *)
Definition keyed (reg : ModelRegistry) : Prop :=
  forall p pm, reg !! p = Some pm ->
    pm <> ∅
    /\ forall id m, pm !! id = Some m -> model_Provider m = p /\ model_ID m = id.

Definition ApiAnthropicMessages : Api := "anthropic-messages".

(** [len(s)]: a length is far below the bounds of [int]. *)
Definition len (s : string) : Z := Z.of_nat (String.length s).

(** [s[i:j]], for [0 <= i <= j <= len(s)]. *)
Definition slice (s : string) (i j : Z) : string :=
  substring (Z.to_nat i) (Z.to_nat (j - i)) s.

(** [for i := ...; i <= len(s)-len(substr); i++ { if s[i:i+len(substr)] ==
    substr { return true } }] and the [return false] after it, from [i]
    on; each iteration takes one unit of [fuel]. *)
Fixpoint searchLoop (s substr : string) (i : Z) (fuel : nat) : bool :=
  match fuel with
  | O => false
  | S fuel' =>
      if (i <=? len s - len substr)%Z then
        if eqs (slice s i (i + len substr)) substr then true
        else searchLoop s substr (i + 1) fuel'
      else false
  end.

(** The loop runs at most [len(s) + 1] times. *)
Definition searchString (s substr : string) : bool :=
  searchLoop s substr 0 (S (String.length s)).

Definition contains (s substr : string) : bool :=
  (len substr <=? len s)%Z && searchString s substr.

(** [SupportsXHigh(model)], for [model] not nil. *)
Definition SupportsXHigh (model : Model) : bool :=
  if contains (model_ID model) "gpt-5.2" || contains (model_ID model) "gpt-5.3"
  then true
  else if eqs (model_Api model) ApiAnthropicMessages then
    contains (model_ID model) "opus-4-6" || contains (model_ID model) "opus-4.6"
  else false.

Definition ModelsAreEqual (a b : option Model) : bool :=
  match a, b with
  | Some a, Some b =>
      eqs (model_ID a) (model_ID b) && eqs (model_Provider a) (model_Provider b)
  | _, _ => false
  end.

(** [sub] occurs in [s]. *)
Definition occurs_in (sub s : string) : Prop :=
  exists pre post, s = pre +:+ sub +:+ post.

(** *** registry.go, stream.go *)

Record StreamOptions : Type := {
  so_Temperature : option float;
  so_MaxTokens : option Go.int;
  so_ApiKey : string;
  so_CacheRetention : CacheRetention;
  so_SessionID : string;
  so_Headers : option (gmap string string);
  so_MaxRetryDelayMs : option Go.int;
}.

Section Providers.

(** What the stream functions of the providers act on. *)
Variable W : Type.

(** A stream function gives the stream back as its provider leaves it:
    all events sent, or the provider waiting in the [Push] for which
    the buffer has no room ([EventStream.producer]); [None] is a nil
    stream. *)
Definition StreamFunction : Type :=
  option Model -> Context -> option StreamOptions -> W ->
  option AssistantMessageEventStream * W.

Definition StreamSimpleFunction : Type :=
  option Model -> Context -> option SimpleStreamOptions -> W ->
  option AssistantMessageEventStream * W.

Record ApiProvider : Type := {
  p_Api : Api;
  p_Stream : option StreamFunction;
  p_StreamSimple : option StreamSimpleFunction;
}.

Record registeredProvider : Type := {
  provider : ApiProvider;
  sourceID : string;
}.

(** [providerRegistry], a [map[Api]*registeredProvider] whose entries
    [RegisterApiProvider] alone writes, none of them nil. *)
Definition ProviderRegistry : Type := gmap string registeredProvider.

Definition RegisterApiProvider (p : ApiProvider) (source : string)
  (reg : ProviderRegistry) : ProviderRegistry :=
  <[p_Api p := {| provider := p; sourceID := source |}]> reg.

Definition GetApiProvider (api : Api) (reg : ProviderRegistry)
  : option ApiProvider :=
  match reg !! api with
  | Some r => Some (provider r)
  | None => None
  end.

(** [GetApiProviders]: [out] is a slice one call may return, the order of
    the [range] over the map being open. *)
Definition GetApiProviders (reg : ProviderRegistry) (out : list ApiProvider)
  : Prop :=
  Permutation out (map (fun kv => provider (snd kv)) (map_to_list reg)).

Definition UnregisterApiProviders (source : string) (reg : ProviderRegistry)
  : ProviderRegistry :=
  filter (fun kv => sourceID (snd kv) <> source) reg.

Definition ClearApiProviders (reg : ProviderRegistry) : ProviderRegistry := ∅.

Definition noProvider (api : Api) : error :=
  "no API provider registered for api: " +:+ api.

Definition Stream (model : option Model) (ctx : Context)
  (opts : option StreamOptions) (reg : ProviderRegistry) (w : W)
  : Go.outcome ((option AssistantMessageEventStream * option error) * W) :=
  match model with
  | None => Go.Panics
  | Some m =>
      match GetApiProvider (model_Api m) reg with
      | None => Go.Done ((None, Some (noProvider (model_Api m))), w)
      | Some p =>
          match p_Stream p with
          | None => Go.Panics
          | Some f => let (s, w') := f model ctx opts w in
                      Go.Done ((s, None), w')
          end
      end
  end.

Definition StreamSimple (model : option Model) (ctx : Context)
  (opts : option SimpleStreamOptions) (reg : ProviderRegistry) (w : W)
  : Go.outcome ((option AssistantMessageEventStream * option error) * W) :=
  match model with
  | None => Go.Panics
  | Some m =>
      match GetApiProvider (model_Api m) reg with
      | None => Go.Done ((None, Some (noProvider (model_Api m))), w)
      | Some p =>
          match p_StreamSimple p with
          | None => Go.Panics
          | Some f => let (s, w') := f model ctx opts w in
                      Go.Done ((s, None), w')
          end
      end
  end.

(** [s.Result()] on the stream a stream function returned. *)
Definition awaitMessage
  (r : (option AssistantMessageEventStream * option error) * W)
  : Go.outcome ((option AssistantMessage * option error) * W) :=
  match r with
  | ((_, Some err), w) => Go.Done ((None, Some err), w)
  | ((None, None), _) => Go.Panics
  | ((Some s, None), w) =>
      Go.obind (EventStream.Result s) (fun r' => Go.Done ((fst r', None), w))
  end.

Definition Complete (model : option Model) (ctx : Context)
  (opts : option StreamOptions) (reg : ProviderRegistry) (w : W)
  : Go.outcome ((option AssistantMessage * option error) * W) :=
  Go.obind (Stream model ctx opts reg w) awaitMessage.

Definition CompleteSimple (model : option Model) (ctx : Context)
  (opts : option SimpleStreamOptions) (reg : ProviderRegistry) (w : W)
  : Go.outcome ((option AssistantMessage * option error) * W) :=
  Go.obind (StreamSimple model ctx opts reg w) awaitMessage.

End Providers.

(** *** envkeys.go *)

Definition ProviderAmazonBedrock : Provider := "amazon-bedrock".
Definition ProviderAnthropic : Provider := "anthropic".
Definition ProviderGoogle : Provider := "google".
Definition ProviderGoogleVertex : Provider := "google-vertex".
Definition ProviderOpenAI : Provider := "openai".
Definition ProviderXAI : Provider := "xai".
Definition ProviderGroq : Provider := "groq".
Definition ProviderCerebras : Provider := "cerebras".
Definition ProviderOpenRouter : Provider := "openrouter".
Definition ProviderVercelAIGateway : Provider := "vercel-ai-gateway".
Definition ProviderZAI : Provider := "zai".
Definition ProviderMistral : Provider := "mistral".
Definition ProviderMinimax : Provider := "minimax".
Definition ProviderMinimaxCN : Provider := "minimax-cn".
Definition ProviderHuggingface : Provider := "huggingface".
Definition ProviderKimiCoding : Provider := "kimi-coding".

Definition providerEnvKeys : gmap string (list string) :=
  list_to_map
    [ (ProviderOpenAI, ["OPENAI_API_KEY"]);
      (ProviderAnthropic, ["ANTHROPIC_API_KEY"]);
      (ProviderGoogle, ["GOOGLE_API_KEY"; "GEMINI_API_KEY"]);
      (ProviderGoogleVertex, ["GOOGLE_API_KEY"]);
      (ProviderXAI, ["XAI_API_KEY"]);
      (ProviderGroq, ["GROQ_API_KEY"]);
      (ProviderCerebras, ["CEREBRAS_API_KEY"]);
      (ProviderOpenRouter, ["OPENROUTER_API_KEY"]);
      (ProviderMistral, ["MISTRAL_API_KEY"]);
      (ProviderMinimax, ["MINIMAX_API_KEY"]);
      (ProviderMinimaxCN, ["MINIMAX_API_KEY"]);
      (ProviderHuggingface, ["HUGGINGFACE_API_KEY"; "HF_TOKEN"]);
      (ProviderAmazonBedrock, ["AWS_BEARER_TOKEN_BEDROCK"]);
      (ProviderVercelAIGateway, ["VERCEL_API_KEY"]);
      (ProviderZAI, ["ZAI_API_KEY"]);
      (ProviderKimiCoding, ["KIMI_API_KEY"]) ].

Section Env.

(** [os.Getenv]: the value of a variable, empty when it is not set. *)
Variable Getenv : string -> string.

(** [for _, k := range keys { if v := os.Getenv(k); v != "" { return v } }]
    and the [return ""] after it. *)
Fixpoint firstSet (keys : list string) : string :=
  match keys with
  | [] => ""
  | k :: rest => if eqs (Getenv k) "" then firstSet rest else Getenv k
  end.

Definition GetEnvApiKey (provider : Provider) : string :=
  match providerEnvKeys !! provider with
  | Some keys => firstSet keys
  | None => ""
  end.

End Env.

End ai.

(** ** pkg/agent/types.go *)

Module agent.

Import ai.
Local Open Scope string_scope.
Local Open Scope list_scope.

(** [AgentMessage]: the embedded [ai.Message] and the [Custom] payload,
    where [ANil] is the nil interface. *)
Record AgentMessage : Type := {
  Message : ai.Message;
  Custom : any;
}.

Definition NewAgentMessageFromMessage (m : ai.Message) : AgentMessage :=
  {| Message := m; Custom := ANil |}.

Definition is_nil (v : any) : bool :=
  match v with
  | ANil => true
  | _ => false
  end.

Definition IsLLMMessage (m : AgentMessage) : bool :=
  is_nil (Custom m) && negb (eqs (Role (Message m)) "").

Record AgentToolResult : Type := {
  Content : list ai.Content;
  Details : any;
}.

Definition AgentEventType := string.
Definition AgentEventStart : AgentEventType := "agent_start".
Definition AgentEventEnd : AgentEventType := "agent_end".
Definition TurnEventStart : AgentEventType := "turn_start".
Definition TurnEventEnd : AgentEventType := "turn_end".
Definition MessageEventStart : AgentEventType := "message_start".
Definition MessageEventUpdate : AgentEventType := "message_update".
Definition MessageEventEnd : AgentEventType := "message_end".
Definition ToolExecutionEventStart : AgentEventType := "tool_execution_start".
Definition ToolExecutionEventUpdate : AgentEventType := "tool_execution_update".
Definition ToolExecutionEventEnd : AgentEventType := "tool_execution_end".

(** In [AgentEvent] the [any] fields [Args], [PartialResult] and [Result]
    hold what the loop stores there: a tool call's arguments and tool
    results. *)
Record AgentEvent : Type := {
  Type_ : AgentEventType;
  Messages_ : list AgentMessage;
  Message_ : option AgentMessage;
  AssistantMessageEvent_ : option AssistantMessageEvent;
  ToolResults : list ToolResultMessage;
  ToolCallID : string;
  ToolName : string;
  Args : Map;
  PartialResult : option AgentToolResult;
  Result : option AgentToolResult;
  IsError : bool;
}.

(** [AgentEvent{Type: ty}]. *)
Definition event (ty : AgentEventType) : AgentEvent :=
  {| Type_ := ty; Messages_ := []; Message_ := None;
     AssistantMessageEvent_ := None; ToolResults := []; ToolCallID := "";
     ToolName := ""; Args := None; PartialResult := None; Result := None;
     IsError := false |}.

(** [AgentEvent{Type: ty, Message: &m}]. *)
Definition messageEvent (ty : AgentEventType) (m : AgentMessage) : AgentEvent :=
  {| Type_ := ty; Messages_ := []; Message_ := Some m;
     AssistantMessageEvent_ := None; ToolResults := []; ToolCallID := "";
     ToolName := ""; Args := None; PartialResult := None; Result := None;
     IsError := false |}.

(** [AgentEvent{Type: MessageEventUpdate, AssistantMessageEvent: &e,
    Message: &m}]. *)
Definition updateEvent (e : AssistantMessageEvent) (m : AgentMessage)
  : AgentEvent :=
  {| Type_ := MessageEventUpdate; Messages_ := []; Message_ := Some m;
     AssistantMessageEvent_ := Some e; ToolResults := []; ToolCallID := "";
     ToolName := ""; Args := None; PartialResult := None; Result := None;
     IsError := false |}.

(** [AgentEvent{Type: TurnEventEnd, Message: &m, ToolResults: rs}]. *)
Definition turnEndEvent (m : AgentMessage) (rs : list ToolResultMessage)
  : AgentEvent :=
  {| Type_ := TurnEventEnd; Messages_ := []; Message_ := Some m;
     AssistantMessageEvent_ := None; ToolResults := rs; ToolCallID := "";
     ToolName := ""; Args := None; PartialResult := None; Result := None;
     IsError := false |}.

(** [AgentEvent{Type: AgentEventEnd, Messages: ms}]. *)
Definition agentEndEvent (ms : list AgentMessage) : AgentEvent :=
  {| Type_ := AgentEventEnd; Messages_ := ms; Message_ := None;
     AssistantMessageEvent_ := None; ToolResults := []; ToolCallID := "";
     ToolName := ""; Args := None; PartialResult := None; Result := None;
     IsError := false |}.

Definition toolStartEvent (tc : ToolCall) : AgentEvent :=
  {| Type_ := ToolExecutionEventStart; Messages_ := []; Message_ := None;
     AssistantMessageEvent_ := None; ToolResults := [];
     ToolCallID := tc_ID tc; ToolName := tc_Name tc;
     Args := tc_Arguments tc; PartialResult := None; Result := None;
     IsError := false |}.

Definition toolUpdateEvent (tc : ToolCall) (partial : AgentToolResult)
  : AgentEvent :=
  {| Type_ := ToolExecutionEventUpdate; Messages_ := []; Message_ := None;
     AssistantMessageEvent_ := None; ToolResults := [];
     ToolCallID := tc_ID tc; ToolName := tc_Name tc;
     Args := tc_Arguments tc; PartialResult := Some partial; Result := None;
     IsError := false |}.

Definition toolEndEvent (tc : ToolCall) (result : AgentToolResult)
  (isError : bool) : AgentEvent :=
  {| Type_ := ToolExecutionEventEnd; Messages_ := []; Message_ := None;
     AssistantMessageEvent_ := None; ToolResults := [];
     ToolCallID := tc_ID tc; ToolName := tc_Name tc;
     Args := None; PartialResult := None; Result := Some result;
     IsError := isError |}.

(** The two closures of [NewAgentEventStream]. *)
Definition agentIsComplete (e : AgentEvent) : bool := eqs (Type_ e) AgentEventEnd.
Definition agentExtractResult (e : AgentEvent) : list AgentMessage := Messages_ e.

(** What the producer does to an [AgentEventStream]. *)
Inductive StreamOp : Type :=
| OpPush (e : AgentEvent)
| OpEnd (result : list AgentMessage).

(** The [tool_execution_start] and [tool_execution_end] events among a
    sequence of stream operations, each with its tool call id. *)
Definition toolBrackets (ops : list StreamOp)
  : list (AgentEventType * string) :=
  omap (fun o => match o with
                 | OpPush e =>
                     if eqs (Type_ e) ToolExecutionEventStart
                        || eqs (Type_ e) ToolExecutionEventEnd
                     then Some (Type_ e, ToolCallID e) else None
                 | OpEnd _ => None
                 end) ops.

(** The start and end pair of each of [calls], in order. *)
Definition bracketsOf (calls : list ToolCall)
  : list (AgentEventType * string) :=
  flat_map (fun tc => [(ToolExecutionEventStart, tc_ID tc);
                       (ToolExecutionEventEnd, tc_ID tc)]) calls.

(** The messages finalised by [message_end] events, in event order. *)
Definition finalised (ops : list StreamOp) : list AgentMessage :=
  omap (fun o => match o with
                 | OpPush e =>
                     if eqs (Type_ e) MessageEventEnd then Message_ e else None
                 | OpEnd _ => None
                 end) ops.

(** The message lists carried by [agent_end] events. *)
Definition agentEnds (ops : list StreamOp) : list (list AgentMessage) :=
  omap (fun o => match o with
                 | OpPush e =>
                     if eqs (Type_ e) AgentEventEnd then Some (Messages_ e)
                     else None
                 | OpEnd _ => None
                 end) ops.

(** [ops] finalises the messages [ms] and pushes no [agent_end]. *)
Definition writes (ops : list StreamOp) (ms : list AgentMessage) : Prop :=
  finalised ops = ms /\ agentEnds ops = [].

(** The agent message of a tool result. *)
Definition toMessage (r : ToolResultMessage) : AgentMessage :=
  NewAgentMessageFromMessage (toolResultMsg r).

(** The events pushed by a sequence of stream operations. *)
Definition pushed (ops : list StreamOp) : list AgentEvent :=
  omap (fun o => match o with
                 | OpPush e => Some e
                 | OpEnd _ => None
                 end) ops.

(** ** pkg/agent/agent.go: DefaultConvertToLLM *)

Definition DefaultConvertToLLM (messages : list AgentMessage)
  : list ai.Message * option error :=
  (omap (fun m =>
           let r := Role (Message m) in
           if eqs r RoleUser || eqs r RoleAssistant || eqs r RoleToolResult
           then Some (Message m) else None) messages,
   None).

(** ** The lifecycle of a run, as its stream operations show it *)

(** The operations that mark the lifecycle of a run. *)
Inductive mark : Type :=
| MAgentStart
| MTurnStart
| MTurnEnd
| MAgentEnd
| MEnd.

Definition markOf (o : StreamOp) : option mark :=
  match o with
  | OpEnd _ => Some MEnd
  | OpPush e =>
      if eqs (Type_ e) AgentEventStart then Some MAgentStart
      else if eqs (Type_ e) TurnEventStart then Some MTurnStart
      else if eqs (Type_ e) TurnEventEnd then Some MTurnEnd
      else if eqs (Type_ e) AgentEventEnd then Some MAgentEnd
      else None
  end.

Definition outline (ops : list StreamOp) : list mark := omap markOf ops.

(** Where a run is in its lifecycle. *)
Inductive phase : Type :=
| Fresh
| Started
| InTurn
| BetweenTurns
| Reported
| Finished.

Definition advance (p : phase) (m : mark) : option phase :=
  match p, m with
  | Fresh, MAgentStart => Some Started
  | Started, MTurnStart => Some InTurn
  | BetweenTurns, MTurnStart => Some InTurn
  | InTurn, MTurnEnd => Some BetweenTurns
  | BetweenTurns, MAgentEnd => Some Reported
  | Reported, MEnd => Some Finished
  | _, _ => None
  end.

Fixpoint follow (p : phase) (marks : list mark) : option phase :=
  match marks with
  | [] => Some p
  | m :: rest =>
      match advance p m with
      | Some p' => follow p' rest
      | None => None
      end
  end.

(** The phase in which an iteration of the inner loop starts. *)
Definition phaseOf (firstTurn : bool) : phase :=
  if firstTurn then InTurn else BetweenTurns.

(** ** pkg/agent/loop.go *)

(** Why a run of the loop does not come to its end. *)
Inductive failure : Type :=
| OutOfFuel
| Panic
| Deadlock.

Inductive run (A : Type) : Type :=
| Ok (a : A)
| Fail (why : failure).
Arguments Ok {A} a.
Arguments Fail {A} why.

Section Loop.

(** Everything outside the loop that its callbacks read or change: the
    clock, the queues behind the steering and follow-up providers, the
    provider behind the stream function, the state the tools work on, the
    cancellation context. *)
Variable W : Type.

(** [time.Now().UnixMilli()]. *)
Variable now : W -> Z * W.

Variable Quote : string -> string.
Variable MarshalIndent : gmap string any -> string.

(** The loop's goroutine: a computation on the world that performs
    operations on the agent event stream. *)
Definition M (A : Type) : Type := W -> run (A * list StreamOp * W).

Definition ret {A} (a : A) : M A := fun w => Ok (a, [], w).

Definition bind {A B} (m : M A) (f : A -> M B) : M B :=
  fun w =>
    match m w with
    | Ok (a, t1, w1) =>
        match f a w1 with
        | Ok (b, t2, w2) => Ok (b, t1 ++ t2, w2)
        | Fail why => Fail why
        end
    | Fail why => Fail why
    end.

Definition fail {A} (why : failure) : M A := fun _ => Fail why.

(** A call of a callback, which returns. *)
Definition call {A} (f : W -> A * W) : M A :=
  fun w => let (a, w') := f w in Ok (a, [], w').

(** [stream.Push(e)] and [stream.End(result)], as calls the goroutine
    makes and returns from.  A computation of [M] is a run of the loop
    against a consumer that takes every event off the stream, as the
    [range] loop of [Agent.runLoop] does, so that every [Push] returns;
    the list of operations is what the run asks of the stream, in
    order.  What a [Push] does to a stream whose buffer is full or whose
    channel is closed is told by [EventStream.Push], not here: [Ok]
    means that the goroutine returns provided that its consumer keeps
    receiving and that its callbacks return, and says nothing of a run
    without such a consumer. *)
Definition push (e : AgentEvent) : M unit := fun w => Ok (tt, [OpPush e], w).
Definition end_ (result : list AgentMessage) : M unit :=
  fun w => Ok (tt, [OpEnd result], w).

Notation "x <- m ;; k" := (bind m (fun x => k))
  (at level 100, m at next level, right associativity).
Notation "m ;;; k" := (bind m (fun _ => k))
  (at level 100, right associativity).

Fixpoint mapM {A B} (f : A -> M B) (l : list A) : M (list B) :=
  match l with
  | [] => ret []
  | a :: l' => b <- f a ;; bs <- mapM f l' ;; ret (b :: bs)
  end.

Fixpoint forM_ {A} (f : A -> M unit) (l : list A) : M unit :=
  match l with
  | [] => ret tt
  | a :: l' => f a ;;; forM_ f l'
  end.

(** [AgentTool]: the embedded [ai.Tool], the label and [Execute], which
    returns its result and error after calling [onUpdate] on each of
    the partial results listed first. *)
Record AgentTool : Type := {
  Tool : ai.Tool;
  Label : string;
  Execute : option (string -> Map -> W ->
                    (list AgentToolResult * AgentToolResult * option error) * W);
}.

Record AgentContext : Type := {
  SystemPrompt : string;
  Messages : list AgentMessage;
  Tools : list AgentTool;
}.

Definition with_Messages (c : AgentContext) (ms : list AgentMessage) :=
  {| SystemPrompt := SystemPrompt c; Messages := ms; Tools := Tools c |}.

Record AgentLoopConfig : Type := {
  Options : SimpleStreamOptions;
  Model_ : option ai.Model;
  ConvertToLLM :
    option (list AgentMessage -> W -> (list ai.Message * option error) * W);
  TransformContext :
    option (list AgentMessage -> W -> (list AgentMessage * option error) * W);
  GetApiKey : option (string -> W -> (string * option error) * W);
  GetSteeringMessages : option (W -> (list AgentMessage * option error) * W);
  GetFollowUpMessages : option (W -> (list AgentMessage * option error) * W);
}.

(** [StreamFn]: the stream it returns is given as the provider leaves it,
    all its events sent; [None] is a nil stream. *)
Definition StreamFn : Type :=
  option ai.Model -> ai.Context -> SimpleStreamOptions -> W ->
  option AssistantMessageEventStream * W.

Definition toolCallsOf (content : list ai.Content) : list ToolCall :=
  omap c_ToolCall content.

Fixpoint findTool (tools : list AgentTool) (name : string) : option AgentTool :=
  match tools with
  | [] => None
  | t :: rest =>
      if eqs (tool_Name (Tool t)) name then Some t else findTool rest name
  end.

Definition textResult (text : string) : AgentToolResult :=
  {| Content := [NewTextContent text]; Details := ANil |}.

Definition skipText : string := "Skipped due to queued user message.".

(** What a skipped call leaves behind. *)
Definition skippedResult (tc : ToolCall) (r : ToolResultMessage) : Prop :=
  tr_ToolCallID r = tc_ID tc /\ tr_ToolName r = tc_Name tc
  /\ tr_IsError r = true /\ tr_Content r = [NewTextContent skipText].

(** The middle of the loop body of [executeToolCalls]: from the lookup of
    the tool to [result] and [isError]. *)
Definition invoke (tools : list AgentTool) (tc : ToolCall)
  : M (AgentToolResult * bool) :=
  match findTool tools (tc_Name tc) with
  | None => ret (textResult ("Tool " +:+ tc_Name tc +:+ " not found"), true)
  | Some tool =>
      match ValidateToolArguments Quote MarshalIndent (Tool tool) tc with
      | (_, Some err) => ret (textResult err, true)
      | (args, None) =>
          match Execute tool with
          | None => fail Panic
          | Some execute =>
              r1 <- call (execute (tc_ID tc) args) ;;
              let '(updates, execResult, err) := r1 in
              forM_ (fun partial => push (toolUpdateEvent tc partial)) updates ;;;
              match err with
              | Some e => ret (textResult e, true)
              | None => ret (execResult, false)
              end
          end
      end
  end.

(** The steering check after a tool call: the messages that interrupt
    the batch, none when the provider is absent, fails or has nothing. *)
Definition pollSteering
  (getSteeringMessages : option (W -> (list AgentMessage * option error) * W))
  : M (list AgentMessage) :=
  match getSteeringMessages with
  | None => ret []
  | Some g =>
      r2 <- call g ;;
      let '(steering, err) := r2 in
      match err with
      | None => ret steering
      | Some _ => ret []
      end
  end.

(** The loop body of [executeToolCalls] before its steering check: the
    start event, the tool, the end event, the tool result message and
    its two message events. *)
Definition perform (tools : list AgentTool) (tc : ToolCall)
  : M ToolResultMessage :=
  push (toolStartEvent tc) ;;;
  r3 <- invoke tools tc ;;
  let '(result, isError) := r3 in
  push (toolEndEvent tc result isError) ;;;
  ts <- call now ;;
  let trMsg := {| tr_Role := RoleToolResult; tr_ToolCallID := tc_ID tc;
                  tr_ToolName := tc_Name tc; tr_Content := Content result;
                  tr_Details := Details result; tr_IsError := isError;
                  tr_Timestamp := ts |} in
  let am := NewAgentMessageFromMessage (toolResultMsg trMsg) in
  push (messageEvent MessageEventStart am) ;;;
  push (messageEvent MessageEventEnd am) ;;;
  ret trMsg.

(** One iteration of the loop of [executeToolCalls], up to and with the
    steering check: the tool result and the interrupting steering
    messages. *)
Definition iteration (tools : list AgentTool)
  (getSteeringMessages : option (W -> (list AgentMessage * option error) * W))
  (tc : ToolCall) : M (ToolResultMessage * list AgentMessage) :=
  trMsg <- perform tools tc ;;
  steering <- pollSteering getSteeringMessages ;;
  ret (trMsg, steering).

Definition skipToolCall (tc : ToolCall) : M ToolResultMessage :=
  let result := textResult skipText in
  push (toolStartEvent tc) ;;;
  push (toolEndEvent tc result true) ;;;
  ts <- call now ;;
  let trMsg := {| tr_Role := RoleToolResult; tr_ToolCallID := tc_ID tc;
                  tr_ToolName := tc_Name tc; tr_Content := Content result;
                  tr_Details := ANil; tr_IsError := true;
                  tr_Timestamp := ts |} in
  let am := NewAgentMessageFromMessage (toolResultMsg trMsg) in
  push (messageEvent MessageEventStart am) ;;;
  push (messageEvent MessageEventEnd am) ;;;
  ret trMsg.

(** [for i, tc := range toolCalls], with [results] so far. *)
Fixpoint executeLoop (tools : list AgentTool)
  (getSteeringMessages : option (W -> (list AgentMessage * option error) * W))
  (toolCalls : list ToolCall) (results : list ToolResultMessage)
  : M (list ToolResultMessage * list AgentMessage) :=
  match toolCalls with
  | [] => ret (results, [])
  | tc :: rest =>
      r4 <- iteration tools getSteeringMessages tc ;;
      let '(trMsg, steering) := r4 in
      let results := results ++ [trMsg] in
      if (0 <? length steering)%nat then
        skipped <- mapM skipToolCall rest ;;
        ret (results ++ skipped, steering)
      else executeLoop tools getSteeringMessages rest results
  end.

Definition executeToolCalls (tools : list AgentTool)
  (assistantMsg : AssistantMessage)
  (getSteeringMessages : option (W -> (list AgentMessage * option error) * W))
  : M (list ToolResultMessage * list AgentMessage) :=
  executeLoop tools getSteeringMessages
    (toolCallsOf (am_Content assistantMsg)) [].

(** [cloneAssistant]: a copy of the message with a fresh content slice. *)
Definition cloneAssistant (m : option AssistantMessage)
  : option AssistantMessage :=
  match m with
  | None => None
  | Some m =>
      Some {| am_Role := am_Role m; am_Content := am_Content m;
              am_Api := am_Api m; am_Provider := am_Provider m;
              am_Model := am_Model m; am_Usage := am_Usage m;
              am_StopReason := am_StopReason m;
              am_ErrorMessage := am_ErrorMessage m;
              am_Timestamp := am_Timestamp m |}
  end.

Definition makeErrorAssistantMessage (model : option ai.Model) (errMsg : string)
  : M AssistantMessage :=
  match model with
  | None => fail Panic
  | Some model =>
      ts <- call now ;;
      ret {| am_Role := RoleAssistant; am_Content := [NewTextContent ""];
             am_Api := model_Api model; am_Provider := model_Provider model;
             am_Model := model_ID model; am_Usage := zeroUsage;
             am_StopReason := StopReasonError; am_ErrorMessage := errMsg;
             am_Timestamp := ts |}
  end.

(** [agentCtx.Messages = append(agentCtx.Messages, m)]. *)
Definition appendMessage (c : AgentContext) (m : AgentMessage) : AgentContext :=
  with_Messages c (Messages c ++ [m]).

(** [agentCtx.Messages[len(agentCtx.Messages)-1] = m]: an index out of
    range panics. *)
Definition setLastMessage (c : AgentContext) (m : AgentMessage)
  : M AgentContext :=
  match Messages c with
  | [] => fail Panic
  | _ :: _ => ret (with_Messages c (<[(length (Messages c) - 1)%nat := m]> (Messages c)))
  end.

(** [response.Result()]. *)
Definition awaitResult (response : AssistantMessageEventStream)
  : M (option AssistantMessage) :=
  match EventStream.Result response with
  | Go.Done (r, _) => ret r
  | Go.Blocks => fail Deadlock
  | Go.Panics => fail Panic
  end.

Definition isDelta (ty : AssistantMessageEventType) : bool :=
  eqs ty EventTextStart || eqs ty EventTextDelta || eqs ty EventTextEnd
  || eqs ty EventThinkingStart || eqs ty EventThinkingDelta
  || eqs ty EventThinkingEnd || eqs ty EventToolCallStart
  || eqs ty EventToolCallDelta || eqs ty EventToolCallEnd.

(** [for event := range response.Events() { switch event.Type ... }] and
    the [return] after it, on the [events] still in the channel. *)
Fixpoint rangeEvents (events : list AssistantMessageEvent)
  (response : AssistantMessageEventStream) (agentCtx : AgentContext)
  (partialMessage : option AssistantMessage) (addedPartial : bool)
  : M (AgentContext * option AssistantMessage * option error) :=
  match events with
  | [] =>
      if EventStream.ch_closed response then
        final <- awaitResult response ;;
        ret (agentCtx, final, None)
      else fail Deadlock
  | event :: rest =>
      if eqs (ev_Type event) EventStart then
        let partialMessage := ev_Partial event in
        let agentCtx :=
          appendMessage agentCtx
            (NewAgentMessageFromMessage (assistantMsg partialMessage)) in
        push (messageEvent MessageEventStart
                (NewAgentMessageFromMessage
                   (assistantMsg (cloneAssistant partialMessage)))) ;;;
        rangeEvents rest response agentCtx partialMessage true
      else if isDelta (ev_Type event) then
        match partialMessage with
        | Some _ =>
            let partialMessage := ev_Partial event in
            agentCtx <- (if addedPartial then
                           setLastMessage agentCtx
                             (NewAgentMessageFromMessage
                                (assistantMsg partialMessage))
                         else ret agentCtx) ;;
            push (updateEvent event
                    (NewAgentMessageFromMessage
                       (assistantMsg (cloneAssistant partialMessage)))) ;;;
            rangeEvents rest response agentCtx partialMessage addedPartial
        | None => rangeEvents rest response agentCtx partialMessage addedPartial
        end
      else if eqs (ev_Type event) EventDone || eqs (ev_Type event) EventError then
        finalMessage <- awaitResult response ;;
        agentCtx <- (if addedPartial then
                       setLastMessage agentCtx
                         (NewAgentMessageFromMessage (assistantMsg finalMessage))
                     else
                       ret (appendMessage agentCtx
                              (NewAgentMessageFromMessage
                                 (assistantMsg finalMessage)))) ;;
        (if addedPartial then ret tt
         else push (messageEvent MessageEventStart
                      (NewAgentMessageFromMessage
                         (assistantMsg (cloneAssistant finalMessage))))) ;;;
        push (messageEvent MessageEventEnd
                (NewAgentMessageFromMessage (assistantMsg finalMessage))) ;;;
        ret (agentCtx, finalMessage, None)
      else rangeEvents rest response agentCtx partialMessage addedPartial
  end.

(** [streamAssistantResponse]: the context as it leaves it, the message
    and the error. *)
Definition streamAssistantResponse (agentCtx : AgentContext)
  (config : AgentLoopConfig) (streamFn : option StreamFn)
  : M (AgentContext * option AssistantMessage * option error) :=
  let messages := Messages agentCtx in
  r1 <- match TransformContext config with
        | Some transform => call (transform messages)
        | None => ret (messages, None)
        end ;;
  let '(messages, terr) := r1 in
  match terr with
  | Some err => ret (agentCtx, None, Some ("transformContext: " +:+ err))
  | None =>
  r2 <- match ConvertToLLM config with
        | Some convert => call (convert messages)
        | None => fail Panic
        end ;;
  let '(llmMessages, cerr) := r2 in
  match cerr with
  | Some err => ret (agentCtx, None, Some ("convertToLLM: " +:+ err))
  | None =>
  let llmCtx := {| ctx_SystemPrompt := SystemPrompt agentCtx;
                   ctx_Messages := llmMessages;
                   ctx_Tools := map Tool (Tools agentCtx) |} in
  match streamFn with
  | None => ret (agentCtx, None, Some "no stream function provided")
  | Some sf =>
  opts <- match GetApiKey config with
          | Some getApiKey =>
              match Model_ config with
              | None => fail Panic
              | Some model =>
                  r3 <- call (getApiKey (model_Provider model)) ;;
                  let '(key, err) := r3 in
                  match err with
                  | None => if eqs key "" then ret (Options config)
                            else ret (with_ApiKey key (Options config))
                  | Some _ => ret (Options config)
                  end
              end
          | None => ret (Options config)
          end ;;
  response <- call (sf (Model_ config) llmCtx opts) ;;
  match response with
  | None => fail Panic
  | Some response =>
      rangeEvents (EventStream.ch response) response agentCtx None false
  end
  end
  end
  end.

(** How the inner loop of [runLoop] is left: by one of its [return]s, or
    by its condition, with the variables that live on. *)
Inductive innerExit : Type :=
| Returned
| FellOut (currentCtx : AgentContext) (newMessages : list AgentMessage)
          (firstTurn : bool).

(** The ledger along the inner loop: what the [agent_end] of a run that
    returns carries, and what a run that falls out has collected. *)
Definition ledger_kept (newMessages : list AgentMessage) (ops : list StreamOp)
  (exit : innerExit) : Prop :=
  match exit with
  | Returned => agentEnds ops = [newMessages ++ finalised ops]
  | FellOut _ newMessages' _ =>
      newMessages' = newMessages ++ finalised ops /\ agentEnds ops = []
  end.

(** [for _, msg := range pendingMessages { ... }]. *)
Fixpoint drainPending (pendingMessages : list AgentMessage)
  (currentCtx : AgentContext) (newMessages : list AgentMessage)
  : M (AgentContext * list AgentMessage) :=
  match pendingMessages with
  | [] => ret (currentCtx, newMessages)
  | m :: rest =>
      push (messageEvent MessageEventStart m) ;;;
      push (messageEvent MessageEventEnd m) ;;;
      drainPending rest (appendMessage currentCtx m) (newMessages ++ [m])
  end.

(** [for _, r := range toolResults { ... }]. *)
Definition appendToolResults (toolResults : list ToolResultMessage)
  (currentCtx : AgentContext) (newMessages : list AgentMessage)
  : AgentContext * list AgentMessage :=
  let trMsgs := map (fun r => NewAgentMessageFromMessage (toolResultMsg r))
                    toolResults in
  (with_Messages currentCtx (Messages currentCtx ++ trMsgs),
   newMessages ++ trMsgs).

(** The inner loop of [runLoop]; each iteration takes one unit of [fuel]. *)
Fixpoint innerLoop (config : AgentLoopConfig) (streamFn : option StreamFn)
  (fuel : nat) (currentCtx : AgentContext) (newMessages : list AgentMessage)
  (firstTurn hasMoreToolCalls : bool)
  (pendingMessages steeringAfterTools : list AgentMessage) : M innerExit :=
  if negb (hasMoreToolCalls || (0 <? length pendingMessages)%nat) then
    ret (FellOut currentCtx newMessages firstTurn)
  else
  match fuel with
  | O => fail OutOfFuel
  | S fuel =>
      (if negb firstTurn then push (event TurnEventStart) else ret tt) ;;;
      let firstTurn := false in
      r1 <- drainPending pendingMessages currentCtx newMessages ;;
      let '(currentCtx, newMessages) := r1 in
      r2 <- streamAssistantResponse currentCtx config streamFn ;;
      let '(currentCtx, message, err) := r2 in
      match err with
      | Some err =>
          errMsg <- makeErrorAssistantMessage (Model_ config) err ;;
          let am := NewAgentMessageFromMessage (assistantMsg (Some errMsg)) in
          let newMessages := newMessages ++ [am] in
          push (turnEndEvent am []) ;;;
          push (agentEndEvent newMessages) ;;;
          end_ newMessages ;;;
          ret Returned
      | None =>
          let am := NewAgentMessageFromMessage (assistantMsg message) in
          let newMessages := newMessages ++ [am] in
          match message with
          | None => fail Panic
          | Some message =>
              if eqs (am_StopReason message) StopReasonError
                 || eqs (am_StopReason message) StopReasonAborted then
                push (turnEndEvent am []) ;;;
                push (agentEndEvent newMessages) ;;;
                end_ newMessages ;;;
                ret Returned
              else
                let toolCalls := toolCallsOf (am_Content message) in
                let hasMoreToolCalls := (0 <? length toolCalls)%nat in
                r3 <- (if hasMoreToolCalls then
                         r <- executeToolCalls (Tools currentCtx) message
                                (GetSteeringMessages config) ;;
                         let '(results, steering) := r in
                         let '(currentCtx, newMessages) :=
                           appendToolResults results currentCtx newMessages in
                         ret (results, steering, currentCtx, newMessages)
                       else
                         ret ([], steeringAfterTools, currentCtx, newMessages)) ;;
                let '(toolResults, steeringAfterTools, currentCtx, newMessages) :=
                  r3 in
                push (turnEndEvent am toolResults) ;;;
                pendingMessages <-
                  (if (0 <? length steeringAfterTools)%nat then
                     ret steeringAfterTools
                   else
                     match GetSteeringMessages config with
                     | Some g =>
                         r <- call g ;;
                         let '(msgs, err) := r in
                         match err with
                         | None => ret msgs
                         | Some _ => ret []
                         end
                     | None => ret []
                     end) ;;
                innerLoop config streamFn fuel currentCtx newMessages firstTurn
                  hasMoreToolCalls pendingMessages []
          end
      end
  end.

(** The outer loop of [runLoop] and the two statements after it. *)
Fixpoint outerLoop (config : AgentLoopConfig) (streamFn : option StreamFn)
  (fuel : nat) (currentCtx : AgentContext) (newMessages : list AgentMessage)
  (firstTurn : bool) (pendingMessages : list AgentMessage) : M unit :=
  match fuel with
  | O => fail OutOfFuel
  | S fuel =>
      exit <- innerLoop config streamFn fuel currentCtx newMessages firstTurn
                true pendingMessages [] ;;
      match exit with
      | Returned => ret tt
      | FellOut currentCtx newMessages firstTurn =>
          followUp <-
            match GetFollowUpMessages config with
            | Some g =>
                r <- call g ;;
                let '(followUp, err) := r in
                match err with
                | None => ret followUp
                | Some _ => ret []
                end
            | None => ret []
            end ;;
          if (0 <? length followUp)%nat then
            outerLoop config streamFn fuel currentCtx newMessages firstTurn
              followUp
          else
            push (agentEndEvent newMessages) ;;;
            end_ newMessages
      end
  end.

Definition runLoop (fuel : nat) (currentCtx : AgentContext)
  (newMessages : list AgentMessage) (config : AgentLoopConfig)
  (streamFn : option StreamFn) : M unit :=
  pendingMessages <-
    match GetSteeringMessages config with
    | Some g =>
        r <- call g ;;
        let '(msgs, err) := r in
        match err with
        | None => ret msgs
        | Some _ => ret []
        end
    | None => ret []
    end ;;
  outerLoop config streamFn fuel currentCtx newMessages true pendingMessages.

(** [AgentLoop]: the body of the goroutine that feeds the stream it
    returns. *)
Definition AgentLoop (fuel : nat) (prompts : list AgentMessage)
  (agentCtx : AgentContext) (config : AgentLoopConfig)
  (streamFn : option StreamFn) : M unit :=
  let newMessages := prompts in
  let currentCtx := {| SystemPrompt := SystemPrompt agentCtx;
                       Messages := Messages agentCtx ++ prompts;
                       Tools := Tools agentCtx |} in
  push (event AgentEventStart) ;;;
  push (event TurnEventStart) ;;;
  forM_ (fun pm => push (messageEvent MessageEventStart pm) ;;;
                   push (messageEvent MessageEventEnd pm)) prompts ;;;
  runLoop fuel currentCtx newMessages config streamFn.

(** [AgentLoopContinue]: the stream, given by the body of the goroutine
    that feeds it, and the error. *)
Definition AgentLoopContinue (fuel : nat) (agentCtx : AgentContext)
  (config : AgentLoopConfig) (streamFn : option StreamFn)
  : option (M unit) * option error :=
  match last (Messages agentCtx) with
  | None => (None, Some "cannot continue: no messages in context")
  | Some lastMsg =>
      if eqs (Role (Message lastMsg)) RoleAssistant then
        (None, Some "cannot continue from message role: assistant")
      else
        let newMessages := [] in
        let currentCtx := {| SystemPrompt := SystemPrompt agentCtx;
                             Messages := Messages agentCtx;
                             Tools := Tools agentCtx |} in
        (Some (push (event AgentEventStart) ;;;
               push (event TurnEventStart) ;;;
               runLoop fuel currentCtx newMessages config streamFn),
         None)
  end.

(** The runs the message ledger is about. *)

(** Neither the context transform nor the converter of [config] ever
    returns an error. *)
Definition conversions_succeed (config : AgentLoopConfig) : Prop :=
  match TransformContext config with
  | Some transform => forall ms w, snd (fst (transform ms w)) = None
  | None => True
  end
  /\ match ConvertToLLM config with
     | Some convert => forall ms w, snd (fst (convert ms w)) = None
     | None => True
     end.

(** There is a stream function, and every stream it returns carries a
    [done] or [error] event. *)
Definition streams_deliver_terminal (streamFn : option StreamFn) : Prop :=
  exists sf,
    streamFn = Some sf
    /\ forall model llmCtx opts w response,
         fst (sf model llmCtx opts w) = Some response ->
         Exists (fun e => assistantIsComplete e = true)
                (EventStream.ch response).

End Loop.

(** The runs of a batch of tool calls, told by what the tools, the clock
    and the steering provider do. *)
Section Outcomes.

Variable W : Type.
Variable now : W -> Z * W.
Variable Quote : string -> string.
Variable MarshalIndent : gmap string any -> string.

(** What the tool that a call names makes of the call in the world [w]:
    the result, whether it is an error, and the world the tool leaves.
    A call of an unknown tool or with arguments the schema of the tool
    refuses runs no tool; otherwise the outcome is the one of [Execute]
    on the call's id and the validated arguments. *)
Inductive toolOutcome (tools : list (AgentTool W)) (tc : ToolCall) (w : W)
  : AgentToolResult -> bool -> W -> Prop :=
| NoSuchTool :
    findTool W tools (tc_Name tc) = None ->
    toolOutcome tools tc w
      (textResult ("Tool " +:+ tc_Name tc +:+ " not found")) true w
| ArgumentsRefused tool args err :
    findTool W tools (tc_Name tc) = Some tool ->
    ValidateToolArguments Quote MarshalIndent (Tool W tool) tc
    = (args, Some err) ->
    toolOutcome tools tc w (textResult err) true w
| ExecuteFailed tool args execute updates execResult err w' :
    findTool W tools (tc_Name tc) = Some tool ->
    ValidateToolArguments Quote MarshalIndent (Tool W tool) tc = (args, None) ->
    Execute W tool = Some execute ->
    execute (tc_ID tc) args w = ((updates, execResult, Some err), w') ->
    toolOutcome tools tc w (textResult err) true w'
| ExecuteReturned tool args execute updates execResult w' :
    findTool W tools (tc_Name tc) = Some tool ->
    ValidateToolArguments Quote MarshalIndent (Tool W tool) tc = (args, None) ->
    Execute W tool = Some execute ->
    execute (tc_ID tc) args w = ((updates, execResult, None), w') ->
    toolOutcome tools tc w execResult false w'.

(** The tool result message of a call that ran: the outcome of its tool
    under the id and the name of the call, stamped by the clock. *)
Definition realResult (tools : list (AgentTool W)) (tc : ToolCall) (w : W)
  (r : ToolResultMessage) (w' : W) : Prop :=
  exists result isError w1,
    toolOutcome tools tc w result isError w1
    /\ r = {| tr_Role := RoleToolResult; tr_ToolCallID := tc_ID tc;
              tr_ToolName := tc_Name tc; tr_Content := Content result;
              tr_Details := Details result; tr_IsError := isError;
              tr_Timestamp := fst (now w1) |}
    /\ w' = snd (now w1).

(** The calls run one after the other, and after each of them the
    steering provider [g] has no message: it returns an error or an
    empty list. *)
Inductive ranUninterrupted (tools : list (AgentTool W))
  (g : W -> (list AgentMessage * option error) * W)
  : list ToolCall -> W -> list ToolResultMessage -> W -> Prop :=
| ran_none w : ranUninterrupted tools g [] w [] w
| ran_next tc calls w r w1 steering err w2 results w3 :
    realResult tools tc w r w1 ->
    g w1 = ((steering, err), w2) ->
    err <> None \/ steering = [] ->
    ranUninterrupted tools g calls w2 results w3 ->
    ranUninterrupted tools g (tc :: calls) w (r :: results) w3.

End Outcomes.


(** A computation all of whose stream operations are message or tool
    events. *)
Definition quietly {W A : Type} (m : M W A) : Prop :=
  forall w x ops w', m w = Ok (x, ops, w') -> outline ops = [].

(** How a run that has come to its report ends: with [agent_end] and
    then [End], on the same list of messages. *)
Definition reports (ops : list StreamOp) : Prop :=
  exists pre ms, ops = pre ++ [OpPush (agentEndEvent ms); OpEnd ms].

(** What the inner loop adds to the lifecycle. *)
Definition innerLifecycle {W : Type} (firstTurn hasMoreToolCalls : bool)
  (ops : list StreamOp) (exit : innerExit W) : Prop :=
  match exit with
  | Returned _ =>
      follow (phaseOf firstTurn) (outline ops) = Some Finished /\ reports ops
  | FellOut _ _ _ firstTurn' =>
      follow (phaseOf firstTurn) (outline ops) = Some (phaseOf firstTurn')
      /\ (firstTurn = false \/ hasMoreToolCalls = true -> firstTurn' = false)
  end.

(** The result of a call that did not come to a result of its own, and
    what such a call pushes after its start event and its updates. *)
Definition refusal (tc : ToolCall) (text : string) (ts : Z)
  : ToolResultMessage :=
  {| tr_Role := RoleToolResult; tr_ToolCallID := tc_ID tc;
     tr_ToolName := tc_Name tc; tr_Content := [NewTextContent text];
     tr_Details := ANil; tr_IsError := true; tr_Timestamp := ts |}.

Definition refusalTail (tc : ToolCall) (text : string) (ts : Z)
  : list StreamOp :=
  [ OpPush (toolEndEvent tc (textResult text) true);
    OpPush (messageEvent MessageEventStart (toMessage (refusal tc text ts)));
    OpPush (messageEvent MessageEventEnd (toMessage (refusal tc text ts))) ].

(** ** What the facade reads off the operations of a run *)

(** The error texts that [turn_end] events bring: those of the assistant
    messages with a non-empty [ErrorMessage]. *)
Definition turnErrors (ops : list StreamOp) : list string :=
  omap (fun o => match o with
                 | OpPush e =>
                     if eqs (Type_ e) TurnEventEnd then
                       match Message_ e with
                       | Some m =>
                           match m_Assistant (Message m) with
                           | Some assistant =>
                               if negb (eqs (am_ErrorMessage assistant) "")
                               then Some (am_ErrorMessage assistant)
                               else None
                           | None => None
                           end
                       | None => None
                       end
                     else None
                 | OpEnd _ => None
                 end) ops.

(** The pending set after a sequence of [tool_execution_start] and
    [tool_execution_end] events. *)
Definition pendingAfter (brackets : list (AgentEventType * string))
  (pending : gset string) : gset string :=
  fold_left (fun p b => if eqs (fst b) ToolExecutionEventStart
                        then {[snd b]} ∪ p else p ∖ {[snd b]})
    brackets pending.

(** A stream operation the facade can process: a [message_end] event
    has its message. *)
Definition carries (o : StreamOp) : Prop :=
  match o with
  | OpPush e => Type_ e = MessageEventEnd -> is_Some (Message_ e)
  | OpEnd _ => True
  end.

(** A computation all of whose stream operations satisfy [P]. *)
Definition throughout {W A : Type} (P : StreamOp -> Prop) (m : M W A) : Prop :=
  forall w x ops w', m w = Ok (x, ops, w') -> Forall P ops.

End agent.

(** ** pkg/agent/proxy.go *)

Module proxy.

Import ai.
Local Open Scope string_scope.
Local Open Scope list_scope.

(** The wire format of the proxy server. *)
Record ProxyAssistantMessageEvent : Type := {
  pe_Type : string;
  pe_ContentIndex : Go.int;
  pe_Delta : string;
  pe_ID : string;
  pe_ToolName : string;
  pe_ContentSignature : string;
  pe_Reason : string;
  pe_ErrorMessage : string;
  pe_Usage : option Usage;
}.

(** [ai.Content{}]. *)
Definition emptyContent : Content :=
  {| c_Text := None; c_Thinking := None; c_Image := None; c_ToolCall := None |}.

Definition NewThinkingContent (thinking : string) : Content :=
  {| c_Text := None;
     c_Thinking := Some {| thk_Type := ContentThinking;
                           thk_Thinking := thinking;
                           thk_ThinkingSignature := "" |};
     c_Image := None; c_ToolCall := None |}.

Definition with_Content (m : AssistantMessage) (content : list Content)
  : AssistantMessage :=
  {| am_Role := am_Role m; am_Content := content; am_Api := am_Api m;
     am_Provider := am_Provider m; am_Model := am_Model m;
     am_Usage := am_Usage m; am_StopReason := am_StopReason m;
     am_ErrorMessage := am_ErrorMessage m; am_Timestamp := am_Timestamp m |}.

(** [for len(msg.Content) <= idx { msg.Content = append(msg.Content,
    ai.Content{}) }]; each iteration takes one unit of [fuel]. *)
Fixpoint ensureLoop (fuel : nat) (content : list Content) (idx : Go.int)
  : list Content :=
  match fuel with
  | O => content
  | S fuel' =>
      if (Z.of_nat (length content) <=? idx)%Z
      then ensureLoop fuel' (content ++ [emptyContent]) idx
      else content
  end.

(** The loop runs at most [idx + 1] times. *)
Definition ensureContentIndex (msg : AssistantMessage) (idx : Go.int)
  : AssistantMessage :=
  with_Content msg (ensureLoop (Z.to_nat (idx + 1)) (am_Content msg) idx).

(** [s[i]] and [s[i] = x] on a slice: an index out of range panics. *)
Definition index {A} (s : list A) (i : Go.int) : Go.outcome A :=
  if (i <? 0)%Z then Go.Panics
  else match s !! Z.to_nat i with
       | Some x => Go.Done x
       | None => Go.Panics
       end.

Definition setIndex {A} (s : list A) (i : Go.int) (x : A)
  : Go.outcome (list A) :=
  if (i <? 0)%Z then Go.Panics
  else if (Z.to_nat i <? length s)%nat then Go.Done (<[Z.to_nat i := x]> s)
  else Go.Panics.

(** The events [processProxyEvent] makes for a content block.  Their
    pointers [Partial] and [ToolCallData] point into the partial message
    the caller holds: the event shows what they point to when it is
    returned. *)
Definition blockEvent (ty : AssistantMessageEventType) (idx : Go.int)
  (delta content : string) (toolCallData : option ToolCall)
  (partial : AssistantMessage) : AssistantMessageEvent :=
  {| ev_Type := ty; ev_ContentIndex := idx; ev_Delta := delta;
     ev_Content := content; ev_Partial := Some partial; ev_Message := None;
     ev_Error := None; ev_ToolCallData := toolCallData; ev_Reason := "" |}.

Definition with_Text (c : Content) (t : TextContent) : Content :=
  {| c_Text := Some t; c_Thinking := c_Thinking c; c_Image := c_Image c;
     c_ToolCall := c_ToolCall c |}.

Definition with_Thinking (c : Content) (t : ThinkingContent) : Content :=
  {| c_Text := c_Text c; c_Thinking := Some t; c_Image := c_Image c;
     c_ToolCall := c_ToolCall c |}.

Definition with_ToolCall (c : Content) (t : ToolCall) : Content :=
  {| c_Text := c_Text c; c_Thinking := c_Thinking c; c_Image := c_Image c;
     c_ToolCall := Some t |}.

(** [partial.StopReason], [partial.ErrorMessage] and [partial.Usage] as
    the [done] and [error] cases set them. *)
Definition with_outcome (m : AssistantMessage) (reason : StopReason)
  (errorMessage : string) (usage : option Usage) : AssistantMessage :=
  {| am_Role := am_Role m; am_Content := am_Content m; am_Api := am_Api m;
     am_Provider := am_Provider m; am_Model := am_Model m;
     am_Usage := match usage with
                 | Some u => u
                 | None => am_Usage m
                 end;
     am_StopReason := reason; am_ErrorMessage := errorMessage;
     am_Timestamp := am_Timestamp m |}.

(** The wire types that name a content block. *)
Definition blockTypes : list string :=
  ["text_start"; "text_delta"; "text_end"; "thinking_start";
   "thinking_delta"; "thinking_end"; "toolcall_start"; "toolcall_delta";
   "toolcall_end"].

Section Proxy.

(** [json.Unmarshal] into a [map[string]any], as [ParseStreamingJSON]
    uses it. *)
Variable Unmarshal : string -> Map * option error.

(** [partial.Content[idx] = c] followed by the return of an event made
    from the message as it is then. *)
Definition store (partial : AssistantMessage) (idx : Go.int) (c : Content)
  (mk : AssistantMessage -> AssistantMessageEvent)
  : Go.outcome (option AssistantMessageEvent * AssistantMessage) :=
  Go.obind (setIndex (am_Content partial) idx c) (fun content =>
    let partial := with_Content partial content in
    Go.Done (Some (mk partial), partial)).

(** [processProxyEvent]: the event it returns ([None] for nil) and the
    partial message afterwards.  [Message] and [Error] of the event are
    the pointer [partial] as well, shown as the message is when the
    event is returned.  The content blocks are reached through
    [partial] alone, so that writing through [c.Text], [c.Thinking] and
    [c.ToolCall] changes the block of [partial] and nothing else. *)
Definition processProxyEvent (pe : ProxyAssistantMessageEvent)
  (partial : AssistantMessage)
  : Go.outcome (option AssistantMessageEvent * AssistantMessage) :=
  let idx := pe_ContentIndex pe in
  let partial := ensureContentIndex partial idx in
  if eqs (pe_Type pe) "start" then
    Go.Done (Some (blockEvent EventStart 0%Z "" "" None partial), partial)
  else if eqs (pe_Type pe) "text_start" then
    store partial idx (NewTextContent "")
      (blockEvent EventTextStart idx "" "" None)
  else if eqs (pe_Type pe) "text_delta" then
    Go.obind (index (am_Content partial) idx) (fun c =>
      match c_Text c with
      | Some t =>
          let t := {| txt_Type := txt_Type t;
                      txt_Text := txt_Text t +:+ pe_Delta pe;
                      txt_TextSignature := txt_TextSignature t |} in
          store partial idx (with_Text c t)
            (blockEvent EventTextDelta idx (pe_Delta pe) "" None)
      | None => Go.Done (None, partial)
      end)
  else if eqs (pe_Type pe) "text_end" then
    Go.obind (index (am_Content partial) idx) (fun c =>
      match c_Text c with
      | Some t =>
          let t := {| txt_Type := txt_Type t; txt_Text := txt_Text t;
                      txt_TextSignature := pe_ContentSignature pe |} in
          store partial idx (with_Text c t)
            (blockEvent EventTextEnd idx "" (txt_Text t) None)
      | None => Go.Done (None, partial)
      end)
  else if eqs (pe_Type pe) "thinking_start" then
    store partial idx (NewThinkingContent "")
      (blockEvent EventThinkingStart idx "" "" None)
  else if eqs (pe_Type pe) "thinking_delta" then
    Go.obind (index (am_Content partial) idx) (fun c =>
      match c_Thinking c with
      | Some t =>
          let t := {| thk_Type := thk_Type t;
                      thk_Thinking := thk_Thinking t +:+ pe_Delta pe;
                      thk_ThinkingSignature := thk_ThinkingSignature t |} in
          store partial idx (with_Thinking c t)
            (blockEvent EventThinkingDelta idx (pe_Delta pe) "" None)
      | None => Go.Done (None, partial)
      end)
  else if eqs (pe_Type pe) "thinking_end" then
    Go.obind (index (am_Content partial) idx) (fun c =>
      match c_Thinking c with
      | Some t =>
          let t := {| thk_Type := thk_Type t; thk_Thinking := thk_Thinking t;
                      thk_ThinkingSignature := pe_ContentSignature pe |} in
          store partial idx (with_Thinking c t)
            (blockEvent EventThinkingEnd idx "" (thk_Thinking t) None)
      | None => Go.Done (None, partial)
      end)
  else if eqs (pe_Type pe) "toolcall_start" then
    store partial idx (NewToolCallContent (pe_ID pe) (pe_ToolName pe) (Some ∅))
      (blockEvent EventToolCallStart idx "" "" None)
  else if eqs (pe_Type pe) "toolcall_delta" then
    Go.obind (index (am_Content partial) idx) (fun c =>
      match c_ToolCall c with
      | Some t =>
          let t := {| tc_Type := tc_Type t; tc_ID := tc_ID t;
                      tc_Name := tc_Name t;
                      tc_Arguments := ParseStreamingJSON Unmarshal (pe_Delta pe);
                      tc_ThoughtSignature := tc_ThoughtSignature t |} in
          store partial idx (with_ToolCall c t)
            (blockEvent EventToolCallDelta idx (pe_Delta pe) "" None)
      | None => Go.Done (None, partial)
      end)
  else if eqs (pe_Type pe) "toolcall_end" then
    Go.obind (index (am_Content partial) idx) (fun c =>
      match c_ToolCall c with
      | Some t =>
          Go.Done (Some (blockEvent EventToolCallEnd idx "" "" (Some t) partial),
                   partial)
      | None => Go.Done (None, partial)
      end)
  else if eqs (pe_Type pe) "done" then
    let partial := with_outcome partial (pe_Reason pe) (am_ErrorMessage partial)
                     (pe_Usage pe) in
    Go.Done (Some {| ev_Type := EventDone; ev_ContentIndex := 0%Z; ev_Delta := "";
                     ev_Content := ""; ev_Partial := None;
                     ev_Message := Some partial; ev_Error := None;
                     ev_ToolCallData := None; ev_Reason := pe_Reason pe |},
             partial)
  else if eqs (pe_Type pe) "error" then
    let partial := with_outcome partial (pe_Reason pe) (pe_ErrorMessage pe)
                     (pe_Usage pe) in
    Go.Done (Some {| ev_Type := EventError; ev_ContentIndex := 0%Z; ev_Delta := "";
                     ev_Content := ""; ev_Partial := None; ev_Message := None;
                     ev_Error := Some partial; ev_ToolCallData := None;
                     ev_Reason := pe_Reason pe |},
             partial)
  else Go.Done (None, partial).

(** The partial message after [processProxyEvent]. *)
Definition partialAfter (pe : ProxyAssistantMessageEvent)
  (partial : AssistantMessage) : Go.outcome AssistantMessage :=
  Go.obind (processProxyEvent pe partial) (fun r => Go.Done (snd r)).

End Proxy.

(** [emitProxyError]: the partial message and the stream afterwards. *)
Definition emitProxyError (stream : AssistantMessageEventStream)
  (partial : AssistantMessage) (errMsg : string)
  : Go.outcome (AssistantMessage * AssistantMessageEventStream) :=
  let partial := with_outcome partial StopReasonError errMsg None in
  Go.obind (EventStream.Push assistantIsComplete assistantExtractResult
              {| ev_Type := EventError; ev_ContentIndex := 0%Z; ev_Delta := "";
                 ev_Content := ""; ev_Partial := None; ev_Message := None;
                 ev_Error := Some partial; ev_ToolCallData := None;
                 ev_Reason := StopReasonError |} stream) (fun stream =>
  Go.obind (EventStream.End (Some partial) stream) (fun stream =>
  Go.Done (partial, stream))).

End proxy.

(** ** pkg/agent/agent.go: the Agent facade *)

Module facade.

Import ai agent.
Local Open Scope string_scope.
Local Open Scope list_scope.

Section Facade.

(** The world of the loop's callbacks, and what listeners act on. *)
Variable W : Type.
Variable Obs : Type.

Record AgentState : Type := {
  st_SystemPrompt : string;
  st_Model : option ai.Model;
  st_ThinkingLevel : ThinkingLevel;
  st_Tools : list (AgentTool W);
  st_Messages : list AgentMessage;
  IsStreaming : bool;
  StreamMessage : option AgentMessage;
  PendingToolCalls : gset string;
  Error : string;
}.

(** A listener [func(AgentEvent)], by what it does to the observers. *)
Definition Listener : Type := AgentEvent -> Obs -> Obs.

(** The contexts made by [context.WithCancel], each with its cancelled
    flag; a [CancelFunc] is known by the context it cancels. *)
Definition Contexts : Type := gmap nat bool.
Definition CancelFunc : Type := nat.

(** The fields of [Agent] ([mu] apart: every method below runs with the
    lock held from its first to its last statement, so that it is one
    step of the facade). *)
Record Agent : Type := {
  state : AgentState;
  listeners : gmap Z Listener;
  nextListenerID : Go.int;
  abortCancel : option CancelFunc;
  abortCtx : option nat;
  convertToLLM :
    option (list AgentMessage -> W -> (list ai.Message * option error) * W);
  transformContext :
    option (list AgentMessage -> W -> (list AgentMessage * option error) * W);
  steeringQueue : list AgentMessage;
  followUpQueue : list AgentMessage;
  steeringMode : string;
  followUpMode : string;
  StreamFn_ : option (StreamFn W);
  sessionID : string;
  GetApiKey_ : option (string -> W -> (string * option error) * W);
  thinkingBudgets : option ThinkingBudgets;
  maxRetryDelayMs : option Go.int;
  running : option nat;
}.

Definition with_listeners (a : Agent) (ls : gmap Z Listener) (next : Go.int)
  : Agent :=
  {| state := state a; listeners := ls; nextListenerID := next;
     abortCancel := abortCancel a; abortCtx := abortCtx a;
     convertToLLM := convertToLLM a; transformContext := transformContext a;
     steeringQueue := steeringQueue a; followUpQueue := followUpQueue a;
     steeringMode := steeringMode a; followUpMode := followUpMode a;
     StreamFn_ := StreamFn_ a; sessionID := sessionID a;
     GetApiKey_ := GetApiKey_ a; thinkingBudgets := thinkingBudgets a;
     maxRetryDelayMs := maxRetryDelayMs a; running := running a |}.

Definition with_queues (a : Agent) (steering followUp : list AgentMessage)
  : Agent :=
  {| state := state a; listeners := listeners a;
     nextListenerID := nextListenerID a;
     abortCancel := abortCancel a; abortCtx := abortCtx a;
     convertToLLM := convertToLLM a; transformContext := transformContext a;
     steeringQueue := steering; followUpQueue := followUp;
     steeringMode := steeringMode a; followUpMode := followUpMode a;
     StreamFn_ := StreamFn_ a; sessionID := sessionID a;
     GetApiKey_ := GetApiKey_ a; thinkingBudgets := thinkingBudgets a;
     maxRetryDelayMs := maxRetryDelayMs a; running := running a |}.

(** [Subscribe]: the agent afterwards and the id the returned
    unsubscribe closure holds. *)
Definition Subscribe (fn : Listener) (a : Agent) : Agent * Z :=
  let id := nextListenerID a in
  (with_listeners a (<[id := fn]> (listeners a)) (Go.add (nextListenerID a) 1),
   id).

(** The closure returned by [Subscribe]. *)
Definition unsubscribe (id : Z) (a : Agent) : Agent :=
  with_listeners a (delete id (listeners a)) (nextListenerID a).

Definition Steer (m : AgentMessage) (a : Agent) : Agent :=
  with_queues a (steeringQueue a ++ [m]) (followUpQueue a).

Definition FollowUp (m : AgentMessage) (a : Agent) : Agent :=
  with_queues a (steeringQueue a) (followUpQueue a ++ [m]).

(** [Abort]: the agent and the contexts afterwards. *)
Definition Abort (a : Agent) (ctxs : Contexts) : Agent * Contexts :=
  match abortCancel a with
  | Some cancel => (a, <[cancel := true]> ctxs)
  | None => (a, ctxs)
  end.

(** Go leaves the order of [for _, fn := range a.listeners] open: [order]
    is a sequence in which one execution of the loop may meet the
    entries of the map. *)
Definition range_order (m : gmap Z Listener) (order : list (Z * Listener))
  : Prop :=
  Permutation order (map_to_list m).

(** The snapshot built under the lock, in the order of the [range]. *)
Definition snapshot (order : list (Z * Listener)) : list Listener :=
  map snd order.

(** [for _, fn := range listeners { fn(event) }]. *)
Definition invokeAll (fns : list Listener) (event : AgentEvent) (o : Obs)
  : Obs :=
  fold_left (fun o fn => fn event o) fns o.

(** The listener dispatch of [Agent.runLoop] for one event. *)
Definition dispatch (order : list (Z * Listener)) (event : AgentEvent)
  (o : Obs) : Obs :=
  invokeAll (snapshot order) event o.

(** The listeners in the order of their registration: by ascending id. *)
Fixpoint insert_by_id (x : Z * Listener) (l : list (Z * Listener))
  : list (Z * Listener) :=
  match l with
  | [] => [x]
  | y :: l' => if (fst x <=? fst y)%Z then x :: l else y :: insert_by_id x l'
  end.

Definition registration_order (m : gmap Z Listener) : list (Z * Listener) :=
  fold_right insert_by_id [] (map_to_list m).

(** *** The queues *)

Definition with_state (a : Agent) (s : AgentState) : Agent :=
  {| state := s; listeners := listeners a;
     nextListenerID := nextListenerID a;
     abortCancel := abortCancel a; abortCtx := abortCtx a;
     convertToLLM := convertToLLM a; transformContext := transformContext a;
     steeringQueue := steeringQueue a; followUpQueue := followUpQueue a;
     steeringMode := steeringMode a; followUpMode := followUpMode a;
     StreamFn_ := StreamFn_ a; sessionID := sessionID a;
     GetApiKey_ := GetApiKey_ a; thinkingBudgets := thinkingBudgets a;
     maxRetryDelayMs := maxRetryDelayMs a; running := running a |}.

Definition with_messages (s : AgentState) (ms : list AgentMessage)
  : AgentState :=
  {| st_SystemPrompt := st_SystemPrompt s; st_Model := st_Model s;
     st_ThinkingLevel := st_ThinkingLevel s; st_Tools := st_Tools s;
     st_Messages := ms; IsStreaming := IsStreaming s;
     StreamMessage := StreamMessage s;
     PendingToolCalls := PendingToolCalls s; Error := Error s |}.

(** [a.state.Messages = append([]AgentMessage{}, ms...)]. *)
Definition ReplaceMessages (ms : list AgentMessage) (a : Agent) : Agent :=
  with_state a (with_messages (state a) ms).

Definition AppendMessage (m : AgentMessage) (a : Agent) : Agent :=
  with_state a (with_messages (state a) (st_Messages (state a) ++ [m])).

Definition ClearMessages (a : Agent) : Agent :=
  with_state a (with_messages (state a) []).

Definition ClearSteeringQueue (a : Agent) : Agent :=
  with_queues a [] (followUpQueue a).

Definition ClearFollowUpQueue (a : Agent) : Agent :=
  with_queues a (steeringQueue a) [].

Definition ClearAllQueues (a : Agent) : Agent := with_queues a [] [].

Definition HasQueuedMessages (a : Agent) : bool :=
  (0 <? length (steeringQueue a))%nat || (0 <? length (followUpQueue a))%nat.

Definition Reset (a : Agent) : Agent :=
  {| state := {| st_SystemPrompt := st_SystemPrompt (state a);
                 st_Model := st_Model (state a);
                 st_ThinkingLevel := st_ThinkingLevel (state a);
                 st_Tools := st_Tools (state a);
                 st_Messages := []; IsStreaming := false;
                 StreamMessage := None; PendingToolCalls := ∅; Error := "" |};
     listeners := listeners a; nextListenerID := nextListenerID a;
     abortCancel := abortCancel a; abortCtx := abortCtx a;
     convertToLLM := convertToLLM a; transformContext := transformContext a;
     steeringQueue := []; followUpQueue := [];
     steeringMode := steeringMode a; followUpMode := followUpMode a;
     StreamFn_ := StreamFn_ a; sessionID := sessionID a;
     GetApiKey_ := GetApiKey_ a; thinkingBudgets := thinkingBudgets a;
     maxRetryDelayMs := maxRetryDelayMs a; running := running a |}.

(** [dequeueSteeringMessages] and [dequeueFollowUpMessages]: the slice
    returned (its callers take its length and range over it, so that nil
    and empty are one) and the agent afterwards. *)
Definition dequeueSteeringMessages (a : Agent) : list AgentMessage * Agent :=
  if eqs (steeringMode a) "one-at-a-time" then
    match steeringQueue a with
    | first :: rest => ([first], with_queues a rest (followUpQueue a))
    | [] => ([], a)
    end
  else (steeringQueue a, with_queues a [] (followUpQueue a)).

Definition dequeueFollowUpMessages (a : Agent) : list AgentMessage * Agent :=
  if eqs (followUpMode a) "one-at-a-time" then
    match followUpQueue a with
    | first :: rest => ([first], with_queues a (steeringQueue a) rest)
    | [] => ([], a)
    end
  else (followUpQueue a, with_queues a (steeringQueue a) []).

(** *** Starting a run *)

(** The channels made by [make(chan struct{})], each with its closed
    flag, beside the contexts. *)
Definition Channels : Type := gmap nat bool.

Record Heap : Type := {
  contexts : Contexts;
  channels : Channels;
}.

Variable now : W -> Z * W.
Variable Quote : string -> string.
Variable MarshalIndent : gmap string any -> string.

(** The goroutine of the loop reaches the agent, and the variable
    [skipSteering] its steering callback has captured, through its
    world. *)
Variable agentOf : W -> Agent.
Variable setAgent : Agent -> W -> W.
Variable skipSteeringOf : W -> bool.
Variable setSkipSteering : bool -> W -> W.

(** The two callbacks [Agent.runLoop] puts into the configuration. *)
Definition getSteeringMessages (w : W)
  : (list AgentMessage * option error) * W :=
  if skipSteeringOf w then (([], None), setSkipSteering false w)
  else
    let (out, a) := dequeueSteeringMessages (agentOf w) in
    ((out, None), setAgent a w).

Definition getFollowUpMessages (w : W)
  : (list AgentMessage * option error) * W :=
  let (out, a) := dequeueFollowUpMessages (agentOf w) in
  ((out, None), setAgent a w).

Definition with_streaming (s : AgentState) (isStreaming : bool) : AgentState :=
  {| st_SystemPrompt := st_SystemPrompt s; st_Model := st_Model s;
     st_ThinkingLevel := st_ThinkingLevel s; st_Tools := st_Tools s;
     st_Messages := st_Messages s; IsStreaming := isStreaming;
     StreamMessage := StreamMessage s;
     PendingToolCalls := PendingToolCalls s; Error := Error s |}.

(** The agent as [Agent.runLoop] leaves it under its first lock: a new
    [running] channel and a new context, streaming, with no stream message
    and no error. *)
Definition started (a : Agent) (ch cx : nat) : Agent :=
  {| state := {| st_SystemPrompt := st_SystemPrompt (state a);
                 st_Model := st_Model (state a);
                 st_ThinkingLevel := st_ThinkingLevel (state a);
                 st_Tools := st_Tools (state a);
                 st_Messages := st_Messages (state a); IsStreaming := true;
                 StreamMessage := None;
                 PendingToolCalls := PendingToolCalls (state a);
                 Error := "" |};
     listeners := listeners a; nextListenerID := nextListenerID a;
     abortCancel := Some cx; abortCtx := Some cx;
     convertToLLM := convertToLLM a; transformContext := transformContext a;
     steeringQueue := steeringQueue a; followUpQueue := followUpQueue a;
     steeringMode := steeringMode a; followUpMode := followUpMode a;
     StreamFn_ := StreamFn_ a; sessionID := sessionID a;
     GetApiKey_ := GetApiKey_ a; thinkingBudgets := thinkingBudgets a;
     maxRetryDelayMs := maxRetryDelayMs a; running := Some ch |}.

(** The configuration [Agent.runLoop] builds for the loop. *)
Definition loopConfig (a : Agent) (model : ai.Model) : AgentLoopConfig W :=
  let reasoning := if eqs (st_ThinkingLevel (state a)) ThinkingOff then ""
                   else st_ThinkingLevel (state a) in
  {| Options := {| Temperature := None; MaxTokens := None; ApiKey := "";
                   opt_CacheRetention := ""; SessionID := sessionID a;
                   Headers := None; MaxRetryDelayMs := maxRetryDelayMs a;
                   Reasoning := reasoning;
                   opt_ThinkingBudgets := thinkingBudgets a |};
     Model_ := Some model;
     ConvertToLLM := convertToLLM a;
     TransformContext := transformContext a;
     GetApiKey := GetApiKey_ a;
     GetSteeringMessages := Some getSteeringMessages;
     GetFollowUpMessages := Some getFollowUpMessages |}.

(** [Agent.runLoop], up to the start of its goroutine: the error it
    returns, the body of the goroutine that feeds the stream of the run
    (started in a world that holds the agent and the initial value of
    [skipSteering]), the agent and the heap afterwards.  [messages] is
    [None] for a nil slice. *)
Definition runLoop (fuel : nat) (messages : option (list AgentMessage))
  (skipInitialSteeringPoll : bool) (a : Agent) (h : Heap)
  : (option error * option (M W unit)) * Agent * Heap :=
  if IsStreaming (state a) then
    ((Some "agent is already processing a prompt", None), a, h)
  else
    match st_Model (state a) with
    | None => ((Some "no model configured", None), a, h)
    | Some model =>
        let ch := fresh (dom (channels h)) in
        let cx := fresh (dom (contexts h)) in
        let h1 := {| contexts := <[cx := false]> (contexts h);
                     channels := <[ch := false]> (channels h) |} in
        let a1 := started a ch cx in
        let agentCtx := {| SystemPrompt := st_SystemPrompt (state a);
                           Messages := st_Messages (state a);
                           Tools := st_Tools (state a) |} in
        let config := loopConfig a model in
        let launch (body : M W unit) : M W unit :=
          fun w => body (setSkipSteering skipInitialSteeringPoll
                           (setAgent a1 w)) in
        match messages with
        | Some messages =>
            ((None,
              Some (launch (AgentLoop W now Quote MarshalIndent fuel messages
                              agentCtx config (StreamFn_ a)))),
             a1, h1)
        | None =>
            match AgentLoopContinue W now Quote MarshalIndent fuel agentCtx
                    config (StreamFn_ a) with
            | (_, Some err) =>
                ((Some err, None),
                 with_state a1 (with_streaming (state a1) false),
                 {| contexts := contexts h1;
                    channels := <[ch := true]> (channels h1) |})
            | (Some body, None) => ((None, Some (launch body)), a1, h1)
            | (None, None) => ((None, None), a1, h1)
            end
        end
    end.

Definition PromptMessages (fuel : nat) (msgs : option (list AgentMessage))
  (a : Agent) (h : Heap)
  : (option error * option (M W unit)) * Agent * Heap :=
  runLoop fuel msgs false a h.

(** [len(s) > 0] for a slice [s]. *)
Definition nonEmpty {A} (s : list A) : bool := (0 <? length s)%nat.

Definition Continue (fuel : nat) (a : Agent) (h : Heap)
  : (option error * option (M W unit)) * Agent * Heap :=
  if IsStreaming (state a) then
    ((Some "agent is already processing", None), a, h)
  else
    match last (st_Messages (state a)) with
    | None => ((Some "no messages to continue from", None), a, h)
    | Some lastMsg =>
        if eqs (Role (Message lastMsg)) RoleAssistant then
          let (steering, a1) := dequeueSteeringMessages a in
          if nonEmpty steering then runLoop fuel (Some steering) true a1 h
          else
            let (followUp, a2) := dequeueFollowUpMessages a1 in
            if nonEmpty followUp then runLoop fuel (Some followUp) false a2 h
            else ((Some "cannot continue from message role: assistant", None),
                  a2, h)
        else runLoop fuel None false a h
    end.

(** *** The goroutine that processes the events of a run *)

Definition with_stream (s : AgentState) (isStreaming : bool)
  (streamMessage : option AgentMessage) : AgentState :=
  {| st_SystemPrompt := st_SystemPrompt s; st_Model := st_Model s;
     st_ThinkingLevel := st_ThinkingLevel s; st_Tools := st_Tools s;
     st_Messages := st_Messages s; IsStreaming := isStreaming;
     StreamMessage := streamMessage;
     PendingToolCalls := PendingToolCalls s; Error := Error s |}.

Definition with_pending (s : AgentState) (pending : gset string)
  : AgentState :=
  {| st_SystemPrompt := st_SystemPrompt s; st_Model := st_Model s;
     st_ThinkingLevel := st_ThinkingLevel s; st_Tools := st_Tools s;
     st_Messages := st_Messages s; IsStreaming := IsStreaming s;
     StreamMessage := StreamMessage s;
     PendingToolCalls := pending; Error := Error s |}.

Definition with_error (s : AgentState) (err : string) : AgentState :=
  {| st_SystemPrompt := st_SystemPrompt s; st_Model := st_Model s;
     st_ThinkingLevel := st_ThinkingLevel s; st_Tools := st_Tools s;
     st_Messages := st_Messages s; IsStreaming := IsStreaming s;
     StreamMessage := StreamMessage s;
     PendingToolCalls := PendingToolCalls s; Error := err |}.

(** The [switch event.Type] of the goroutine, on the state: [*event.Message]
    panics on a nil pointer.  [PendingToolCalls] is never a nil map:
    [NewAgent], [Reset] and the deferred function of a run make it an
    empty one and nothing else assigns it. *)
Definition applyEvent (event : AgentEvent) (s : AgentState)
  : Go.outcome AgentState :=
  if eqs (Type_ event) MessageEventStart then
    Go.Done (with_stream s (IsStreaming s) (Message_ event))
  else if eqs (Type_ event) MessageEventUpdate then
    Go.Done (with_stream s (IsStreaming s) (Message_ event))
  else if eqs (Type_ event) MessageEventEnd then
    match Message_ event with
    | None => Go.Panics
    | Some m =>
        Go.Done (with_messages (with_stream s (IsStreaming s) None)
                   (st_Messages s ++ [m]))
    end
  else if eqs (Type_ event) ToolExecutionEventStart then
    Go.Done (with_pending s ({[ToolCallID event]} ∪ PendingToolCalls s))
  else if eqs (Type_ event) ToolExecutionEventEnd then
    Go.Done (with_pending s (PendingToolCalls s ∖ {[ToolCallID event]}))
  else if eqs (Type_ event) TurnEventEnd then
    match Message_ event with
    | Some m =>
        match m_Assistant (Message m) with
        | Some assistant =>
            if negb (eqs (am_ErrorMessage assistant) "") then
              Go.Done (with_error s (am_ErrorMessage assistant))
            else Go.Done s
        | None => Go.Done s
        end
    | None => Go.Done s
    end
  else if eqs (Type_ event) AgentEventEnd then
    Go.Done (with_stream s false None)
  else Go.Done s.

(** [for event := range stream.Events() { ... }] on the events the stream
    delivers, the state part: the listeners are the business of
    [dispatch]. *)
Fixpoint applyEvents (events : list AgentEvent) (s : AgentState)
  : Go.outcome AgentState :=
  match events with
  | [] => Go.Done s
  | event :: rest => Go.obind (applyEvent event s) (applyEvents rest)
  end.

(** The deferred function of the goroutine: [close] panics on a nil
    channel and on a closed one. *)
Definition finishRun (a : Agent) (h : Heap) : Go.outcome (Agent * Heap) :=
  match running a with
  | None => Go.Panics
  | Some ch =>
      match channels h !! ch with
      | Some false =>
          Go.Done
            ({| state := with_pending (with_stream (state a) false None) ∅;
                listeners := listeners a; nextListenerID := nextListenerID a;
                abortCancel := None; abortCtx := abortCtx a;
                convertToLLM := convertToLLM a;
                transformContext := transformContext a;
                steeringQueue := steeringQueue a;
                followUpQueue := followUpQueue a;
                steeringMode := steeringMode a; followUpMode := followUpMode a;
                StreamFn_ := StreamFn_ a; sessionID := sessionID a;
                GetApiKey_ := GetApiKey_ a;
                thinkingBudgets := thinkingBudgets a;
                maxRetryDelayMs := maxRetryDelayMs a; running := None |},
             {| contexts := contexts h;
                channels := <[ch := true]> (channels h) |})
      | _ => Go.Panics
      end
  end.

End Facade.

(** The error, the body, the agent and the heap of a start. *)
Definition errorOf {A B C D} (r : (option A * B) * C * D) : option A :=
  fst (fst (fst r)).
Definition bodyOf {A B C D} (r : (A * option B) * C * D) : option B :=
  snd (fst (fst r)).
Definition agentAfter {A B C} (r : A * B * C) : B := snd (fst r).
Definition heapAfter {A B C} (r : A * B * C) : C := snd r.

End facade.

(** * Concrete values for the examples *)

Module Examples.

Import ai agent facade.
Local Open Scope string_scope.
Local Open Scope list_scope.

(** A user message that also carries a custom payload. *)
Definition customUserMessage : AgentMessage :=
  {| Message := userMsg {| um_Role := RoleUser;
                           um_Content := [NewTextContent "hi"];
                           um_Timestamp := 0 |};
     Custom := AString "note" |}.

(** A listener that writes its name into a log. *)
Definition logger (name : string) : Listener (list string) :=
  fun _ log => log ++ [name].

(** [NewAgent(AgentOptions{})]. *)
Definition agent0 : Agent unit (list string) :=
  {| state := {| st_SystemPrompt := ""; st_Model := None;
                 st_ThinkingLevel := ThinkingOff; st_Tools := [];
                 st_Messages := []; IsStreaming := false;
                 StreamMessage := None; PendingToolCalls := ∅; Error := "" |};
     listeners := ∅; nextListenerID := 0;
     abortCancel := None; abortCtx := None;
     convertToLLM := Some (fun ms w => (DefaultConvertToLLM ms, w));
     transformContext := None;
     steeringQueue := []; followUpQueue := [];
     steeringMode := "one-at-a-time"; followUpMode := "one-at-a-time";
     StreamFn_ := None; sessionID := ""; GetApiKey_ := None;
     thinkingBudgets := None; maxRetryDelayMs := None; running := None |}.

(** The agent after [Subscribe(first)] and then [Subscribe(second)]. *)
Definition agent2 : Agent unit (list string) :=
  fst (Subscribe unit (list string) (logger "second")
         (fst (Subscribe unit (list string) (logger "first") agent0))).

(** An order in which [range] may meet the two listeners. *)
Definition second_first : list (Z * Listener (list string)) :=
  [(1, logger "second"); (0, logger "first")].

(** A world for runs of the loop: a clock, and the scripts of what the
    steering queue, the follow-up queue and the provider answer next. *)
Record World : Type := {
  clock : Z;
  steeringScript : list (list AgentMessage);
  followUpScript : list (list AgentMessage);
  providerScript : list AssistantMessage;
}.

Definition now0 (w : World) : Z * World :=
  (clock w, {| clock := clock w + 1; steeringScript := steeringScript w;
               followUpScript := followUpScript w;
               providerScript := providerScript w |}).

Definition steer0 (w : World) : (list AgentMessage * option error) * World :=
  match steeringScript w with
  | [] => (([], None), w)
  | ms :: rest =>
      ((ms, None), {| clock := clock w; steeringScript := rest;
                      followUpScript := followUpScript w;
                      providerScript := providerScript w |})
  end.

Definition followUp0 (w : World) : (list AgentMessage * option error) * World :=
  match followUpScript w with
  | [] => (([], None), w)
  | ms :: rest =>
      ((ms, None), {| clock := clock w; steeringScript := steeringScript w;
                      followUpScript := rest;
                      providerScript := providerScript w |})
  end.

Definition assistantText (text : string) (reason : StopReason)
  : AssistantMessage :=
  {| am_Role := RoleAssistant; am_Content := [NewTextContent text];
     am_Api := "anthropic-messages"; am_Provider := "anthropic";
     am_Model := "m"; am_Usage := zeroUsage; am_StopReason := reason;
     am_ErrorMessage := ""; am_Timestamp := 0 |}.

(** The stream of a provider that pushes [start] and then [done] with
    the message [m]. *)
Definition streamOf (m : AssistantMessage) : AssistantMessageEventStream :=
  {| EventStream.ch :=
       [ {| ev_Type := EventStart; ev_ContentIndex := 0; ev_Delta := "";
            ev_Content := ""; ev_Partial := Some m; ev_Message := None;
            ev_Error := None; ev_ToolCallData := None; ev_Reason := "" |};
         {| ev_Type := EventDone; ev_ContentIndex := 0; ev_Delta := "";
            ev_Content := ""; ev_Partial := None; ev_Message := Some m;
            ev_Error := None; ev_ToolCallData := None;
            ev_Reason := am_StopReason m |} ];
     EventStream.ch_closed := true; EventStream.once := true;
     EventStream.resultCh := Some (Some m) |}.

Definition streamFn0 : StreamFn World :=
  fun _ _ _ w =>
    match providerScript w with
    | [] => (Some (streamOf (assistantText "ok" StopReasonStop)), w)
    | m :: rest =>
        (Some (streamOf m),
         {| clock := clock w; steeringScript := steeringScript w;
            followUpScript := followUpScript w; providerScript := rest |})
    end.

Definition Quote0 (s : string) : string :=
  str [c_quote] +:+ s +:+ str [c_quote].
Definition MarshalIndent0 (args : gmap string any) : string := "{}".

Definition echoTool : AgentTool World :=
  {| Tool := {| tool_Name := "echo"; tool_Description := "echoes";
                tool_Parameters :=
                  Some {[ "required" := AList [AString "text"] ]} |};
     Label := "Echo";
     Execute := Some (fun id args w =>
                        (([textResult "working"], textResult "done", None), w)) |}.

Definition echoArgs : Map := Some {[ "text" := AString "x" ]}.

Definition call1 : ToolCall :=
  {| tc_Type := ContentToolCall; tc_ID := "t1"; tc_Name := "echo";
     tc_Arguments := echoArgs; tc_ThoughtSignature := "" |}.
Definition call2 : ToolCall :=
  {| tc_Type := ContentToolCall; tc_ID := "t2"; tc_Name := "echo";
     tc_Arguments := None; tc_ThoughtSignature := "" |}.
Definition call3 : ToolCall :=
  {| tc_Type := ContentToolCall; tc_ID := "t3"; tc_Name := "other";
     tc_Arguments := None; tc_ThoughtSignature := "" |}.

Definition contentOf (tc : ToolCall) : ai.Content :=
  {| c_Text := None; c_Thinking := None; c_Image := None; c_ToolCall := Some tc |}.

(** An assistant message with the three tool calls. *)
Definition threeCalls : AssistantMessage :=
  {| am_Role := RoleAssistant;
     am_Content := [contentOf call1; NewTextContent "and"; contentOf call2;
                    contentOf call3];
     am_Api := "anthropic-messages"; am_Provider := "anthropic";
     am_Model := "m"; am_Usage := zeroUsage;
     am_StopReason := StopReasonToolUse; am_ErrorMessage := "";
     am_Timestamp := 0 |}.

Definition userText (text : string) : AgentMessage :=
  NewAgentMessageFromMessage
    (userMsg {| um_Role := RoleUser; um_Content := [NewTextContent text];
                um_Timestamp := 0 |}).

(** No steering message after the first call, one after the second. *)
Definition steeredWorld : World :=
  {| clock := 100; steeringScript := [[]; [userText "stop, do X"]];
     followUpScript := []; providerScript := [] |}.

Definition model0 : ai.Model :=
  {| model_ID := "m"; model_Name := "M"; model_Api := "anthropic-messages";
     model_Provider := "anthropic"; model_BaseURL := "";
     model_Reasoning := false; model_Input := ["text"];
     model_Cost := {| mc_Input := 3; mc_Output := 15; mc_CacheRead := 0;
                      mc_CacheWrite := 0 |};
     model_ContextWindow := 200000; model_MaxTokens := 8192;
     model_Headers := None |}.

Definition options0 : SimpleStreamOptions :=
  {| Temperature := None; MaxTokens := None; ApiKey := "";
     opt_CacheRetention := ""; SessionID := ""; Headers := None;
     MaxRetryDelayMs := None; Reasoning := ""; opt_ThinkingBudgets := None |}.

(** The configuration the facade builds, on the scripted world. *)
Definition config0 : AgentLoopConfig World :=
  {| Options := options0; Model_ := Some model0;
     ConvertToLLM := Some (fun ms w => (DefaultConvertToLLM ms, w));
     TransformContext := None; GetApiKey := None;
     GetSteeringMessages := Some steer0;
     GetFollowUpMessages := Some followUp0 |}.

(** The same with a converter that fails. *)
Definition failingConfig : AgentLoopConfig World :=
  {| Options := options0; Model_ := Some model0;
     ConvertToLLM := Some (fun ms w => (([], Some "unsupported message"), w));
     TransformContext := None; GetApiKey := None;
     GetSteeringMessages := Some steer0;
     GetFollowUpMessages := Some followUp0 |}.

Definition context0 : AgentContext World :=
  {| SystemPrompt := "You are helpful."; Messages := []; Tools := [echoTool] |}.

(** The provider first asks for the three tool calls, then answers. *)
Definition toolWorld : World :=
  {| clock := 100; steeringScript := [[]; []; [userText "stop, do X"]];
     followUpScript := [];
     providerScript := [threeCalls; assistantText "4" StopReasonStop] |}.

Definition quietWorld : World :=
  {| clock := 100; steeringScript := []; followUpScript := [];
     providerScript := [] |}.

(** A finished assistant message with the given stop reason, error text
    and input and cache-read token counts. *)
Definition finishedWith (reason : StopReason) (errorMessage : string)
  (input cacheRead : Go.int) : AssistantMessage :=
  {| am_Role := RoleAssistant; am_Content := [];
     am_Api := "anthropic-messages"; am_Provider := "anthropic";
     am_Model := "m";
     am_Usage := {| u_Input := input; u_Output := 0; u_CacheRead := cacheRead;
                    u_CacheWrite := 0; u_TotalTokens := 0; u_Cost := zeroCost |};
     am_StopReason := reason; am_ErrorMessage := errorMessage;
     am_Timestamp := 0 |}.

(** A usage of [n] input tokens and nothing else. *)
Definition inputTokens (n : Go.int) : Usage :=
  {| u_Input := n; u_Output := 0; u_CacheRead := 0; u_CacheWrite := 0;
     u_TotalTokens := n; u_Cost := zeroCost |}.

(** [json.Unmarshal] on the two shortest documents: the empty object and
    [null], with JSON whitespace around them; every other text is taken
    for an error. *)
Definition json_ws_encodings : list (list ascii) :=
  map (fun n => [chr n]) [32; 9; 10; 13]%nat.

Definition jtrim (l : list ascii) : list ascii :=
  trim_right json_ws_encodings (trim_left json_ws_encodings (length l) l).

Definition Unmarshal0 (s : string) : Map * option error :=
  if ascii_eqb_list (jtrim (bytes s)) [c_lbrace; c_rbrace] then (Some ∅, None)
  else if ascii_eqb_list (jtrim (bytes s)) (bytes "null") then (None, None)
  else (None, Some "invalid character").

(** The two events of [streamOf m]. *)
Definition startEventOf (m : AssistantMessage) : AssistantMessageEvent :=
  {| ev_Type := EventStart; ev_ContentIndex := 0; ev_Delta := "";
     ev_Content := ""; ev_Partial := Some m; ev_Message := None;
     ev_Error := None; ev_ToolCallData := None; ev_Reason := "" |}.

Definition doneEventOf (m : AssistantMessage) : AssistantMessageEvent :=
  {| ev_Type := EventDone; ev_ContentIndex := 0; ev_Delta := "";
     ev_Content := ""; ev_Partial := None; ev_Message := Some m;
     ev_Error := None; ev_ToolCallData := None;
     ev_Reason := am_StopReason m |}.

(** A stream whose buffer is full. *)
Definition fullStream : AssistantMessageEventStream :=
  {| EventStream.ch :=
       replicate 64 (startEventOf (assistantText "ok" StopReasonStop));
     EventStream.ch_closed := false; EventStream.once := false;
     EventStream.resultCh := None |}.

(** A provider whose stream function answers [ok]. *)
Definition provider0 : ApiProvider unit :=
  {| p_Api := "anthropic-messages";
     p_Stream := Some (fun _ _ _ w =>
                         (Some (streamOf (assistantText "ok" StopReasonStop)),
                          w));
     p_StreamSimple := None |}.

(** A provider that pushes [n] [start] events and then [done] on a new
    stream, with nobody receiving. *)
Definition chattyProvider (n : nat) : ApiProvider unit :=
  {| p_Api := "anthropic-messages";
     p_Stream :=
       Some (fun _ _ _ w =>
               (Some (EventStream.producer assistantIsComplete
                        assistantExtractResult
                        (replicate n
                           (startEventOf (assistantText "ok" StopReasonStop))
                         ++ [doneEventOf (assistantText "ok" StopReasonStop)])
                        EventStream.NewEventStream), w));
     p_StreamSimple := None |}.

(** An agent on the scripted world, with a model, a stream function and
    the echo tool. *)
Definition agentW : Agent World (list string) :=
  {| state := {| st_SystemPrompt := "You are helpful.";
                 st_Model := Some model0;
                 st_ThinkingLevel := ThinkingOff; st_Tools := [echoTool];
                 st_Messages := []; IsStreaming := false;
                 StreamMessage := None; PendingToolCalls := ∅; Error := "" |};
     listeners := ∅; nextListenerID := 0;
     abortCancel := None; abortCtx := None;
     convertToLLM := Some (fun ms w => (DefaultConvertToLLM ms, w));
     transformContext := None;
     steeringQueue := []; followUpQueue := [];
     steeringMode := "one-at-a-time"; followUpMode := "one-at-a-time";
     StreamFn_ := Some streamFn0; sessionID := ""; GetApiKey_ := None;
     thinkingBudgets := None; maxRetryDelayMs := None; running := None |}.

Definition heap0 : Heap := {| contexts := ∅; channels := ∅ |}.

(** The scripted world keeps no agent: its callbacks find the queues of
    [agentW], which are empty. *)
Definition agentOf0 (w : World) : Agent World (list string) := agentW.
Definition setAgent0 (a : Agent World (list string)) (w : World) : World := w.
Definition skipSteeringOf0 (w : World) : bool := false.
Definition setSkipSteering0 (skip : bool) (w : World) : World := w.

(** [agentW.PromptMessages] with one user message. *)
Definition start0
  : (option error * option (M World unit)) * Agent World (list string) * Heap :=
  facade.runLoop World (list string) now0 Quote0 MarshalIndent0 agentOf0
    setAgent0 skipSteeringOf0 setSkipSteering0 10 (Some [userText "2+2?"])
    false agentW heap0.

(** The body of the goroutine [start0] launches. *)
Definition body0 : M World unit :=
  fun w =>
    AgentLoop World now0 Quote0 MarshalIndent0 10 [userText "2+2?"]
      {| SystemPrompt := "You are helpful."; Messages := [];
         Tools := [echoTool] |}
      (loopConfig World (list string) agentOf0 setAgent0 skipSteeringOf0
         setSkipSteering0 agentW model0)
      (Some streamFn0)
      (setSkipSteering0 false (setAgent0 (agentAfter start0) w)).

(** Wire events of the proxy: two text deltas for block 0 and the two in
    one. *)
Definition textDelta (delta : string) : proxy.ProxyAssistantMessageEvent :=
  {| proxy.pe_Type := "text_delta"; proxy.pe_ContentIndex := 0;
     proxy.pe_Delta := delta; proxy.pe_ID := ""; proxy.pe_ToolName := "";
     proxy.pe_ContentSignature := ""; proxy.pe_Reason := "";
     proxy.pe_ErrorMessage := ""; proxy.pe_Usage := None |}.

End Examples.

(** * Properties *)

(** ** Go integers *)

Lemma wrap_in_range z : Go.in_range z -> Go.wrap z = z.
Proof.
  unfold Go.in_range, Go.int_min, Go.int_max, Go.wrap. intros H.
  rewrite Z.mod_small; lia.
Qed.

Lemma wrap_range z : Go.in_range (Go.wrap z).
Proof.
  unfold Go.in_range, Go.int_min, Go.int_max, Go.wrap.
  pose proof (Z.mod_pos_bound (z + 2 ^ 63) (2 ^ 64) ltac:(lia)). lia.
Qed.

(** ** Event streams *)

Section EventStreamFacts.

Context {T R : Type} (isComplete : T -> bool) (extractResult : T -> R).

Import EventStream.

Lemma End_resolved (r r' : R) (s : t T R) :
  resolved_with r s -> End r' s = Go.Done s.
Proof.
  intros (Hr & Ho & _). unfold End, try_send_result, once_close.
  rewrite Hr, Ho. reflexivity.
Qed.

Lemma EndAll_resolved (r : R) later (s : t T R) :
  resolved_with r s -> EndAll later s = Go.Done s.
Proof.
  intros H. induction later as [|r' later IH]; simpl; [reflexivity|].
  rewrite (End_resolved r r' s H). simpl. exact IH.
Qed.

Lemma End_unresolved (r : R) (s : t T R) :
  unresolved s ->
  exists s1, End r s = Go.Done s1 /\ resolved_with r s1 /\ ch s1 = ch s.
Proof.
  intros (Hr & Ho & Hc). unfold End, try_send_result, once_close, close_ch.
  rewrite Hr. simpl. rewrite Ho, Hc. eexists. split; [reflexivity|].
  repeat split.
Qed.

Lemma Push_terminal_unresolved e (s : t T R) :
  unresolved s -> isComplete e = true -> (length (ch s) < ch_cap)%nat ->
  exists s1, Push isComplete extractResult e s = Go.Done s1
             /\ resolved_with (extractResult e) s1
             /\ ch s1 = ch s ++ [e].
Proof.
  intros (Hr & Ho & Hc) He Hlen.
  assert (Hcap : (ch_cap <=? length (ch s))%nat = false)
    by (apply Nat.leb_gt; exact Hlen).
  unfold Push, send_result, send, once_close, close_ch.
  rewrite He, Hr. cbn [Go.obind ch ch_closed once resultCh].
  rewrite Hc, Hcap. cbn [Go.obind ch ch_closed once resultCh].
  rewrite Ho. eexists. split; [reflexivity|].
  repeat split.
Qed.

Lemma Result_resolved (r : R) (s : t T R) :
  resolved_with r s ->
  exists s', Result s = Go.Done (r, s') /\ resultCh s' = None
             /\ ch_closed s' = true /\ ch s' = ch s.
Proof.
  intros (Hr & _ & Hc). unfold Result. rewrite Hr.
  eexists. split; [reflexivity|]. simpl. auto.
Qed.

(** C10, as the code has it.  On a stream nobody has resolved, a terminal
    [Push] (with room in the event buffer) or an [End r] records the
    result and closes the event channel; every later [End], as long as the
    result has not been taken, returns without changing the stream (no
    second close, the recorded result kept); and [Result] then yields the
    result recorded first. *)
Theorem result_recorded_once (s : t T R) (e : T) (r : R) (later : list R) :
  unresolved s ->
  (isComplete e = true -> (length (ch s) < ch_cap)%nat ->
   exists s1 s2,
     Push isComplete extractResult e s = Go.Done s1
     /\ resultCh s1 = Some (extractResult e) /\ ch_closed s1 = true
     /\ ch s1 = ch s ++ [e]
     /\ EndAll later s1 = Go.Done s1
     /\ Result s1 = Go.Done (extractResult e, s2))
  /\ (exists s1 s2,
        End r s = Go.Done s1
        /\ resultCh s1 = Some r /\ ch_closed s1 = true /\ ch s1 = ch s
        /\ EndAll later s1 = Go.Done s1
        /\ Result s1 = Go.Done (r, s2)).
Proof.
  intros Hs. split.
  - intros He Hlen.
    destruct (Push_terminal_unresolved e s Hs He Hlen) as (s1 & HP & Hres & Hch).
    destruct (Result_resolved _ _ Hres) as (s2 & HR & _).
    exists s1, s2. destruct Hres as (? & ? & ?).
    repeat split; try assumption.
    apply (EndAll_resolved (extractResult e)). repeat split; assumption.
  - destruct (End_unresolved r s Hs) as (s1 & HE & Hres & Hch).
    destruct (Result_resolved _ _ Hres) as (s2 & HR & _).
    exists s1, s2. destruct Hres as (? & ? & ?).
    repeat split; try assumption.
    apply (EndAll_resolved r). repeat split; assumption.
Qed.

End EventStreamFacts.

(** The theorem at a fresh stream of numbers whose terminal event is 0. *)
Lemma result_recorded_once_witness :
  EventStream.unresolved (@EventStream.NewEventStream nat nat)
  /\ (exists s1 s2,
        EventStream.Push (fun n => Nat.eqb n 0) (fun n => n) 0%nat
          EventStream.NewEventStream = Go.Done s1
        /\ EventStream.resultCh s1 = Some 0%nat
        /\ EventStream.ch_closed s1 = true
        /\ EventStream.ch s1 = [] ++ [0%nat]
        /\ EventStream.EndAll [8; 9]%nat s1 = Go.Done s1
        /\ EventStream.Result s1 = Go.Done (0%nat, s2))
  /\ (exists s1 s2,
        EventStream.End 7%nat (@EventStream.NewEventStream nat nat) = Go.Done s1
        /\ EventStream.resultCh s1 = Some 7%nat
        /\ EventStream.ch_closed s1 = true
        /\ EventStream.ch s1 = []
        /\ EventStream.EndAll [8; 9]%nat s1 = Go.Done s1
        /\ EventStream.Result s1 = Go.Done (7%nat, s2)).
Proof.
  assert (H : EventStream.unresolved (@EventStream.NewEventStream nat nat))
    by (repeat split).
  split; [exact H|].
  destruct (result_recorded_once (fun n => Nat.eqb n 0) (fun n => n)
              EventStream.NewEventStream 0%nat 7%nat [8; 9]%nat H) as [HP HE].
  split; [|exact HE].
  apply HP; [reflexivity | unfold EventStream.ch_cap; simpl; lia].
Defined.

(** C10 as stated fails once the result has been taken: [End 1], then
    [Result] (which yields 1 and empties the slot), then a later [End 2]
    records 2, and the next [Result] yields 2, not the first result. *)
Lemma later_End_after_Result_records_again :
  exists s1 s2 s3 s4,
    EventStream.End 1%nat (@EventStream.NewEventStream nat nat) = Go.Done s1
    /\ EventStream.Result s1 = Go.Done (1%nat, s2)
    /\ EventStream.End 2%nat s2 = Go.Done s3
    /\ EventStream.resultCh s2 = None
    /\ EventStream.resultCh s3 = Some 2%nat
    /\ s3 <> s2
    /\ EventStream.Result s3 = Go.Done (2%nat, s4).
Proof.
  do 4 eexists. repeat split; try reflexivity. discriminate.
Qed.

(** ** The default converter *)

Section ConverterFacts.

Import ai agent Examples.
Local Open Scope string_scope.

(** C4 at a message with a role and a custom payload: [IsLLMMessage] says
    it is no LLM message, and [DefaultConvertToLLM] still passes its
    message on to the LLM. *)
Theorem DefaultConvertToLLM_keeps_custom :
  Custom customUserMessage <> ANil
  /\ IsLLMMessage customUserMessage = false
  /\ DefaultConvertToLLM [customUserMessage]
     = ([Message customUserMessage], None).
Proof.
  repeat split. discriminate.
Qed.

(** X1.  What the converter does filter on: the role alone.  A message
    is in the output exactly when it is the embedded message of an
    input agent message and its role is user, assistant or toolResult. *)
Lemma DefaultConvertToLLM_by_role (messages : list AgentMessage) (m : ai.Message) :
  m ∈ fst (DefaultConvertToLLM messages) <->
  exists am, am ∈ messages /\ Message am = m
             /\ (Role m = RoleUser \/ Role m = RoleAssistant
                 \/ Role m = RoleToolResult).
Proof.
  unfold DefaultConvertToLLM. cbn [fst]. rewrite list_elem_of_omap.
  split.
  - intros (am & Hin & Hsome).
    exists am. split; [exact Hin|].
    unfold eqs in Hsome.
    repeat case_bool_decide; cbn in Hsome; inversion Hsome; subst; auto.
  - intros (am & Hin & <- & Hrole).
    exists am. split; [exact Hin|].
    unfold eqs.
    repeat case_bool_decide; cbn; try reflexivity.
    destruct Hrole as [?|[?|?]]; contradiction.
Qed.

End ConverterFacts.

(** ** The facade *)

Section FacadeFacts.

Import ai agent facade.

Context {W Obs : Type}.

(** C9.  [Abort] leaves every field of the agent as it was, the steering
    and the follow-up queue among them; all it does is cancel the context
    of the current run, when there is one. *)
Theorem Abort_frame (a : Agent W Obs) (ctxs : Contexts) :
  fst (Abort W Obs a ctxs) = a
  /\ steeringQueue W Obs (fst (Abort W Obs a ctxs)) = steeringQueue W Obs a
  /\ followUpQueue W Obs (fst (Abort W Obs a ctxs)) = followUpQueue W Obs a
  /\ match abortCancel W Obs a with
     | Some cancel =>
         snd (Abort W Obs a ctxs) !! cancel = Some true
         /\ forall c, c <> cancel -> snd (Abort W Obs a ctxs) !! c = ctxs !! c
     | None => snd (Abort W Obs a ctxs) = ctxs
     end.
Proof.
  unfold Abort. destruct (abortCancel W Obs a) as [cancel|]; cbn.
  - repeat split; try reflexivity.
    + apply lookup_insert_eq.
    + intros c Hc. apply lookup_insert_ne. congruence.
  - repeat split.
Qed.

(** C7, as the code has it.  Whatever order the [range] over the listener
    map takes, the snapshot holds each listener registered at that moment
    once and no other, and the dispatch invokes the listeners of the
    snapshot one after the other in the order of the snapshot. *)
Theorem dispatch_each_listener_once (m : gmap Z (Listener Obs))
  (order : list (Z * Listener Obs)) (event : AgentEvent) (o : Obs) :
  range_order Obs m order ->
  Permutation (snapshot Obs order) (map snd (map_to_list m))
  /\ NoDup (map fst order)
  /\ (forall id fn, (id, fn) ∈ order <-> m !! id = Some fn)
  /\ dispatch Obs order event o
     = fold_left (fun o fn => fn event o) (snapshot Obs order) o.
Proof.
  unfold range_order. intros Hp. repeat split.
  - unfold snapshot. apply Permutation_map. exact Hp.
  - rewrite Hp. change (map fst (map_to_list m)) with ((map_to_list m).*1).
    apply NoDup_fst_map_to_list.
  - intros Hin. rewrite Hp in Hin. apply elem_of_map_to_list in Hin. exact Hin.
  - intros Hl. rewrite Hp. apply elem_of_map_to_list. exact Hl.
Qed.

End FacadeFacts.

Section DispatchExamples.

Import ai agent facade Examples.
Local Open Scope string_scope.

Lemma second_first_range_order :
  range_order (list string) (listeners unit (list string) agent2) second_first.
Proof.
  unfold range_order, second_first, agent2. cbn.
  change (Go.add 0 1) with 1.
  rewrite map_to_list_insert by (rewrite lookup_insert_ne by lia; apply lookup_empty).
  rewrite map_to_list_insert by apply lookup_empty.
  rewrite map_to_list_empty. reflexivity.
Qed.

(** C7 as stated fails: after [Subscribe(first)] and [Subscribe(second)]
    the [range] over the listener map may meet [second] before [first],
    and the dispatch then invokes them in that order, not in the order
    of registration. *)
Lemma dispatch_not_in_registration_order :
  range_order (list string) (listeners unit (list string) agent2) second_first
  /\ dispatch (list string) second_first (event AgentEventStart) []
     = ["second"; "first"]
  /\ dispatch (list string)
       (registration_order (list string) (listeners unit (list string) agent2))
       (event AgentEventStart) []
     = ["first"; "second"].
Proof.
  split; [exact second_first_range_order|]. split; [reflexivity|].
  vm_compute. reflexivity.
Qed.

(** The theorem at that agent and that order. *)
Lemma dispatch_each_listener_once_witness :
  range_order (list string) (listeners unit (list string) agent2) second_first
  /\ Permutation (snapshot (list string) second_first)
       (map snd (map_to_list (listeners unit (list string) agent2)))
  /\ NoDup (map fst second_first).
Proof.
  split; [exact second_first_range_order|].
  destruct (dispatch_each_listener_once
              (listeners unit (list string) agent2) second_first
              (event AgentEventStart) [] second_first_range_order)
    as (HP & HN & _).
  split; [exact HP | exact HN].
Defined.

End DispatchExamples.

(** ** Runs of the loop's goroutine *)

Section RunFacts.

Import ai agent.
Local Open Scope list_scope.

Context {W : Type}.

Lemma bind_inv {A B} (m : M W A) (f : A -> M W B) w b t w' :
  bind W m f w = Ok (b, t, w') ->
  exists a t1 w1 t2,
    m w = Ok (a, t1, w1) /\ f a w1 = Ok (b, t2, w') /\ t = t1 ++ t2.
Proof.
  unfold bind. destruct (m w) as [[[a t1] w1]|]; [|discriminate].
  destruct (f a w1) as [[[b' t2] w2]|] eqn:Hf; [|discriminate].
  intros [= <- <- <-]. exists a, t1, w1, t2. auto.
Qed.

Lemma bind_ok {A B} (m : M W A) (f : A -> M W B) w a t1 w1 b t2 w2 :
  m w = Ok (a, t1, w1) -> f a w1 = Ok (b, t2, w2) ->
  bind W m f w = Ok (b, t1 ++ t2, w2).
Proof. unfold bind. intros -> ->. reflexivity. Qed.

Lemma push_inv e w x t w' :
  push W e w = Ok (x, t, w') -> t = [OpPush e] /\ w' = w.
Proof. unfold push. intros [= <- <- <-]. auto. Qed.

Lemma ret_inv {A} (a : A) w x t w' :
  ret W a w = Ok (x, t, w') -> x = a /\ t = [] /\ w' = w.
Proof. unfold ret. intros [= <- <- <-]. auto. Qed.

Lemma call_inv {A} (f : W -> A * W) w x t w' :
  call W f w = Ok (x, t, w') -> t = [] /\ f w = (x, w').
Proof. unfold call. destruct (f w) as [a w1]. intros [= <- <- <-]. auto. Qed.

Lemma end_inv (r : list AgentMessage) (w : W) x t w' :
  end_ W r w = Ok (x, t, w') -> t = [OpEnd r] /\ w' = w.
Proof. unfold end_. intros [= <- <- <-]. auto. Qed.

End RunFacts.

(** Takes a successful run apart, bind by bind. *)
Ltac run_inv H :=
  repeat match type of H with
  | agent.bind _ _ _ _ = agent.Ok _ =>
      let a := fresh "a" in let t1 := fresh "t" in let w1 := fresh "w" in
      let t2 := fresh "t" in let H1 := fresh "Hrun" in let Heq := fresh "Ht" in
      apply bind_inv in H; destruct H as (a & t1 & w1 & t2 & H1 & H & Heq);
      first [ apply push_inv in H1; destruct H1 as [-> ->]
            | apply call_inv in H1; destruct H1 as [-> H1]
            | idtac ];
      subst
  end.

(** ** The agent loop *)

Section LoopFacts.

Import ai agent.
Local Open Scope string_scope.
Local Open Scope list_scope.

Context {W : Type} (now : W -> Z * W).
Context (Quote : string -> string) (MarshalIndent : gmap string any -> string).

Notation "x <- m ;; k" := (bind W m (fun x => k))
  (at level 100, m at next level, right associativity).
Notation "m ;;; k" := (bind W m (fun _ => k))
  (at level 100, right associativity).

Lemma toolBrackets_app ops1 ops2 :
  toolBrackets (ops1 ++ ops2) = toolBrackets ops1 ++ toolBrackets ops2.
Proof. unfold toolBrackets. apply omap_app. Qed.

Lemma bracketsOf_app l1 l2 :
  bracketsOf (l1 ++ l2) = bracketsOf l1 ++ bracketsOf l2.
Proof. unfold bracketsOf. apply flat_map_app. Qed.

Lemma updates_brackets tc (updates : list AgentToolResult) w x ops w' :
  forM_ W (fun partial => push W (toolUpdateEvent tc partial)) updates w
  = Ok (x, ops, w') ->
  toolBrackets ops = [] /\ w' = w.
Proof.
  revert w ops. induction updates as [|u updates IH]; intros w ops H;
    cbn [forM_] in H.
  - apply ret_inv in H. destruct H as (_ & -> & ->). auto.
  - run_inv H. destruct (IH _ _ H) as [Hb ->]. split; [|reflexivity].
    cbn. exact Hb.
Qed.

Lemma invoke_brackets tools tc w x ops w' :
  invoke W Quote MarshalIndent tools tc w = Ok (x, ops, w') ->
  toolBrackets ops = [].
Proof.
  unfold invoke. intros H.
  destruct (findTool W tools (tc_Name tc)) as [tool|].
  - destruct (ValidateToolArguments Quote MarshalIndent (Tool W tool) tc)
      as [args [err|]].
    + apply ret_inv in H. destruct H as (_ & -> & _). reflexivity.
    + destruct (Execute W tool) as [execute|]; [|discriminate].
      run_inv H.
      match type of H with
      | (let '(_, _) := ?a in _) _ = _ =>
          destruct a as [[updates execResult] err]
      end.
      run_inv H.
      match goal with
      | Hu : forM_ _ _ _ _ = Ok _ |- _ =>
          apply updates_brackets in Hu; destruct Hu as [Hb ->]
      end.
      rewrite !toolBrackets_app, Hb. cbn.
      destruct err; apply ret_inv in H; destruct H as (_ & -> & _); reflexivity.
  - apply ret_inv in H. destruct H as (_ & -> & _). reflexivity.
Qed.

Lemma perform_spec tools tc w r ops w' :
  perform W now Quote MarshalIndent tools tc w = Ok (r, ops, w') ->
  toolBrackets ops = bracketsOf [tc]
  /\ tr_ToolCallID r = tc_ID tc /\ tr_ToolName r = tc_Name tc.
Proof.
  unfold perform. intros H. run_inv H.
  match goal with
  | Hi : invoke _ _ _ _ _ _ = Ok (?a, _, _) |- _ =>
      apply invoke_brackets in Hi; destruct a as [result isError];
      rename Hi into Hb
  end.
  run_inv H. apply ret_inv in H. destruct H as (-> & -> & _).
  split; [|split; reflexivity].
  rewrite !toolBrackets_app, Hb. reflexivity.
Qed.

Lemma pollSteering_ops gs w st ops w' :
  pollSteering W gs w = Ok (st, ops, w') -> ops = [].
Proof.
  unfold pollSteering. destruct gs as [g|]; intros H.
  - run_inv H.
    match type of H with
    | (let '(_, _) := ?a in _) _ = _ => destruct a as [steering [err|]]
    end; apply ret_inv in H; destruct H as (_ & -> & _); reflexivity.
  - apply ret_inv in H. destruct H as (_ & -> & _). reflexivity.
Qed.

Lemma iteration_spec tools gs tc w r st ops w' :
  iteration W now Quote MarshalIndent tools gs tc w = Ok ((r, st), ops, w') ->
  toolBrackets ops = bracketsOf [tc]
  /\ tr_ToolCallID r = tc_ID tc /\ tr_ToolName r = tc_Name tc.
Proof.
  unfold iteration. intros H. run_inv H.
  match goal with
  | Hp : perform _ _ _ _ _ _ _ = Ok _ |- _ => apply perform_spec in Hp as Hs
  end.
  match goal with
  | Hp : pollSteering _ _ _ = Ok _ |- _ => apply pollSteering_ops in Hp; subst
  end.
  apply ret_inv in H. destruct H as ([= <- <-] & -> & _).
  rewrite !app_nil_r. exact Hs.
Qed.

Lemma skipToolCall_spec tc w :
  exists r ops w',
    skipToolCall W now tc w = Ok (r, ops, w')
    /\ skippedResult tc r /\ toolBrackets ops = bracketsOf [tc].
Proof.
  unfold skipToolCall, bind, push, call, ret.
  destruct (now w) as [ts w1]. do 3 eexists. split; [reflexivity|].
  split; [repeat split|reflexivity].
Qed.

Lemma mapM_skipToolCall_spec post w :
  exists skipped ops w',
    mapM W (skipToolCall W now) post w = Ok (skipped, ops, w')
    /\ Forall2 skippedResult post skipped
    /\ toolBrackets ops = bracketsOf post.
Proof.
  revert w. induction post as [|tc post IH]; intros w.
  - exists [], [], w. repeat split. constructor.
  - destruct (skipToolCall_spec tc w) as (r & ops1 & w1 & H1 & Hr & Hb1).
    destruct (IH w1) as (skipped & ops2 & w2 & H2 & Hs & Hb2).
    exists (r :: skipped), (ops1 ++ ops2 ++ []), w2. split.
    + cbn [mapM]. eapply bind_ok; [exact H1|].
      eapply bind_ok; [exact H2|]. reflexivity.
    + split; [constructor; assumption|].
      rewrite app_nil_r, toolBrackets_app, Hb1, Hb2. reflexivity.
Qed.

(** A run of iterations none of which is interrupted. *)
Lemma mapM_iteration_spec tools gs pre w outs ops w' :
  mapM W (iteration W now Quote MarshalIndent tools gs) pre w
  = Ok (outs, ops, w') ->
  toolBrackets ops = bracketsOf pre
  /\ map tr_ToolCallID (map fst outs) = map tc_ID pre.
Proof.
  revert w outs ops w'. induction pre as [|tc pre IH]; intros w outs ops w' H.
  - apply ret_inv in H. destruct H as (-> & -> & _). auto.
  - cbn [mapM] in H. run_inv H. apply ret_inv in H.
    destruct H as (-> & -> & ->).
    match goal with
    | Hi : iteration _ _ _ _ _ _ _ _ = Ok (?a, _, _) |- _ =>
        destruct a as [r st]; apply iteration_spec in Hi;
        destruct Hi as (Hb & Hid & _)
    end.
    match goal with
    | Hm : mapM _ _ _ _ = Ok _ |- _ => destruct (IH _ _ _ _ Hm) as [Hb' Hids]
    end.
    split.
    + rewrite app_nil_r, toolBrackets_app, Hb, Hb'. reflexivity.
    + cbn. rewrite Hid, Hids. reflexivity.
Qed.

Lemma executeLoop_quiet tools gs pre rest acc w outs ops w1 :
  mapM W (iteration W now Quote MarshalIndent tools gs) pre w
  = Ok (outs, ops, w1) ->
  Forall (fun o => snd o = []) outs ->
  executeLoop W now Quote MarshalIndent tools gs (pre ++ rest) acc w
  = match executeLoop W now Quote MarshalIndent tools gs rest
            (acc ++ map fst outs) w1 with
    | Ok (x, ops', w') => Ok (x, ops ++ ops', w')
    | Fail why => Fail why
    end.
Proof.
  revert acc w outs ops w1. induction pre as [|tc pre IH];
    intros acc w outs ops w1 H Hq.
  - apply ret_inv in H. destruct H as (-> & -> & ->). cbn.
    rewrite app_nil_r.
    destruct (executeLoop _ _ _ _ _ _ _ _ w) as [[[x o] w']|]; reflexivity.
  - cbn [mapM] in H. run_inv H. apply ret_inv in H.
    destruct H as (-> & -> & ->).
    match goal with
    | Hi : iteration _ _ _ _ _ _ _ _ = Ok (?a, _, _) |- _ =>
        destruct a as [r st]; rename Hi into Hit
    end.
    match goal with
    | Hm : mapM _ _ _ _ = Ok _ |- _ => rename Hm into Hmap
    end.
    inversion Hq as [|? ? Hst Hq']; subst. cbn in Hst. subst st.
    cbn [app executeLoop]. unfold bind at 1. rewrite Hit.
    cbn [length Nat.ltb Nat.leb].
    rewrite (IH (acc ++ [r]) _ _ _ _ Hmap Hq').
    cbn [map fst]. rewrite <- app_assoc. cbn [app].
    destruct (executeLoop _ _ _ _ _ _ _ _ _) as [[[x o] w']|]; [|reflexivity].
    rewrite app_nil_r, app_assoc. reflexivity.
Qed.

Lemma iteration_interrupted tools g tc w r ops w1 steering w2 :
  perform W now Quote MarshalIndent tools tc w = Ok (r, ops, w1) ->
  g w1 = ((steering, None), w2) ->
  iteration W now Quote MarshalIndent tools (Some g) tc w
  = Ok ((r, steering), ops, w2).
Proof.
  intros Hp Hg. unfold iteration, pollSteering, bind, call, ret.
  rewrite Hp, Hg. rewrite !app_nil_r. reflexivity.
Qed.

Lemma updates_pushed tc (updates : list AgentToolResult) (w : W) :
  forM_ W (fun partial => push W (toolUpdateEvent tc partial)) updates w
  = Ok (tt, map (fun partial => OpPush (toolUpdateEvent tc partial)) updates, w).
Proof.
  revert w. induction updates as [|u updates IH]; intros w; [reflexivity|].
  cbn [forM_ map]. unfold bind, push. rewrite IH. reflexivity.
Qed.

(** [invoke] returns the outcome of the tool. *)
Lemma invoke_outcome tools tc (w : W) result isError w' :
  toolOutcome W Quote MarshalIndent tools tc w result isError w' ->
  exists ops,
    invoke W Quote MarshalIndent tools tc w = Ok ((result, isError), ops, w').
Proof.
  intros H. unfold invoke.
  destruct H as [Hf|tool args err Hf Hv|tool args execute updates execResult
                 err w' Hf Hv He Hx|tool args execute updates execResult w'
                 Hf Hv He Hx]; rewrite Hf; try rewrite Hv; try rewrite He.
  - eexists. reflexivity.
  - eexists. reflexivity.
  - unfold bind at 1. unfold call at 1. rewrite Hx. cbv beta iota.
    unfold bind at 1. rewrite updates_pushed. eexists. reflexivity.
  - unfold bind at 1. unfold call at 1. rewrite Hx. cbv beta iota.
    unfold bind at 1. rewrite updates_pushed. eexists. reflexivity.
Qed.

(** And nothing else: what [invoke] returns is the outcome of the tool. *)
Lemma invoke_outcome_inv tools tc (w : W) result isError ops w' :
  invoke W Quote MarshalIndent tools tc w = Ok ((result, isError), ops, w') ->
  toolOutcome W Quote MarshalIndent tools tc w result isError w'.
Proof.
  unfold invoke. intros H.
  destruct (findTool W tools (tc_Name tc)) as [tool|] eqn:Hf.
  - destruct (ValidateToolArguments Quote MarshalIndent (Tool W tool) tc)
      as [args [err|]] eqn:Hv.
    + apply ret_inv in H. destruct H as ([= -> ->] & _ & ->).
      eapply ArgumentsRefused; eassumption.
    + destruct (Execute W tool) as [execute|] eqn:He; [|discriminate].
      unfold bind at 1 in H. unfold call at 1 in H.
      destruct (execute (tc_ID tc) args w) as [[[updates execResult] err] w1]
        eqn:Hx.
      cbv beta iota in H. unfold bind at 1 in H.
      rewrite updates_pushed in H.
      destruct err as [e|]; cbn in H; injection H as <- <- <- <-.
      * eapply ExecuteFailed; eassumption.
      * eapply ExecuteReturned; eassumption.
  - apply ret_inv in H. destruct H as ([= -> ->] & _ & ->).
    apply NoSuchTool. exact Hf.
Qed.

Lemma perform_real tools tc (w : W) r w' :
  realResult W now Quote MarshalIndent tools tc w r w' ->
  exists ops, perform W now Quote MarshalIndent tools tc w = Ok (r, ops, w').
Proof.
  intros (result & isError & w1 & Ho & -> & ->).
  destruct (invoke_outcome _ _ _ _ _ _ Ho) as (ops & Hi).
  unfold perform. unfold bind at 1. unfold push at 1.
  unfold bind at 1. rewrite Hi. unfold bind, push, call, ret.
  destruct (now w1) as [ts w2]. eexists. reflexivity.
Qed.

Lemma perform_real_inv tools tc (w : W) r ops w' :
  perform W now Quote MarshalIndent tools tc w = Ok (r, ops, w') ->
  realResult W now Quote MarshalIndent tools tc w r w'.
Proof.
  unfold perform. intros H. run_inv H.
  match goal with
  | Hi : invoke _ _ _ _ _ _ = Ok (?a, _, _) |- _ =>
      destruct a as [result isError]; apply invoke_outcome_inv in Hi;
      rename Hi into Ho
  end.
  run_inv H. apply ret_inv in H. destruct H as (-> & _ & ->).
  match goal with
  | Hn : now ?w1 = (?ts, ?w2) |- _ =>
      exists result, isError, w1; rewrite Hn
  end.
  split; [exact Ho|]. split; reflexivity.
Qed.

(** The iterations of calls that ran with no steering message. *)
Lemma mapM_iteration_uninterrupted tools g calls (w : W) results w' :
  ranUninterrupted W now Quote MarshalIndent tools g calls w results w' ->
  exists outs ops,
    mapM W (iteration W now Quote MarshalIndent tools (Some g)) calls w
    = Ok (outs, ops, w')
    /\ map fst outs = results
    /\ Forall (fun o => snd o = []) outs.
Proof.
  induction 1 as [w|tc calls w r w1 steering err w2 results w3 Hr Hg Hq _ IH].
  - exists [], []. repeat split. constructor.
  - destruct (perform_real _ _ _ _ _ Hr) as (ops1 & Hp).
    destruct IH as (outs & ops2 & Hm & Hres & Hall).
    assert (Hit : exists st,
               iteration W now Quote MarshalIndent tools (Some g) tc w
               = Ok ((r, st), ops1 ++ [] ++ [], w2) /\ st = []).
    { unfold iteration, pollSteering, bind, call, ret. rewrite Hp, Hg.
      destruct err as [e|].
      - eexists. split; reflexivity.
      - destruct Hq as [Hq| ->]; [contradiction|].
        eexists. split; reflexivity. }
    destruct Hit as (st & Hit & ->).
    exists ((r, []) :: outs). eexists. split; [|split].
    + cbn [mapM]. eapply bind_ok; [exact Hit|].
      eapply bind_ok; [exact Hm|]. reflexivity.
    + cbn. rewrite Hres. reflexivity.
    + constructor; [reflexivity | exact Hall].
Qed.

Lemma executeLoop_interrupted
  (tools : list (AgentTool W))
  (g : W -> (list AgentMessage * option error) * W)
  (pre : list ToolCall) (tc : ToolCall) (post : list ToolCall)
  (w w1 w2 w3 : W) (outs : list (ToolResultMessage * list AgentMessage))
  (ops1 ops2 : list StreamOp) (r : ToolResultMessage)
  (steering : list AgentMessage) :
  mapM W (iteration W now Quote MarshalIndent tools (Some g)) pre w
  = Ok (outs, ops1, w1) ->
  Forall (fun o => snd o = []) outs ->
  perform W now Quote MarshalIndent tools tc w1 = Ok (r, ops2, w2) ->
  g w2 = ((steering, None), w3) ->
  steering <> [] ->
  exists skipped ops3 w4,
    executeLoop W now Quote MarshalIndent tools (Some g) (pre ++ tc :: post) [] w
    = Ok ((map fst outs ++ [r] ++ skipped, steering), ops1 ++ ops2 ++ ops3, w4)
    /\ length (map fst outs ++ [r] ++ skipped) = length (pre ++ tc :: post)
    /\ map tr_ToolCallID (map fst outs ++ [r] ++ skipped)
       = map tc_ID (pre ++ tc :: post)
    /\ Forall2 skippedResult post skipped
    /\ toolBrackets (ops1 ++ ops2 ++ ops3) = bracketsOf (pre ++ tc :: post).
Proof.
  intros Hpre Hquiet Hperform Hg Hne.
  destruct (mapM_skipToolCall_spec post w3) as (skipped & ops3 & w4 & Hskip & Hsk & Hb3).
  pose proof (iteration_interrupted _ _ _ _ _ _ _ _ _ Hperform Hg) as Hit.
  destruct (mapM_iteration_spec _ _ _ _ _ _ _ Hpre) as [Hb1 Hids].
  destruct (perform_spec _ _ _ _ _ _ Hperform) as (Hb2 & Hid & _).
  exists skipped, ops3, w4. split; [|split; [|split; [|split]]].
  - rewrite (executeLoop_quiet _ _ _ _ _ _ _ _ _ Hpre Hquiet).
    cbn [executeLoop app]. unfold bind at 1. rewrite Hit.
    destruct steering as [|m steering]; [contradiction|].
    cbn [length Nat.ltb Nat.leb]. unfold bind at 1. rewrite Hskip.
    unfold ret. rewrite app_nil_r, <- app_assoc. reflexivity.
  - rewrite !length_app, !length_map. cbn [length].
    rewrite (Forall2_length _ _ _ Hsk).
    assert (Hl : length outs = length pre).
    { rewrite <- (length_map fst outs), <- (length_map tr_ToolCallID),
        Hids, length_map. reflexivity. }
    lia.
  - rewrite !map_app. cbn [map]. rewrite Hids, Hid. do 2 f_equal.
    clear -Hsk. induction Hsk as [|? ? ? ? (Hx & _) _ IH]; cbn;
      [reflexivity|]. rewrite Hx, IH. reflexivity.
  - exact Hsk.
  - rewrite !toolBrackets_app, Hb1, Hb2, Hb3.
    change (tc :: post) with ([tc] ++ post). rewrite !bracketsOf_app.
    reflexivity.
Qed.

(** C1.  Let the tool calls of the assistant message be [pre], then [tc],
    then [post].  Let the calls of [pre] run one after the other, each
    with the outcome its tool gives it (the result of [Execute] on the
    validated arguments, or the error of the lookup, of the validation
    or of [Execute]) and with no steering message after it; let [tc] run
    likewise, and let the steering provider then return the non-empty
    list [steering].  Then [executeToolCalls], on a stream whose
    consumer takes every event, returns [steering] and one result per
    call, in call order: the real outcomes [results] of [pre] and [r] of
    [tc], followed for each call of [post] by a result with [IsError]
    set and the skip text as its content; and the stream gets a
    [tool_execution_start] and a [tool_execution_end] for every call,
    the skipped ones too, each pair in call order. *)
Theorem executeToolCalls_skip_symmetry
  (tools : list (AgentTool W)) (assistantMsg : AssistantMessage)
  (g : W -> (list AgentMessage * option error) * W)
  (pre : list ToolCall) (tc : ToolCall) (post : list ToolCall)
  (w w1 w2 w3 : W) (results : list ToolResultMessage) (r : ToolResultMessage)
  (steering : list AgentMessage) :
  toolCallsOf (am_Content assistantMsg) = pre ++ tc :: post ->
  ranUninterrupted W now Quote MarshalIndent tools g pre w results w1 ->
  realResult W now Quote MarshalIndent tools tc w1 r w2 ->
  g w2 = ((steering, None), w3) ->
  steering <> [] ->
  exists skipped ops w4,
    executeToolCalls W now Quote MarshalIndent tools assistantMsg (Some g) w
    = Ok ((results ++ [r] ++ skipped, steering), ops, w4)
    /\ length results = length pre
    /\ length (results ++ [r] ++ skipped) = length (pre ++ tc :: post)
    /\ map tr_ToolCallID (results ++ [r] ++ skipped)
       = map tc_ID (pre ++ tc :: post)
    /\ Forall2 skippedResult post skipped
    /\ toolBrackets ops = bracketsOf (pre ++ tc :: post).
Proof.
  intros Hcalls Hpre Hreal Hg Hne.
  destruct (mapM_iteration_uninterrupted _ _ _ _ _ _ Hpre)
    as (outs & ops1 & Hm & <- & Hquiet).
  destruct (perform_real _ _ _ _ _ Hreal) as (ops2 & Hperform).
  destruct (executeLoop_interrupted tools g pre tc post _ _ _ _ _ _ _ _ _
              Hm Hquiet Hperform Hg Hne)
    as (skipped & ops3 & w4 & Hrun & Hlen & Hids & Hsk & Hb).
  exists skipped, (ops1 ++ ops2 ++ ops3), w4.
  unfold executeToolCalls. rewrite Hcalls.
  split; [exact Hrun|]. split; [|auto].
  destruct (mapM_iteration_spec _ _ _ _ _ _ _ Hm) as [_ Hi].
  rewrite <- (length_map tr_ToolCallID), Hi, length_map. reflexivity.
Qed.

(** C5.  [AgentLoopContinue] returns an error exactly when the context has
    no message or its last message has the assistant role; then it
    returns no stream, so that nothing is emitted.  Otherwise it returns
    no error and the stream fed by the goroutine that pushes
    [agent_start] and [turn_start] and runs the loop on a copy of the
    context with no new message yet. *)
Theorem AgentLoopContinue_error_iff (fuel : nat) (agentCtx : AgentContext W)
  (config : AgentLoopConfig W) (streamFn : option (StreamFn W)) :
  (snd (AgentLoopContinue W now Quote MarshalIndent fuel agentCtx config streamFn)
   <> None
   <-> (Messages W agentCtx = []
        \/ exists m, last (Messages W agentCtx) = Some m
                     /\ Role (Message m) = RoleAssistant))
  /\ (snd (AgentLoopContinue W now Quote MarshalIndent fuel agentCtx config
             streamFn) <> None ->
      fst (AgentLoopContinue W now Quote MarshalIndent fuel agentCtx config
             streamFn) = None)
  /\ (snd (AgentLoopContinue W now Quote MarshalIndent fuel agentCtx config
             streamFn) = None ->
      exists body,
        fst (AgentLoopContinue W now Quote MarshalIndent fuel agentCtx config
               streamFn) = Some body
        /\ body = (push W (event AgentEventStart) ;;;
                   push W (event TurnEventStart) ;;;
                   runLoop W now Quote MarshalIndent fuel
                     {| SystemPrompt := SystemPrompt W agentCtx;
                        Messages := Messages W agentCtx;
                        Tools := Tools W agentCtx |} [] config streamFn)
        /\ forall w x ops w',
             body w = Ok (x, ops, w') ->
             exists rest,
               ops = OpPush (event AgentEventStart)
                     :: OpPush (event TurnEventStart) :: rest).
Proof.
  unfold AgentLoopContinue.
  destruct (last (Messages W agentCtx)) as [lastMsg|] eqn:Hlast.
  - unfold eqs. case_bool_decide as Hrole; cbn [fst snd].
    + split; [|split].
      * split; [|discriminate]. intros _. right. eauto.
      * reflexivity.
      * discriminate.
    + split; [|split].
      * split; [congruence|]. intros [Hnil|(m & [= <-] & Hm)].
        -- rewrite Hnil in Hlast. discriminate.
        -- contradiction.
      * congruence.
      * intros _. eexists. split; [reflexivity|]. split; [reflexivity|].
        intros w x ops w' H. run_inv H. eexists. reflexivity.
  - apply last_None in Hlast. cbn [fst snd]. split; [|split].
    + split; [auto|discriminate].
    + reflexivity.
    + discriminate.
Qed.

End LoopFacts.

Section LoopExamples.

Import ai agent Examples.
Local Open Scope string_scope.
Local Open Scope list_scope.

(** C1 on the scripted world: of the three calls the first runs and
    returns the result of the tool, the second fails its validation, a
    steering message arrives, and the third is skipped. *)
Lemma executeToolCalls_skip_symmetry_witness :
  exists results ops w',
    executeToolCalls World now0 Quote0 MarshalIndent0 [echoTool] threeCalls
      (Some steer0) steeredWorld
    = Ok ((results, [userText "stop, do X"]), ops, w')
    /\ length results = 3%nat
    /\ map tr_ToolCallID results = ["t1"; "t2"; "t3"]
    /\ map tr_IsError results = [false; true; true]
    /\ (exists r2 r3, map tr_Content results
                      = [[NewTextContent "done"]; r2; r3])
    /\ toolBrackets ops = bracketsOf [call1; call2; call3].
Proof.
  edestruct (executeToolCalls_skip_symmetry now0 Quote0 MarshalIndent0
               [echoTool] threeCalls steer0 [call1] call2 [call3] steeredWorld)
    as (skipped & ops & w4 & Hrun & _ & Hlen & Hids & Hsk & Hb).
  - reflexivity.
  - eapply ran_next; [| |right; reflexivity|apply ran_none].
    + do 3 eexists. split; [|split; reflexivity].
      eapply ExecuteReturned; reflexivity.
    + reflexivity.
  - do 3 eexists. split; [|split; reflexivity].
    eapply ArgumentsRefused; reflexivity.
  - reflexivity.
  - discriminate.
  - inversion Hsk as [|? r3 ? ? (_ & _ & He3 & Hc3) Hnil]; subst.
    inversion Hnil; subst.
    do 3 eexists. split; [exact Hrun|]. split; [exact Hlen|].
    split; [exact Hids|]. split; [|split; [|exact Hb]].
    + cbn. rewrite He3. reflexivity.
    + do 2 eexists. reflexivity.
Defined.

End LoopExamples.

(** ** Overflow detection *)

Section OverflowFacts.

Import ai Examples.
Local Open Scope string_scope.
Local Open Scope list_scope.

Lemma Exists_existsb_iff {A} (f : A -> bool) (l : list A) :
  Exists (fun x => f x = true) l <-> existsb f l = true.
Proof.
  induction l as [|x l IH]; cbn.
  - split; [intros H; inversion H | discriminate].
  - rewrite Exists_cons, IH. destruct (f x); cbn; intuition congruence.
Qed.

Lemma no_pattern_matches_empty :
  existsb (fun p => MatchString p "") overflowPatterns
  || MatchString noBodyPattern "" = false.
Proof. vm_compute. reflexivity. Qed.

(** The patterns at work on texts of the providers. *)
Example overflow_phrases_match :
  map (fun text => IsContextOverflow (finishedWith StopReasonError text 0 0) 0)
      [ "Error: Prompt Is Too Long for this model";
        "the input token count 17 exceeds the maximum";
        "This model's maximum context length is 128000 tokens.";
        "maximum context length is many tokens";
        "context_length_exceeded"; "400 status code (no body)";
        "413(no body)"; "see: 413 (no body)"; "rate limited"; "" ]
  = [true; true; true; false; true; true; true; false; false; false].
Proof. vm_compute. reflexivity. Qed.

(** The derivative matcher and the texts of a pattern. *)

Lemma then_ext (P P' Q Q' : list ascii -> Prop) :
  (forall l, P l <-> P' l) -> (forall l, Q l <-> Q' l) ->
  forall l, then_ P Q l <-> then_ P' Q' l.
Proof.
  intros HP HQ l. unfold then_.
  split; intros (l1 & l2 & -> & H1 & H2); exists l1, l2;
    (split; [reflexivity|]); split; try apply HP; try apply HQ; assumption.
Qed.

Lemma either_ext (P P' Q Q' : list ascii -> Prop) :
  (forall l, P l <-> P' l) -> (forall l, Q l <-> Q' l) ->
  forall l, either P Q l <-> either P' Q' l.
Proof. intros HP HQ l. unfold either. rewrite HP, HQ. reflexivity. Qed.

Lemma maybe_ext (P P' : list ascii -> Prop) :
  (forall l, P l <-> P' l) ->
  forall l, either (matches Eps) P l <-> maybe P' l.
Proof. intros HP l. unfold either, maybe. cbn. rewrite HP. reflexivity. Qed.

Lemma nullable_matches (r : re) : nullable r = true <-> matches r [].
Proof.
  induction r as [| |cs| |r1 IH1 r2 IH2|r1 IH1 r2 IH2|r1 IH1];
    cbn [nullable matches].
  - split; [discriminate|tauto].
  - split; auto.
  - split; [discriminate|]. intros (a & Ha & _). discriminate.
  - split; [discriminate|]. intros (a & Ha & _). discriminate.
  - rewrite andb_true_iff, IH1, IH2. unfold then_. split.
    + intros [H1 H2]. exists [], []. auto.
    + intros (l1 & l2 & Hl & H1 & H2). symmetry in Hl.
      apply app_eq_nil in Hl. destruct Hl as [-> ->]. auto.
  - rewrite orb_true_iff, IH1, IH2. reflexivity.
  - split; [intros _; constructor|reflexivity].
Qed.

Lemma matches_cat (r1 r2 : re) (l : list ascii) :
  matches (cat r1 r2) l <-> then_ (matches r1) (matches r2) l.
Proof.
  assert (Hnever1 : forall P, then_ (fun _ => False) P l <-> False).
  { intros P. split; [intros (? & ? & _ & [] & _)|tauto]. }
  assert (Hnever2 : forall P, then_ P (fun _ => False) l <-> False).
  { intros P. split; [intros (? & ? & _ & _ & [])|tauto]. }
  assert (Heps : forall P, then_ (fun l => l = []) P l <-> P l).
  { intros P. split.
    - intros (l1 & l2 & -> & -> & H). exact H.
    - intros H. exists [], l. auto. }
  destruct r1; destruct r2; cbn [cat matches];
    rewrite ?Hnever1, ?Hnever2, ?Heps; reflexivity.
Qed.

Lemma matches_alt (r1 r2 : re) (l : list ascii) :
  matches (alt r1 r2) l <-> matches r1 l \/ matches r2 l.
Proof.
  destruct r1; destruct r2; cbn [alt matches]; unfold either; tauto.
Qed.

Lemma star_cons_inv (P : list ascii -> Prop) a l :
  star P (a :: l) ->
  exists l1 l2, l = l1 ++ l2 /\ P (a :: l1) /\ star P l2.
Proof.
  intros H. remember (a :: l) as al eqn:E. revert a l E.
  induction H as [|l1 l2 H1 H2 IH]; intros a l E; [discriminate|].
  destruct l1 as [|b l1].
  - cbn in E. apply IH. exact E.
  - cbn in E. injection E as -> <-. exists l1, l2. auto.
Qed.

Lemma deriv_matches (a : ascii) (r : re) :
  forall l, matches (deriv a r) l <-> matches r (a :: l).
Proof.
  induction r as [| |cs| |r1 IH1 r2 IH2|r1 IH1 r2 IH2|r1 IH1]; intros l;
    cbn [deriv].
  - reflexivity.
  - cbn. split; [tauto|discriminate].
  - destruct (existsb (Ascii.eqb a) cs) eqn:E; cbn [matches].
    + apply existsb_exists in E. destruct E as (x & Hx & Hax).
      apply Ascii.eqb_eq in Hax. subst x. split.
      * intros ->. exists a. auto.
      * intros (b & [= <- ->] & _). reflexivity.
    + split; [tauto|]. intros (b & [= <- ->] & Hin).
      assert (Ht : existsb (Ascii.eqb a) cs = true).
      { apply existsb_exists. exists a. split; [exact Hin|].
        apply Ascii.eqb_refl. }
      congruence.
  - destruct (Ascii.eqb a (chr 10)) eqn:E; cbn [matches].
    + apply Ascii.eqb_eq in E. split; [tauto|].
      intros (b & [= <- ->] & Hne). contradiction.
    + apply Ascii.eqb_neq in E. split.
      * intros ->. exists a. auto.
      * intros (b & [= <- ->] & _). reflexivity.
  - rewrite matches_alt, matches_cat. cbn [matches]. unfold then_ at 2.
    split.
    + intros [(l1 & l2 & -> & H1 & H2)|H].
      * exists (a :: l1), l2. split; [reflexivity|].
        split; [apply IH1; exact H1|exact H2].
      * destruct (nullable r1) eqn:En; [|destruct H].
        exists [], (a :: l). split; [reflexivity|].
        split; [apply nullable_matches; exact En|apply IH2; exact H].
    + intros (l1 & l2 & E & H1 & H2). destruct l1 as [|b l1].
      * cbn in E. subst l2. right.
        apply nullable_matches in H1. rewrite H1. apply IH2. exact H2.
      * cbn in E. injection E as <- ->. left. exists l1, l2.
        split; [reflexivity|]. split; [apply IH1; exact H1|exact H2].
  - rewrite matches_alt. cbn [matches]. unfold either.
    rewrite IH1, IH2. reflexivity.
  - rewrite matches_cat. cbn [matches]. split.
    + intros (l1 & l2 & -> & H1 & H2).
      change (a :: l1 ++ l2) with ((a :: l1) ++ l2).
      constructor; [apply IH1; exact H1|exact H2].
    + intros H. apply star_cons_inv in H.
      destruct H as (l1 & l2 & -> & H1 & H2). exists l1, l2.
      split; [reflexivity|]. split; [apply IH1; exact H1|exact H2].
Qed.

Lemma prefix_match_spec (r : re) (l : list ascii) :
  prefix_match r l = true <-> exists m post, l = m ++ post /\ matches r m.
Proof.
  revert r. induction l as [|a l IH]; intros r; cbn [prefix_match].
  - rewrite orb_false_r, nullable_matches. split.
    + intros H. exists [], []. auto.
    + intros (m & post & E & H). symmetry in E. apply app_eq_nil in E.
      destruct E as [-> _]. exact H.
  - rewrite orb_true_iff, nullable_matches, IH. split.
    + intros [H|(m & post & -> & H)].
      * exists [], (a :: l). auto.
      * exists (a :: m), post. split; [reflexivity|].
        apply deriv_matches. exact H.
    + intros (m & post & E & H). destruct m as [|b m].
      * left. exact H.
      * cbn in E. injection E as <- ->. right. exists m, post.
        split; [reflexivity|]. apply deriv_matches. exact H.
Qed.

Lemma search_spec (r : re) (l : list ascii) :
  search r l = true
  <-> exists pre m post, l = pre ++ m ++ post /\ matches r m.
Proof.
  induction l as [|a l IH]; cbn [search].
  - rewrite orb_false_r, prefix_match_spec. split.
    + intros (m & post & E & H). exists [], m, post. auto.
    + intros (pre & m & post & E & H). symmetry in E.
      apply app_eq_nil in E. destruct E as [-> E].
      exists m, post. auto.
  - rewrite orb_true_iff, prefix_match_spec, IH. split.
    + intros [(m & post & E & H)|(pre & m & post & -> & H)].
      * exists [], m, post. auto.
      * exists (a :: pre), m, post. auto.
    + intros (pre & m & post & E & H). destruct pre as [|b pre].
      * left. exists m, post. auto.
      * cbn in E. injection E as <- ->. right. exists pre, m, post. auto.
Qed.

(** The characters of a pattern under [(?i)]. *)

Lemma In_all_ascii (a : ascii) : In a (map ascii_of_nat (seq 0 256)).
Proof.
  rewrite <- (ascii_nat_embedding a). apply in_map, in_seq.
  pose proof (nat_ascii_bounded a). lia.
Qed.

(** Byte by byte: [ci c] offers the bytes that are [c] up to letter
    case, and the Kelvin sign or the long s for [k] and [s] only. *)
Lemma ci_checked :
  forallb
    (fun c =>
       let ok l1 :=
         forallb (fun a => Bool.eqb (existsb (Ascii.eqb a) l1)
                             (Ascii.eqb (to_lower a) (to_lower c)))
                 (map ascii_of_nat (seq 0 256)) in
       match ci c with
       | OneOf l1 =>
           ok l1 && negb (Ascii.eqb (to_lower c) (chr 107))
           && negb (Ascii.eqb (to_lower c) (chr 115))
       | Alt (OneOf l1) (Cat (OneOf [x]) (Cat (OneOf [y]) (OneOf [z]))) =>
           ok l1 && Ascii.eqb (to_lower c) (chr 107)
           && negb (Ascii.eqb (to_lower c) (chr 115))
           && Ascii.eqb x (chr 226) && Ascii.eqb y (chr 132)
           && Ascii.eqb z (chr 170)
       | Alt (OneOf l1) (Cat (OneOf [x]) (OneOf [y])) =>
           ok l1 && Ascii.eqb (to_lower c) (chr 115)
           && negb (Ascii.eqb (to_lower c) (chr 107))
           && Ascii.eqb x (chr 197) && Ascii.eqb y (chr 191)
       | _ => false
       end)
    (map ascii_of_nat (seq 0 256)) = true.
Proof. vm_compute. reflexivity. Qed.

Lemma matches_ci (c : ascii) (l : list ascii) :
  matches (ci c) l <-> is_char c l.
Proof.
  pose proof ci_checked as H. rewrite forallb_forall in H.
  specialize (H c (In_all_ascii c)). cbv zeta in H.
  assert (Hone : forall l1,
             forallb (fun a => Bool.eqb (existsb (Ascii.eqb a) l1)
                                 (Ascii.eqb (to_lower a) (to_lower c)))
                     (map ascii_of_nat (seq 0 256)) = true ->
             (matches (OneOf l1) l
              <-> exists a, l = [a] /\ to_lower a = to_lower c)).
  { intros l1 Hok. rewrite forallb_forall in Hok. cbn [matches].
    split; intros (a & -> & Ha); exists a; (split; [reflexivity|]);
      specialize (Hok a (In_all_ascii a)); apply Bool.eqb_prop in Hok.
    - apply Ascii.eqb_eq. rewrite <- Hok. apply existsb_exists.
      exists a. split; [exact Ha|apply Ascii.eqb_refl].
    - apply Ascii.eqb_eq in Ha. rewrite Ha in Hok.
      apply existsb_exists in Hok. destruct Hok as (x & Hx & Hax).
      apply Ascii.eqb_eq in Hax. subst x. exact Hx. }
  unfold is_char.
  destruct (ci c) as [| |l1| |r1 r2|r1 r2|r1]; try discriminate.
  - apply andb_prop in H. destruct H as [H Hs].
    apply andb_prop in H. destruct H as [Hok Hk].
    apply negb_true_iff, Ascii.eqb_neq in Hk, Hs.
    rewrite (Hone l1 Hok). tauto.
  - destruct r1 as [| |l1| | | |]; try discriminate.
    destruct r2 as [| | | |r2 r3| |]; try discriminate.
    destruct r2 as [| |[|x [|? ?]]| | | |]; try discriminate.
    destruct r3 as [| |[|y [|? ?]]| |r3 r4| |]; try discriminate.
    + do 4 (apply andb_prop in H; destruct H as [H ?]).
      repeat match goal with
             | E : Ascii.eqb _ _ = true |- _ => apply Ascii.eqb_eq in E
             | E : negb (Ascii.eqb _ _) = true |- _ =>
                 apply negb_true_iff, Ascii.eqb_neq in E
             end.
      subst x y. cbn [matches]. unfold either. rewrite (Hone l1 H).
      split.
      * intros [Ha|(m1 & m2 & -> & (a & -> & [<-|[]]) & (b & -> & [<-|[]]))];
          [left; exact Ha|]. right. right. split; [assumption|reflexivity].
      * intros [Ha|[[Hk _]|[_ ->]]]; [left; exact Ha|contradiction|].
        right. exists [chr 197], [chr 191]. split; [reflexivity|].
        split; eexists; (split; [reflexivity|left; reflexivity]).
    + destruct r3 as [| |[|y [|? ?]]| | | |]; try discriminate.
      destruct r4 as [| |[|z [|? ?]]| | | |]; try discriminate.
      do 5 (apply andb_prop in H; destruct H as [H ?]).
      repeat match goal with
             | E : Ascii.eqb _ _ = true |- _ => apply Ascii.eqb_eq in E
             | E : negb (Ascii.eqb _ _) = true |- _ =>
                 apply negb_true_iff, Ascii.eqb_neq in E
             end.
      subst x y z. cbn [matches]. unfold either. rewrite (Hone l1 H).
      split.
      * intros [Ha|(m1 & m2 & -> & (a & -> & [<-|[]])
                    & (m3 & m4 & -> & (b & -> & [<-|[]])
                       & (d & -> & [<-|[]])))];
          [left; exact Ha|]. right. left. split; [assumption|reflexivity].
      * intros [Ha|[[_ ->]|[Hs _]]]; [left; exact Ha| |contradiction].
        right. exists [chr 226], [chr 132; chr 170]. split; [reflexivity|].
        split; [eexists; split; [reflexivity|left; reflexivity]|].
        exists [chr 132], [chr 170]. split; [reflexivity|].
        split; eexists; (split; [reflexivity|left; reflexivity]).
Qed.

Lemma matches_lit (s : string) (l : list ascii) :
  matches (lit s) l <-> says s l.
Proof.
  unfold lit, says. revert l.
  induction (bytes s) as [|c cs IH]; intros l; cbn [fold_right spells].
  - reflexivity.
  - rewrite matches_cat. apply then_ext; [apply matches_ci|exact IH].
Qed.

Lemma star_Forall (cs : list ascii) (l : list ascii) :
  star (matches (OneOf cs)) l <-> Forall (fun a => In a cs) l.
Proof.
  split.
  - induction 1 as [|l1 l2 (a & -> & Ha) _ IH]; constructor; assumption.
  - induction 1 as [|a l Ha _ IH]; [constructor|].
    change (a :: l) with ([a] ++ l). constructor; [|exact IH].
    exists a. auto.
Qed.

Lemma matches_spaces (l : list ascii) : matches (Star space) l <-> blanks l.
Proof. apply star_Forall. Qed.

Lemma matches_any (l : list ascii) : matches (Star NotNL) l <-> one_line l.
Proof.
  cbn [matches]. unfold one_line. split.
  - induction 1 as [|l1 l2 (a & -> & Ha) _ IH]; constructor; assumption.
  - induction 1 as [|a l Ha _ IH]; [constructor|].
    change (a :: l) with ([a] ++ l). constructor; [|exact IH].
    exists a. auto.
Qed.

Lemma matches_digits (l : list ascii) : matches (plus digit) l <-> number l.
Proof.
  unfold plus, number, digit. cbn [matches]. split.
  - intros (l1 & l2 & -> & (a & -> & Ha) & H). split; [discriminate|].
    constructor; [exact Ha|]. apply star_Forall. exact H.
  - intros [Hne H]. destruct H as [|a l Ha H]; [contradiction|].
    exists [a], l. split; [reflexivity|].
    split; [exists a; auto|]. apply star_Forall. exact H.
Qed.

Lemma matches_separator (l : list ascii) :
  matches (OneOf (bytes "_ ")) l <-> separator l.
Proof.
  cbn [matches]. unfold separator. cbn. split.
  - intros (a & -> & [<-|[<-|[]]]); auto.
  - intros [->| ->]; eexists; (split; [reflexivity|]); auto.
Qed.

(** Rewrites the texts of a pattern into the reading of its phrase. *)
Ltac phrase :=
  let l := fresh "l" in
  intros l;
  lazymatch goal with
  | |- _ <-> says ?s l => exact (matches_lit s l)
  | |- _ <-> number l => exact (matches_digits l)
  | |- _ <-> one_line l => exact (matches_any l)
  | |- _ <-> blanks l => exact (matches_spaces l)
  | |- _ <-> separator l => exact (matches_separator l)
  | |- matches (Cat ?a ?b) l <-> then_ _ _ l =>
      revert l; apply (then_ext (matches a) _ (matches b) _); phrase
  | |- matches (opt ?a) l <-> maybe _ l =>
      revert l; apply (maybe_ext (matches a) _); phrase
  | |- matches (Alt ?a ?b) l <-> either _ _ l =>
      revert l; apply (either_ext (matches a) _ (matches b) _); phrase
  end.

Lemma patterns_read :
  Forall2 (fun p P => anchored p = false
                      /\ forall l, matches (body p) l <-> P l)
          overflowPatterns overflowPhrases.
Proof.
  unfold overflowPatterns, overflowPhrases. cbn [map].
  repeat (constructor;
          [split; [reflexivity|cbn [body unanchored]; phrase]|]).
  constructor.
Qed.

Lemma Exists_patterns (text : string) :
  Exists (fun p => MatchString p text = true) overflowPatterns
  <-> mentionsOverflow text.
Proof.
  unfold mentionsOverflow.
  induction patterns_read as [|p P ps Ps [Ha HP] _ IH].
  - split; [intros H; inversion H|].
    intros (? & ? & ? & _ & H). inversion H.
  - rewrite Exists_cons, IH. unfold MatchString. rewrite Ha, search_spec.
    split.
    + intros [(pre & m & post & E & H)|(pre & m & post & E & H)];
        exists pre, m, post; (split; [exact E|]).
      * left. apply HP. exact H.
      * right. exact H.
    + intros (pre & m & post & E & H). apply Exists_cons in H.
      destruct H as [H|H].
      * left. exists pre, m, post. split; [exact E|]. apply HP. exact H.
      * right. exists pre, m, post. auto.
Qed.

Lemma noBodyPattern_reads (text : string) :
  MatchString noBodyPattern text = true <-> bodyless4xx text.
Proof.
  unfold MatchString, bodyless4xx. cbn [anchored noBodyPattern body].
  rewrite prefix_match_spec.
  assert (H : forall l,
             matches (Cat (lit "4") (Cat (Alt (lit "00") (lit "13"))
               (Cat (Star space) (Cat (opt (lit "status code"))
                 (Cat (Star space) (lit "(no body)")))))) l
             <-> then_ (says "4") (then_ (either (says "00") (says "13"))
                   (then_ blanks (then_ (maybe (says "status code"))
                      (then_ blanks (says "(no body)"))))) l).
  { phrase. }
  split; intros (m & post & E & Hm); exists m, post; (split; [exact E|]);
    apply H; exact Hm.
Qed.

Lemma IsContextOverflow_patterns (msg : AssistantMessage)
  (contextWindow : Go.int) :
  IsContextOverflow msg contextWindow = true <->
  (am_StopReason msg = StopReasonError
   /\ (Exists (fun p => MatchString p (am_ErrorMessage msg) = true)
              overflowPatterns
       \/ MatchString noBodyPattern (am_ErrorMessage msg) = true))
  \/ (0 < contextWindow /\ am_StopReason msg = StopReasonStop
      /\ contextWindow
         < Go.add (u_Input (am_Usage msg)) (u_CacheRead (am_Usage msg))).
Proof.
  unfold IsContextOverflow, eqs.
  rewrite Exists_existsb_iff.
  set (E := existsb _ overflowPatterns).
  set (N := MatchString noBodyPattern _).
  assert (Hempty : am_ErrorMessage msg = "" -> E = false /\ N = false).
  { intros He. subst E N. rewrite He.
    apply orb_false_elim, no_pattern_matches_empty. }
  assert (Hdiff : StopReasonError <> StopReasonStop) by discriminate.
  destruct (Z.ltb_spec 0 contextWindow);
    destruct (Z.ltb_spec contextWindow
                (Go.add (u_Input (am_Usage msg)) (u_CacheRead (am_Usage msg))));
    repeat case_bool_decide; destruct E, N; cbn [andb orb negb];
    intuition (try congruence; try lia).
Qed.

(** C6.  [IsContextOverflow] holds exactly when the stop reason is
    [error] and the error text has one of the overflow phrases in it, in
    any letter case, or begins with the report of a 400 or 413 response
    without a body, or when the context window is positive, the stop
    reason is [stop] and the sum of the input and cache-read tokens (an
    [int] sum, as the code computes it) exceeds the context window; it
    is false for every other message. *)
Theorem IsContextOverflow_iff (msg : AssistantMessage) (contextWindow : Go.int) :
  IsContextOverflow msg contextWindow = true <->
  (am_StopReason msg = StopReasonError
   /\ (mentionsOverflow (am_ErrorMessage msg)
       \/ bodyless4xx (am_ErrorMessage msg)))
  \/ (0 < contextWindow /\ am_StopReason msg = StopReasonStop
      /\ contextWindow
         < Go.add (u_Input (am_Usage msg)) (u_CacheRead (am_Usage msg))).
Proof.
  rewrite IsContextOverflow_patterns, Exists_patterns, noBodyPattern_reads.
  reflexivity.
Qed.

(** Where the sum fits an [int], it is the sum in the integers. *)
Lemma IsContextOverflow_iff_in_range (msg : AssistantMessage)
  (contextWindow : Go.int) :
  Go.in_range (u_Input (am_Usage msg) + u_CacheRead (am_Usage msg)) ->
  (IsContextOverflow msg contextWindow = true <->
   (am_StopReason msg = StopReasonError
    /\ (mentionsOverflow (am_ErrorMessage msg)
        \/ bodyless4xx (am_ErrorMessage msg)))
   \/ (0 < contextWindow /\ am_StopReason msg = StopReasonStop
       /\ contextWindow
          < u_Input (am_Usage msg) + u_CacheRead (am_Usage msg))).
Proof.
  intros Hr.
  rewrite IsContextOverflow_patterns, Exists_patterns, noBodyPattern_reads.
  unfold Go.add. rewrite (wrap_in_range _ Hr). reflexivity.
Qed.

(** The sum of C6 is Go's: with the largest [int] as input tokens and one
    cache-read token it wraps around to the least [int], and the code
    answers no for a context window of 1, which the sum taken in the
    integers would exceed. *)
Lemma IsContextOverflow_sum_wraps :
  Go.in_range Go.int_max /\ Go.in_range 1
  /\ 0 < 1
  /\ am_StopReason (finishedWith StopReasonStop "" Go.int_max 1) = StopReasonStop
  /\ 1 < u_Input (am_Usage (finishedWith StopReasonStop "" Go.int_max 1))
         + u_CacheRead (am_Usage (finishedWith StopReasonStop "" Go.int_max 1))
  /\ IsContextOverflow (finishedWith StopReasonStop "" Go.int_max 1) 1 = false.
Proof.
  repeat split; try reflexivity; vm_compute; congruence.
Qed.

End OverflowFacts.

(** ** Rounding in binary64

    What the operations of [SpecFloat], by which the kernel's [float]
    is specified, do to the numbers: [binary_round_aux] rounds to
    nearest with a relative error of at most [2 ^ -53], as long as the
    result is a normal number. *)

Section RoundingFacts.

Import SpecFloat.

(** The number of binary digits of a positive number. *)
Lemma digits2_pos_bounds (m : positive) :
  2 ^ (Zpos (digits2_pos m) - 1) <= Zpos m < 2 ^ Zpos (digits2_pos m).
Proof.
  induction m as [m IH|m IH|]; cbn [digits2_pos].
  - rewrite Pos2Z.inj_succ.
    replace (Z.succ (Zpos (digits2_pos m)) - 1) with
      (Z.succ (Zpos (digits2_pos m) - 1)) by lia.
    rewrite !Z.pow_succ_r by lia. lia.
  - rewrite Pos2Z.inj_succ.
    replace (Z.succ (Zpos (digits2_pos m)) - 1) with
      (Z.succ (Zpos (digits2_pos m) - 1)) by lia.
    rewrite !Z.pow_succ_r by lia. lia.
  - cbn. lia.
Qed.

Lemma digits2_pos_unique (m : positive) (d : Z) :
  2 ^ (d - 1) <= Zpos m < 2 ^ d -> Zpos (digits2_pos m) = d.
Proof.
  intros [Hlo Hhi]. pose proof (digits2_pos_bounds m) as [Blo Bhi].
  assert (0 < d).
  { destruct (Z.ltb_spec 0 d) as [|Hd]; [assumption|].
    assert (2 ^ d <= 2 ^ 0) by (destruct (Z.eq_dec d 0) as [->|];
      [lia|rewrite Z.pow_neg_r by lia; cbn; lia]).
    cbn in *. lia. }
  assert (Zpos (digits2_pos m) - 1 < d).
  { apply (Z.pow_lt_mono_r_iff 2); lia. }
  assert (d - 1 < Zpos (digits2_pos m)).
  { apply (Z.pow_lt_mono_r_iff 2); lia. }
  lia.
Qed.

Lemma iter_pos_nat {A} (f : A -> A) (p : positive) (x : A) :
  iter_pos f p x = Nat.iter (Pos.to_nat p) f x.
Proof.
  assert (Hswap : forall n y, Nat.iter n f (f y) = f (Nat.iter n f y)).
  { induction n as [|n IH]; intros y; [reflexivity|].
    rewrite !Nat.iter_succ, IH. reflexivity. }
  assert (Hadd : forall n k y,
             Nat.iter (n + k) f y = Nat.iter n f (Nat.iter k f y)).
  { induction n as [|n IH]; intros k y; [reflexivity|].
    change (S n + k)%nat with (S (n + k)).
    rewrite !Nat.iter_succ, IH. reflexivity. }
  revert x. induction p as [p IH|p IH|]; intros x; cbn [iter_pos].
  - rewrite !IH, Pos2Nat.inj_xI, Nat.iter_succ.
    replace (2 * Pos.to_nat p)%nat with (Pos.to_nat p + Pos.to_nat p)%nat
      by lia.
    rewrite Hadd, !Hswap. reflexivity.
  - rewrite !IH, Pos2Nat.inj_xO.
    replace (2 * Pos.to_nat p)%nat with (Pos.to_nat p + Pos.to_nat p)%nat
      by lia.
    rewrite Hadd. reflexivity.
  - reflexivity.
Qed.

(** What [k] right shifts leave of [m]: the quotient, and the round and
    sticky bits that place the remainder against the half of [2 ^ k]. *)
Lemma shr_1_keeps (m k : Z) (mrs : shr_record) :
  0 <= k ->
  (0 <= shr_m mrs
   /\ exists rem,
        m = shr_m mrs * 2 ^ k + rem
        /\ match shr_r mrs, shr_s mrs with
           | false, false => rem = 0
           | false, true => 0 < 2 * rem < 2 ^ k
           | true, false => 2 * rem = 2 ^ k
           | true, true => 2 ^ k < 2 * rem < 2 * 2 ^ k
           end) ->
  0 <= shr_m (shr_1 mrs)
  /\ exists rem,
       m = shr_m (shr_1 mrs) * 2 ^ (k + 1) + rem
       /\ match shr_r (shr_1 mrs), shr_s (shr_1 mrs) with
          | false, false => rem = 0
          | false, true => 0 < 2 * rem < 2 ^ (k + 1)
          | true, false => 2 * rem = 2 ^ (k + 1)
          | true, true => 2 ^ (k + 1) < 2 * rem < 2 * 2 ^ (k + 1)
          end.
Proof.
  intros Hk (Hq & rem & Hm & Hloc).
  rewrite Z.pow_add_r by lia. change (2 ^ 1) with 2.
  assert (HX : 0 < 2 ^ k) by (apply Z.pow_pos_nonneg; lia).
  set (X := 2 ^ k) in *.
  destruct mrs as [q r s]. cbn [shr_m shr_r shr_s] in *.
  destruct q as [|[p|p|]|p]; try lia; cbn [shr_1 shr_m shr_r shr_s];
    (split; [lia|]).
  - exists rem. split; [lia|]. destruct r, s; cbn [orb]; lia.
  - exists (rem + X). split; [lia|]. destruct r, s; cbn [orb]; lia.
  - exists rem. split; [lia|]. destruct r, s; cbn [orb]; lia.
  - exists (rem + X). split; [lia|]. destruct r, s; cbn [orb]; lia.
Qed.

Lemma shr_keeps (m : Z) (n : nat) :
  0 <= m ->
  let mrs := Nat.iter n shr_1 (shr_record_of_loc m loc_Exact) in
  0 <= shr_m mrs
  /\ exists rem,
       m = shr_m mrs * 2 ^ Z.of_nat n + rem
       /\ match shr_r mrs, shr_s mrs with
          | false, false => rem = 0
          | false, true => 0 < 2 * rem < 2 ^ Z.of_nat n
          | true, false => 2 * rem = 2 ^ Z.of_nat n
          | true, true => 2 ^ Z.of_nat n < 2 * rem < 2 * 2 ^ Z.of_nat n
          end.
Proof.
  intros Hm. induction n as [|n IH]; cbv zeta.
  - cbn. split; [exact Hm|]. exists 0. split; [lia|reflexivity].
  - cbn [Nat.iter]. rewrite Nat2Z.inj_succ, <- Z.add_1_r.
    apply shr_1_keeps; [lia|exact IH].
Qed.

(** Rounding to nearest even after [k] shifts is at most half of
    [2 ^ k] away, and is the quotient or the next number. *)
Lemma round_nearest_even_spec (m k : Z) (mrs : shr_record) :
  0 <= k ->
  (0 <= shr_m mrs
   /\ exists rem,
        m = shr_m mrs * 2 ^ k + rem
        /\ match shr_r mrs, shr_s mrs with
           | false, false => rem = 0
           | false, true => 0 < 2 * rem < 2 ^ k
           | true, false => 2 * rem = 2 ^ k
           | true, true => 2 ^ k < 2 * rem < 2 * 2 ^ k
           end) ->
  let mr := round_nearest_even (shr_m mrs) (loc_of_shr_record mrs) in
  shr_m mrs <= mr <= shr_m mrs + 1
  /\ 2 * Z.abs (mr * 2 ^ k - m) <= 2 ^ k
  /\ shr_m mrs * 2 ^ k <= m < (shr_m mrs + 1) * 2 ^ k.
Proof.
  intros Hk (Hq & rem & Hm & Hloc). cbv zeta.
  assert (HX : 0 < 2 ^ k) by (apply Z.pow_pos_nonneg; lia).
  set (X := 2 ^ k) in *.
  destruct mrs as [q r s]. cbn [shr_m shr_r shr_s] in *.
  destruct r, s; cbn [loc_of_shr_record round_nearest_even];
    try destruct (Z.even q); repeat split; try lia.
Qed.


Lemma fexp_eq (x : Z) : fexp prec emax x = Z.max (x - 53) (-1074).
Proof. reflexivity. Qed.

(** A number of at most 53 digits at an exponent of the format is kept
    as it is. *)
Lemma round_aux_exact (s : bool) (m : positive) (e : Z) :
  Zpos (digits2_pos m) <= 53 -> -1074 <= e -> e <= 971 ->
  binary_round_aux prec emax s (Zpos m) e loc_Exact = S754_finite s m e.
Proof.
  intros Hd He1 He2.
  assert (Hshr : shr_fexp prec emax (Zpos m) e loc_Exact
                 = (shr_record_of_loc (Zpos m) loc_Exact, e)).
  { unfold shr_fexp, shr. rewrite fexp_eq. cbn [Zdigits2].
    destruct (Z.max (Zpos (digits2_pos m) + e - 53) (-1074) - e) eqn:E;
      [reflexivity|lia|reflexivity]. }
  unfold binary_round_aux. rewrite Hshr.
  cbn [shr_record_of_loc shr_m loc_of_shr_record round_nearest_even].
  rewrite Hshr. cbn [shr_record_of_loc shr_m].
  replace (e <=? emax - prec) with true; [reflexivity|].
  symmetry. apply Z.leb_le. change (emax - prec) with 971. lia.
Qed.

(** A number of more than 53 digits is rounded to 53 digits, to the
    nearest, as long as the result is no subnormal number and does not
    overflow. *)
Lemma round_aux_round (s : bool) (m : positive) (e : Z) :
  54 <= Zpos (digits2_pos m) ->
  -1074 <= Zpos (digits2_pos m) + e - 53 ->
  Zpos (digits2_pos m) + e - 52 <= 971 ->
  exists m' e',
    binary_round_aux prec emax s (Zpos m) e loc_Exact = S754_finite s m' e'
    /\ 2 ^ 52 <= Zpos m' < 2 ^ 53
    /\ Zpos (digits2_pos m) + e - 53 <= e' <= Zpos (digits2_pos m) + e - 52
    /\ 2 ^ 53 * Z.abs (Zpos m' * 2 ^ (e' - e) - Zpos m) <= Zpos m.
Proof.
  intros Hd Hlo Hhi.
  pose proof (digits2_pos_bounds m) as [Blo Bhi].
  set (d := Zpos (digits2_pos m)) in *.
  set (k := d - 53).
  assert (Hk : 0 < k) by (unfold k; lia).
  assert (Hpk : exists p, k = Zpos p).
  { destruct k as [|p|p]; try lia. eauto. }
  destruct Hpk as [p Hp].
  assert (Hshr : shr_fexp prec emax (Zpos m) e loc_Exact
                 = (Nat.iter (Pos.to_nat p) shr_1
                      (shr_record_of_loc (Zpos m) loc_Exact), e + k)).
  { unfold shr_fexp, shr. rewrite fexp_eq. cbn [Zdigits2]. fold d.
    replace (Z.max (d + e - 53) (-1074) - e) with k by (unfold k; lia).
    rewrite Hp, iter_pos_nat. reflexivity. }
  pose proof (shr_keeps (Zpos m) (Pos.to_nat p) ltac:(lia)) as Hinv.
  cbv zeta in Hinv. rewrite positive_nat_Z, <- Hp in Hinv.
  set (mrs := Nat.iter (Pos.to_nat p) shr_1
                (shr_record_of_loc (Zpos m) loc_Exact)) in *.
  pose proof (round_nearest_even_spec (Zpos m) k mrs ltac:(lia) Hinv)
    as (Hmr & Herr & Hq).
  cbv zeta in Hmr, Herr.
  set (mr := round_nearest_even (shr_m mrs) (loc_of_shr_record mrs)) in *.
  assert (HX : 0 < 2 ^ k) by (apply Z.pow_pos_nonneg; lia).
  assert (Hd1 : 2 ^ (d - 1) = 2 ^ 52 * 2 ^ k).
  { rewrite <- Z.pow_add_r by lia. f_equal. unfold k. lia. }
  assert (Hd2 : 2 ^ d = 2 ^ 53 * 2 ^ k).
  { rewrite <- Z.pow_add_r by lia. f_equal. unfold k. lia. }
  rewrite Hd1 in Blo. rewrite Hd2 in Bhi.
  assert (Hqb : 2 ^ 52 <= shr_m mrs < 2 ^ 53).
  { split.
    - apply Z.lt_succ_r. apply (Z.mul_lt_mono_pos_r (2 ^ k)); lia.
    - apply (Z.mul_lt_mono_pos_r (2 ^ k)); lia. }
  assert (Hrel : 2 ^ 53 * Z.abs (mr * 2 ^ k - Zpos m) <= Zpos m).
  { change (2 ^ 53) with (2 * 2 ^ 52). nia. }
  unfold binary_round_aux. rewrite Hshr. fold mr.
  destruct (Z.eq_dec mr (2 ^ 53)) as [Hc|Hc].
  - (* the rounding carries into a 54th digit *)
    rewrite Hc.
    exists (Z.to_pos (2 ^ 52)), (e + k + 1).
    split; [|split; [|split]].
    + unfold shr_fexp, shr. rewrite fexp_eq.
      change (Zdigits2 (2 ^ 53)) with 54.
      replace (Z.max (54 + (e + k) - 53) (-1074) - (e + k)) with 1
        by (unfold k; lia).
      cbn [iter_pos shr_record_of_loc].
      change (shr_m (shr_1 {| shr_m := 2 ^ 53; shr_r := false;
                              shr_s := false |}))
        with (Zpos (Z.to_pos (2 ^ 52))).
      cbv iota beta.
      replace (e + k + 1 <=? emax - prec) with true; [reflexivity|].
      symmetry. apply Z.leb_le. change (emax - prec) with 971. unfold k. lia.
    + cbn. lia.
    + unfold k. lia.
    + replace (e + k + 1 - e) with (k + 1) by lia.
      rewrite Z.pow_add_r by lia.
      change (Zpos (Z.to_pos (2 ^ 52))) with (2 ^ 52).
      replace (2 ^ 52 * (2 ^ k * 2 ^ 1)) with (2 ^ 53 * 2 ^ k)
        by (change (2 ^ 53) with (2 ^ 52 * 2); change (2 ^ 1) with 2; ring).
      rewrite Hc in Hrel. exact Hrel.
  - assert (Hmrb : 2 ^ 52 <= mr < 2 ^ 53) by lia.
    assert (Hpm : exists m', mr = Zpos m').
    { destruct mr as [|m'|m']; try (cbn in Hmrb; lia). eauto. }
    destruct Hpm as [m' Hm'].
    exists m', (e + k). split; [|split; [|split]].
    + rewrite Hm'. unfold shr_fexp, shr. rewrite fexp_eq. cbn [Zdigits2].
      rewrite (digits2_pos_unique m' 53) by (rewrite <- Hm'; cbn; lia).
      replace (Z.max (53 + (e + k) - 53) (-1074) - (e + k)) with 0
        by (unfold k; lia).
      cbn [shr_record_of_loc shr_m].
      replace (e + k <=? emax - prec) with true; [reflexivity|].
      symmetry. apply Z.leb_le. change (emax - prec) with 971. unfold k. lia.
    + rewrite <- Hm'. exact Hmrb.
    + unfold k. lia.
    + replace (e + k - e) with k by lia. rewrite <- Hm'. exact Hrel.
Qed.

End RoundingFacts.

Section FloatFacts.

Import ai SpecFloat.

Lemma pow2_pos (e : Z) : (0 < 2 ^ e)%Q.
Proof. apply Qpower_0_lt. reflexivity. Qed.

Lemma pow2_add (a b : Z) : (2 ^ (a + b) == 2 ^ a * 2 ^ b)%Q.
Proof. apply Qpower_plus. discriminate. Qed.

Lemma pow2_inject (n : Z) : 0 <= n -> (2 ^ n == inject_Z (2 ^ n))%Q.
Proof. intros Hn. rewrite Zpower_Qpower by exact Hn. reflexivity. Qed.

(** A mantissa moved to a lower exponent stands for the same number. *)
Lemma value_shifted (m : Z) (e e' : Z) :
  e' <= e ->
  (inject_Z (m * 2 ^ (e - e')) * 2 ^ e' == inject_Z m * 2 ^ e)%Q.
Proof.
  intros He. replace e with (e' + (e - e')) at 2 by lia.
  rewrite pow2_add, (pow2_inject (e - e')) by lia.
  rewrite inject_Z_mult. ring.
Qed.

(** The relative error of a rounding, on the numbers. *)
Lemma value_rounded (m m' : positive) (e e' : Z) :
  e <= e' ->
  2 ^ 53 * Z.abs (Zpos m' * 2 ^ (e' - e) - Zpos m) <= Zpos m ->
  upTo (1 - roundoff) (1 + roundoff)
    (inject_Z (Zpos m') * 2 ^ e') (inject_Z (Zpos m) * 2 ^ e).
Proof.
  intros He Hrel.
  assert (HX : 0 < 2 ^ (e' - e)) by (apply Z.pow_pos_nonneg; lia).
  set (X := 2 ^ (e' - e)) in *.
  assert (H1 : (2 ^ 53 - 1) * Zpos m <= 2 ^ 53 * (Zpos m' * X)) by lia.
  assert (H2 : 2 ^ 53 * (Zpos m' * X) <= (2 ^ 53 + 1) * Zpos m) by lia.
  rewrite Zle_Qle, !inject_Z_mult in H1, H2.
  pose proof (value_shifted (Zpos m') e' e He) as Hv. fold X in Hv.
  rewrite inject_Z_mult in Hv.
  pose proof (pow2_pos e) as Hp.
  set (a := inject_Z (Zpos m)) in *. set (b := inject_Z (Zpos m')) in *.
  set (x := inject_Z X) in *. set (P := (2 ^ e)%Q) in *.
  unfold upTo, roundoff. rewrite <- Hv.
  change (inject_Z (2 ^ 53 - 1)) with (9007199254740991 # 1)%Q in H1.
  change (inject_Z (2 ^ 53)) with (9007199254740992 # 1)%Q in H1, H2.
  change (inject_Z (2 ^ 53 + 1)) with (9007199254740993 # 1)%Q in H2.
  assert (E1 : ((1 - (1 # 9007199254740992)) * (a * P)
                == ((1 - (1 # 9007199254740992)) * a) * P)%Q) by ring.
  assert (E2 : ((1 + (1 # 9007199254740992)) * (a * P)
                == ((1 + (1 # 9007199254740992)) * a) * P)%Q) by ring.
  rewrite E1, E2.
  split; (apply Qmult_le_compat_r; [lra|lra]).
Qed.

Lemma upTo_zero (lo hi : Q) : upTo lo hi 0 0.
Proof. unfold upTo. split; lra. Qed.

Lemma normalIn_weaken (lo hi lo' hi' : Z) (f : float) :
  lo' <= lo -> hi <= hi' -> normalIn lo hi f -> normalIn lo' hi' f.
Proof.
  intros Hlo Hhi [H|(m & e & H & Hm & He)]; [left; exact H|].
  right. exists m, e. repeat split; try assumption; lia.
Qed.

(** The product of two numbers of the class: rounded to nearest, and
    in the class again. *)
Lemma mul_normal (lo1 hi1 lo2 hi2 : Z) (x y : float) :
  normalIn lo1 hi1 x -> normalIn lo2 hi2 y ->
  -1126 <= lo1 + lo2 -> hi1 + hi2 <= 917 ->
  normalIn (lo1 + lo2 + 52) (hi1 + hi2 + 54) (x * y)
  /\ upTo (1 - roundoff) (1 + roundoff)
       (valueOf (x * y)) (valueOf x * valueOf y).
Proof.
  intros [Hx|(mx & ex & Hx & Bx & Ex)] [Hy|(my & ey & Hy & By & Ey)] Hlo Hhi;
    unfold valueOf, normalIn; rewrite FloatAxioms.mul_spec, Hx, Hy; unfold SF64mul;
    cbn [SFmul xorb SF2Q].
  - split; [left; reflexivity|]. unfold upTo. split; lra.
  - split; [left; reflexivity|]. unfold upTo. split; lra.
  - split; [left; reflexivity|]. unfold upTo. split; lra.
  - pose proof (digits2_pos_bounds (mx * my)) as [Dlo Dhi].
    rewrite Pos2Z.inj_mul in Dlo, Dhi.
    assert (Hprod : 2 ^ 104 <= Zpos mx * Zpos my < 2 ^ 106).
    { change (2 ^ 104) with (2 ^ 52 * 2 ^ 52).
      change (2 ^ 106) with (2 ^ 53 * 2 ^ 53). nia. }
    assert (Hd : 105 <= Zpos (digits2_pos (mx * my)) <= 106).
    { split.
      - assert (104 < Zpos (digits2_pos (mx * my)))
          by (apply (Z.pow_lt_mono_r_iff 2); lia). lia.
      - assert (Zpos (digits2_pos (mx * my)) - 1 < 106)
          by (apply (Z.pow_lt_mono_r_iff 2); lia). lia. }
    destruct (round_aux_round false (mx * my) (ex + ey))
      as (m' & e' & Hr & Bm & Be & Hrel); try lia.
    rewrite Hr. split.
    + right. exists m', e'. repeat split; try lia.
    + cbn [SF2Q].
      pose proof (value_rounded (mx * my) m' (ex + ey) e' ltac:(lia) Hrel)
        as [V1 V2].
      assert (E : (inject_Z (Zpos (mx * my)) * 2 ^ (ex + ey)
                   == 1 * (inject_Z (Zpos mx) * 2 ^ ex)
                      * (1 * (inject_Z (Zpos my) * 2 ^ ey)))%Q).
      { rewrite Pos2Z.inj_mul, inject_Z_mult, pow2_add. ring. }
      unfold upTo. rewrite <- E. split; lra.
Qed.

Lemma iter_xO (m d : positive) :
  Zpos (Pos.iter xO m d) = Zpos m * 2 ^ Zpos d.
Proof.
  induction d as [|d IH] using Pos.peano_ind.
  - cbn [Pos.iter]. rewrite Pos2Z.inj_xO. change (2 ^ 1) with 2. lia.
  - rewrite Pos.iter_succ, Pos2Z.inj_xO, IH, Pos2Z.inj_succ,
      Z.pow_succ_r by lia. ring.
Qed.

(** [shl_align] moves a mantissa to a lower exponent. *)
Lemma shl_align_spec (m : positive) (e e' : Z) :
  e' <= e ->
  exists m',
    shl_align m e e' = (m', e') /\ Zpos m' = Zpos m * 2 ^ (e - e').
Proof.
  intros He. unfold shl_align.
  destruct (e' - e) as [|d|d] eqn:E; try lia.
  - assert (e' = e) by lia. subst e'. exists m. split; [reflexivity|].
    rewrite Z.sub_diag. cbn. lia.
  - exists (Pos.iter xO m d). split; [reflexivity|].
    rewrite iter_xO. f_equal. f_equal. lia.
Qed.

(** [binary_round] of a number of at least 53 digits at an exponent of
    the format: rounded to nearest, and normal. *)
Lemma binary_round_normal (m : positive) (e : Z) :
  2 ^ 52 <= Zpos m -> -1074 <= e ->
  Zpos (digits2_pos m) + e - 52 <= 971 ->
  exists m' e',
    binary_round prec emax false m e = S754_finite false m' e'
    /\ 2 ^ 52 <= Zpos m' < 2 ^ 53
    /\ e <= e' <= Zpos (digits2_pos m) + e - 52
    /\ upTo (1 - roundoff) (1 + roundoff)
         (inject_Z (Zpos m') * 2 ^ e') (inject_Z (Zpos m) * 2 ^ e).
Proof.
  intros Hm He Hhi.
  pose proof (digits2_pos_bounds m) as [Dlo Dhi].
  assert (Hd : 53 <= Zpos (digits2_pos m)).
  { assert (52 < Zpos (digits2_pos m))
      by (apply (Z.pow_lt_mono_r_iff 2); lia). lia. }
  unfold binary_round. rewrite fexp_eq.
  assert (Hal : shl_align m e
                  (Z.max (Zpos (digits2_pos m) + e - 53) (-1074)) = (m, e)).
  { unfold shl_align.
    destruct (Z.max (Zpos (digits2_pos m) + e - 53) (-1074) - e) eqn:E;
      [reflexivity|reflexivity|lia]. }
  rewrite Hal.
  destruct (Z.eq_dec (Zpos (digits2_pos m)) 53) as [H53|H53].
  - rewrite round_aux_exact by lia.
    exists m, e. split; [reflexivity|]. split.
    { split; [exact Hm|]. rewrite H53 in Dhi. exact Dhi. }
    split; [lia|]. unfold upTo, roundoff.
    pose proof (pow2_pos e) as Hp.
    assert (0 <= inject_Z (Zpos m) * 2 ^ e)%Q.
    { apply Qmult_le_0_compat; [|apply Qlt_le_weak; exact Hp].
      change 0%Q with (inject_Z 0). rewrite <- Zle_Qle. lia. }
    split; lra.
  - destruct (round_aux_round false m e) as (m' & e' & Hr & Bm & Be & Hrel);
      try lia.
    exists m', e'. split; [exact Hr|]. split; [exact Bm|].
    split; [lia|]. apply value_rounded; [lia|exact Hrel].
Qed.

(** The sum of two numbers of the class: rounded to nearest, and in the
    class again. *)
Lemma add_normal (lo1 hi1 lo2 hi2 : Z) (x y : float) :
  normalIn lo1 hi1 x -> normalIn lo2 hi2 y ->
  -1074 <= lo1 -> -1074 <= lo2 -> hi1 <= 969 -> hi2 <= 969 ->
  normalIn (Z.min lo1 lo2) (Z.max hi1 hi2 + 2) (x + y)
  /\ upTo (1 - roundoff) (1 + roundoff)
       (valueOf (x + y)) (valueOf x + valueOf y).
Proof.
  intros Nx Ny Hl1 Hl2 Hh1 Hh2.
  pose proof (normalIn_weaken lo1 hi1 (Z.min lo1 lo2) (Z.max hi1 hi2 + 2) x
                ltac:(lia) ltac:(lia) Nx) as Nx'.
  pose proof (normalIn_weaken lo2 hi2 (Z.min lo1 lo2) (Z.max hi1 hi2 + 2) y
                ltac:(lia) ltac:(lia) Ny) as Ny'.
  destruct Nx as [Hx|(mx & ex & Hx & Bx & Ex)];
    destruct Ny as [Hy|(my & ey & Hy & By & Ey)].
  - assert (E : Prim2SF (x + y) = Prim2SF x).
    { rewrite FloatAxioms.add_spec, Hx, Hy. reflexivity. }
    unfold valueOf, normalIn in *. rewrite E, Hx, Hy. cbn [SF2Q].
    split; [left; reflexivity|]. unfold upTo. split; lra.
  - assert (E : Prim2SF (x + y) = Prim2SF y).
    { rewrite FloatAxioms.add_spec, Hx, Hy. reflexivity. }
    unfold valueOf, normalIn in *. rewrite E. split; [exact Ny'|].
    rewrite Hx, Hy. cbn [SF2Q]. unfold upTo, roundoff.
    pose proof (pow2_pos ey) as Hp.
    assert (0 <= inject_Z (Zpos my) * 2 ^ ey)%Q.
    { apply Qmult_le_0_compat; [|apply Qlt_le_weak; exact Hp].
      change 0%Q with (inject_Z 0). rewrite <- Zle_Qle. lia. }
    split; lra.
  - assert (E : Prim2SF (x + y) = Prim2SF x).
    { rewrite FloatAxioms.add_spec, Hx, Hy. reflexivity. }
    unfold valueOf, normalIn in *. rewrite E. split; [exact Nx'|].
    rewrite Hx, Hy. cbn [SF2Q]. unfold upTo, roundoff.
    pose proof (pow2_pos ex) as Hp.
    assert (0 <= inject_Z (Zpos mx) * 2 ^ ex)%Q.
    { apply Qmult_le_0_compat; [|apply Qlt_le_weak; exact Hp].
      change 0%Q with (inject_Z 0). rewrite <- Zle_Qle. lia. }
    split; lra.
  - unfold valueOf, normalIn. rewrite FloatAxioms.add_spec, Hx, Hy.
    unfold SF64add. cbn [SFadd SF2Q].
    set (ez := Z.min ex ey).
    destruct (shl_align_spec mx ex ez ltac:(lia)) as (mx' & Ax & Vx).
    destruct (shl_align_spec my ey ez ltac:(lia)) as (my' & Ay & Vy).
    rewrite Ax, Ay. cbn [fst cond_Zopp].
    change (Zpos mx' + Zpos my') with (Zpos (mx' + my')).
    cbn [binary_normalize].
    assert (HXx : 1 <= 2 ^ (ex - ez))
      by (apply (Z.pow_le_mono_r 2 0); lia).
    assert (HXy : 1 <= 2 ^ (ey - ez))
      by (apply (Z.pow_le_mono_r 2 0); lia).
    assert (Hsum : Zpos (mx' + my')
                   < 2 ^ (54 + Z.max ex ey - ez)).
    { rewrite Pos2Z.inj_add, Vx, Vy.
      replace (54 + Z.max ex ey - ez) with (54 + (Z.max ex ey - ez)) by lia.
      rewrite Z.pow_add_r by lia.
      assert (2 ^ (ex - ez) <= 2 ^ (Z.max ex ey - ez))
        by (apply Z.pow_le_mono_r; lia).
      assert (2 ^ (ey - ez) <= 2 ^ (Z.max ex ey - ez))
        by (apply Z.pow_le_mono_r; lia).
      change (2 ^ 54) with (2 * 2 ^ 53). nia. }
    pose proof (digits2_pos_bounds (mx' + my')) as [Dlo Dhi].
    assert (Hd : Zpos (digits2_pos (mx' + my')) <= 54 + Z.max ex ey - ez).
    { assert (Zpos (digits2_pos (mx' + my')) - 1 < 54 + Z.max ex ey - ez)
        by (apply (Z.pow_lt_mono_r_iff 2); lia). lia. }
    destruct (binary_round_normal (mx' + my') ez)
      as (m' & e' & Hr & Bm & Be & Hv).
    { rewrite Pos2Z.inj_add, Vx. nia. }
    { lia. }
    { lia. }
    rewrite Hr. split.
    + right. exists m', e'. repeat split; try lia.
    + cbn [SF2Q].
      assert (E : (inject_Z (Zpos (mx' + my')) * 2 ^ ez
                   == 1 * (inject_Z (Zpos mx) * 2 ^ ex)
                      + 1 * (inject_Z (Zpos my) * 2 ^ ey))%Q).
      { rewrite Pos2Z.inj_add, inject_Z_plus, Vx, Vy.
        rewrite <- (value_shifted (Zpos mx) ex ez) by lia.
        rewrite <- (value_shifted (Zpos my) ey ez) by lia. ring. }
      destruct Hv as [V1 V2]. unfold upTo. rewrite <- E. split; lra.
Qed.

(** [float64(n)] for a count: rounded to nearest, and in the class. *)
Lemma float64_of_int_normal (n : Z) :
  0 <= n < 2 ^ 63 ->
  normalIn (-52) 11 (float64_of_int n)
  /\ upTo (1 - roundoff) (1 + roundoff)
       (valueOf (float64_of_int n)) (inject_Z n).
Proof.
  intros Hn. unfold float64_of_int.
  replace (n =? Go.int_min) with false
    by (symmetry; apply Z.eqb_neq; unfold Go.int_min; lia).
  replace (n <? 0) with false by (symmetry; apply Z.ltb_ge; lia).
  unfold valueOf, normalIn. rewrite FloatAxioms.of_uint63_spec, of_Z_spec.
  rewrite Z.mod_small by (change wB with (2 ^ 63); lia).
  destruct n as [|p|p]; [| |lia]; cbn [binary_normalize].
  - split; [left; reflexivity|]. cbn [SF2Q]. unfold upTo.
    change (inject_Z 0) with 0%Q. split; lra.
  - pose proof (digits2_pos_bounds p) as [Dlo Dhi].
    assert (Hd63 : Zpos (digits2_pos p) <= 63).
    { assert (Zpos (digits2_pos p) - 1 < 63)
        by (apply (Z.pow_lt_mono_r_iff 2); lia). lia. }
    assert (Hval : forall (m' : positive) (e' : Z) (V : Q),
               upTo (1 - roundoff) (1 + roundoff)
                 (inject_Z (Zpos m') * 2 ^ e') V ->
               (V == inject_Z (Zpos p))%Q ->
               upTo (1 - roundoff) (1 + roundoff)
                 (1 * (inject_Z (Zpos m') * 2 ^ e')) (inject_Z (Zpos p))).
    { intros m' e' V [V1 V2] E. unfold upTo. rewrite <- E. split; lra. }
    destruct (Z.le_gt_cases (2 ^ 52) (Zpos p)) as [Hbig|Hsmall].
    + destruct (binary_round_normal p 0) as (m' & e' & Hr & Bm & Be & Hv);
        try lia.
      rewrite Hr. split.
      * right. exists m', e'. repeat split; try lia.
      * cbn [SF2Q]. apply (Hval _ _ _ Hv).
        change (2 ^ 0)%Q with 1%Q. ring.
    + assert (Hd : Zpos (digits2_pos p) <= 52).
      { assert (Zpos (digits2_pos p) - 1 < 52)
          by (apply (Z.pow_lt_mono_r_iff 2); lia). lia. }
      assert (Hd1 : 1 <= Zpos (digits2_pos p)) by lia.
      set (d := Zpos (digits2_pos p)) in *.
      unfold binary_round. rewrite fexp_eq. fold d.
      replace (Z.max (d + 0 - 53) (-1074)) with (d - 53) by lia.
      destruct (shl_align_spec p 0 (d - 53) ltac:(lia)) as (m' & Al & Vm).
      rewrite Al.
      assert (Bm : 2 ^ 52 <= Zpos m' < 2 ^ 53).
      { rewrite Vm. replace (0 - (d - 53)) with (53 - d) by lia.
        assert (E1 : 2 ^ 52 = 2 ^ (d - 1) * 2 ^ (53 - d)).
        { rewrite <- Z.pow_add_r by lia. f_equal. lia. }
        assert (E2 : 2 ^ 53 = 2 ^ d * 2 ^ (53 - d)).
        { rewrite <- Z.pow_add_r by lia. f_equal. lia. }
        assert (0 < 2 ^ (53 - d)) by (apply Z.pow_pos_nonneg; lia).
        rewrite E1, E2. split.
        - apply Z.mul_le_mono_nonneg_r; lia.
        - apply Z.mul_lt_mono_pos_r; lia. }
      rewrite round_aux_exact;
        [|rewrite (digits2_pos_unique m' 53) by (cbn; lia); lia|lia|lia].
      split.
      * right. exists m', (d - 53). repeat split; try lia.
      * cbn [SF2Q].
        apply (Hval _ _ (inject_Z (Zpos m') * 2 ^ (d - 53))%Q).
        { unfold upTo, roundoff. pose proof (pow2_pos (d - 53)) as Hp.
          assert (0 <= inject_Z (Zpos m') * 2 ^ (d - 53))%Q.
          { apply Qmult_le_0_compat; [|apply Qlt_le_weak; exact Hp].
            change 0%Q with (inject_Z 0). rewrite <- Zle_Qle. lia. }
          split; lra. }
        rewrite Vm, (value_shifted (Zpos p) 0 (d - 53)) by lia.
        change (2 ^ 0)%Q with 1%Q. ring.
Qed.

End FloatFacts.

(** ** Cost calculation *)

Section CostFacts.

Import ai Examples SpecFloat.

(** [CalculateCost] is [pricing] on [float64], stored into the usage,
    whose token counts it leaves alone. *)
Lemma CalculateCost_formula (model : Model) (usage : Usage) :
  let cost := fst (CalculateCost model usage) in
  cost_Input cost
  = (mc_Input (model_Cost model) / float64_of_int 1000000%Z
     * float64_of_int (u_Input usage))%float
  /\ cost_Output cost
     = (mc_Output (model_Cost model) / float64_of_int 1000000%Z
        * float64_of_int (u_Output usage))%float
  /\ cost_CacheRead cost
     = (mc_CacheRead (model_Cost model) / float64_of_int 1000000%Z
        * float64_of_int (u_CacheRead usage))%float
  /\ cost_CacheWrite cost
     = (mc_CacheWrite (model_Cost model) / float64_of_int 1000000%Z
        * float64_of_int (u_CacheWrite usage))%float
  /\ cost_Total cost
     = (cost_Input cost + cost_Output cost + cost_CacheRead cost
        + cost_CacheWrite cost)%float
  /\ u_Cost (snd (CalculateCost model usage)) = cost
  /\ tokens_of (snd (CalculateCost model usage)) = tokens_of usage.
Proof. repeat split. Qed.

Lemma usableRate_normal (rate : float) :
  usableRate rate = true -> normalIn (-1074) 847 rate.
Proof.
  unfold usableRate, normalIn. intros H.
  pose proof (FloatAxioms.Prim2SF_valid rate) as Hv.
  destruct (Prim2SF rate) as [[|]|[|]| |[|] m e]; try discriminate.
  - left. reflexivity.
  - right. exists m, e.
    apply andb_prop in H. destruct H as [H He].
    apply andb_prop in H. destruct H as [Hlo Hhi].
    apply Z.leb_le in Hlo, He. apply Z.ltb_lt in Hhi.
    split; [reflexivity|]. split; [lia|].
    cbn [valid_binary] in Hv. unfold bounded, canonical_mantissa in Hv.
    apply andb_prop in Hv. destruct Hv as [Hc _].
    apply Z.eqb_eq in Hc. rewrite fexp_eq in Hc.
    rewrite (digits2_pos_unique m 53) in Hc by lia. lia.
Qed.

Lemma normalIn_finite (lo hi : Z) (f : float) :
  normalIn lo hi f -> finite f = true /\ (0 <= valueOf f)%Q.
Proof.
  unfold finite, valueOf.
  intros [H|(m & e & H & _)]; rewrite H; cbn [SF2Q]; (split; [reflexivity|]).
  - lra.
  - pose proof (pow2_pos e) as Hp.
    assert (0 <= inject_Z (Zpos m) * 2 ^ e)%Q.
    { apply Qmult_le_0_compat; [|apply Qlt_le_weak; exact Hp].
      change 0%Q with (inject_Z 0). rewrite <- Zle_Qle. lia. }
    lra.
Qed.

Lemma upTo_scale (lo hi r x y : Q) :
  (0 <= r)%Q -> upTo lo hi x y -> upTo lo hi (r * x) (r * y).
Proof.
  unfold upTo. intros Hr [H1 H2].
  assert (E1 : (lo * (r * y) == r * (lo * y))%Q) by ring.
  assert (E2 : (hi * (r * y) == r * (hi * y))%Q) by ring.
  rewrite E1, E2. split.
  - rewrite !(Qmult_comm r). apply Qmult_le_compat_r; assumption.
  - rewrite !(Qmult_comm r). apply Qmult_le_compat_r; assumption.
Qed.

(** The cost of one category: the rate times the count, rounded twice. *)
Lemma category_value (rate : float) (n : Z) :
  usableRate rate = true -> 0 <= n < 2 ^ 63 ->
  normalIn (-1074) 912 (rate * float64_of_int n)
  /\ upTo (1 - 2 * roundoff) (1 + 3 * roundoff)
       (valueOf (rate * float64_of_int n)) (valueOf rate * inject_Z n)
  /\ (0 <= valueOf rate * inject_Z n)%Q.
Proof.
  intros Hr Hn. apply usableRate_normal in Hr.
  destruct (float64_of_int_normal n Hn) as [Nn Vn].
  destruct (mul_normal _ _ _ _ rate (float64_of_int n) Hr Nn
              ltac:(lia) ltac:(lia)) as [Nc Vc].
  destruct (normalIn_finite _ _ _ Hr) as [_ Hr0].
  pose proof (upTo_scale _ _ _ _ _ Hr0 Vn) as Vs.
  assert (Hn0 : (0 <= inject_Z n)%Q).
  { change 0%Q with (inject_Z 0). rewrite <- Zle_Qle. lia. }
  pose proof (Qmult_le_0_compat _ _ Hr0 Hn0) as HR.
  split; [exact Nc|]. split; [|exact HR].
  unfold upTo, roundoff in *.
  set (C := valueOf (rate * float64_of_int n)) in *.
  set (P := (valueOf rate * valueOf (float64_of_int n))%Q) in *.
  set (R := (valueOf rate * inject_Z n)%Q) in *.
  split; lra.
Qed.

(** The costs of one category for two usages and for their sum. *)
Lemma category_additive (rate : float) (n1 n2 : Z) :
  usableRate rate = true -> 0 <= n1 -> 0 <= n2 -> n1 + n2 < 2 ^ 63 ->
  agree (1 # 2 ^ 50)
    (rate * float64_of_int (n1 + n2))
    (rate * float64_of_int n1 + rate * float64_of_int n2).
Proof.
  intros Hr H1 H2 H12.
  destruct (category_value rate n1 Hr ltac:(lia)) as (N1 & V1 & R1).
  destruct (category_value rate n2 Hr ltac:(lia)) as (N2 & V2 & R2).
  destruct (category_value rate (n1 + n2) Hr ltac:(lia)) as (N12 & V12 & R12).
  destruct (add_normal _ _ _ _ _ _ N1 N2 ltac:(lia) ltac:(lia) ltac:(lia)
              ltac:(lia)) as [Ns Vs].
  unfold agree.
  split; [exact (proj1 (normalIn_finite _ _ _ N12))|].
  split; [exact (proj1 (normalIn_finite _ _ _ Ns))|].
  assert (E : (valueOf rate * inject_Z (n1 + n2)
               == valueOf rate * inject_Z n1 + valueOf rate * inject_Z n2)%Q)
    by (rewrite inject_Z_plus; ring).
  apply Qabs_Qle_condition.
  unfold upTo, roundoff in *.
  change (1 # 2 ^ 50)%Q with (1 # 1125899906842624)%Q.
  set (C12 := valueOf (rate * float64_of_int (n1 + n2))) in *.
  set (C1 := valueOf (rate * float64_of_int n1)) in *.
  set (C2 := valueOf (rate * float64_of_int n2)) in *.
  set (S := valueOf (rate * float64_of_int n1 + rate * float64_of_int n2))
    in *.
  set (Q12 := (valueOf rate * inject_Z (n1 + n2))%Q) in *.
  set (Q1 := (valueOf rate * inject_Z n1)%Q) in *.
  set (Q2 := (valueOf rate * inject_Z n2)%Q) in *.
  split; lra.
Qed.

(** The total of four category costs: three more roundings. *)
Lemma total_value (cI cO cR cW : float) (qI qO qR qW : Q) :
  normalIn (-1074) 912 cI -> normalIn (-1074) 912 cO ->
  normalIn (-1074) 912 cR -> normalIn (-1074) 912 cW ->
  upTo (1 - 2 * roundoff) (1 + 3 * roundoff) (valueOf cI) qI ->
  upTo (1 - 2 * roundoff) (1 + 3 * roundoff) (valueOf cO) qO ->
  upTo (1 - 2 * roundoff) (1 + 3 * roundoff) (valueOf cR) qR ->
  upTo (1 - 2 * roundoff) (1 + 3 * roundoff) (valueOf cW) qW ->
  (0 <= qI)%Q -> (0 <= qO)%Q -> (0 <= qR)%Q -> (0 <= qW)%Q ->
  normalIn (-1074) 918 (cI + cO + cR + cW)
  /\ upTo (1 - 5 * roundoff) (1 + 7 * roundoff)
       (valueOf (cI + cO + cR + cW)) (qI + qO + qR + qW).
Proof.
  intros NI NO NR NW VI VO VR VW HI HO HR HW.
  destruct (add_normal _ _ _ _ _ _ NI NO ltac:(lia) ltac:(lia) ltac:(lia)
              ltac:(lia)) as [N1 V1].
  cbn [Z.min Z.max Z.compare] in N1.
  change (Z.min (-1074) (-1074)) with (-1074) in N1.
  change (Z.max 912 912 + 2) with 914 in N1.
  destruct (add_normal _ _ _ _ _ _ N1 NR ltac:(lia) ltac:(lia) ltac:(lia)
              ltac:(lia)) as [N2 V2].
  change (Z.min (-1074) (-1074)) with (-1074) in N2.
  change (Z.max 914 912 + 2) with 916 in N2.
  destruct (add_normal _ _ _ _ _ _ N2 NW ltac:(lia) ltac:(lia) ltac:(lia)
              ltac:(lia)) as [N3 V3].
  change (Z.min (-1074) (-1074)) with (-1074) in N3.
  change (Z.max 916 912 + 2) with 918 in N3.
  split; [exact N3|].
  unfold upTo, roundoff in *.
  set (A := valueOf cI) in *. set (B := valueOf cO) in *.
  set (C := valueOf cR) in *. set (D := valueOf cW) in *.
  set (S1 := valueOf (cI + cO)) in *.
  set (S2 := valueOf (cI + cO + cR)) in *.
  set (S3 := valueOf (cI + cO + cR + cW)) in *.
  split; lra.
Qed.

(** C8, as far as it holds.  [CalculateCost] is additive in the usage up
    to the rounding of binary64.  Let the four rates of the model, its
    prices divided by a million, be [+0] or positive normal numbers
    below [2 ^ 900], let the token counts of two usages be no negative
    numbers, and let [usage] have their sums as its counts, which fit an
    [int].  Then each category cost of [usage] and the binary64 sum of
    the two costs of that category are finite and differ by at most
    [2 ^ -50] times the former, and so do the total of [usage] and the
    binary64 sum of the two totals, by at most [2 ^ -49] times the
    former. *)
Theorem CalculateCost_additive_up_to_rounding (model : Model)
  (usage1 usage2 usage : Usage) :
  forallb usableRate (rates model) = true ->
  counts (tokens_of usage1) -> counts (tokens_of usage2) ->
  counts (tokens_of usage) ->
  tokens_of usage = tokens_add (tokens_of usage1) (tokens_of usage2) ->
  let cost1 := fst (CalculateCost model usage1) in
  let cost2 := fst (CalculateCost model usage2) in
  let cost := fst (CalculateCost model usage) in
  agree (1 # 2 ^ 50) (cost_Input cost) (cost_Input cost1 + cost_Input cost2)
  /\ agree (1 # 2 ^ 50) (cost_Output cost)
       (cost_Output cost1 + cost_Output cost2)
  /\ agree (1 # 2 ^ 50) (cost_CacheRead cost)
       (cost_CacheRead cost1 + cost_CacheRead cost2)
  /\ agree (1 # 2 ^ 50) (cost_CacheWrite cost)
       (cost_CacheWrite cost1 + cost_CacheWrite cost2)
  /\ agree (1 # 2 ^ 49) (cost_Total cost)
       (cost_Total cost1 + cost_Total cost2).
Proof.
  intros Hrates H1 H2 H12 Hsum. cbv zeta.
  unfold rates in Hrates. cbn [map forallb] in Hrates.
  rewrite !andb_true_iff in Hrates.
  destruct Hrates as (HrI & HrO & HrR & HrW & _).
  unfold counts in H1, H2, H12.
  repeat match goal with
         | H : Forall _ (_ :: _) |- _ =>
             let Hh := fresh "Hc" in
             apply Forall_cons in H; destruct H as [Hh H]
         end.
  unfold tokens_of, tokens_add in *. cbn [t_Input t_Output t_CacheRead
    t_CacheWrite] in *.
  injection Hsum as EI EO ER EW.
  cbv [CalculateCost pricing category float64 a_mul a_div a_lit a_of_int
       a_add fst cost_Input cost_Output cost_CacheRead cost_CacheWrite
       cost_Total k_Input k_Output k_CacheRead k_CacheWrite k_Total
       tokens_of t_Input t_Output t_CacheRead t_CacheWrite].
  rewrite EI, EO, ER, EW.
  set (rI := PrimFloat.div (mc_Input (model_Cost model))
               (float64_of_int 1000000)) in *.
  set (rO := PrimFloat.div (mc_Output (model_Cost model))
               (float64_of_int 1000000)) in *.
  set (rR := PrimFloat.div (mc_CacheRead (model_Cost model))
               (float64_of_int 1000000)) in *.
  set (rW := PrimFloat.div (mc_CacheWrite (model_Cost model))
               (float64_of_int 1000000)) in *.
  split; [apply category_additive; [exact HrI|lia..]|].
  split; [apply category_additive; [exact HrO|lia..]|].
  split; [apply category_additive; [exact HrR|lia..]|].
  split; [apply category_additive; [exact HrW|lia..]|].
  destruct (category_value rI (u_Input usage1) HrI ltac:(lia))
    as (NI1 & VI1 & QI1).
  destruct (category_value rO (u_Output usage1) HrO ltac:(lia))
    as (NO1 & VO1 & QO1).
  destruct (category_value rR (u_CacheRead usage1) HrR ltac:(lia))
    as (NR1 & VR1 & QR1).
  destruct (category_value rW (u_CacheWrite usage1) HrW ltac:(lia))
    as (NW1 & VW1 & QW1).
  destruct (category_value rI (u_Input usage2) HrI ltac:(lia))
    as (NI2 & VI2 & QI2).
  destruct (category_value rO (u_Output usage2) HrO ltac:(lia))
    as (NO2 & VO2 & QO2).
  destruct (category_value rR (u_CacheRead usage2) HrR ltac:(lia))
    as (NR2 & VR2 & QR2).
  destruct (category_value rW (u_CacheWrite usage2) HrW ltac:(lia))
    as (NW2 & VW2 & QW2).
  destruct (category_value rI (u_Input usage1 + u_Input usage2) HrI
              ltac:(lia)) as (NI & VI & QI).
  destruct (category_value rO (u_Output usage1 + u_Output usage2) HrO
              ltac:(lia)) as (NO & VO & QO).
  destruct (category_value rR (u_CacheRead usage1 + u_CacheRead usage2) HrR
              ltac:(lia)) as (NR & VR & QR).
  destruct (category_value rW (u_CacheWrite usage1 + u_CacheWrite usage2) HrW
              ltac:(lia)) as (NW & VW & QW).
  destruct (total_value _ _ _ _ _ _ _ _ NI1 NO1 NR1 NW1 VI1 VO1 VR1 VW1
              QI1 QO1 QR1 QW1) as [NT1 VT1].
  destruct (total_value _ _ _ _ _ _ _ _ NI2 NO2 NR2 NW2 VI2 VO2 VR2 VW2
              QI2 QO2 QR2 QW2) as [NT2 VT2].
  destruct (total_value _ _ _ _ _ _ _ _ NI NO NR NW VI VO VR VW
              QI QO QR QW) as [NT VT].
  destruct (add_normal _ _ _ _ _ _ NT1 NT2 ltac:(lia) ltac:(lia) ltac:(lia)
              ltac:(lia)) as [Ns Vs].
  unfold agree.
  split; [exact (proj1 (normalIn_finite _ _ _ NT))|].
  split; [exact (proj1 (normalIn_finite _ _ _ Ns))|].
  apply Qabs_Qle_condition.
  rewrite !inject_Z_plus in VT.
  unfold upTo, roundoff in *.
  change (1 # 2 ^ 49)%Q with (1 # 562949953421312)%Q.
  repeat match goal with
         | |- context [valueOf ?f] =>
             let v := fresh "v" in set (v := valueOf f) in *
         end.
  repeat match goal with
         | H : context [inject_Z ?n] |- _ =>
             let q := fresh "q" in set (q := inject_Z n) in *
         end.
  split; nra.
Qed.

Local Open Scope Q_scope.

(** The formulas of [pricing], read in exact rational arithmetic, are
    additive in the usage: for the sum of two usages each of the four
    category costs and the total is the sum of the costs of the two. *)
Lemma pricing_additive_exact (pInput pOutput pCacheRead pCacheWrite : Q)
  (t1 t2 : Tokens) :
  let cost := pricing exact pInput pOutput pCacheRead pCacheWrite in
  k_Input (cost (tokens_add t1 t2))
  == k_Input (cost t1) + k_Input (cost t2)
  /\ k_Output (cost (tokens_add t1 t2))
     == k_Output (cost t1) + k_Output (cost t2)
  /\ k_CacheRead (cost (tokens_add t1 t2))
     == k_CacheRead (cost t1) + k_CacheRead (cost t2)
  /\ k_CacheWrite (cost (tokens_add t1 t2))
     == k_CacheWrite (cost t1) + k_CacheWrite (cost t2)
  /\ k_Total (cost (tokens_add t1 t2))
     == k_Total (cost t1) + k_Total (cost t2).
Proof.
  cbv zeta. unfold pricing, category, tokens_add. cbn.
  rewrite !inject_Z_plus.
  repeat split; field.
Qed.

Local Close Scope Q_scope.

(** C8 as stated fails on the code, which computes in binary64: at the
    price of 3 per million input tokens, the cost of 1 + 9 tokens is
    not the sum of the cost of 1 token and the cost of 9 tokens. *)
Lemma CalculateCost_not_additive :
  tokens_of (inputTokens 10)
  = tokens_add (tokens_of (inputTokens 1)) (tokens_of (inputTokens 9))
  /\ PrimFloat.eqb
       (cost_Input (fst (CalculateCost model0 (inputTokens 10))))
       (PrimFloat.add
          (cost_Input (fst (CalculateCost model0 (inputTokens 1))))
          (cost_Input (fst (CalculateCost model0 (inputTokens 9)))))
     = false
  /\ PrimFloat.eqb
       (cost_Total (fst (CalculateCost model0 (inputTokens 10))))
       (PrimFloat.add
          (cost_Total (fst (CalculateCost model0 (inputTokens 1))))
          (cost_Total (fst (CalculateCost model0 (inputTokens 9)))))
     = false.
Proof. repeat split; vm_compute; reflexivity. Qed.

(** C8 on the usages of the counterexample: the cost of 1 + 9 input
    tokens and the sum of the costs of 1 and of 9 tokens are within the
    bound of each other, though not equal. *)
Lemma CalculateCost_additive_up_to_rounding_witness :
  agree (1 # 2 ^ 50)
    (cost_Input (fst (CalculateCost model0 (inputTokens 10))))
    (cost_Input (fst (CalculateCost model0 (inputTokens 1)))
     + cost_Input (fst (CalculateCost model0 (inputTokens 9))))
  /\ agree (1 # 2 ^ 49)
       (cost_Total (fst (CalculateCost model0 (inputTokens 10))))
       (cost_Total (fst (CalculateCost model0 (inputTokens 1)))
        + cost_Total (fst (CalculateCost model0 (inputTokens 9)))).
Proof.
  destruct (CalculateCost_additive_up_to_rounding model0 (inputTokens 1)
              (inputTokens 9) (inputTokens 10)) as (HI & _ & _ & _ & HT).
  - vm_compute. reflexivity.
  - repeat constructor; cbn; lia.
  - repeat constructor; cbn; lia.
  - repeat constructor; cbn; lia.
  - reflexivity.
  - split; assumption.
Defined.

End CostFacts.

(** ** Streaming JSON repair *)

Section JSONFacts.

Import ai.
Local Open Scope string_scope.
Local Open Scope list_scope.

Lemma str_bytes (s : string) : str (bytes s) = s.
Proof. apply string_of_list_ascii_of_string. Qed.

Lemma bytes_str (l : list ascii) : bytes (str l) = l.
Proof. apply list_ascii_of_string_of_list_ascii. Qed.

Lemma json_ws_cases (c : ascii) :
  json_ws c = true -> c = chr 32 \/ c = chr 9 \/ c = chr 10 \/ c = chr 13.
Proof.
  unfold json_ws. cbn [existsb map]. rewrite !orb_true_iff, !Ascii.eqb_eq.
  intuition discriminate.
Qed.

(** A leading JSON whitespace character is a space rune for [TrimSpace],
    from the left and from the right. *)
Lemma strip_any_space_l (c : ascii) (rest : list ascii) :
  json_ws c = true -> strip_any space_encodings (c :: rest) = Some rest.
Proof.
  intros H. destruct (json_ws_cases c H) as [-> | [-> | [-> | ->]]];
    reflexivity.
Qed.

Lemma strip_any_space_r (c : ascii) (rest : list ascii) :
  json_ws c = true ->
  strip_any (map (@rev ascii) space_encodings) (c :: rest) = Some rest.
Proof.
  intros H. destruct (json_ws_cases c H) as [-> | [-> | [-> | ->]]];
    reflexivity.
Qed.

Lemma strip_any_lbrace (rest : list ascii) :
  strip_any space_encodings (c_lbrace :: rest) = None.
Proof. reflexivity. Qed.

Lemma strip_any_rbrace (rest : list ascii) :
  strip_any (map (@rev ascii) space_encodings) (c_rbrace :: rest) = None.
Proof. reflexivity. Qed.

Lemma trim_left_ws (encs : list (list ascii)) (l rest : list ascii) (fuel : nat) :
  (forall c x, json_ws c = true -> strip_any encs (c :: x) = Some x) ->
  forallb json_ws l = true -> (length l <= fuel)%nat ->
  strip_any encs rest = None ->
  trim_left encs fuel (l ++ rest) = rest.
Proof.
  intros Hws Hl Hfuel Hrest. revert fuel Hfuel.
  induction l as [|c l IH]; intros fuel Hfuel.
  - destruct fuel; cbn; [reflexivity|]. rewrite Hrest. reflexivity.
  - cbn in Hl. apply andb_true_iff in Hl. destruct Hl as [Hc Hl].
    destruct fuel as [|fuel]; [cbn in Hfuel; lia|].
    cbn [trim_left app]. rewrite (Hws c _ Hc).
    apply IH; [exact Hl | cbn in Hfuel; lia].
Qed.

Lemma forallb_rev_true {A} (f : A -> bool) (l : list A) :
  forallb f l = true -> forallb f (rev l) = true.
Proof.
  rewrite !forallb_forall. intros H x Hx. apply H, in_rev. exact Hx.
Qed.

(** [TrimSpace] takes the JSON whitespace off the text of an object, and
    nothing else. *)
Lemma TrimSpace_object (s : string) (l core r : list ascii) :
  bytes s = l ++ core ++ r ->
  forallb json_ws l = true -> forallb json_ws r = true ->
  object_text core ->
  TrimSpace s = str core.
Proof.
  intros Hs Hl Hr [mid ->]. unfold TrimSpace. rewrite Hs. f_equal.
  rewrite (trim_left_ws space_encodings l _ _ strip_any_space_l Hl).
  - unfold trim_right. rewrite rev_app_distr.
    rewrite (trim_left_ws _ (rev r) _ _ strip_any_space_r
               (forallb_rev_true _ _ Hr)).
    + apply rev_involutive.
    + rewrite length_rev, length_app. lia.
    + cbn [rev]. rewrite rev_app_distr. cbn [rev app].
      exact (strip_any_rbrace _).
  - rewrite length_app. lia.
  - exact (strip_any_lbrace _).
Qed.

Lemma str_nonempty (l : list ascii) : l <> [] -> str l <> "".
Proof. destruct l; [congruence|discriminate]. Qed.

Section Repair.

Variable Unmarshal : string -> Map * option error.
Hypothesis Unmarshal_law : Unmarshal_skips_whitespace Unmarshal.

(** C3.  [ParseStreamingJSON] returns a map for every input: the map of
    the strict parse or of the repaired text, and the empty map, not nil,
    when both fail (it returns the nil map only when the strict parse
    itself succeeds with one, as on [null]).  On a text that the strict
    parse decodes into a map, it returns that map. *)
Theorem ParseStreamingJSON_total_and_faithful (s : string) :
  ((exists m, ParseStreamingJSON Unmarshal s = Some m)
   \/ (ParseStreamingJSON Unmarshal s = None
       /\ Unmarshal (TrimSpace s) = (None, None)))
  /\ (TrimSpace s = "" -> ParseStreamingJSON Unmarshal s = Some ∅)
  /\ (snd (Unmarshal (TrimSpace s)) <> None ->
      tryRepairAndParse Unmarshal (TrimSpace s) = None ->
      ParseStreamingJSON Unmarshal s = Some ∅)
  /\ (forall m, Unmarshal s = (Some m, None) ->
                ParseStreamingJSON Unmarshal s = Some m).
Proof.
  unfold ParseStreamingJSON, eqs. repeat split.
  - case_bool_decide; [left; eauto|].
    destruct (Unmarshal (TrimSpace s)) as [[m|] [err|]] eqn:HU; eauto.
    all: destruct (tryRepairAndParse Unmarshal (TrimSpace s)); eauto.
  - intros ->. reflexivity.
  - intros Herr Hrepair. case_bool_decide; [reflexivity|].
    destruct (Unmarshal (TrimSpace s)) as [m [err|]]; [|cbn in Herr; congruence].
    rewrite Hrepair. reflexivity.
  - intros m Hm.
    destruct (Unmarshal_law s m Hm) as (l & core & r & Hs & Hl & Hr & Hcore & HU).
    rewrite (TrimSpace_object s l core r Hs Hl Hr Hcore).
    rewrite bool_decide_eq_false_2.
    + rewrite HU. reflexivity.
    + apply str_nonempty. destruct Hcore as [mid ->]. discriminate.
Qed.

End Repair.

End JSONFacts.

Section JSONExamples.

Import ai Examples.
Local Open Scope string_scope.
Local Open Scope list_scope.

Lemma strip_single_inv (c : ascii) (x rest : list ascii) :
  strip [c] x = Some rest -> x = c :: rest.
Proof.
  destruct x as [|b x]; cbn [strip]; [discriminate|].
  destruct (Ascii.eqb c b) eqn:Hcb; [|discriminate].
  apply Ascii.eqb_eq in Hcb. subst b. intros [= ->]. reflexivity.
Qed.

Lemma strip_any_json_inv (x rest : list ascii) :
  strip_any json_ws_encodings x = Some rest ->
  exists c, x = c :: rest /\ json_ws c = true.
Proof.
  unfold json_ws_encodings. cbn [map strip_any].
  repeat (destruct (strip _ x) as [rest'|] eqn:Hs;
          [ intros [= ->]; apply strip_single_inv in Hs; subst x;
            eexists; split; [reflexivity | reflexivity] | clear Hs ]).
  discriminate.
Qed.

Lemma trim_left_json_prefix (fuel : nat) (x : list ascii) :
  exists l, x = l ++ trim_left json_ws_encodings fuel x
            /\ forallb json_ws l = true.
Proof.
  revert x. induction fuel as [|fuel IH]; intros x; cbn [trim_left].
  - exists []. auto.
  - destruct (strip_any json_ws_encodings x) as [rest|] eqn:Hs.
    + destruct (strip_any_json_inv _ _ Hs) as (c & -> & Hc).
      destruct (IH rest) as (l & Hl & Hws).
      exists (c :: l). split; [cbn [app]; f_equal; exact Hl|].
      cbn [forallb]. rewrite Hc, Hws. reflexivity.
    + exists []. auto.
Qed.

Lemma map_rev_json_ws_encodings :
  map (@rev ascii) json_ws_encodings = json_ws_encodings.
Proof. reflexivity. Qed.

Lemma jtrim_decompose (x : list ascii) :
  exists l r, x = l ++ jtrim x ++ r
              /\ forallb json_ws l = true /\ forallb json_ws r = true.
Proof.
  unfold jtrim.
  destruct (trim_left_json_prefix (length x) x) as (l & Hx & Hl).
  set (y := trim_left json_ws_encodings (length x) x) in *.
  unfold trim_right. rewrite map_rev_json_ws_encodings.
  destruct (trim_left_json_prefix (length y) (rev y)) as (r' & Hy & Hr).
  exists l, (rev r'). split; [|split].
  - rewrite <- rev_app_distr, <- Hy, rev_involutive. exact Hx.
  - exact Hl.
  - apply forallb_rev_true. exact Hr.
Qed.

(** The decoder of the examples obeys the whitespace law. *)
Lemma Unmarshal0_skips_whitespace : Unmarshal_skips_whitespace Unmarshal0.
Proof.
  intros s m. unfold Unmarshal0, ascii_eqb_list.
  case_bool_decide as Hobj; [|case_bool_decide; discriminate].
  intros [= <-].
  destruct (jtrim_decompose (bytes s)) as (l & r & Hs & Hl & Hr).
  rewrite Hobj in Hs.
  exists l, [c_lbrace; c_rbrace], r. repeat split; try assumption.
  exists []. reflexivity.
Qed.

(** C3 on the text of the empty object between blanks and a newline. *)
Lemma ParseStreamingJSON_total_and_faithful_witness :
  Unmarshal_skips_whitespace Unmarshal0
  /\ Unmarshal0 (" {} " +:+ nl) = (Some ∅, None)
  /\ ParseStreamingJSON Unmarshal0 (" {} " +:+ nl) = Some ∅.
Proof.
  split; [exact Unmarshal0_skips_whitespace|].
  split; [reflexivity|].
  apply (ParseStreamingJSON_total_and_faithful Unmarshal0
           Unmarshal0_skips_whitespace (" {} " +:+ nl)).
  reflexivity.
Defined.

End JSONExamples.

(** ** The message ledger *)

Section LedgerFacts.

Import ai agent.
Local Open Scope string_scope.
Local Open Scope list_scope.

Context {W : Type} (now : W -> Z * W).
Context (Quote : string -> string) (MarshalIndent : gmap string any -> string).

Lemma finalised_app ops1 ops2 :
  finalised (ops1 ++ ops2) = finalised ops1 ++ finalised ops2.
Proof. unfold finalised. apply omap_app. Qed.

Lemma agentEnds_app ops1 ops2 :
  agentEnds (ops1 ++ ops2) = agentEnds ops1 ++ agentEnds ops2.
Proof. unfold agentEnds. apply omap_app. Qed.

Lemma writes_app ops1 ops2 ms1 ms2 :
  writes ops1 ms1 -> writes ops2 ms2 -> writes (ops1 ++ ops2) (ms1 ++ ms2).
Proof.
  intros [H1 H1'] [H2 H2']. split.
  - rewrite finalised_app, H1, H2. reflexivity.
  - rewrite agentEnds_app, H1', H2'. reflexivity.
Qed.

Lemma writes_nil : writes [] [].
Proof. split; reflexivity. Qed.

Lemma writes_cons_quiet e ops ms :
  eqs (Type_ e) MessageEventEnd = false ->
  eqs (Type_ e) AgentEventEnd = false ->
  writes ops ms -> writes (OpPush e :: ops) ms.
Proof.
  intros H1 H2 [Hf Ha]. split.
  - unfold finalised in *. cbn [omap list_omap]. rewrite H1. exact Hf.
  - unfold agentEnds in *. cbn [omap list_omap]. rewrite H2. exact Ha.
Qed.

Lemma writes_cons_end m ops ms :
  writes ops ms -> writes (OpPush (messageEvent MessageEventEnd m) :: ops) (m :: ms).
Proof.
  intros [Hf Ha]. split.
  - unfold finalised in *. cbn. rewrite Hf. reflexivity.
  - unfold agentEnds in *. cbn. exact Ha.
Qed.

(** Solves [writes ops ms] for an [ops] built from pushes and parts
    known to write. *)
Ltac writes :=
  repeat first
    [ exact writes_nil
    | assumption
    | apply writes_cons_end
    | apply writes_cons_quiet; [reflexivity | reflexivity | ]
    | match goal with
      | |- writes (_ ++ _) (_ ++ _) => apply writes_app
      | |- writes ([] ++ _) _ => apply (writes_app [] _ [] _)
      | |- writes (_ ++ _) [] => apply (writes_app _ _ [] [])
      end ].

Lemma updates_writes tc (updates : list AgentToolResult) w x ops w' :
  forM_ W (fun partial => push W (toolUpdateEvent tc partial)) updates w
  = Ok (x, ops, w') ->
  writes ops [].
Proof.
  revert w ops. induction updates as [|u updates IH]; intros w ops H;
    cbn [forM_] in H.
  - apply ret_inv in H. destruct H as (_ & -> & _). writes.
  - run_inv H. apply IH in H. cbn [app]. writes.
Qed.

Lemma invoke_writes tools tc w x ops w' :
  invoke W Quote MarshalIndent tools tc w = Ok (x, ops, w') -> writes ops [].
Proof.
  unfold invoke. intros H.
  destruct (findTool W tools (tc_Name tc)) as [tool|].
  - destruct (ValidateToolArguments Quote MarshalIndent (Tool W tool) tc)
      as [args [err|]].
    + apply ret_inv in H. destruct H as (_ & -> & _). writes.
    + destruct (Execute W tool) as [execute|]; [|discriminate].
      run_inv H.
      match type of H with
      | (let '(_, _) := ?a in _) _ = _ =>
          destruct a as [[updates execResult] err]
      end.
      run_inv H.
      match goal with
      | Hu : forM_ _ _ _ _ = Ok _ |- _ => apply updates_writes in Hu
      end.
      assert (writes t1 []).
      { destruct err; apply ret_inv in H; destruct H as (_ & -> & _); writes. }
      writes.
  - apply ret_inv in H. destruct H as (_ & -> & _). writes.
Qed.

Lemma perform_writes tools tc w r ops w' :
  perform W now Quote MarshalIndent tools tc w = Ok (r, ops, w') ->
  writes ops [toMessage r].
Proof.
  unfold perform. intros H. run_inv H.
  match goal with
  | Hi : invoke _ _ _ _ _ _ = Ok (?a, _, _) |- _ =>
      apply invoke_writes in Hi; destruct a as [result isError]
  end.
  run_inv H. apply ret_inv in H. destruct H as (-> & -> & _).
  cbn [app].
  apply writes_cons_quiet; [reflexivity|reflexivity|].
  apply (writes_app _ _ [] [_]); [assumption|].
  writes.
Qed.

Lemma iteration_writes tools gs tc w r st ops w' :
  iteration W now Quote MarshalIndent tools gs tc w = Ok ((r, st), ops, w') ->
  writes ops [toMessage r].
Proof.
  unfold iteration. intros H. run_inv H.
  match goal with
  | Hp : perform _ _ _ _ _ _ _ = Ok _ |- _ => apply perform_writes in Hp
  end.
  match goal with
  | Hp : pollSteering _ _ _ = Ok _ |- _ => apply pollSteering_ops in Hp; subst
  end.
  apply ret_inv in H. destruct H as ([= -> ->] & -> & _).
  rewrite !app_nil_r. assumption.
Qed.

Lemma skipToolCall_writes tc w r ops w' :
  skipToolCall W now tc w = Ok (r, ops, w') -> writes ops [toMessage r].
Proof.
  unfold skipToolCall. intros H. run_inv H. apply ret_inv in H.
  destruct H as (-> & -> & _). cbn [app]. writes.
Qed.

Lemma mapM_skipToolCall_writes post w skipped ops w' :
  mapM W (skipToolCall W now) post w = Ok (skipped, ops, w') ->
  writes ops (map toMessage skipped).
Proof.
  revert w skipped ops w'. induction post as [|tc post IH];
    intros w skipped ops w' H; cbn [mapM] in H.
  - apply ret_inv in H. destruct H as (-> & -> & _). writes.
  - run_inv H. apply ret_inv in H. destruct H as (-> & -> & _).
    match goal with
    | Hs : skipToolCall _ _ _ _ = Ok _ |- _ => apply skipToolCall_writes in Hs
    end.
    match goal with
    | Hm : mapM _ _ _ _ = Ok _ |- _ => apply IH in Hm
    end.
    rewrite app_nil_r. cbn [map].
    apply (writes_app _ _ [_] _); assumption.
Qed.

Lemma executeLoop_writes tools gs calls acc w results st ops w' :
  executeLoop W now Quote MarshalIndent tools gs calls acc w
  = Ok ((results, st), ops, w') ->
  exists new, results = acc ++ new /\ writes ops (map toMessage new).
Proof.
  revert acc w results st ops w'. induction calls as [|tc calls IH];
    intros acc w results st ops w' H; cbn [executeLoop] in H.
  - apply ret_inv in H. destruct H as ([= -> ->] & -> & _).
    exists []. rewrite app_nil_r. split; [reflexivity|writes].
  - run_inv H.
    match goal with
    | Hi : iteration _ _ _ _ _ _ _ _ = Ok (?a, _, _) |- _ =>
        destruct a as [trMsg steering]; apply iteration_writes in Hi
    end.
    destruct (0 <? length steering)%nat.
    + run_inv H. apply ret_inv in H. destruct H as ([= -> ->] & -> & _).
      match goal with
      | Hm : mapM _ _ _ _ = Ok (?sk, _, _) |- _ =>
          apply mapM_skipToolCall_writes in Hm; exists (trMsg :: sk)
      end.
      split; [rewrite <- app_assoc; reflexivity|].
      rewrite app_nil_r. cbn [map].
      apply (writes_app _ _ [_] _); assumption.
    + apply IH in H. destruct H as (new & -> & Hw).
      exists (trMsg :: new). split; [rewrite <- app_assoc; reflexivity|].
      cbn [map]. apply (writes_app _ _ [_] _); assumption.
Qed.

Lemma drainPending_writes pending ctx nm w ctx' nm' ops w' :
  drainPending W pending ctx nm w = Ok ((ctx', nm'), ops, w') ->
  nm' = nm ++ pending /\ writes ops pending.
Proof.
  revert ctx nm w ops. induction pending as [|m pending IH];
    intros ctx nm w ops H; cbn [drainPending] in H.
  - apply ret_inv in H. destruct H as ([= -> ->] & -> & _).
    rewrite app_nil_r. split; [reflexivity|writes].
  - run_inv H. apply IH in H. destruct H as [-> Hw].
    split; [rewrite <- app_assoc; reflexivity|].
    cbn [app]. writes.
Qed.

Lemma isDelta_not_terminal ty :
  isDelta ty = true -> eqs ty EventDone || eqs ty EventError = false.
Proof.
  unfold isDelta, eqs. rewrite !orb_true_iff, !bool_decide_eq_true.
  intuition (subst; reflexivity).
Qed.

Lemma setLastMessage_inv ctx m w ctx' ops w' :
  setLastMessage W ctx m w = Ok (ctx', ops, w') -> ops = [].
Proof.
  unfold setLastMessage. destruct (Messages W ctx); [discriminate|].
  intros H. apply ret_inv in H. tauto.
Qed.

Lemma awaitResult_inv resp w r ops w' :
  awaitResult W resp w = Ok (r, ops, w') -> ops = [].
Proof.
  unfold awaitResult. destruct (EventStream.Result resp) as [[r0 s]| |];
    [|discriminate|discriminate].
  intros H. apply ret_inv in H. tauto.
Qed.

Lemma rangeEvents_writes events resp ctx pm ap w ctx' final err ops w' :
  Exists (fun e => assistantIsComplete e = true) events ->
  rangeEvents W events resp ctx pm ap w = Ok ((ctx', final, err), ops, w') ->
  err = None
  /\ writes ops [NewAgentMessageFromMessage (assistantMsg final)].
Proof.
  revert ctx pm ap w ops. induction events as [|event rest IH];
    intros ctx pm ap w ops Hex H; [inversion Hex|].
  cbn [rangeEvents] in H.
  destruct (eqs (ev_Type event) EventStart) eqn:Hstart.
  { assert (Hnt : assistantIsComplete event = false).
    { unfold eqs in Hstart. apply bool_decide_eq_true in Hstart.
      unfold assistantIsComplete. rewrite Hstart. reflexivity. }
    inversion Hex as [? ? Hhd|? ? Htl]; subst; [congruence|].
    run_inv H. destruct (IH _ _ _ _ _ Htl H) as [-> Hw].
    split; [reflexivity|]. cbn [app]. writes. }
  destruct (isDelta (ev_Type event)) eqn:Hdelta.
  { assert (Hnt : assistantIsComplete event = false)
      by (apply isDelta_not_terminal; exact Hdelta).
    inversion Hex as [? ? Hhd|? ? Htl]; subst; [congruence|].
    destruct pm as [pm|].
    - run_inv H.
      assert (t = []) as ->.
      { destruct ap.
        - match goal with
          | Hs : setLastMessage _ _ _ _ = Ok _ |- _ =>
              apply setLastMessage_inv in Hs; exact Hs
          end.
        - match goal with
          | Hs : ret _ _ _ = Ok _ |- _ => apply ret_inv in Hs; tauto
          end. }
      destruct (IH _ _ _ _ _ Htl H) as [-> Hw].
      split; [reflexivity|]. cbn [app]. writes.
    - exact (IH _ _ _ _ _ Htl H). }
  destruct (eqs (ev_Type event) EventDone || eqs (ev_Type event) EventError)
    eqn:Hterm.
  - destruct ap; run_inv H; apply ret_inv in H;
      destruct H as ([= -> -> ->] & -> & _);
      repeat match goal with
      | Hs : awaitResult _ _ _ = Ok _ |- _ =>
          apply awaitResult_inv in Hs; subst
      | Hs : setLastMessage _ _ _ _ = Ok _ |- _ =>
          apply setLastMessage_inv in Hs; subst
      | Hs : ret _ _ _ = Ok _ |- _ =>
          apply ret_inv in Hs; destruct Hs as (_ & -> & _)
      end;
      (split; [reflexivity|]); cbn [app]; writes.
  - inversion Hex as [? ? Hhd|? ? Htl]; subst.
    + unfold assistantIsComplete in Hhd. congruence.
    + exact (IH _ _ _ _ _ Htl H).
Qed.

Lemma streamAssistantResponse_writes ctx config streamFn w ctx' msg err ops w' :
  conversions_succeed W config -> streams_deliver_terminal W streamFn ->
  streamAssistantResponse W ctx config streamFn w
  = Ok ((ctx', msg, err), ops, w') ->
  err = None
  /\ writes ops [NewAgentMessageFromMessage (assistantMsg msg)].
Proof.
  intros [Htr Hcv] (sf & -> & Hsf) H. unfold streamAssistantResponse in H.
  run_inv H.
  match type of H with
  | (let '(_, _) := ?a in _) _ = _ => destruct a as [messages terr]
  end.
  assert (terr = None /\ t = []) as [-> ->].
  { destruct (TransformContext W config) as [transform|].
    - match goal with
      | Hc : call _ _ _ = Ok _ |- _ =>
          apply call_inv in Hc; destruct Hc as [-> Hc]
      end.
      split; [|reflexivity].
      match goal with
      | Hc : transform ?ms ?w0 = _ |- _ =>
          specialize (Htr ms w0); rewrite Hc in Htr; exact Htr
      end.
    - match goal with
      | Hc : ret _ _ _ = Ok _ |- _ =>
          apply ret_inv in Hc; destruct Hc as ([= _ <-] & -> & _)
      end.
      auto. }
  run_inv H.
  match type of H with
  | (let '(_, _) := ?a in _) _ = _ => destruct a as [llmMessages cerr]
  end.
  assert (cerr = None /\ t = []) as [-> ->].
  { destruct (ConvertToLLM W config) as [convert|]; [|discriminate].
    match goal with
    | Hc : call _ _ _ = Ok _ |- _ =>
        apply call_inv in Hc; destruct Hc as [-> Hc]
    end.
    split; [|reflexivity].
    match goal with
    | Hc : convert ?ms ?w0 = _ |- _ =>
        specialize (Hcv ms w0); rewrite Hc in Hcv; exact Hcv
    end. }
  run_inv H.
  assert (t = []) as ->.
  { destruct (GetApiKey W config) as [getApiKey|].
    - destruct (Model_ W config) as [model|]; [|discriminate].
      match goal with
      | Hc : bind _ _ _ _ = Ok _ |- _ => rename Hc into Hkey
      end.
      run_inv Hkey.
      match type of Hkey with
      | (let '(_, _) := ?a in _) _ = _ => destruct a as [key [kerr|]]
      end.
      + apply ret_inv in Hkey. destruct Hkey as (_ & -> & _). reflexivity.
      + destruct (eqs key ""); apply ret_inv in Hkey;
          destruct Hkey as (_ & -> & _); reflexivity.
    - match goal with
      | Hc : ret _ _ _ = Ok _ |- _ => apply ret_inv in Hc; tauto
      end. }
  match goal with
  | Hc : sf _ _ _ _ = (?resp, _) |- _ =>
      destruct resp as [response|]; [|discriminate];
      pose proof (Hsf _ _ _ _ response (f_equal fst Hc)) as Hex
  end.
  cbn [app].
  exact (rangeEvents_writes _ _ _ _ _ _ _ _ _ _ _ Hex H).
Qed.

Lemma ledger_kept_step pre rest nm ms exit :
  writes pre ms -> ledger_kept W (nm ++ ms) rest exit ->
  ledger_kept W nm (pre ++ rest) exit.
Proof.
  intros [Hf Ha]. unfold ledger_kept.
  rewrite finalised_app, agentEnds_app, Hf, Ha, app_assoc.
  destruct exit; auto.
Qed.

Lemma poll_inv (g : option (W -> (list AgentMessage * option error) * W))
  w x t w' :
  match g with
  | Some g =>
      bind W (call W g) (fun r =>
        let '(msgs, err) := r in
        match err with
        | None => ret W msgs
        | Some _ => ret W []
        end)
  | None => ret W []
  end w = Ok (x, t, w') -> t = [].
Proof.
  destruct g as [g|]; intros H.
  - run_inv H.
    match type of H with
    | (let '(_, _) := ?a in _) _ = _ => destruct a as [msgs [err|]]
    end; apply ret_inv in H; destruct H as (_ & -> & _); reflexivity.
  - apply ret_inv in H. tauto.
Qed.

Lemma innerLoop_ledger config streamFn fuel :
  conversions_succeed W config -> streams_deliver_terminal W streamFn ->
  forall ctx nm ft hm pending sat w exit ops w',
    innerLoop W now Quote MarshalIndent config streamFn fuel ctx nm ft hm
      pending sat w = Ok (exit, ops, w') ->
    ledger_kept W nm ops exit.
Proof.
  intros Hc Hs. induction fuel as [|fuel IH];
    intros ctx nm ft hm pending sat w exit ops w' H; cbn [innerLoop] in H;
    destruct (negb (hm || (0 <? length pending)%nat)).
  1, 3: apply ret_inv in H; destruct H as (-> & -> & _); cbn;
        rewrite app_nil_r; auto.
  - discriminate.
  - run_inv H.
    assert (Hw0 : writes t []).
    { destruct (negb ft).
      - match goal with
        | Hp : push _ _ _ = Ok _ |- _ =>
            apply push_inv in Hp; destruct Hp as [-> _]
        end. writes.
      - match goal with
        | Hp : ret _ _ _ = Ok _ |- _ =>
            apply ret_inv in Hp; destruct Hp as (_ & -> & _)
        end. writes. }
    match type of H with
    | (let '(_, _) := ?a in _) _ = _ => destruct a as [ctx1 nm1]
    end.
    match goal with
    | Hd : drainPending _ _ _ _ _ = Ok _ |- _ =>
        apply drainPending_writes in Hd; destruct Hd as [-> Hw1]
    end.
    run_inv H.
    match type of H with
    | (let '(_, _) := ?a in _) _ = _ => destruct a as [[ctx2 message] err]
    end.
    match goal with
    | Hd : streamAssistantResponse _ _ _ _ _ = Ok _ |- _ =>
        apply (streamAssistantResponse_writes _ _ _ _ _ _ _ _ _ Hc Hs) in Hd;
        destruct Hd as [-> Hw2]
    end.
    apply (ledger_kept_step _ _ _ _ _ Hw0).
    apply (ledger_kept_step _ _ _ _ _ Hw1).
    apply (ledger_kept_step _ _ _ _ _ Hw2).
    rewrite app_nil_r.
    cbv zeta in H. destruct message as [message|]; [|discriminate].
    destruct (eqs (am_StopReason message) StopReasonError
              || eqs (am_StopReason message) StopReasonAborted).
    + run_inv H.
      match goal with
      | He : end_ _ _ _ = Ok _ |- _ => apply end_inv in He; destruct He as [-> _]
      end.
      apply ret_inv in H. destruct H as (-> & -> & _).
      cbn. rewrite app_nil_r. reflexivity.
    + run_inv H.
      match goal with
      | Hr : (if (0 <? length _)%nat then _ else _) _ = Ok (?a, ?t, _) |- _ =>
          assert (Hr3 : exists results steering ctx3,
                     a = (results, steering, ctx3,
                          ((nm ++ pending)
                           ++ [NewAgentMessageFromMessage
                                 (assistantMsg (Some message))])
                          ++ map toMessage results)
                     /\ writes t (map toMessage results));
          [ destruct (0 <? length (toolCallsOf (am_Content message)))%nat;
            [ run_inv Hr;
              match type of Hr with
              | (let '(_, _) := ?b in _) _ = _ =>
                  destruct b as [results steering]
              end;
              match goal with
              | He : executeToolCalls _ _ _ _ _ _ _ _ = Ok _ |- _ =>
                  apply executeLoop_writes in He;
                  destruct He as (new & Hnew & Hw3)
              end;
              cbn [app] in Hnew; subst new;
              unfold appendToolResults in Hr;
              apply ret_inv in Hr; destruct Hr as (-> & -> & _);
              exists results, steering; eexists;
              split; [reflexivity | rewrite app_nil_r; exact Hw3]
            | apply ret_inv in Hr; destruct Hr as (-> & -> & _);
              exists [], sat, ctx2; split;
              [cbn [map]; rewrite app_nil_r; reflexivity | writes] ]
          | destruct Hr3 as (results & steering & ctx3 & -> & Hw3); clear Hr ]
      end.
      run_inv H.
      assert (t3 = []) as ->.
      { destruct (0 <? length steering)%nat.
        - match goal with
          | Hp : ret _ _ _ = Ok _ |- _ => apply ret_inv in Hp; tauto
          end.
        - match goal with
          | Hp : _ = Ok (_, t3, _) |- _ => exact (poll_inv _ _ _ _ _ Hp)
          end. }
      apply IH in H.
      apply (ledger_kept_step _ _ _ _ _ Hw3).
      apply (ledger_kept_step [_] _ _ [] _).
      * writes.
      * rewrite app_nil_r. exact H.
Qed.

Lemma outerLoop_ledger config streamFn fuel :
  conversions_succeed W config -> streams_deliver_terminal W streamFn ->
  forall ctx nm ft pending w x ops w',
    outerLoop W now Quote MarshalIndent config streamFn fuel ctx nm ft
      pending w = Ok (x, ops, w') ->
    agentEnds ops = [nm ++ finalised ops].
Proof.
  intros Hc Hs. induction fuel as [|fuel IH];
    intros ctx nm ft pending w x ops w' H; cbn [outerLoop] in H;
    [discriminate|].
  run_inv H.
  match goal with
  | Hi : innerLoop _ _ _ _ _ _ _ _ _ _ _ _ _ _ = Ok (?e, _, _) |- _ =>
      apply (innerLoop_ledger _ _ _ Hc Hs) in Hi; destruct e as [|ctx1 nm1 ft1]
  end.
  - apply ret_inv in H. destruct H as (_ & -> & _). rewrite app_nil_r.
    assumption.
  - match goal with
    | Hi : ledger_kept _ _ _ _ |- _ => destruct Hi as [-> Hq]
    end.
    run_inv H.
    match goal with
    | Hp : _ = Ok (?fu, ?tp, _), Hx : _ = Ok (x, _, w') |- _ =>
        assert (tp = []) as -> by
          (destruct (GetFollowUpMessages W config) as [g|];
           [ run_inv Hp;
             match type of Hp with
             | (let '(_, _) := ?b in _) _ = _ => destruct b as [fu' [e|]]
             end; apply ret_inv in Hp; tauto
           | apply ret_inv in Hp; tauto ]);
        clear Hp; destruct (0 <? length fu)%nat
    end.
    + apply IH in H. cbn [app].
      rewrite agentEnds_app, finalised_app, Hq, H.
      cbn [app]. rewrite app_assoc. reflexivity.
    + run_inv H.
      match goal with
      | He : end_ _ _ _ = Ok _ |- _ => apply end_inv in He; destruct He as [-> _]
      end.
      cbn [app]. rewrite agentEnds_app, finalised_app, Hq. cbn.
      rewrite !app_nil_r. reflexivity.
Qed.

Lemma runLoop_ledger config streamFn fuel ctx nm w x ops w' :
  conversions_succeed W config -> streams_deliver_terminal W streamFn ->
  runLoop W now Quote MarshalIndent fuel ctx nm config streamFn w
  = Ok (x, ops, w') ->
  agentEnds ops = [nm ++ finalised ops].
Proof.
  intros Hc Hs H. unfold runLoop in H. run_inv H.
  match goal with
  | Hp : _ = Ok (_, ?tp, _), Hx : outerLoop _ _ _ _ _ _ _ _ _ _ _ _ = _ |- _ =>
      assert (tp = []) as -> by exact (poll_inv _ _ _ _ _ Hp)
  end.
  cbn [app]. exact (outerLoop_ledger _ _ _ Hc Hs _ _ _ _ _ _ _ _ H).
Qed.

Lemma prompts_writes prompts w x ops w' :
  forM_ W (fun pm => bind W (push W (messageEvent MessageEventStart pm))
                       (fun _ => push W (messageEvent MessageEventEnd pm)))
    prompts w = Ok (x, ops, w') ->
  writes ops prompts.
Proof.
  revert w ops. induction prompts as [|pm prompts IH]; intros w ops H;
    cbn [forM_] in H.
  - apply ret_inv in H. destruct H as (_ & -> & _). writes.
  - run_inv H.
    match goal with
    | Hp : bind _ _ _ _ = Ok _ |- _ =>
        run_inv Hp; apply push_inv in Hp; destruct Hp as [-> ->]
    end.
    apply IH in H. cbn [app]. writes.
Qed.

Lemma ledger_after_start ops nm :
  agentEnds ops = [nm ++ finalised ops] ->
  agentEnds (OpPush (event AgentEventStart)
             :: OpPush (event TurnEventStart) :: ops)
  = [nm ++ finalised (OpPush (event AgentEventStart)
                      :: OpPush (event TurnEventStart) :: ops)].
Proof. intros H. exact H. Qed.

(** X30.  The message ledger where it holds.  Let the context transform
    and the converter of the configuration never return an error, and
    let every stream that the stream function returns carry a [done] or
    [error] event.  Then in every run of the loop that returns, started
    by [AgentLoop] or by [AgentLoopContinue], one [agent_end] is pushed,
    and the list it carries is the list of the messages finalised by the
    [message_end] events of the run, in event order. *)
Theorem message_ledger (fuel : nat) (prompts : list AgentMessage)
  (agentCtx : AgentContext W) (config : AgentLoopConfig W)
  (streamFn : option (StreamFn W)) :
  conversions_succeed W config -> streams_deliver_terminal W streamFn ->
  (forall w x ops w',
     AgentLoop W now Quote MarshalIndent fuel prompts agentCtx config streamFn w
     = Ok (x, ops, w') ->
     agentEnds ops = [finalised ops])
  /\ (forall body w x ops w',
        fst (AgentLoopContinue W now Quote MarshalIndent fuel agentCtx config
               streamFn) = Some body ->
        body w = Ok (x, ops, w') ->
        agentEnds ops = [finalised ops]).
Proof.
  intros Hc Hs. split.
  - intros w x ops w' H. unfold AgentLoop in H. run_inv H.
    match goal with
    | Hp : forM_ _ _ _ _ = Ok _ |- _ =>
        apply prompts_writes in Hp; destruct Hp as [Hf Ha]
    end.
    apply (runLoop_ledger _ _ _ _ _ _ _ _ _ Hc Hs) in H.
    cbn [app]. apply (ledger_after_start _ []). cbn [app].
    rewrite agentEnds_app, finalised_app, Ha, Hf, H. reflexivity.
  - intros body w x ops w' Hbody H. unfold AgentLoopContinue in Hbody.
    destruct (last (Messages W agentCtx)) as [lastMsg|]; [|discriminate].
    destruct (eqs (Role (Message lastMsg)) RoleAssistant); [discriminate|].
    cbn [fst] in Hbody. injection Hbody as <-. run_inv H.
    apply (runLoop_ledger _ _ _ _ _ _ _ _ _ Hc Hs) in H.
    cbn [app]. apply (ledger_after_start _ []). exact H.
Qed.

End LedgerFacts.

Section LedgerExamples.

Import ai agent Examples.
Local Open Scope string_scope.
Local Open Scope list_scope.

Lemma config0_conversions_succeed : conversions_succeed World config0.
Proof. split; [exact I|]. intros ms w. reflexivity. Qed.

Lemma streamFn0_delivers_terminal :
  streams_deliver_terminal World (Some streamFn0).
Proof.
  exists streamFn0. split; [reflexivity|].
  intros model llmCtx opts w response. unfold streamFn0.
  destruct (providerScript w) as [|m rest]; cbn [fst]; intros [= <-];
    apply Exists_cons_tl, Exists_cons_hd; reflexivity.
Qed.

(** The ledger on the run with three tool calls, a steering message
    and a second turn. *)
Lemma message_ledger_witness :
  conversions_succeed World config0
  /\ streams_deliver_terminal World (Some streamFn0)
  /\ match AgentLoop World now0 Quote0 MarshalIndent0 10 [userText "2+2?"]
             context0 config0 (Some streamFn0) toolWorld with
     | Ok (_, ops, _) =>
         agentEnds ops = [finalised ops] /\ length (finalised ops) = 7%nat
     | Fail _ => False
     end.
Proof.
  split; [exact config0_conversions_succeed|].
  split; [exact streamFn0_delivers_terminal|].
  pose proof (proj1 (message_ledger now0 Quote0 MarshalIndent0 10
                       [userText "2+2?"] context0 config0 (Some streamFn0)
                       config0_conversions_succeed streamFn0_delivers_terminal)
                toolWorld) as H.
  destruct (AgentLoop World now0 Quote0 MarshalIndent0 10 [userText "2+2?"]
              context0 config0 (Some streamFn0) toolWorld)
    as [[[x ops] w']|why] eqn:Hrun.
  - split; [exact (H x ops w' eq_refl)|].
    vm_compute in Hrun. injection Hrun as <- <- <-. reflexivity.
  - vm_compute in Hrun. discriminate.
Defined.

(** C2.  The ledger does not hold of a run that a conversion error
    ends.  With a converter that returns an error, [AgentLoop] on the
    prompt [hi] finalises the prompt alone by a [message_end], and its
    [agent_end] carries the prompt followed by the error message that
    [runLoop] makes up: that branch appends the message to the new
    messages and pushes [turn_end] and [agent_end], and no
    [message_start] or [message_end] for the message, which the branch
    of [streamAssistantResponse] for an [error] event of the provider
    does push. *)
Lemma ledger_misses_conversion_error :
  exists ops w' errMsg,
    AgentLoop World now0 Quote0 MarshalIndent0 10 [userText "hi"] context0
      failingConfig (Some streamFn0) quietWorld = Ok (tt, ops, w')
    /\ finalised ops = [userText "hi"]
    /\ agentEnds ops
       = [[userText "hi";
           NewAgentMessageFromMessage (assistantMsg (Some errMsg))]]
    /\ am_StopReason errMsg = StopReasonError
    /\ am_ErrorMessage errMsg = "convertToLLM: unsupported message"
    /\ agentEnds ops <> [finalised ops].
Proof.
  do 3 eexists. split; [reflexivity|].
  split; [reflexivity|]. split; [reflexivity|].
  split; [reflexivity|]. split; [reflexivity|]. discriminate.
Qed.

End LedgerExamples.

(** ** Event streams: delivery *)

Section StreamLifeFacts.

Import EventStream.

Context {T R : Type} (isComplete : T -> bool) (extractResult : T -> R).

Lemma Push_open e (s : t T R) :
  isComplete e = false -> ch_closed s = false ->
  (length (ch s) < ch_cap)%nat ->
  Push isComplete extractResult e s
  = Go.Done {| ch := ch s ++ [e]; ch_closed := false; once := once s;
               resultCh := resultCh s |}.
Proof.
  intros He Hc Hlen.
  assert (Hcap : (ch_cap <=? length (ch s))%nat = false)
    by (apply Nat.leb_gt; exact Hlen).
  unfold Push, send. rewrite He. cbn [Go.obind]. rewrite Hc, Hcap.
  reflexivity.
Qed.

Lemma PushAll_open events (s : t T R) :
  Forall (fun e => isComplete e = false) events -> ch_closed s = false ->
  (length (ch s) + length events <= ch_cap)%nat ->
  PushAll isComplete extractResult events s
  = Go.Done {| ch := ch s ++ events; ch_closed := false; once := once s;
               resultCh := resultCh s |}.
Proof.
  revert s. induction events as [|e es IH]; intros s Hall Hc Hlen.
  - cbn. rewrite app_nil_r. destruct s; cbn in *. subst. reflexivity.
  - inversion Hall as [|? ? He Hes]; subst. cbn [PushAll length] in *.
    rewrite Push_open by (auto; lia). cbn [Go.obind].
    rewrite IH; cbn [ch ch_closed once resultCh]; auto.
    + rewrite <- app_assoc. reflexivity.
    + rewrite length_app. cbn. lia.
Qed.

Lemma rangeLoop_closed fuel (s : t T R) :
  ch_closed s = true -> (length (ch s) < fuel)%nat ->
  rangeLoop fuel s
  = Go.Done (ch s, {| ch := []; ch_closed := true; once := once s;
                      resultCh := resultCh s |}).
Proof.
  revert s. induction fuel as [|fuel IH]; intros s Hc Hlen; [lia|].
  cbn [rangeLoop]. unfold recv.
  destruct s as [c cl o r]. cbn [ch ch_closed once resultCh] in *. subst cl.
  destruct c as [|e rest]; cbn [Go.obind].
  - reflexivity.
  - rewrite IH by (cbn in *; auto; lia). reflexivity.
Qed.

(** X2.  On a stream nobody has resolved, non-terminal events that fit
    the buffer are all accepted; after [End] the loop of a consumer
    meets the events that were in the buffer followed by the pushed
    ones, in the order pushed, and then ends; [Result] then returns the
    value given to [End]. *)
Theorem events_delivered_in_order (events : list T) (r : R) (s : t T R) :
  unresolved s ->
  Forall (fun e => isComplete e = false) events ->
  (length (ch s) + length events <= ch_cap)%nat ->
  exists s1 s2 s3,
    PushAll isComplete extractResult events s = Go.Done s1
    /\ End r s1 = Go.Done s2
    /\ drain s2 = Go.Done (ch s ++ events, s3)
    /\ recv s3 = Go.Done (None, s3)
    /\ Result s3 = Go.Done (r, {| ch := []; ch_closed := true; once := true;
                                  resultCh := None |}).
Proof.
  intros (Hr & Ho & Hc) Hall Hlen.
  do 3 eexists. split; [apply PushAll_open; assumption|].
  split.
  { unfold End, try_send_result, once_close, close_ch.
    cbn [ch ch_closed once resultCh]. rewrite Hr, Ho.
    cbn [ch ch_closed once resultCh]. reflexivity. }
  split.
  { unfold drain. rewrite rangeLoop_closed; cbn [ch ch_closed once resultCh];
      [reflexivity|reflexivity|lia]. }
  split; reflexivity.
Qed.

(** X3.  With 64 events in the buffer of an unresolved stream and no
    consumer taking any, [Push] does not return, whatever the event. *)
Theorem Push_waits_on_full_buffer (e : T) (s : t T R) :
  unresolved s -> length (ch s) = ch_cap ->
  Push isComplete extractResult e s = Go.Blocks.
Proof.
  intros (Hr & Ho & Hc) Hlen.
  unfold Push, send_result, send. rewrite Hr.
  destruct (isComplete e); cbn [Go.obind ch ch_closed once resultCh];
    rewrite Hc, Hlen, Nat.leb_refl; reflexivity.
Qed.

(** X4.  No [Push] returns on a stream that has been resolved and whose
    result has not been taken: a terminal event waits for the result
    slot, any other event panics on the closed channel.  Once [Result]
    has taken the result, every [Push] panics. *)
Theorem Push_after_end (e : T) (r : R) (s : t T R) :
  resolved_with r s ->
  Push isComplete extractResult e s
  = (if isComplete e then Go.Blocks else Go.Panics)
  /\ exists s', Result s = Go.Done (r, s')
                /\ Push isComplete extractResult e s' = Go.Panics.
Proof.
  intros (Hr & Ho & Hc). split.
  - unfold Push, send_result, send. rewrite Hr.
    destruct (isComplete e); cbn [Go.obind]; [reflexivity|].
    rewrite Hc. reflexivity.
  - unfold Result. rewrite Hr. eexists. split; [reflexivity|].
    unfold Push, send_result, send. cbn [resultCh].
    destruct (isComplete e); cbn [Go.obind ch_closed]; rewrite Hc; reflexivity.
Qed.

Lemma PushAll_app events1 events2 (s : t T R) :
  PushAll isComplete extractResult (events1 ++ events2) s
  = Go.obind (PushAll isComplete extractResult events1 s)
             (PushAll isComplete extractResult events2).
Proof.
  revert s. induction events1 as [|e es IH]; intros s; [reflexivity|].
  cbn [PushAll app].
  destruct (Push isComplete extractResult e s) as [s1| |]; cbn [Go.obind];
    [apply IH|reflexivity|reflexivity].
Qed.

Lemma Push_open_inv e (s s1 : t T R) :
  isComplete e = false -> unresolved s ->
  Push isComplete extractResult e s = Go.Done s1 ->
  unresolved s1 /\ ch s1 = ch s ++ [e].
Proof.
  intros He (Hr & Ho & Hc). unfold Push, send. rewrite He. cbn [Go.obind].
  rewrite Hc. destruct (ch_cap <=? length (ch s))%nat; [discriminate|].
  intros [= <-]. repeat split; assumption.
Qed.

Lemma PushAll_open_inv events (s s1 : t T R) :
  Forall (fun e => isComplete e = false) events -> unresolved s ->
  PushAll isComplete extractResult events s = Go.Done s1 ->
  unresolved s1 /\ ch s1 = ch s ++ events.
Proof.
  revert s. induction events as [|e es IH]; intros s Hall Hs.
  - cbn. intros [= <-]. rewrite app_nil_r. auto.
  - inversion Hall as [|? ? He Hes]; subst. cbn [PushAll].
    destruct (Push isComplete extractResult e s) as [s'| |] eqn:HP;
      cbn [Go.obind]; try discriminate.
    destruct (Push_open_inv e s s' He Hs HP) as [Hs' Hch].
    intros H. destruct (IH s' Hes Hs' H) as [Hu Hc].
    split; [exact Hu|]. rewrite Hc, Hch, <- app_assoc. reflexivity.
Qed.

Lemma Push_terminal_inv e (s s1 : t T R) :
  isComplete e = true -> unresolved s ->
  Push isComplete extractResult e s = Go.Done s1 ->
  resolved_with (extractResult e) s1 /\ ch s1 = ch s ++ [e].
Proof.
  intros He (Hr & Ho & Hc).
  unfold Push, send_result, send, once_close, close_ch.
  rewrite He, Hr. cbn [Go.obind ch ch_closed once resultCh]. rewrite Hc.
  destruct (ch_cap <=? length (ch s))%nat; [discriminate|].
  cbn [Go.obind ch ch_closed once resultCh]. rewrite Ho.
  intros [= <-]. repeat split.
Qed.

Lemma producer_PushAll events1 events2 (s s1 : t T R) :
  PushAll isComplete extractResult events1 s = Go.Done s1 ->
  producer isComplete extractResult (events1 ++ events2) s
  = producer isComplete extractResult events2 s1.
Proof.
  revert s. induction events1 as [|e es IH]; intros s.
  - cbn. intros [= <-]. reflexivity.
  - cbn [PushAll app producer].
    destruct (Push isComplete extractResult e s) as [s'| |];
      cbn [Go.obind]; try discriminate.
    apply IH.
Qed.

Lemma Push_terminal e (s : t T R) :
  isComplete e = true -> unresolved s -> (length (ch s) < ch_cap)%nat ->
  Push isComplete extractResult e s
  = Go.Done {| ch := ch s ++ [e]; ch_closed := true; once := true;
               resultCh := Some (extractResult e) |}.
Proof.
  intros He (Hr & Ho & Hc) Hlen.
  assert (Hcap : (ch_cap <=? length (ch s))%nat = false)
    by (apply Nat.leb_gt; exact Hlen).
  unfold Push, send_result, send, once_close, close_ch.
  rewrite He, Hr. cbn [Go.obind ch ch_closed once resultCh].
  rewrite Hc, Hcap. cbn [Go.obind ch ch_closed once resultCh].
  rewrite Ho. reflexivity.
Qed.

(** On a full buffer the producer of a terminal event records the
    result and waits to send the event. *)
Lemma producer_terminal_full e (s : t T R) :
  isComplete e = true -> unresolved s -> length (ch s) = ch_cap ->
  producer isComplete extractResult [e] s
  = {| ch := ch s; ch_closed := ch_closed s; once := once s;
       resultCh := Some (extractResult e) |}.
Proof.
  intros He (Hr & Ho & Hc) Hlen.
  cbn [producer]. unfold Push, Push_leaves, send_result, send.
  rewrite He, Hr. cbn [Go.obind ch ch_closed once resultCh].
  rewrite Hc, Hlen, Nat.leb_refl. reflexivity.
Qed.

(** On a full buffer the producer of a non-terminal event waits, and
    what follows the event is never pushed. *)
Lemma producer_open_full e events (s : t T R) :
  isComplete e = false -> unresolved s -> length (ch s) = ch_cap ->
  producer isComplete extractResult (e :: events) s = s.
Proof.
  intros He (Hr & Ho & Hc) Hlen.
  cbn [producer]. unfold Push, Push_leaves, send.
  rewrite He. cbn [Go.obind]. rewrite Hc, Hlen, Nat.leb_refl. reflexivity.
Qed.

(** The producer of a response on a new stream: non-terminal events and
    then a terminal one. *)
Lemma producer_response events e :
  Forall (fun e' => isComplete e' = false) events ->
  isComplete e = true ->
  ((length events < ch_cap)%nat ->
   PushAll isComplete extractResult (events ++ [e]) NewEventStream
   = Go.Done (producer isComplete extractResult (events ++ [e]) NewEventStream)
   /\ producer isComplete extractResult (events ++ [e]) NewEventStream
      = {| ch := events ++ [e]; ch_closed := true; once := true;
           resultCh := Some (extractResult e) |})
  /\ (length events = ch_cap ->
      producer isComplete extractResult (events ++ [e]) NewEventStream
      = {| ch := events; ch_closed := false; once := false;
           resultCh := Some (extractResult e) |})
  /\ ((ch_cap < length events)%nat ->
      producer isComplete extractResult (events ++ [e]) NewEventStream
      = {| ch := firstn ch_cap events; ch_closed := false; once := false;
           resultCh := None |}).
Proof.
  intros Hall He.
  assert (Hopen : forall evs,
             Forall (fun e' => isComplete e' = false) evs ->
             (length evs <= ch_cap)%nat ->
             PushAll isComplete extractResult evs
               (@NewEventStream T R)
             = Go.Done {| ch := evs; ch_closed := false; once := false;
                          resultCh := None |}).
  { intros evs Hevs Hlen.
    rewrite (PushAll_open evs NewEventStream Hevs);
      [reflexivity|reflexivity|cbn; lia]. }
  split; [|split].
  - intros Hlen.
    assert (HP : PushAll isComplete extractResult (events ++ [e])
                   NewEventStream
                 = Go.Done {| ch := events ++ [e]; ch_closed := true;
                              once := true;
                              resultCh := Some (extractResult e) |}).
    { rewrite PushAll_app, (Hopen events Hall) by lia. cbn [Go.obind PushAll].
      rewrite Push_terminal; [reflexivity|exact He|repeat split|exact Hlen]. }
    pose proof (producer_PushAll _ [] _ _ HP) as Hpr.
    rewrite app_nil_r in Hpr. cbn [producer] in Hpr. rewrite Hpr.
    split; [exact HP|reflexivity].
  - intros Hlen.
    rewrite (producer_PushAll events [e] _ _ (Hopen events Hall ltac:(lia))).
    rewrite producer_terminal_full; [reflexivity|exact He|repeat split|exact Hlen].
  - intros Hlen.
    rewrite <- (firstn_skipn ch_cap events) at 1.
    rewrite <- app_assoc.
    assert (Hf : length (firstn ch_cap events) = ch_cap)
      by (rewrite length_firstn; lia).
    rewrite (producer_PushAll (firstn ch_cap events) _ _ _
               (Hopen _ (Forall_take _ ch_cap _ Hall) ltac:(lia))).
    destruct (skipn ch_cap events) as [|e2 rest] eqn:Hs.
    + apply (f_equal (@length T)) in Hs. rewrite length_skipn in Hs.
      cbn in Hs. lia.
    + assert (He2 : isComplete e2 = false).
      { assert (Hin : Forall (fun e' => isComplete e' = false)
                        (skipn ch_cap events)) by (apply Forall_drop; exact Hall).
        rewrite Hs in Hin. inversion Hin; assumption. }
      cbn [app].
      rewrite producer_open_full; [reflexivity|exact He2|repeat split|exact Hf].
Qed.

End StreamLifeFacts.

(** ** Models *)

Section ModelImports.

Import ai.
Local Open Scope string_scope.

Section SearchFacts.

Lemma substring_0_append (sub post : string) :
  substring 0 (String.length sub) (sub +:+ post) = sub.
Proof.
  induction sub as [|c sub IH]; simpl.
  - destruct post; reflexivity.
  - rewrite IH. reflexivity.
Qed.

Lemma substring_skip (pre x : string) (m : nat) :
  substring (String.length pre) m (pre +:+ x) = substring 0 m x.
Proof. induction pre as [|c pre IH]; simpl; [reflexivity|exact IH]. Qed.

Lemma string_length_append (a b : string) :
  String.length (a +:+ b) = (String.length a + String.length b)%nat.
Proof. induction a as [|c a IH]; simpl; [reflexivity|]. rewrite IH. reflexivity. Qed.

Lemma substring_0_inv (m : nat) (s sub : string) :
  substring 0 m s = sub -> String.length sub = m ->
  exists post, s = sub +:+ post.
Proof.
  revert s sub. induction m as [|m IH]; intros s sub Hs Hl.
  - destruct sub; [|discriminate]. exists s. reflexivity.
  - destruct s as [|c s]; simpl in Hs.
    + subst sub. discriminate.
    + destruct sub as [|c' sub]; [discriminate|].
      injection Hs as -> Hs. injection Hl as Hl.
      destruct (IH s sub Hs Hl) as (post & ->).
      exists post. reflexivity.
Qed.

Lemma substring_inv (n m : nat) (s sub : string) :
  substring n m s = sub -> String.length sub = m ->
  (n + m <= String.length s)%nat ->
  exists pre post, s = pre +:+ sub +:+ post /\ String.length pre = n.
Proof.
  revert s. induction n as [|n IH]; intros s Hs Hl Hle.
  - destruct (substring_0_inv m s sub Hs Hl) as (post & ->).
    exists "", post. split; reflexivity.
  - destruct s as [|c s]; [simpl in Hle; lia|].
    simpl in Hs. simpl in Hle.
    destruct (IH s Hs Hl ltac:(lia)) as (pre & post & -> & Hp).
    exists (String c pre), post. split; [reflexivity|]. simpl. congruence.
Qed.

Lemma searchLoop_true (s sub : string) (fuel : nat) (i : Z) :
  0 <= i ->
  searchLoop s sub i fuel = true <->
  exists j, i <= j /\ j < i + Z.of_nat fuel /\ j <= len s - len sub
            /\ slice s j (j + len sub) = sub.
Proof.
  revert i. induction fuel as [|fuel IH]; intros i Hi; simpl.
  - split; [discriminate|]. intros (j & ? & ? & _). lia.
  - destruct (Z.leb_spec i (len s - len sub)) as [Hle|Hgt].
    + unfold eqs at 1. case_bool_decide as Heq.
      * split; [|reflexivity]. intros _. exists i. repeat split; try lia. exact Heq.
      * rewrite IH by lia. split.
        -- intros (j & ? & ? & ? & ?). exists j. repeat split; try lia. assumption.
        -- intros (j & ? & ? & ? & Hj).
           assert (j <> i) by (intros ->; contradiction).
           exists j. repeat split; try lia. assumption.
    + split; [discriminate|]. intros (j & ? & ? & ? & _). lia.
Qed.

Lemma slice_occurs (s sub : string) (j : Z) :
  0 <= j -> j <= len s - len sub ->
  slice s j (j + len sub) = sub -> occurs_in sub s.
Proof.
  unfold slice, len. intros H0 Hle Hs.
  replace (j + Z.of_nat (String.length sub) - j) with (Z.of_nat (String.length sub)) in Hs by lia.
  rewrite Nat2Z.id in Hs.
  destruct (substring_inv _ _ _ _ Hs eq_refl ltac:(lia)) as (pre & post & -> & _).
  exists pre, post. reflexivity.
Qed.

Lemma occurs_slice (pre sub post : string) :
  slice (pre +:+ sub +:+ post) (len pre) (len pre + len sub) = sub.
Proof.
  unfold slice, len.
  replace (Z.of_nat (String.length pre) + Z.of_nat (String.length sub)
           - Z.of_nat (String.length pre)) with (Z.of_nat (String.length sub)) by lia.
  rewrite !Nat2Z.id. rewrite substring_skip. apply substring_0_append.
Qed.

Lemma contains_occurs (s substr : string) :
  contains s substr = true <-> occurs_in substr s.
Proof.
  unfold contains, searchString. rewrite andb_true_iff, Z.leb_le.
  rewrite searchLoop_true by lia. split.
  - intros (_ & j & H0 & _ & Hle & Hs). eapply slice_occurs; eauto.
  - intros (pre & post & ->).
    assert (Hlen : len (pre +:+ substr +:+ post) = len pre + len substr + len post).
    { unfold len. rewrite !string_length_append. lia. }
    assert (0 <= len pre /\ 0 <= len post /\ 0 <= len substr) by (unfold len; lia).
    split; [lia|].
    exists (len pre). repeat split; try lia.
    + unfold len in *. lia.
    + apply occurs_slice.
Qed.

End SearchFacts.

Section ModelFacts.

Ltac norm := unfold ModelRegistry, Provider in *.

(** X5.  [contains s substr] is true exactly when [substr] occurs in
    [s], so that the loop of [searchString] misses no position; and
    [SupportsXHigh] is true exactly for the models whose id contains
    [gpt-5.2] or [gpt-5.3], or whose api is [anthropic-messages] and
    whose id contains [opus-4-6] or [opus-4.6]. *)
Theorem contains_iff_occurs (s substr : string) (model : Model) :
  (contains s substr = true <-> occurs_in substr s)
  /\ (SupportsXHigh model = true <->
      occurs_in "gpt-5.2" (model_ID model)
      \/ occurs_in "gpt-5.3" (model_ID model)
      \/ (model_Api model = ApiAnthropicMessages
          /\ (occurs_in "opus-4-6" (model_ID model)
              \/ occurs_in "opus-4.6" (model_ID model)))).
Proof.
  split; [apply contains_occurs|].
  unfold SupportsXHigh. rewrite <- !contains_occurs.
  destruct (contains (model_ID model) "gpt-5.2"); cbn [orb]; [tauto|].
  destruct (contains (model_ID model) "gpt-5.3"); cbn [orb]; [tauto|].
  unfold eqs. case_bool_decide as Hapi.
  - rewrite orb_true_iff. intuition discriminate.
  - intuition discriminate.
Qed.

Lemma GetModel_RegisterModel (m : Model) (reg : ModelRegistry)
  (provider : Provider) (modelID : string) :
  GetModel provider modelID (RegisterModel m reg)
  = if bool_decide (provider = model_Provider m /\ modelID = model_ID m)
    then Some m else GetModel provider modelID reg.
Proof.
  unfold GetModel, RegisterModel, ModelRegistry in *. cbv zeta.
  destruct (decide (provider = model_Provider m)) as [->|Hp].
  - rewrite lookup_insert_eq.
    destruct (decide (modelID = model_ID m)) as [->|Hid].
    + rewrite lookup_insert_eq. rewrite bool_decide_eq_true_2 by auto. reflexivity.
    + rewrite lookup_insert_ne by congruence.
      rewrite bool_decide_eq_false_2 by tauto.
      destruct (reg !! model_Provider m); [reflexivity|apply lookup_empty].
  - rewrite lookup_insert_ne by congruence.
    rewrite bool_decide_eq_false_2 by tauto. reflexivity.
Qed.

Lemma GetModel_last_registered (ms : list Model) (reg : ModelRegistry)
  (provider : Provider) (modelID : string) :
  GetModel provider modelID (RegisterModels ms reg)
  = match last (filter (fun m => model_Provider m = provider
                                 /\ model_ID m = modelID) ms) with
    | Some m => Some m
    | None => GetModel provider modelID reg
    end.
Proof.
  unfold RegisterModels. revert reg.
  induction ms as [|m ms IH]; intros reg; [reflexivity|].
  cbn [fold_left]. rewrite IH, GetModel_RegisterModel.
  rewrite filter_cons.
  destruct (decide (model_Provider m = provider /\ model_ID m = modelID))
    as [[<- <-]|Hne].
  - rewrite bool_decide_eq_true_2 by auto.
    destruct (filter _ ms) as [|x l]; [reflexivity|].
    rewrite last_cons_cons. destruct (last (x :: l)) eqn:Hl; [reflexivity|].
    apply last_None in Hl. discriminate.
  - rewrite bool_decide_eq_false_2 by (intros [-> ->]; auto). reflexivity.
Qed.


Lemma keyed_empty : keyed ∅.
Proof. intros p pm H. apply lookup_empty_Some in H. contradiction. Qed.

Lemma keyed_RegisterModel (m : Model) (reg : ModelRegistry) :
  keyed reg -> keyed (RegisterModel m reg).
Proof.
  unfold keyed, RegisterModel, ModelRegistry in *. cbv zeta.
  intros Hk p pm Hp.
  destruct (decide (p = model_Provider m)) as [->|Hne].
  - rewrite lookup_insert_eq in Hp. injection Hp as <-. split.
    + apply insert_non_empty.
    + intros id x Hx.
      destruct (decide (id = model_ID m)) as [->|Hid].
      * rewrite lookup_insert_eq in Hx. injection Hx as <-. auto.
      * rewrite lookup_insert_ne in Hx by congruence.
        destruct (reg !! model_Provider m) as [pm|] eqn:Hreg.
        -- exact (proj2 (Hk _ _ Hreg) _ _ Hx).
        -- rewrite lookup_empty in Hx. discriminate.
  - rewrite lookup_insert_ne in Hp by congruence. exact (Hk _ _ Hp).
Qed.

Lemma keyed_RegisterModels (ms : list Model) (reg : ModelRegistry) :
  keyed reg -> keyed (RegisterModels ms reg).
Proof.
  unfold RegisterModels. revert reg.
  induction ms as [|m ms IH]; intros reg Hk; [exact Hk|].
  cbn [fold_left]. apply IH, keyed_RegisterModel, Hk.
Qed.

Lemma registered_found (ms : list Model) (m : Model) :
  m ∈ ms ->
  is_Some (GetModel (model_Provider m) (model_ID m) (RegisterModels ms ∅)).
Proof.
  intros Hin. rewrite GetModel_last_registered.
  destruct (last _) as [x|] eqn:Hl; [eauto|].
  apply last_None in Hl.
  assert (Hm : m ∈ filter (fun m0 => model_Provider m0 = model_Provider m
                                      /\ model_ID m0 = model_ID m) ms)
    by (apply list_elem_of_filter; auto).
  rewrite Hl in Hm. inversion Hm.
Qed.

Lemma found_registered (ms : list Model) (p : Provider) (id : string) (m : Model) :
  GetModel p id (RegisterModels ms ∅) = Some m ->
  m ∈ ms /\ model_Provider m = p /\ model_ID m = id.
Proof.
  rewrite GetModel_last_registered.
  destruct (last _) as [x|] eqn:Hl.
  - intros [= ->]. apply last_Some_elem_of in Hl.
    apply list_elem_of_filter in Hl. tauto.
  - unfold GetModel, ModelRegistry. rewrite lookup_empty. discriminate.
Qed.

(** X6.  After a run of [RegisterModel] calls, [GetModel] returns the
    model registered last under the provider and id asked for, and what
    the registry held before when none was.  On a registry that started
    empty every registered model is found under its own provider and
    id, and whatever is found was registered and has the provider and
    the id asked for. *)
Theorem GetModel_RegisterModels (ms : list Model) (reg : ModelRegistry)
  (provider : Provider) (modelID : string) :
  GetModel provider modelID (RegisterModels ms reg)
  = match last (filter (fun m => model_Provider m = provider
                                 /\ model_ID m = modelID) ms) with
    | Some m => Some m
    | None => GetModel provider modelID reg
    end
  /\ (forall m, m ∈ ms ->
        is_Some (GetModel (model_Provider m) (model_ID m)
                   (RegisterModels ms ∅)))
  /\ (forall m, GetModel provider modelID (RegisterModels ms ∅) = Some m ->
        m ∈ ms /\ model_Provider m = provider /\ model_ID m = modelID).
Proof.
  split; [apply GetModel_last_registered|].
  split; [apply registered_found|apply found_registered].
Qed.

(** X7.  On a registry filled by [RegisterModel] alone, every slice
    [GetProviders] may return lists each provider with a registered
    model once and nothing else; [GetModels] returns nil exactly for a
    provider without a registered model, and otherwise a non-empty
    slice with one model per id: the models [GetModel] finds for that
    provider. *)
Theorem registry_listings (ms : list Model) (provider : Provider)
  (providers : list Provider) (models : option (list Model)) :
  GetProviders (RegisterModels ms ∅) providers ->
  GetModels provider (RegisterModels ms ∅) models ->
  NoDup providers
  /\ (forall p, p ∈ providers <-> exists m, m ∈ ms /\ model_Provider m = p)
  /\ match models with
     | None => forall m, m ∈ ms -> model_Provider m <> provider
     | Some l =>
         l <> [] /\ NoDup (map model_ID l)
         /\ forall m, m ∈ l <->
                      GetModel provider (model_ID m) (RegisterModels ms ∅)
                      = Some m
     end.
Proof.
  unfold GetProviders, GetModels.
  pose proof (keyed_RegisterModels ms ∅ keyed_empty) as Hk.
  set (reg := RegisterModels ms ∅) in *. intros Hps Hms.
  assert (Hin : forall p, p ∈ map fst (map_to_list reg)
                          <-> exists m, m ∈ ms /\ model_Provider m = p).
  { intros p. rewrite list_elem_of_fmap. split.
    - intros ([p' pm] & -> & Hpm). cbn [fst].
      apply elem_of_map_to_list in Hpm.
      destruct (Hk _ _ Hpm) as [Hne Hkeys].
      destruct (map_choose _ Hne) as (id & m & Hm).
      assert (Hg : GetModel p' id reg = Some m).
      { unfold GetModel. norm. rewrite Hpm. exact Hm. }
      apply found_registered in Hg. exists m. tauto.
    - intros (m & Hm & <-).
      destruct (registered_found ms m Hm) as [x Hx].
      fold reg in Hx. unfold GetModel in Hx.
      destruct (reg !! model_Provider m) as [pm|] eqn:Hpm; [|discriminate].
      exists (model_Provider m, pm). split; [reflexivity|].
      apply elem_of_map_to_list. exact Hpm. }
  split; [|split].
  - rewrite Hps. apply NoDup_fst_map_to_list.
  - intros p. rewrite Hps. apply Hin.
  - destruct (reg !! provider) as [pm|] eqn:Hpm.
    + destruct Hms as (l & -> & Hl).
      destruct (Hk _ _ Hpm) as [Hne Hkeys].
      assert (Hmem : forall m, m ∈ l <-> pm !! model_ID m = Some m).
      { intros m. rewrite Hl, list_elem_of_fmap. split.
        - intros ([id x] & -> & Hx). cbn [snd].
          apply elem_of_map_to_list in Hx.
          destruct (Hkeys _ _ Hx) as [_ <-]. exact Hx.
        - intros Hm. exists (model_ID m, m). split; [reflexivity|].
          apply elem_of_map_to_list. exact Hm. }
      split; [|split].
      * intros ->. destruct (map_choose _ Hne) as (id & m & Hm).
        destruct (Hkeys _ _ Hm) as [_ <-].
        apply Hmem in Hm. inversion Hm.
      * rewrite Hl, map_map.
        assert (Heq : map (fun x : string * Model => model_ID (snd x))
                          (map_to_list pm) = map fst (map_to_list pm)).
        { apply map_ext_in. intros [id x] Hx. cbn.
          apply list_elem_of_In, elem_of_map_to_list in Hx.
          destruct (Hkeys _ _ Hx) as [_ <-]. reflexivity. }
        rewrite Heq. apply NoDup_fst_map_to_list.
      * intros m. rewrite Hmem. unfold GetModel. rewrite Hpm. reflexivity.
    + subst models. intros m Hm Hp.
      destruct (registered_found ms m Hm) as [x Hx].
      fold reg in Hx. unfold GetModel in Hx. rewrite Hp, Hpm in Hx. discriminate.
Qed.

(** X8.  [ModelsAreEqual] is symmetric and transitive, and reflexive
    on models that are not nil ([nil] equals nothing, not even [nil]);
    two models are equal exactly when they take the same place in the
    registry, the one being found where the other is looked for. *)
Theorem ModelsAreEqual_same_slot (a b c : option Model) (x y : Model) :
  ModelsAreEqual a b = ModelsAreEqual b a
  /\ ModelsAreEqual a a = bool_decide (is_Some a)
  /\ (ModelsAreEqual a b && ModelsAreEqual b c = true
      -> ModelsAreEqual a c = true)
  /\ (ModelsAreEqual (Some x) (Some y) = true <->
      GetModel (model_Provider x) (model_ID x) (RegisterModel y ∅) = Some y).
Proof.
  unfold ModelsAreEqual, eqs. split; [|split; [|split; [|split]]].
  - destruct a, b; try reflexivity.
    rewrite (bool_decide_ext (model_ID m = model_ID m0) (model_ID m0 = model_ID m))
      by (split; congruence).
    rewrite (bool_decide_ext (model_Provider m = model_Provider m0)
               (model_Provider m0 = model_Provider m)) by (split; congruence).
    reflexivity.
  - destruct a as [m|]; [|reflexivity].
    rewrite (bool_decide_eq_true_2 (is_Some (Some m))) by eauto.
    rewrite !bool_decide_eq_true_2 by reflexivity. reflexivity.
  - destruct a, b, c; cbn; rewrite ?andb_false_r; try discriminate.
    rewrite !andb_true_iff, !bool_decide_eq_true. intuition congruence.
  - rewrite GetModel_RegisterModel, andb_true_iff, !bool_decide_eq_true.
    intros [-> ->]. rewrite bool_decide_eq_true_2 by auto. reflexivity.
  - rewrite GetModel_RegisterModel. case_bool_decide as H.
    + intros _. destruct H as [-> ->].
      rewrite !bool_decide_eq_true_2 by reflexivity. reflexivity.
    + unfold GetModel, ModelRegistry. rewrite lookup_empty. discriminate.
Qed.

End ModelFacts.

End ModelImports.

(** ** Providers *)

Section ProviderImports.

Import ai.
Local Open Scope string_scope.
Local Open Scope list_scope.

Section ProviderFacts.

Context {W : Type}.

Lemma GetApiProvider_Register (p : ApiProvider W) (source : string)
  (reg : ProviderRegistry W) (api : Api) :
  GetApiProvider W api (RegisterApiProvider W p source reg)
  = if bool_decide (api = p_Api W p) then Some p else GetApiProvider W api reg.
Proof.
  unfold GetApiProvider, RegisterApiProvider, ProviderRegistry in *.
  case_bool_decide as H.
  - subst. rewrite lookup_insert_eq. reflexivity.
  - rewrite lookup_insert_ne by congruence. reflexivity.
Qed.

Lemma GetApiProvider_Unregister (source : string) (reg : ProviderRegistry W)
  (api : Api) :
  GetApiProvider W api (UnregisterApiProviders W source reg)
  = match reg !! api with
    | Some r => if bool_decide (sourceID W r = source) then None
                else Some (provider W r)
    | None => None
    end.
Proof.
  unfold GetApiProvider, UnregisterApiProviders, ProviderRegistry in *.
  destruct (reg !! api) as [r|] eqn:Hr.
  - case_bool_decide as Hs.
    + rewrite (proj2 (map_lookup_filter_None _ reg api)); [reflexivity|].
      right. intros x Hx. cbn. rewrite Hr in Hx. injection Hx as <-. tauto.
    + rewrite (map_lookup_filter_Some_2 _ reg api r Hr Hs). reflexivity.
  - rewrite (proj2 (map_lookup_filter_None _ reg api)); [reflexivity|].
    left. exact Hr.
Qed.

(** X9.  A provider belongs to the source it was registered with last:
    [UnregisterApiProviders(source)] removes the provider just
    registered for an api exactly when it was registered with [source],
    whatever source the provider it replaced had; it adds nothing, and
    a second call changes nothing. *)
Theorem providers_by_source (p : ApiProvider W) (source source' : string)
  (reg : ProviderRegistry W) (api : Api) :
  GetApiProvider W api
    (UnregisterApiProviders W source (RegisterApiProvider W p source' reg))
  = (if bool_decide (api = p_Api W p) then
       if bool_decide (source' = source) then None else Some p
     else GetApiProvider W api (UnregisterApiProviders W source reg))
  /\ (forall q, GetApiProvider W api (UnregisterApiProviders W source reg)
                = Some q -> GetApiProvider W api reg = Some q)
  /\ GetApiProvider W api
       (UnregisterApiProviders W source
          (UnregisterApiProviders W source reg))
     = GetApiProvider W api (UnregisterApiProviders W source reg).
Proof.
  split; [|split].
  - rewrite !GetApiProvider_Unregister.
    unfold RegisterApiProvider, ProviderRegistry in *.
    case_bool_decide as H.
    + subst. rewrite lookup_insert_eq. reflexivity.
    + rewrite lookup_insert_ne by congruence. reflexivity.
  - intros q. rewrite GetApiProvider_Unregister. unfold GetApiProvider.
    destruct (reg !! api) as [r|]; [|discriminate].
    case_bool_decide; [discriminate|]. auto.
  - rewrite !GetApiProvider_Unregister.
    unfold UnregisterApiProviders, ProviderRegistry in *.
    destruct (reg !! api) as [r|] eqn:Hr.
    + case_bool_decide as Hs.
      * rewrite (proj2 (map_lookup_filter_None _ reg api)); [reflexivity|].
        right. intros x Hx. cbn. rewrite Hr in Hx. injection Hx as <-. tauto.
      * rewrite (map_lookup_filter_Some_2 _ reg api r Hr Hs).
        rewrite bool_decide_eq_false_2 by exact Hs. reflexivity.
    + rewrite (proj2 (map_lookup_filter_None _ reg api)); [reflexivity|].
      left. exact Hr.
Qed.

End ProviderFacts.

Section StreamFacts.

Import EventStream.
Context {W : Type}.

(** X10.  [Stream] calls the stream function of the provider registered
    last for the api of the model and returns its stream with a nil
    error.  Once the source of that provider is unregistered, [Stream]
    returns the error [no API provider registered for api: ...] and
    calls nothing, and so do [Stream] and [Complete] on a cleared
    registry. *)
Theorem Stream_follows_registry (m : Model) (ctx : Context)
  (opts : option StreamOptions) (f : StreamFunction W)
  (simple : option (StreamSimpleFunction W)) (source : string)
  (reg : ProviderRegistry W) (w : W) :
  Stream W (Some m) ctx opts
    (RegisterApiProvider W
       {| p_Api := model_Api m; p_Stream := Some f; p_StreamSimple := simple |}
       source reg) w
  = Go.Done ((fst (f (Some m) ctx opts w), None), snd (f (Some m) ctx opts w))
  /\ Stream W (Some m) ctx opts
       (UnregisterApiProviders W source
          (RegisterApiProvider W
             {| p_Api := model_Api m; p_Stream := Some f;
                p_StreamSimple := simple |} source reg)) w
     = Go.Done ((None, Some (noProvider (model_Api m))), w)
  /\ Stream W (Some m) ctx opts (ClearApiProviders W reg) w
     = Go.Done ((None, Some (noProvider (model_Api m))), w)
  /\ Complete W (Some m) ctx opts (ClearApiProviders W reg) w
     = Go.Done ((None, Some (noProvider (model_Api m))), w).
Proof.
  split; [|split; [|split]].
  - unfold Stream. rewrite GetApiProvider_Register.
    cbn [p_Api]. rewrite bool_decide_eq_true_2 by reflexivity.
    cbn [p_Stream]. destruct (f (Some m) ctx opts w). reflexivity.
  - unfold Stream.
    rewrite GetApiProvider_Unregister.
    unfold RegisterApiProvider, ProviderRegistry. rewrite lookup_insert_eq.
    cbn [sourceID]. rewrite bool_decide_eq_true_2 by reflexivity. reflexivity.
  - unfold Stream, ClearApiProviders, GetApiProvider, ProviderRegistry.
    rewrite lookup_empty. reflexivity.
  - unfold Complete, Stream, ClearApiProviders, GetApiProvider, ProviderRegistry.
    rewrite lookup_empty. reflexivity.
Qed.

(** X11.  Let the provider push non-terminal events and then a terminal
    one on a new stream from which nobody receives, as is the case under
    [Complete], which only waits for the result.  With at most 64
    non-terminal events, [Complete] returns the message that the
    terminal event carries ([Message] of [done], [Error] of [error])
    with a nil error: with fewer than 64 every [Push] has returned and
    the stream holds the events in the order pushed, with exactly 64 the
    last [Push] has recorded the result and waits for room in the
    buffer.  With more than 64 the provider waits in its 65th [Push],
    no result is ever recorded, and [Complete] does not return. *)
Theorem Complete_returns_terminal (m : Model) (ctx : Context)
  (opts : option StreamOptions) (reg : ProviderRegistry W)
  (p : ApiProvider W) (f : StreamFunction W) (w w' : W)
  (events : list AssistantMessageEvent) (e : AssistantMessageEvent) :
  GetApiProvider W (model_Api m) reg = Some p ->
  p_Stream W p = Some f ->
  f (Some m) ctx opts w
  = (Some (producer assistantIsComplete assistantExtractResult
             (events ++ [e]) NewEventStream), w') ->
  Forall (fun e' => assistantIsComplete e' = false) events ->
  assistantIsComplete e = true ->
  ((length events <= 64)%nat ->
   Complete W (Some m) ctx opts reg w
   = Go.Done ((assistantExtractResult e, None), w'))
  /\ ((length events < 64)%nat ->
      PushAll assistantIsComplete assistantExtractResult (events ++ [e])
        NewEventStream
      = Go.Done (producer assistantIsComplete assistantExtractResult
                   (events ++ [e]) NewEventStream)
      /\ ch (producer assistantIsComplete assistantExtractResult
               (events ++ [e]) NewEventStream) = events ++ [e])
  /\ ((64 < length events)%nat ->
      Complete W (Some m) ctx opts reg w = Go.Blocks).
Proof.
  intros Hp Hf Hrun Hall He.
  destruct (producer_response assistantIsComplete assistantExtractResult
              events e Hall He) as (Hlt & Heq & Hgt).
  change ch_cap with 64%nat in Hlt, Heq, Hgt.
  assert (HC : Complete W (Some m) ctx opts reg w
               = Go.obind (Result (producer assistantIsComplete
                                     assistantExtractResult (events ++ [e])
                                     NewEventStream))
                   (fun r' => Go.Done ((fst r', None), w'))).
  { unfold Complete, Stream. rewrite Hp, Hf, Hrun. reflexivity. }
  split; [|split].
  - intros Hlen. rewrite HC.
    destruct (Nat.eq_dec (length events) 64%nat) as [H64|H64].
    + rewrite (Heq H64). reflexivity.
    + assert (Hl : (length events < 64)%nat) by lia.
      destruct (Hlt Hl) as [_ Hs]. rewrite Hs. reflexivity.
  - intros Hlen. destruct (Hlt Hlen) as [HP Hs]. split; [exact HP|].
    rewrite Hs. reflexivity.
  - intros Hlen. rewrite HC, (Hgt Hlen). reflexivity.
Qed.

End StreamFacts.

Section EnvFacts.

Variable Getenv : string -> string.

Lemma firstSet_spec (keys : list string) :
  (Forall (fun k => Getenv k = "") keys /\ firstSet Getenv keys = "")
  \/ exists pre k post,
       keys = pre ++ k :: post /\ Forall (fun k' => Getenv k' = "") pre
       /\ Getenv k <> "" /\ firstSet Getenv keys = Getenv k.
Proof.
  induction keys as [|k keys IH]; [left; split; [constructor|reflexivity]|].
  cbn [firstSet]. unfold eqs. case_bool_decide as Hk.
  - destruct IH as [[Hall Hf]|(pre & k' & post & -> & Hall & Hne & Hf)].
    + left. split; [constructor; assumption|exact Hf].
    + right. exists (k :: pre), k', post. repeat split; auto.
  - right. exists [], k, keys. repeat split; auto.
Qed.

(** X12.  [GetEnvApiKey] returns the value of the first variable in the
    list of the provider that is set to a non-empty value, the empty
    string when there is none, and the empty string for a provider
    that is not in the table. *)
Theorem GetEnvApiKey_first_set (provider : Provider) :
  match providerEnvKeys !! provider with
  | None => GetEnvApiKey Getenv provider = ""
  | Some keys =>
      (Forall (fun k => Getenv k = "") keys
       /\ GetEnvApiKey Getenv provider = "")
      \/ exists pre k post,
           keys = pre ++ k :: post
           /\ Forall (fun k' => Getenv k' = "") pre
           /\ Getenv k <> ""
           /\ GetEnvApiKey Getenv provider = Getenv k
  end.
Proof.
  unfold GetEnvApiKey.
  destruct (providerEnvKeys !! provider) as [keys|]; [|reflexivity].
  apply firstSet_spec.
Qed.

End EnvFacts.

End ProviderImports.

(** ** Validation of tool calls *)

Section ValidationImports.

Import ai.
Local Open Scope string_scope.
Local Open Scope list_scope.

Section ValidationFacts.

Variable Quote : string -> string.
Variable MarshalIndent : gmap string any -> string.

Lemma missingRequired_filter (reqList : list any) (args : gmap string any) :
  missingRequired reqList args
  = filter (fun name => args !! name = None)
      (omap (fun r => match r with
                      | AString name => Some name
                      | _ => None
                      end) reqList).
Proof.
  unfold missingRequired.
  induction reqList as [|r reqList IH]; [reflexivity|].
  destruct r as [| | |name| |]; cbn [omap list_omap]; try exact IH.
  rewrite filter_cons. destruct (args !! name) eqn:Hn.
  - rewrite decide_False by discriminate. exact IH.
  - rewrite decide_True by reflexivity. f_equal. exact IH.
Qed.

(** X13.  [ValidateToolArguments] returns the arguments (a nil map as
    an empty one) and no error exactly when every string listed under
    [required] in the schema of the tool is a key of the arguments;
    otherwise it returns nil and an error that lists the missing names
    in the order of the schema.  Entries of [required] that are not
    strings, and a schema without a [required] list, require nothing. *)
Theorem ValidateToolArguments_required (tool : Tool) (tc : ToolCall) :
  let missing := filter (fun name => argumentsOf tc !! name = None)
                   (requiredNames tool) in
  (missing = [] ->
   ValidateToolArguments Quote MarshalIndent tool tc
   = (Some (argumentsOf tc), None))
  /\ (missing <> [] ->
      ValidateToolArguments Quote MarshalIndent tool tc
      = (None,
         Some ("validation failed for tool " +:+ Quote (tc_Name tc)
               +:+ ":" +:+ nl +:+ "  - missing required: "
               +:+ Join missing ", " +:+ nl +:+ nl
               +:+ "Received arguments:" +:+ nl
               +:+ MarshalIndent (argumentsOf tc))))
  /\ (snd (ValidateToolArguments Quote MarshalIndent tool tc) = None <->
      Forall (fun name => is_Some (argumentsOf tc !! name))
             (requiredNames tool)).
Proof.
  cbv zeta. unfold ValidateToolArguments, requiredNames.
  fold (argumentsOf tc).
  destruct (tool_Parameters tool) as [schema|].
  2:{ rewrite filter_nil. repeat split; try contradiction; constructor. }
  destruct (schema !! "required") as [[| | | |reqList|]|];
    try (rewrite filter_nil; repeat split; try contradiction; constructor).
  rewrite missingRequired_filter.
  set (names := omap _ reqList).
  assert (Hall : filter (fun name => argumentsOf tc !! name = None) names = []
                 <-> Forall (fun name => is_Some (argumentsOf tc !! name)) names).
  { clear. induction names as [|n names IH]; [split; [constructor|reflexivity]|].
    rewrite filter_cons, Forall_cons.
    destruct (argumentsOf tc !! n) eqn:Hn.
    - rewrite decide_False by discriminate. rewrite IH. split; [eauto|tauto].
    - rewrite decide_True by reflexivity. split; [discriminate|].
      intros [[? ?] _]. discriminate. }
  destruct (filter _ names) as [|n missing] eqn:Hf.
  - cbn. split; [reflexivity|]. split; [contradiction|].
    split; [intros _; apply Hall; reflexivity|reflexivity].
  - cbn [length Nat.ltb Nat.leb]. split; [discriminate|]. split; [reflexivity|].
    cbn [snd]. split; [discriminate|]. intros H. apply Hall in H. discriminate.
Qed.

End ValidationFacts.

End ValidationImports.

(** ** Tool calls *)

Section ToolImports.

Import ai.
Local Open Scope string_scope.
Local Open Scope list_scope.

Section ToolFacts.

Import agent.

Context {W : Type} (now : W -> Z * W).
Context (Quote : string -> string) (MarshalIndent : gmap string any -> string).

Lemma lookupTool_findTool (tools : list (AgentTool W)) (name : string) :
  lookupTool (map (Tool W) tools) name = option_map (Tool W) (findTool W tools name).
Proof.
  induction tools as [|t tools IH]; [reflexivity|].
  cbn [map lookupTool findTool]. destruct (eqs _ name); [reflexivity|exact IH].
Qed.

Lemma findTool_first (tools : list (AgentTool W)) (name : string) :
  match findTool W tools name with
  | Some t =>
      exists pre post,
        tools = pre ++ t :: post /\ tool_Name (Tool W t) = name
        /\ Forall (fun t' => tool_Name (Tool W t') <> name) pre
  | None => Forall (fun t' => tool_Name (Tool W t') <> name) tools
  end.
Proof.
  induction tools as [|t tools IH]; [constructor|].
  cbn [findTool]. unfold eqs. case_bool_decide as Hn.
  - exists [], tools. repeat split; [exact Hn|constructor].
  - destruct (findTool W tools name) as [t'|].
    + destruct IH as (pre & post & -> & Hname & Hpre).
      exists (t :: pre), post. repeat split; [exact Hname|].
      constructor; assumption.
    + constructor; assumption.
Qed.

(** X14.  [ValidateToolCall] validates against the first tool of the
    list with the name of the call, the tool [findTool] of the loop
    picks, and returns the error [tool "..." not found] when no tool
    has that name. *)
Theorem ValidateToolCall_as_in_the_loop (tools : list (AgentTool W))
  (tc : ToolCall) :
  ValidateToolCall Quote MarshalIndent (map (Tool W) tools) tc
  = match findTool W tools (tc_Name tc) with
    | Some t => ValidateToolArguments Quote MarshalIndent (Tool W t) tc
    | None => (None, Some ("tool " +:+ Quote (tc_Name tc) +:+ " not found"))
    end
  /\ match findTool W tools (tc_Name tc) with
     | Some t =>
         exists pre post,
           tools = pre ++ t :: post /\ tool_Name (Tool W t) = tc_Name tc
           /\ Forall (fun t' => tool_Name (Tool W t') <> tc_Name tc) pre
     | None => Forall (fun t' => tool_Name (Tool W t') <> tc_Name tc) tools
     end.
Proof.
  split; [|apply findTool_first].
  unfold ValidateToolCall. rewrite lookupTool_findTool.
  destruct (findTool W tools (tc_Name tc)); reflexivity.
Qed.

(** X15.  A tool call that cannot be carried out does not stop the
    loop: for a tool that is not found, for arguments that fail the
    validation and for an [Execute] that returns an error, the loop
    body of [executeToolCalls] returns a tool result with [IsError] set
    and the error as its text, after [tool_execution_start], the
    updates of the tool, [tool_execution_end] and the two message
    events of the result. *)
Theorem tool_failures_become_results (tools : list (AgentTool W))
  (tc : ToolCall) (w : W) :
  (findTool W tools (tc_Name tc) = None ->
   perform W now Quote MarshalIndent tools tc w
   = Ok (refusal tc ("Tool " +:+ tc_Name tc +:+ " not found") (fst (now w)),
         OpPush (toolStartEvent tc)
         :: refusalTail tc ("Tool " +:+ tc_Name tc +:+ " not found")
              (fst (now w)),
         snd (now w)))
  /\ (forall tool args err,
        findTool W tools (tc_Name tc) = Some tool ->
        ValidateToolArguments Quote MarshalIndent (Tool W tool) tc
        = (args, Some err) ->
        perform W now Quote MarshalIndent tools tc w
        = Ok (refusal tc err (fst (now w)),
              OpPush (toolStartEvent tc) :: refusalTail tc err (fst (now w)),
              snd (now w)))
  /\ (forall tool args execute updates execResult err w1,
        findTool W tools (tc_Name tc) = Some tool ->
        ValidateToolArguments Quote MarshalIndent (Tool W tool) tc
        = (args, None) ->
        Execute W tool = Some execute ->
        execute (tc_ID tc) args w = ((updates, execResult, Some err), w1) ->
        perform W now Quote MarshalIndent tools tc w
        = Ok (refusal tc err (fst (now w1)),
              OpPush (toolStartEvent tc)
              :: map (fun partial => OpPush (toolUpdateEvent tc partial)) updates
              ++ refusalTail tc err (fst (now w1)),
              snd (now w1))).
Proof.
  split; [|split].
  - intros Hf. unfold perform, invoke. rewrite Hf.
    unfold bind, push, ret, call. destruct (now w) as [ts w']. reflexivity.
  - intros tool args err Hf Hv. unfold perform, invoke.
    rewrite Hf, Hv. unfold bind, push, ret, call.
    destruct (now w) as [ts w']. reflexivity.
  - intros tool args execute updates execResult err w1 Hf Hv He Hx.
    unfold perform, invoke. rewrite Hf, Hv, He.
    assert (Hu : forall w0,
               forM_ W (fun partial => push W (toolUpdateEvent tc partial))
                 updates w0
               = Ok (tt, map (fun partial => OpPush (toolUpdateEvent tc partial))
                           updates, w0)).
    { clear. induction updates as [|u updates IH]; intros w0; [reflexivity|].
      cbn [forM_ map]. unfold bind, push. rewrite IH. reflexivity. }
    unfold bind at 1. unfold push at 1. unfold bind at 1. unfold bind at 1.
    unfold call at 1. rewrite Hx. unfold bind at 1. rewrite Hu.
    unfold ret at 1. unfold bind, push, call, ret.
    destruct (now w1) as [ts w']. cbn [fst snd app]. rewrite !app_nil_r.
    reflexivity.
Qed.

End ToolFacts.

Section BatchFacts.

Import agent.

Context {W : Type} (now : W -> Z * W).
Context (Quote : string -> string) (MarshalIndent : gmap string any -> string).

Lemma Forall2_skipped_ids post skipped :
  Forall2 skippedResult post skipped ->
  map tr_ToolCallID skipped = map tc_ID post
  /\ map tr_ToolName skipped = map tc_Name post.
Proof.
  induction 1 as [|tc r post skipped (Hid & Hname & _) _ [IH1 IH2]];
    [split; reflexivity|].
  cbn. rewrite Hid, Hname, IH1, IH2. split; reflexivity.
Qed.

Lemma executeLoop_results tools gs calls acc (w : W) results st ops w' :
  executeLoop W now Quote MarshalIndent tools gs calls acc w
  = Ok ((results, st), ops, w') ->
  exists new,
    results = acc ++ new
    /\ map tr_ToolCallID new = map tc_ID calls
    /\ map tr_ToolName new = map tc_Name calls
    /\ toolBrackets ops = bracketsOf calls
    /\ (gs = None -> st = []).
Proof.
  revert acc w results st ops w'.
  induction calls as [|tc calls IH]; intros acc w results st ops w' H.
  - apply ret_inv in H. destruct H as ([= -> ->] & -> & _).
    exists []. rewrite app_nil_r. repeat split.
  - cbn [executeLoop] in H. run_inv H.
    match goal with
    | Hi : iteration _ _ _ _ _ _ _ _ = Ok (?a, _, _) |- _ =>
        destruct a as [r steering]; rename Hi into Hit
    end.
    assert (Hgs : gs = None -> steering = []).
    { intros ->. unfold iteration, pollSteering in Hit. run_inv Hit.
      match goal with
      | Hr : ret _ _ _ = Ok _ |- _ => apply ret_inv in Hr; destruct Hr as (-> & _)
      end.
      apply ret_inv in Hit. destruct Hit as ([= _ <-] & _). reflexivity. }
    destruct (iteration_spec now Quote MarshalIndent _ _ _ _ _ _ _ _ Hit)
      as (Hb & Hid & Hname).
    destruct (0 <? length steering)%nat eqn:Hlen.
    + run_inv H. apply ret_inv in H. destruct H as ([= -> ->] & -> & _).
      match goal with
      | Hm : mapM _ _ _ _ = Ok (?sk, ?o, _) |- _ =>
          destruct (mapM_skipToolCall_spec now calls w0)
            as (skipped & ops2 & w2 & Hs & Hsk & Hb2);
          rewrite Hs in Hm; injection Hm as <- <- <-
      end.
      destruct (Forall2_skipped_ids _ _ Hsk) as [Hids Hnames].
      exists (r :: skipped). repeat split.
      * rewrite <- app_assoc. reflexivity.
      * cbn. rewrite Hid, Hids. reflexivity.
      * cbn. rewrite Hname, Hnames. reflexivity.
      * rewrite app_nil_r, toolBrackets_app, Hb, Hb2.
        change (tc :: calls) with ([tc] ++ calls). rewrite bracketsOf_app.
        reflexivity.
      * intros Hn. specialize (Hgs Hn). subst steering. discriminate.
    + destruct (IH _ _ _ _ _ _ H) as (new & -> & Hids & Hnames & Hb2 & Hst).
      exists (r :: new). repeat split.
      * rewrite <- app_assoc. reflexivity.
      * cbn. rewrite Hid, Hids. reflexivity.
      * cbn. rewrite Hname, Hnames. reflexivity.
      * rewrite toolBrackets_app, Hb, Hb2.
        change (tc :: calls) with ([tc] ++ calls). rewrite bracketsOf_app.
        reflexivity.
      * exact Hst.
Qed.

(** X16.  Whenever [executeToolCalls] returns, there is one tool
    result for each tool call of the assistant message, in the order of
    the calls and with the id and name of its call, the
    [tool_execution_start] and [tool_execution_end] events come in
    pairs in that order, and without a steering provider no steering
    message is returned. *)
Theorem executeToolCalls_one_result_per_call (tools : list (AgentTool W))
  (assistantMsg : AssistantMessage)
  (gs : option (W -> (list AgentMessage * option error) * W)) (w : W)
  (results : list ToolResultMessage) (steering : list AgentMessage)
  (ops : list StreamOp) (w' : W) :
  executeToolCalls W now Quote MarshalIndent tools assistantMsg gs w
  = Ok ((results, steering), ops, w') ->
  map tr_ToolCallID results
  = map tc_ID (toolCallsOf (am_Content assistantMsg))
  /\ map tr_ToolName results
     = map tc_Name (toolCallsOf (am_Content assistantMsg))
  /\ toolBrackets ops = bracketsOf (toolCallsOf (am_Content assistantMsg))
  /\ (gs = None -> steering = []).
Proof.
  intros H. unfold executeToolCalls in H.
  destruct (executeLoop_results _ _ _ _ _ _ _ _ _ H)
    as (new & -> & Hids & Hnames & Hb & Hst).
  cbn [app]. auto.
Qed.

End BatchFacts.

End ToolImports.

(** ** The lifecycle of a run *)

Section LifecycleImports.

Import ai agent.
Local Open Scope string_scope.
Local Open Scope list_scope.

Section LifecycleFacts.

Context {W : Type} (now : W -> Z * W).
Context (Quote : string -> string) (MarshalIndent : gmap string any -> string).

Lemma outline_app ops1 ops2 :
  outline (ops1 ++ ops2) = outline ops1 ++ outline ops2.
Proof. unfold outline. apply omap_app. Qed.

Lemma follow_app p l1 l2 :
  follow p (l1 ++ l2)
  = match follow p l1 with
    | Some p' => follow p' l2
    | None => None
    end.
Proof.
  revert p. induction l1 as [|m l1 IH]; intros p; [reflexivity|].
  cbn [app follow]. destruct (advance p m); [apply IH|reflexivity].
Qed.

Lemma quietly_ret {A} (a : A) : quietly (ret W a).
Proof. intros w x ops w' H. apply ret_inv in H. destruct H as (_ & -> & _). reflexivity. Qed.

Lemma quietly_fail {A} why : quietly (@fail W A why).
Proof. intros w x ops w' H. discriminate. Qed.

Lemma quietly_call {A} (f : W -> A * W) : quietly (call W f).
Proof. intros w x ops w' H. apply call_inv in H. destruct H as [-> _]. reflexivity. Qed.

Lemma quietly_push e : markOf (OpPush e) = None -> quietly (push W e).
Proof.
  intros He w x ops w' H. apply push_inv in H. destruct H as [-> _].
  unfold outline. cbn [omap list_omap]. rewrite He. reflexivity.
Qed.

Lemma quietly_bind {A B} (m : M W A) (f : A -> M W B) :
  quietly m -> (forall a, quietly (f a)) -> quietly (bind W m f).
Proof.
  intros Hm Hf w x ops w' H. apply bind_inv in H.
  destruct H as (a & t1 & w1 & t2 & H1 & H2 & ->).
  rewrite outline_app, (Hm _ _ _ _ H1), (Hf _ _ _ _ _ H2). reflexivity.
Qed.

Lemma quietly_forM_ {A} (f : A -> M W unit) l :
  (forall a, quietly (f a)) -> quietly (forM_ W f l).
Proof.
  intros Hf. induction l as [|a l IH]; cbn [forM_].
  - apply quietly_ret.
  - apply quietly_bind; [apply Hf|intros _; exact IH].
Qed.

Lemma quietly_mapM {A B} (f : A -> M W B) l :
  (forall a, quietly (f a)) -> quietly (mapM W f l).
Proof.
  intros Hf. induction l as [|a l IH]; cbn [mapM].
  - apply quietly_ret.
  - apply quietly_bind; [apply Hf|intros b].
    apply quietly_bind; [exact IH|intros bs]. apply quietly_ret.
Qed.

Ltac quiet :=
  repeat first
    [ apply quietly_ret
    | apply quietly_fail
    | apply quietly_call
    | apply quietly_push; reflexivity
    | assumption
    | match goal with
      | IH : forall _, _ |- quietly _ => apply IH
      end
    | apply quietly_bind; [|intro]
    | apply quietly_forM_; intro
    | apply quietly_mapM; intro
    | match goal with
      | |- quietly (let '(_, _) := ?x in _) => destruct x
      | |- quietly (match ?x with _ => _ end) => destruct x
      end ].

Lemma invoke_quietly tools tc :
  quietly (invoke W Quote MarshalIndent tools tc).
Proof. unfold invoke. quiet. Qed.

Lemma perform_quietly tools tc :
  quietly (perform W now Quote MarshalIndent tools tc).
Proof. unfold perform. pose proof (invoke_quietly tools tc). quiet. Qed.

Lemma iteration_quietly tools gs tc :
  quietly (iteration W now Quote MarshalIndent tools gs tc).
Proof.
  unfold iteration, pollSteering. pose proof (perform_quietly tools tc). quiet.
Qed.

Lemma skipToolCall_quietly tc : quietly (skipToolCall W now tc).
Proof. unfold skipToolCall. quiet. Qed.

Lemma executeLoop_quietly tools gs calls acc :
  quietly (executeLoop W now Quote MarshalIndent tools gs calls acc).
Proof.
  revert acc. induction calls as [|tc calls IH]; intros acc; cbn [executeLoop].
  - quiet.
  - apply quietly_bind; [apply iteration_quietly|intros [r st]].
    destruct (0 <? length st)%nat.
    + apply quietly_bind; [|intro; quiet].
      apply quietly_mapM. intro. apply skipToolCall_quietly.
    + apply IH.
Qed.

Lemma drainPending_quietly pending ctx nm :
  quietly (drainPending W pending ctx nm).
Proof.
  revert ctx nm. induction pending as [|m pending IH]; intros ctx nm;
    cbn [drainPending]; quiet.
Qed.

Lemma setLastMessage_quietly ctx m : quietly (setLastMessage W ctx m).
Proof. unfold setLastMessage. quiet. Qed.

Lemma awaitResult_quietly resp : quietly (awaitResult W resp).
Proof. unfold awaitResult. quiet. Qed.

Lemma rangeEvents_quietly events resp ctx pm ap :
  quietly (rangeEvents W events resp ctx pm ap).
Proof.
  revert ctx pm ap. induction events as [|event rest IH]; intros ctx pm ap;
    cbn [rangeEvents].
  - pose proof (awaitResult_quietly resp). quiet.
  - pose proof (awaitResult_quietly resp).
    pose proof setLastMessage_quietly.
    destruct (eqs (ev_Type event) EventStart); [quiet|].
    destruct (isDelta (ev_Type event)); [destruct pm; quiet|].
    destruct (eqs (ev_Type event) EventDone || eqs (ev_Type event) EventError);
      quiet.
Qed.

Lemma streamAssistantResponse_quietly ctx config streamFn :
  quietly (streamAssistantResponse W ctx config streamFn).
Proof.
  unfold streamAssistantResponse. pose proof rangeEvents_quietly. quiet.
Qed.


Lemma makeErrorAssistantMessage_quietly model errMsg :
  quietly (makeErrorAssistantMessage W now model errMsg).
Proof. unfold makeErrorAssistantMessage. quiet. Qed.

Lemma poll_quietly (g : option (W -> (list AgentMessage * option error) * W)) :
  quietly (match g with
           | Some g =>
               bind W (call W g) (fun r =>
                 let '(msgs, err) := r in
                 match err with
                 | None => ret W msgs
                 | Some _ => ret W []
                 end)
           | None => ret W []
           end).
Proof. quiet. Qed.

Lemma reports_app pre ops : reports ops -> reports (pre ++ ops).
Proof.
  intros (pre' & ms & ->). exists (pre ++ pre'), ms.
  rewrite app_assoc. reflexivity.
Qed.

Lemma innerLifecycle_step pre rest ft hm (exit : innerExit W) :
  outline pre = [] -> innerLifecycle ft hm rest exit ->
  innerLifecycle ft hm (pre ++ rest) exit.
Proof.
  intros Hq. unfold innerLifecycle. rewrite outline_app, Hq. cbn [app].
  destruct exit; [|tauto]. intros [Hf Hr]. split; [exact Hf|].
  apply reports_app. exact Hr.
Qed.

Lemma innerLoop_lifecycle config streamFn fuel :
  forall ctx nm ft hm pending sat w exit ops w',
    innerLoop W now Quote MarshalIndent config streamFn fuel ctx nm ft hm
      pending sat w = Ok (exit, ops, w') ->
    innerLifecycle ft hm ops exit.
Proof.
  induction fuel as [|fuel IH];
    intros ctx nm ft hm pending sat w exit ops w' H; cbn [innerLoop] in H;
    destruct (negb (hm || (0 <? length pending)%nat)) eqn:Hcond.
  1, 3: apply ret_inv in H; destruct H as (-> & -> & _); cbn;
        split; [reflexivity|];
        apply negb_true_iff, orb_false_iff in Hcond; destruct Hcond as [-> _];
        intros [->|?]; [reflexivity|discriminate].
  - discriminate.
  - run_inv H.
    match type of H with
    | (let '(_, _) := ?a in _) _ = _ => destruct a as [ctx1 nm1]
    end.
    match goal with
    | Hd : drainPending _ _ _ _ _ = Ok _ |- _ =>
        apply drainPending_quietly in Hd; rename Hd into Hq1
    end.
    run_inv H.
    match type of H with
    | (let '(_, _) := ?a in _) _ = _ => destruct a as [[ctx2 message] err]
    end.
    match goal with
    | Hd : streamAssistantResponse _ _ _ _ _ = Ok _ |- _ =>
        apply streamAssistantResponse_quietly in Hd; rename Hd into Hq2
    end.
    (* the turn is open from here on *)
    assert (Hopen : forall rest (exit : innerExit W),
               innerLifecycle true true rest exit ->
               innerLifecycle ft hm (t ++ rest) exit).
    { intros rest exit' Hin. destruct ft; cbn [negb] in *.
      - match goal with
        | Hp : ret _ _ _ = Ok _ |- _ =>
            apply ret_inv in Hp; destruct Hp as (_ & -> & _)
        end.
        cbn [app]. destruct exit'; [exact Hin|].
        destruct Hin as [Hf Hft]. split; [exact Hf|].
        intros _. apply Hft. right. reflexivity.
      - match goal with
        | Hp : push _ _ _ = Ok _ |- _ =>
            apply push_inv in Hp; destruct Hp as [-> _]
        end.
        cbn [app]. destruct exit'.
        + destruct Hin as [Hf Hr]. split; [exact Hf|].
          apply (reports_app [_]). exact Hr.
        + destruct Hin as [Hf Hft]. split; [exact Hf|].
          intros _. apply Hft. right. reflexivity. }
    apply Hopen.
    apply (innerLifecycle_step _ _ _ _ _ Hq1).
    apply (innerLifecycle_step _ _ _ _ _ Hq2).
    clear Hopen Hq1 Hq2.
    destruct err as [err|].
    + run_inv H.
      match goal with
      | He : makeErrorAssistantMessage _ _ _ _ _ = Ok _ |- _ =>
          apply makeErrorAssistantMessage_quietly in He; rename He into Hq
      end.
      match goal with
      | He : end_ _ _ _ = Ok _ |- _ => apply end_inv in He; destruct He as [-> _]
      end.
      apply ret_inv in H. destruct H as (-> & -> & _).
      apply (innerLifecycle_step _ _ _ _ _ Hq).
      cbn. split; [reflexivity|].
      eexists [_], _. reflexivity.
    + cbv zeta in H. destruct message as [message|]; [|discriminate].
      destruct (eqs (am_StopReason message) StopReasonError
                || eqs (am_StopReason message) StopReasonAborted).
      * run_inv H.
        match goal with
        | He : end_ _ _ _ = Ok _ |- _ =>
            apply end_inv in He; destruct He as [-> _]
        end.
        apply ret_inv in H. destruct H as (-> & -> & _).
        cbn. split; [reflexivity|]. eexists [_], _. reflexivity.
      * run_inv H.
        match goal with
        | Hr : (if (0 <? length _)%nat then _ else _) _ = Ok (?a, ?t, _) |- _ =>
            assert (Hq3 : outline t = []);
            [ destruct (0 <? length (toolCallsOf (am_Content message)))%nat;
              [ run_inv Hr;
                match goal with
                | He : executeToolCalls _ _ _ _ _ _ _ _ = Ok _ |- _ =>
                    apply executeLoop_quietly in He; rename He into Hq
                end;
                match type of Hr with
                | (let '(_, _) := ?b in _) _ = _ =>
                    destruct b as [results steering]
                end;
                destruct (appendToolResults W results ctx2 _);
                apply ret_inv in Hr; destruct Hr as (_ & -> & _);
                rewrite app_nil_r; exact Hq
              | apply ret_inv in Hr; destruct Hr as (_ & -> & _); reflexivity ]
            | clear Hr; destruct a as [[[toolResults steering] ctx3] nm3] ]
        end.
        run_inv H.
        match goal with
        | Hp : _ = Ok (_, ?tp, _), Hi : innerLoop _ _ _ _ _ _ _ _ _ _ _ _ _ _ = _
          |- _ =>
            assert (Hq4 : outline tp = []);
            [ destruct (0 <? length steering)%nat;
              [ apply ret_inv in Hp; destruct Hp as (_ & -> & _); reflexivity
              | exact (poll_quietly _ _ _ _ _ Hp) ]
            | clear Hp ]
        end.
        apply IH in H.
        apply (innerLifecycle_step _ _ _ _ _ Hq4) in H.
        apply (innerLifecycle_step _ _ _ _ _ Hq3).
        cbn [app]. destruct exit.
        -- destruct H as [Hf Hr]. split; [exact Hf|].
           apply (reports_app [_]). exact Hr.
        -- destruct H as [Hf Hft]. split; [exact Hf|].
           intros _. apply Hft. left. reflexivity.
Qed.


Lemma outerLoop_lifecycle config streamFn fuel :
  forall ctx nm ft pending w x ops w',
    outerLoop W now Quote MarshalIndent config streamFn fuel ctx nm ft
      pending w = Ok (x, ops, w') ->
    follow (phaseOf ft) (outline ops) = Some Finished /\ reports ops.
Proof.
  induction fuel as [|fuel IH];
    intros ctx nm ft pending w x ops w' H; cbn [outerLoop] in H;
    [discriminate|].
  run_inv H.
  match goal with
  | Hi : innerLoop _ _ _ _ _ _ _ _ _ _ _ _ _ _ = Ok (?e, _, _) |- _ =>
      apply innerLoop_lifecycle in Hi; destruct e as [|ctx1 nm1 ft1];
      destruct Hi as [Hf Hrest]
  end.
  - apply ret_inv in H. destruct H as (_ & -> & _). rewrite app_nil_r.
    split; assumption.
  - assert (ft1 = false) as -> by (apply Hrest; right; reflexivity).
    run_inv H.
    match goal with
    | Hp : _ = Ok (?fu, ?tp, _), Hx : _ = Ok (x, _, w') |- _ =>
        assert (Hq : outline tp = []) by
          (destruct (GetFollowUpMessages W config) as [g|];
           [ run_inv Hp;
             match type of Hp with
             | (let '(_, _) := ?b in _) _ = _ => destruct b as [fu' [e|]]
             end; apply ret_inv in Hp; destruct Hp as (_ & -> & _); reflexivity
           | apply ret_inv in Hp; destruct Hp as (_ & -> & _); reflexivity ]);
        clear Hp; destruct (0 <? length fu)%nat
    end.
    + apply IH in H. destruct H as [Hf2 Hr].
      split; [|do 2 apply reports_app; exact Hr].
      rewrite !outline_app, Hq, follow_app, Hf. exact Hf2.
    + run_inv H.
      match goal with
      | He : end_ _ _ _ = Ok _ |- _ => apply end_inv in He; destruct He as [-> _]
      end.
      split.
      * rewrite !outline_app, Hq, follow_app, Hf. reflexivity.
      * do 2 apply reports_app. eexists [], _. reflexivity.
Qed.

Lemma runLoop_lifecycle config streamFn fuel ctx nm w x ops w' :
  runLoop W now Quote MarshalIndent fuel ctx nm config streamFn w
  = Ok (x, ops, w') ->
  follow InTurn (outline ops) = Some Finished /\ reports ops.
Proof.
  intros H. unfold runLoop in H. run_inv H.
  match goal with
  | Hp : _ = Ok (_, ?tp, _), Hx : outerLoop _ _ _ _ _ _ _ _ _ _ _ _ = _ |- _ =>
      apply poll_quietly in Hp; rename Hp into Hq
  end.
  apply outerLoop_lifecycle in H. destruct H as [Hf Hr].
  split; [|apply reports_app; exact Hr].
  rewrite outline_app, Hq. exact Hf.
Qed.

(** X17.  The events of every run of the loop that returns, started by
    [AgentLoop] or by [AgentLoopContinue], follow the lifecycle
    [agent_start], then turns of [turn_start] ... [turn_end] that
    neither nest nor overlap, then [agent_end], then [End]; the run
    ends with [agent_end] and the [End] of the stream, both on the same
    list of messages. *)
Theorem run_follows_lifecycle (fuel : nat) (prompts : list AgentMessage)
  (agentCtx : AgentContext W) (config : AgentLoopConfig W)
  (streamFn : option (StreamFn W)) :
  (forall w x ops w',
     AgentLoop W now Quote MarshalIndent fuel prompts agentCtx config streamFn w
     = Ok (x, ops, w') ->
     follow Fresh (outline ops) = Some Finished
     /\ exists pre ms, ops = pre ++ [OpPush (agentEndEvent ms); OpEnd ms])
  /\ (forall body w x ops w',
        fst (AgentLoopContinue W now Quote MarshalIndent fuel agentCtx config
               streamFn) = Some body ->
        body w = Ok (x, ops, w') ->
        follow Fresh (outline ops) = Some Finished
        /\ exists pre ms, ops = pre ++ [OpPush (agentEndEvent ms); OpEnd ms]).
Proof.
  split.
  - intros w x ops w' H. unfold AgentLoop in H. run_inv H.
    match goal with
    | Hp : forM_ _ _ _ _ = Ok _ |- _ =>
        assert (Hq : quietly
                       (forM_ W (fun pm =>
                          bind W (push W (messageEvent MessageEventStart pm))
                            (fun _ => push W (messageEvent MessageEventEnd pm)))
                          prompts)) by quiet;
        apply Hq in Hp; clear Hq; rename Hp into Hq
    end.
    apply runLoop_lifecycle in H. destruct H as [Hf Hr]. split.
    + cbn [app].
      match goal with
      | |- follow Fresh (outline (_ :: _ :: ?l1 ++ ?l2)) = _ =>
          change (follow InTurn (outline (l1 ++ l2)) = Some Finished)
      end.
      rewrite outline_app, Hq. exact Hf.
    + apply (reports_app [_]), (reports_app [_]), reports_app. exact Hr.
  - intros body w x ops w' Hbody H. unfold AgentLoopContinue in Hbody.
    destruct (last (Messages W agentCtx)) as [lastMsg|]; [|discriminate].
    destruct (eqs (Role (Message lastMsg)) RoleAssistant); [discriminate|].
    cbn [fst] in Hbody. injection Hbody as <-. run_inv H.
    apply runLoop_lifecycle in H. destruct H as [Hf Hr]. split.
    + exact Hf.
    + apply (reports_app [_]), (reports_app [_]). exact Hr.
Qed.

End LifecycleFacts.

End LifecycleImports.

(** ** The facade: queues, runs and the transcript *)

Section QueueFacts.

Import ai agent facade.
Local Open Scope string_scope.
Local Open Scope list_scope.

Context {W Obs : Type}.

(** X18.  Both dequeue functions take from the front of their own queue
    and leave everything else alone: what they return, followed by what
    stays queued, is the queue as it was.  Under the mode
    [one-at-a-time] they return the first message alone; under any other
    mode, whatever its spelling, the whole queue. *)
Theorem dequeue_takes_from_the_front (a : Agent W Obs) :
  (fst (dequeueSteeringMessages W Obs a)
     ++ steeringQueue W Obs (snd (dequeueSteeringMessages W Obs a))
   = steeringQueue W Obs a
   /\ fst (dequeueSteeringMessages W Obs a)
      = (if bool_decide (steeringMode W Obs a = "one-at-a-time")
         then take 1 (steeringQueue W Obs a) else steeringQueue W Obs a)
   /\ snd (dequeueSteeringMessages W Obs a)
      = with_queues W Obs a
          (steeringQueue W Obs (snd (dequeueSteeringMessages W Obs a)))
          (followUpQueue W Obs a))
  /\ (fst (dequeueFollowUpMessages W Obs a)
        ++ followUpQueue W Obs (snd (dequeueFollowUpMessages W Obs a))
      = followUpQueue W Obs a
      /\ fst (dequeueFollowUpMessages W Obs a)
         = (if bool_decide (followUpMode W Obs a = "one-at-a-time")
            then take 1 (followUpQueue W Obs a) else followUpQueue W Obs a)
      /\ snd (dequeueFollowUpMessages W Obs a)
         = with_queues W Obs a (steeringQueue W Obs a)
             (followUpQueue W Obs (snd (dequeueFollowUpMessages W Obs a)))).
Proof.
  unfold dequeueSteeringMessages, dequeueFollowUpMessages, eqs. split.
  - case_bool_decide.
    + destruct a as [st ls nx ac ax cv tr [|m q] fq sm fm sf sid gk tb mr rn];
        cbn; auto.
    + cbn. rewrite app_nil_r. auto.
  - case_bool_decide.
    + destruct a as [st ls nx ac ax cv tr sq [|m q] sm fm sf sid gk tb mr rn];
        cbn; auto.
    + cbn. rewrite app_nil_r. auto.
Qed.

(** X19.  [HasQueuedMessages] is false exactly when neither dequeue
    function has anything to return; queueing a message makes it true
    and the three clearing functions make it false, each for its
    queue. *)
Theorem HasQueuedMessages_iff (a : Agent W Obs) (m : AgentMessage) :
  (HasQueuedMessages W Obs a = false <->
   fst (dequeueSteeringMessages W Obs a) = []
   /\ fst (dequeueFollowUpMessages W Obs a) = [])
  /\ HasQueuedMessages W Obs (Steer W Obs m a) = true
  /\ HasQueuedMessages W Obs (FollowUp W Obs m a) = true
  /\ HasQueuedMessages W Obs (ClearAllQueues W Obs a) = false
  /\ HasQueuedMessages W Obs (ClearSteeringQueue W Obs a)
     = (0 <? length (followUpQueue W Obs a))%nat
  /\ HasQueuedMessages W Obs (ClearFollowUpQueue W Obs a)
     = (0 <? length (steeringQueue W Obs a))%nat.
Proof.
  unfold HasQueuedMessages, dequeueSteeringMessages, dequeueFollowUpMessages,
    Steer, FollowUp, ClearAllQueues, ClearSteeringQueue, ClearFollowUpQueue.
  cbn [steeringQueue followUpQueue with_queues].
  split; [|repeat split].
  - rewrite orb_false_iff.
    destruct (steeringQueue W Obs a) as [|x q], (followUpQueue W Obs a) as [|y q'];
      destruct (eqs (steeringMode W Obs a) "one-at-a-time"),
        (eqs (followUpMode W Obs a) "one-at-a-time"); cbn;
      intuition discriminate.
  - rewrite length_app. cbn.
    destruct (length (steeringQueue W Obs a)); reflexivity.
  - rewrite length_app. cbn. apply orb_true_iff. right.
    destruct (length (followUpQueue W Obs a)); reflexivity.
  - apply orb_false_r.
Qed.

End QueueFacts.

Section StartFacts.

Import ai agent facade.
Local Open Scope string_scope.
Local Open Scope list_scope.

Context {W Obs : Type} (now : W -> Z * W).
Context (Quote : string -> string) (MarshalIndent : gmap string any -> string).
Context (agentOf : W -> Agent W Obs) (setAgent : Agent W Obs -> W -> W).
Context (skipSteeringOf : W -> bool) (setSkipSteering : bool -> W -> W).

(** [runLoop] with messages to start from. *)
Lemma runLoop_with_messages fuel ms skip (a : Agent W Obs) h :
  IsStreaming W (state W Obs a) = false ->
  match st_Model W (state W Obs a) with
  | None => facade.runLoop W Obs now Quote MarshalIndent agentOf setAgent
    skipSteeringOf setSkipSteering fuel (Some ms) skip a h
            = ((Some "no model configured", None), a, h)
  | Some _ =>
      errorOf (facade.runLoop W Obs now Quote MarshalIndent agentOf setAgent
    skipSteeringOf setSkipSteering fuel (Some ms) skip a h) = None
      /\ (exists body, bodyOf (facade.runLoop W Obs now Quote MarshalIndent agentOf setAgent
    skipSteeringOf setSkipSteering fuel (Some ms) skip a h) = Some body)
      /\ IsStreaming W (state W Obs (agentAfter (facade.runLoop W Obs now Quote MarshalIndent agentOf setAgent
    skipSteeringOf setSkipSteering fuel (Some ms) skip a h)))
         = true
  end.
Proof.
  intros Hs. unfold facade.runLoop. rewrite Hs.
  destruct (st_Model W (state W Obs a)); [|reflexivity].
  cbn. eauto.
Qed.

(** [runLoop] with nil messages, from a transcript that does not end
    with an assistant message. *)
Lemma runLoop_continue fuel skip (a : Agent W Obs) h lastMsg :
  IsStreaming W (state W Obs a) = false ->
  last (st_Messages W (state W Obs a)) = Some lastMsg ->
  Role (Message lastMsg) <> RoleAssistant ->
  match st_Model W (state W Obs a) with
  | None => facade.runLoop W Obs now Quote MarshalIndent agentOf setAgent
    skipSteeringOf setSkipSteering fuel None skip a h
            = ((Some "no model configured", None), a, h)
  | Some _ =>
      errorOf (facade.runLoop W Obs now Quote MarshalIndent agentOf setAgent
    skipSteeringOf setSkipSteering fuel None skip a h) = None
      /\ (exists body, bodyOf (facade.runLoop W Obs now Quote MarshalIndent agentOf setAgent
    skipSteeringOf setSkipSteering fuel None skip a h) = Some body)
      /\ IsStreaming W (state W Obs (agentAfter (facade.runLoop W Obs now Quote MarshalIndent agentOf setAgent
    skipSteeringOf setSkipSteering fuel None skip a h)))
         = true
  end.
Proof.
  intros Hs Hl Hr. unfold facade.runLoop. rewrite Hs.
  destruct (st_Model W (state W Obs a)); [|reflexivity].
  cbv zeta. unfold AgentLoopContinue. cbn [Messages]. rewrite Hl.
  unfold eqs. rewrite bool_decide_eq_false_2 by exact Hr.
  cbn. eauto.
Qed.

(** X20.  [Continue] starts a run exactly when the agent is not
    streaming, has a model and a transcript, and, should the transcript
    end with an assistant message, has a message queued for steering or
    follow-up.  When it starts a run, the goroutine of the loop is
    launched and the agent is streaming.  When it returns an error,
    nothing is launched and the state of the agent and the heap are as
    before.  The queues are not: a transcript that ends with an
    assistant message makes [Continue] take the message to start from
    off its queue before [runLoop] looks for the model, so that without
    a model the error is returned and the message is gone. *)
Theorem Continue_starts_iff (fuel : nat) (a : Agent W Obs) (h : Heap)
  (m : AgentMessage) (queue : list AgentMessage) :
  (errorOf (Continue W Obs now Quote MarshalIndent agentOf setAgent
    skipSteeringOf setSkipSteering fuel a h) = None <->
   IsStreaming W (state W Obs a) = false
   /\ is_Some (st_Model W (state W Obs a))
   /\ exists lastMsg,
        last (st_Messages W (state W Obs a)) = Some lastMsg
        /\ (Role (Message lastMsg) = RoleAssistant ->
            HasQueuedMessages W Obs a = true))
  /\ (errorOf (Continue W Obs now Quote MarshalIndent agentOf setAgent
    skipSteeringOf setSkipSteering fuel a h) = None ->
      is_Some (bodyOf (Continue W Obs now Quote MarshalIndent agentOf setAgent
    skipSteeringOf setSkipSteering fuel a h))
      /\ IsStreaming W (state W Obs (agentAfter (Continue W Obs now Quote MarshalIndent agentOf setAgent
    skipSteeringOf setSkipSteering fuel a h))) = true)
  /\ (is_Some (errorOf (Continue W Obs now Quote MarshalIndent agentOf setAgent
    skipSteeringOf setSkipSteering fuel a h)) ->
      bodyOf (Continue W Obs now Quote MarshalIndent agentOf setAgent
    skipSteeringOf setSkipSteering fuel a h) = None
      /\ state W Obs (agentAfter (Continue W Obs now Quote MarshalIndent agentOf setAgent
    skipSteeringOf setSkipSteering fuel a h)) = state W Obs a
      /\ heapAfter (Continue W Obs now Quote MarshalIndent agentOf setAgent
    skipSteeringOf setSkipSteering fuel a h) = h)
  /\ (IsStreaming W (state W Obs a) = false ->
      st_Model W (state W Obs a) = None ->
      (exists lastMsg,
         last (st_Messages W (state W Obs a)) = Some lastMsg
         /\ Role (Message lastMsg) = RoleAssistant) ->
      steeringMode W Obs a = "one-at-a-time" ->
      steeringQueue W Obs a = m :: queue ->
      Continue W Obs now Quote MarshalIndent agentOf setAgent
    skipSteeringOf setSkipSteering fuel a h
      = ((Some "no model configured", None),
         with_queues W Obs a queue (followUpQueue W Obs a), h)).
Proof.
  assert (Hdq : forall b : Agent W Obs,
             state W Obs (snd (dequeueSteeringMessages W Obs b)) = state W Obs b
             /\ state W Obs (snd (dequeueFollowUpMessages W Obs b))
                = state W Obs b).
  { intros b. unfold dequeueSteeringMessages, dequeueFollowUpMessages.
    destruct (eqs _ _), (eqs _ _), (steeringQueue W Obs b),
      (followUpQueue W Obs b); auto. }
  assert (Hne : forall b : Agent W Obs,
             nonEmpty (fst (dequeueSteeringMessages W Obs b))
             = (0 <? length (steeringQueue W Obs b))%nat
             /\ nonEmpty (fst (dequeueFollowUpMessages W Obs b))
                = (0 <? length (followUpQueue W Obs b))%nat
             /\ followUpQueue W Obs (snd (dequeueSteeringMessages W Obs b))
                = followUpQueue W Obs b).
  { intros b. unfold dequeueSteeringMessages, dequeueFollowUpMessages, nonEmpty.
    destruct b as [st ls nx ac ax cv tr sq fq sm fm sf sid gk tb mr rn].
    cbn. destruct (eqs sm _), (eqs fm _), sq, fq; cbn; auto. }
  unfold Continue, HasQueuedMessages.
  destruct (IsStreaming W (state W Obs a)) eqn:Hs.
  { cbn. split; [|split; [|split]].
    - split; [discriminate|]. intros [? _]. discriminate.
    - discriminate.
    - intros _. auto.
    - discriminate. }
  destruct (last (st_Messages W (state W Obs a))) as [lastMsg|] eqn:Hl.
  2:{ cbn. split; [|split; [|split]].
      - split; [discriminate|]. intros (_ & _ & x & ? & _). discriminate.
      - discriminate.
      - intros _. auto.
      - intros _ _ (x & ? & _). discriminate. }
  destruct (eqs (Role (Message lastMsg)) RoleAssistant) eqn:Hrole0;
    [ assert (Hrole : Role (Message lastMsg) = RoleAssistant)
        by (apply bool_decide_eq_true in Hrole0; exact Hrole0)
    | assert (Hrole : Role (Message lastMsg) <> RoleAssistant)
        by (apply bool_decide_eq_false in Hrole0; exact Hrole0) ];
    clear Hrole0.
  - (* the transcript ends with an assistant message *)
    destruct (dequeueSteeringMessages W Obs a) as [steering a1] eqn:Hd1.
    pose proof (Hdq a) as [Hst1 _]. pose proof (Hne a) as (Hn1 & _ & Hfq).
    rewrite Hd1 in Hst1, Hn1, Hfq. cbn [fst snd] in Hst1, Hn1, Hfq.
    rewrite Hn1.
    destruct (0 <? length (steeringQueue W Obs a))%nat eqn:Hq1; cbv beta iota.
    + assert (Hs1 : IsStreaming W (state W Obs a1) = false) by congruence.
      pose proof (runLoop_with_messages fuel steering true a1 h Hs1) as Hrun.
      rewrite Hst1 in Hrun.
      destruct (st_Model W (state W Obs a)) as [model|] eqn:Hm.
      * destruct Hrun as (He & [body Hb] & Hstr).
        split; [|split; [|split]].
        -- split; [|intros _; exact He].
           intros _. split; [reflexivity|]. split; [eauto|].
           exists lastMsg. split; [reflexivity|]. intros _. reflexivity.
        -- intros _. split; [rewrite Hb; eauto|exact Hstr].
        -- rewrite He. intros [? ?]. discriminate.
        -- discriminate.
      * rewrite Hrun. cbn. split; [|split; [|split]].
        -- split; [discriminate|]. intros (_ & [? ?] & _). discriminate.
        -- discriminate.
        -- intros _. auto.
        -- intros _ _ _ Hmode Hqueue. repeat f_equal.
           unfold dequeueSteeringMessages in Hd1.
           unfold eqs in Hd1. rewrite bool_decide_eq_true_2 in Hd1 by exact Hmode.
           rewrite Hqueue in Hd1. injection Hd1 as _ <-. reflexivity.
    + destruct (dequeueFollowUpMessages W Obs a1) as [followUp a2] eqn:Hd2.
      pose proof (Hdq a1) as [_ Hst2]. pose proof (Hne a1) as (_ & Hn2 & _).
      rewrite Hd2 in Hst2, Hn2. cbn [fst snd] in Hst2, Hn2.
      rewrite Hn2, Hfq. cbn [orb].
      destruct (0 <? length (followUpQueue W Obs a))%nat eqn:Hq2;
        cbv beta iota.
      * assert (Hs2 : IsStreaming W (state W Obs a2) = false) by congruence.
        pose proof (runLoop_with_messages fuel followUp false a2 h Hs2) as Hrun.
        rewrite Hst2, Hst1 in Hrun.
        destruct (st_Model W (state W Obs a)) as [model|] eqn:Hm.
        -- destruct Hrun as (He & [body Hb] & Hstr).
           split; [|split; [|split]].
           ++ split; [|intros _; exact He].
              intros _. split; [reflexivity|]. split; [eauto|].
              exists lastMsg. split; [reflexivity|]. intros _. reflexivity.
           ++ intros _. split; [rewrite Hb; eauto|exact Hstr].
           ++ rewrite He. intros [? ?]. discriminate.
           ++ discriminate.
        -- rewrite Hrun. cbn. split; [|split; [|split]].
           ++ split; [discriminate|]. intros (_ & [? ?] & _). discriminate.
           ++ discriminate.
           ++ intros _. split; [reflexivity|]. split; [congruence|reflexivity].
           ++ intros _ _ _ _ Hqueue. rewrite Hqueue in Hq1. discriminate.
      * cbn. split; [|split; [|split]].
        -- split; [discriminate|].
           intros (_ & _ & x & [= <-] & Hx). specialize (Hx Hrole).
           discriminate.
        -- discriminate.
        -- intros _. split; [reflexivity|]. split; [congruence|reflexivity].
        -- intros _ _ _ _ Hqueue. rewrite Hqueue in Hq1. discriminate.
  - (* the transcript ends with a user message or a tool result *)
    pose proof (runLoop_continue fuel false a h lastMsg Hs Hl Hrole) as Hrun.
    destruct (st_Model W (state W Obs a)) as [model|] eqn:Hm.
    + destruct Hrun as (He & [body Hb] & Hstr).
      split; [|split; [|split]].
      * split; [|intros _; exact He].
        intros _. split; [reflexivity|]. split; [eauto|].
        exists lastMsg. split; [reflexivity|]. intros; contradiction.
      * intros _. split; [rewrite Hb; eauto|exact Hstr].
      * rewrite He. intros [? ?]. discriminate.
      * discriminate.
    + rewrite Hrun. cbn. split; [|split; [|split]].
      * split; [discriminate|]. intros (_ & [? ?] & _). discriminate.
      * discriminate.
      * intros _. auto.
      * intros _ _ (x & [= <-] & Hx). contradiction.
Qed.

End StartFacts.

(** ** The facade: listeners *)

Section ListenerFacts.

Import ai agent facade.
Local Open Scope string_scope.
Local Open Scope list_scope.
Local Open Scope Z_scope.

Context {W Obs : Type}.

(** X21.  [Subscribe] registers the listener under the current value of
    the counter and leaves every other listener alone; the closure it
    returns removes that entry again, twice as well as once, so that
    with an id that was free the agent is as before up to the counter.
    As long as the counter is not negative and below the largest
    [int], the ids in use stay below the counter, so that no
    [Subscribe] replaces a listener. *)
Theorem Subscribe_unsubscribe (fn : Listener Obs) (a : Agent W Obs) :
  snd (Subscribe W Obs fn a) = nextListenerID W Obs a
  /\ listeners W Obs (fst (Subscribe W Obs fn a)) !! nextListenerID W Obs a
     = Some fn
  /\ (forall j, j <> nextListenerID W Obs a ->
        listeners W Obs (fst (Subscribe W Obs fn a)) !! j
        = listeners W Obs a !! j)
  /\ listeners W Obs
       (unsubscribe W Obs (snd (Subscribe W Obs fn a))
          (fst (Subscribe W Obs fn a)))
     = delete (nextListenerID W Obs a) (listeners W Obs a)
  /\ (listeners W Obs a !! nextListenerID W Obs a = None ->
      unsubscribe W Obs (snd (Subscribe W Obs fn a))
        (fst (Subscribe W Obs fn a))
      = with_listeners W Obs a (listeners W Obs a)
          (Go.add (nextListenerID W Obs a) 1))
  /\ (forall (id : Z) (b : Agent W Obs),
        unsubscribe W Obs id (unsubscribe W Obs id b)
        = unsubscribe W Obs id b)
  /\ (0 <= nextListenerID W Obs a < Go.int_max ->
      (forall j, is_Some (listeners W Obs a !! j) ->
         j < nextListenerID W Obs a) ->
      listeners W Obs a !! nextListenerID W Obs a = None
      /\ 0 <= nextListenerID W Obs (fst (Subscribe W Obs fn a)) <= Go.int_max
      /\ forall j, is_Some (listeners W Obs (fst (Subscribe W Obs fn a)) !! j) ->
           j < nextListenerID W Obs (fst (Subscribe W Obs fn a))).
Proof.
  unfold Subscribe, unsubscribe. cbn [fst snd listeners with_listeners nextListenerID].
  split; [reflexivity|]. split; [apply lookup_insert_eq|].
  split; [intros j Hj; apply lookup_insert_ne; congruence|].
  split; [apply delete_insert_eq|].
  split.
  { intros Hnone. rewrite delete_insert_eq, delete_id by exact Hnone.
    reflexivity. }
  split.
  { intros id b. cbn [listeners with_listeners nextListenerID].
    rewrite delete_delete_eq. unfold with_listeners. cbn. reflexivity. }
  intros Hnext Hinv.
  assert (Hadd : Go.add (nextListenerID W Obs a) 1 = nextListenerID W Obs a + 1).
  { unfold Go.add, Go.wrap, Go.int_max in *. 
    rewrite Z.mod_small by lia. lia. }
  rewrite Hadd.
  assert (Hnone : listeners W Obs a !! nextListenerID W Obs a = None).
  { destruct (listeners W Obs a !! nextListenerID W Obs a) eqn:E; [|reflexivity].
    assert (Hs : is_Some (listeners W Obs a !! nextListenerID W Obs a))
      by (rewrite E; eauto).
    apply Hinv in Hs. lia. }
  split; [exact Hnone|]. split; [lia|].
  intros j Hj.
  destruct (decide (j = nextListenerID W Obs a)) as [->|Hne]; [lia|].
  rewrite lookup_insert_ne in Hj by congruence.
  apply Hinv in Hj. lia.
Qed.

End ListenerFacts.

(** ** The facade: the events of a run *)

Section TranscriptFacts.

Import ai agent facade.
Local Open Scope string_scope.
Local Open Scope list_scope.

Context {W : Type}.

Lemma applyEvent_spec (e : AgentEvent) (s : AgentState W) :
  match applyEvent W e s with
  | Go.Done s1 =>
      st_Messages W s1 = st_Messages W s ++ finalised [OpPush e]
      /\ (st_SystemPrompt W s1 = st_SystemPrompt W s
          /\ st_Model W s1 = st_Model W s
          /\ st_ThinkingLevel W s1 = st_ThinkingLevel W s
          /\ st_Tools W s1 = st_Tools W s)
      /\ PendingToolCalls W s1
         = pendingAfter (toolBrackets [OpPush e]) (PendingToolCalls W s)
      /\ Error W s1 = default (Error W s) (last (turnErrors [OpPush e]))
      /\ IsStreaming W s1
         = IsStreaming W s && bool_decide (agentEnds [OpPush e] = [])
      /\ ~ (Type_ e = MessageEventEnd /\ Message_ e = None)
  | Go.Panics => Type_ e = MessageEventEnd /\ Message_ e = None
  | Go.Blocks => False
  end.
Proof.
  unfold applyEvent, finalised, toolBrackets, turnErrors, agentEnds, pendingAfter.
  destruct e as [ty ms m ame trs id nm args pr res ie].
  cbn [Type_ Message_ ToolCallID omap list_omap Messages_].
  unfold eqs.
  repeat (case_bool_decide; subst; try discriminate; cbn);
    try (destruct m as [m|]; cbn);
    try (destruct (m_Assistant (Message m)) as [am|]; cbn);
    try (case_bool_decide; cbn);
    try (exfalso; congruence);
    rewrite ?app_nil_r, ?andb_true_r, ?andb_false_r;
    repeat split; auto; intros [? ?]; congruence.
Qed.

Lemma pendingAfter_bracketsOf (calls : list ToolCall) (p : gset string) :
  pendingAfter (bracketsOf calls) p = p ∖ list_to_set (map tc_ID calls).
Proof.
  revert p. induction calls as [|tc calls IH]; intros p.
  - cbn. rewrite difference_empty_L. reflexivity.
  - cbn [bracketsOf flat_map map list_to_set app] in *.
    unfold pendingAfter in *. cbn [fold_left fst snd].
    assert (Hs : eqs ToolExecutionEventStart ToolExecutionEventStart = true)
      by (apply bool_decide_eq_true_2; reflexivity).
    assert (He : eqs ToolExecutionEventEnd ToolExecutionEventStart = false)
      by (apply bool_decide_eq_false_2; discriminate).
    rewrite Hs, He. unfold bracketsOf in IH. rewrite IH.
    apply set_eq. intros x.
    rewrite !elem_of_difference, !elem_of_union, elem_of_singleton. tauto.
Qed.

Lemma pendingAfter_app (b1 b2 : list (AgentEventType * string))
  (p : gset string) :
  pendingAfter (b1 ++ b2) p = pendingAfter b2 (pendingAfter b1 p).
Proof. unfold pendingAfter. apply fold_left_app. Qed.

Lemma last_app_default (d : string) (l1 l2 : list string) :
  default d (last (l1 ++ l2)) = default (default d (last l1)) (last l2).
Proof.
  destruct l2 as [|x l2 _] using rev_ind.
  - rewrite app_nil_r. reflexivity.
  - rewrite app_assoc, !last_snoc. reflexivity.
Qed.

(** A [message_end] event without a message. *)
Lemma applyEvents_spec (ops : list StreamOp) (s : AgentState W) :
  match applyEvents W (pushed ops) s with
  | Go.Done s' =>
      (st_Messages W s' = st_Messages W s ++ finalised ops
       /\ (st_SystemPrompt W s' = st_SystemPrompt W s
           /\ st_Model W s' = st_Model W s
           /\ st_ThinkingLevel W s' = st_ThinkingLevel W s
           /\ st_Tools W s' = st_Tools W s)
       /\ PendingToolCalls W s'
          = pendingAfter (toolBrackets ops) (PendingToolCalls W s)
       /\ Error W s' = default (Error W s) (last (turnErrors ops))
       /\ IsStreaming W s'
          = IsStreaming W s && bool_decide (agentEnds ops = []))
      /\ Forall (fun e => ~ (Type_ e = MessageEventEnd /\ Message_ e = None))
           (pushed ops)
  | Go.Panics =>
      Exists (fun e => Type_ e = MessageEventEnd /\ Message_ e = None)
        (pushed ops)
  | Go.Blocks => False
  end.
Proof.
  revert s. induction ops as [|o ops IH]; intros s.
  - cbn. rewrite app_nil_r, andb_true_r. auto 10.
  - destruct o as [e|r].
    2:{ specialize (IH s). exact IH. }
    change (pushed (OpPush e :: ops)) with (e :: pushed ops).
    cbn [applyEvents].
    pose proof (applyEvent_spec e s) as He.
    destruct (applyEvent W e s) as [s1| |]; cbn [Go.obind].
    + specialize (IH s1).
      destruct (applyEvents W (pushed ops) s1) as [s'| |].
      * destruct He as (Hm & (H1 & H2 & H3 & H4) & Hp & Herr & Hstr & Hok).
        destruct IH as ((Hm' & (H1' & H2' & H3' & H4') & Hp' & Herr' & Hstr')
                        & Hall).
        split; [|constructor; [|exact Hall]].
        -- change (OpPush e :: ops) with ([OpPush e] ++ ops).
           rewrite finalised_app, agentEnds_app, toolBrackets_app.
           unfold turnErrors. rewrite omap_app. fold (turnErrors [OpPush e]).
           fold (turnErrors ops).
           rewrite last_app_default.
           rewrite pendingAfter_app, <- Hp, <- Herr.
           split; [rewrite Hm', Hm, app_assoc; reflexivity|].
           split; [repeat split; congruence|].
           split; [exact Hp'|]. split; [exact Herr'|].
           rewrite Hstr', Hstr, <- andb_assoc. f_equal.
           destruct (agentEnds [OpPush e]), (agentEnds ops); reflexivity.
        -- exact Hok.
      * exact IH.
      * apply Exists_cons_tl. exact IH.
    + contradiction.
    + apply Exists_cons_hd. exact He.
Qed.

(** X22.  What the goroutine of [Agent.runLoop] makes of the events of a
    stream.  When it gets through them, the transcript is the one
    before followed by the messages of the [message_end] events in
    their order; the system prompt, model, thinking level and tools are
    untouched; the error is the text of the last [turn_end] whose
    assistant message has one; the agent is streaming only if it was
    and no [agent_end] came; and after the start and end events of a
    batch of tool calls none of their ids is pending.  It panics
    exactly when a [message_end] event has no message, and it never
    waits.  (The state between two events is the goroutine's: no other
    method of the agent is called meanwhile.) *)
Theorem events_build_transcript (ops : list StreamOp) (s : AgentState W) :
  (forall s',
     applyEvents W (pushed ops) s = Go.Done s' ->
     st_Messages W s' = st_Messages W s ++ finalised ops
     /\ st_SystemPrompt W s' = st_SystemPrompt W s
     /\ st_Model W s' = st_Model W s
     /\ st_ThinkingLevel W s' = st_ThinkingLevel W s
     /\ st_Tools W s' = st_Tools W s
     /\ Error W s' = default (Error W s) (last (turnErrors ops))
     /\ IsStreaming W s'
        = IsStreaming W s && bool_decide (agentEnds ops = [])
     /\ forall calls,
          toolBrackets ops = bracketsOf calls ->
          PendingToolCalls W s'
          = PendingToolCalls W s ∖ list_to_set (map tc_ID calls))
  /\ (applyEvents W (pushed ops) s = Go.Panics <->
      Exists (fun e => Type_ e = MessageEventEnd /\ Message_ e = None)
        (pushed ops))
  /\ applyEvents W (pushed ops) s <> Go.Blocks.
Proof.
  pose proof (applyEvents_spec ops s) as Hspec.
  destruct (applyEvents W (pushed ops) s) as [s1| |].
  - destruct Hspec as ((Hm & (H1 & H2 & H3 & H4) & Hp & Herr & Hstr) & Hall).
    split; [|split; [|discriminate]].
    + intros s' [= <-]. repeat split; try assumption.
      intros calls Hc. rewrite Hp, Hc. apply pendingAfter_bracketsOf.
    + split; [discriminate|]. intros Hex. exfalso.
      apply Exists_exists in Hex. destruct Hex as (e & Hin & Hbad).
      rewrite Forall_forall in Hall. exact (Hall e Hin Hbad).
  - contradiction.
  - split; [discriminate|]. split; [|discriminate].
    split; [intros _; exact Hspec|reflexivity].
Qed.

End TranscriptFacts.

Section CarryFacts.

Import ai agent.
Local Open Scope string_scope.
Local Open Scope list_scope.

Context {W : Type} (now : W -> Z * W).
Context (Quote : string -> string) (MarshalIndent : gmap string any -> string).
Context (P : StreamOp -> Prop).

Lemma throughout_ret {A} (a : A) : throughout P (ret W a).
Proof. intros w x ops w' H. apply ret_inv in H. destruct H as (_ & -> & _). constructor. Qed.

Lemma throughout_fail {A} why : throughout P (@fail W A why).
Proof. intros w x ops w' H. discriminate. Qed.

Lemma throughout_call {A} (f : W -> A * W) : throughout P (call W f).
Proof. intros w x ops w' H. apply call_inv in H. destruct H as [-> _]. constructor. Qed.

Lemma throughout_push e : P (OpPush e) -> throughout P (push W e).
Proof.
  intros He w x ops w' H. apply push_inv in H. destruct H as [-> _].
  repeat constructor. exact He.
Qed.

Lemma throughout_end ms : P (OpEnd ms) -> throughout P (end_ W ms).
Proof.
  intros He w x ops w' H. apply end_inv in H. destruct H as [-> _].
  repeat constructor. exact He.
Qed.

Lemma throughout_bind {A B} (m : M W A) (f : A -> M W B) :
  throughout P m -> (forall a, throughout P (f a)) -> throughout P (bind W m f).
Proof.
  intros Hm Hf w x ops w' H. apply bind_inv in H.
  destruct H as (a & t1 & w1 & t2 & H1 & H2 & ->).
  apply Forall_app. split; [exact (Hm _ _ _ _ H1)|exact (Hf _ _ _ _ _ H2)].
Qed.

Lemma throughout_forM_ {A} (f : A -> M W unit) l :
  (forall a, throughout P (f a)) -> throughout P (forM_ W f l).
Proof.
  intros Hf. induction l as [|a l IH]; cbn [forM_].
  - apply throughout_ret.
  - apply throughout_bind; [apply Hf|intros _; exact IH].
Qed.

Lemma throughout_mapM {A B} (f : A -> M W B) l :
  (forall a, throughout P (f a)) -> throughout P (mapM W f l).
Proof.
  intros Hf. induction l as [|a l IH]; cbn [mapM].
  - apply throughout_ret.
  - apply throughout_bind; [apply Hf|intros b].
    apply throughout_bind; [exact IH|intros bs]. apply throughout_ret.
Qed.

End CarryFacts.

Section CarryLoop.

Import ai agent.
Local Open Scope string_scope.
Local Open Scope list_scope.

Context {W : Type} (now : W -> Z * W).
Context (Quote : string -> string) (MarshalIndent : gmap string any -> string).

Ltac carry :=
  repeat first
    [ apply throughout_ret
    | apply throughout_fail
    | apply throughout_call
    | apply throughout_end; exact I
    | apply throughout_push; cbn; first [discriminate | eauto]
    | assumption
    | match goal with
      | IH : forall _, _ |- throughout _ _ => apply IH
      end
    | apply throughout_bind; [|intro]
    | apply throughout_forM_; intro
    | apply throughout_mapM; intro
    | match goal with
      | |- throughout _ (let '(_, _) := ?x in _) => destruct x
      | |- throughout _ (match ?x with _ => _ end) => destruct x
      end ].

Lemma executeLoop_carries tools gs calls acc :
  throughout carries (executeLoop W now Quote MarshalIndent tools gs calls acc).
Proof.
  revert acc. induction calls as [|tc calls IH]; intros acc; cbn [executeLoop].
  - carry.
  - unfold iteration, perform, invoke, pollSteering, skipToolCall. carry.
Qed.

Lemma drainPending_carries pending ctx nm :
  throughout carries (drainPending W pending ctx nm).
Proof.
  revert ctx nm. induction pending as [|m pending IH]; intros ctx nm;
    cbn [drainPending]; carry.
Qed.

Lemma rangeEvents_carries events resp ctx pm ap :
  throughout carries (rangeEvents W events resp ctx pm ap).
Proof.
  revert ctx pm ap. induction events as [|event rest IH]; intros ctx pm ap;
    cbn [rangeEvents]; unfold awaitResult, setLastMessage; carry.
Qed.

Lemma streamAssistantResponse_carries ctx config streamFn :
  throughout carries (streamAssistantResponse W ctx config streamFn).
Proof.
  unfold streamAssistantResponse. pose proof rangeEvents_carries. carry.
Qed.

Lemma innerLoop_carries config streamFn fuel :
  forall ctx nm ft hm pending sat,
    throughout carries
      (innerLoop W now Quote MarshalIndent config streamFn fuel ctx nm ft hm
         pending sat).
Proof.
  induction fuel as [|fuel IH]; intros ctx nm ft hm pending sat;
    cbn [innerLoop].
  - carry.
  - pose proof drainPending_carries. pose proof streamAssistantResponse_carries.
    pose proof executeLoop_carries.
    unfold makeErrorAssistantMessage, executeToolCalls. carry.
Qed.

Lemma outerLoop_carries config streamFn fuel :
  forall ctx nm ft pending,
    throughout carries
      (outerLoop W now Quote MarshalIndent config streamFn fuel ctx nm ft
         pending).
Proof.
  induction fuel as [|fuel IH]; intros ctx nm ft pending; cbn [outerLoop].
  - carry.
  - pose proof (innerLoop_carries config streamFn). carry.
Qed.

Lemma AgentLoop_carries fuel prompts agentCtx config streamFn :
  throughout carries
    (AgentLoop W now Quote MarshalIndent fuel prompts agentCtx config streamFn).
Proof.
  unfold AgentLoop, runLoop. pose proof (outerLoop_carries config streamFn).
  carry.
Qed.

Lemma AgentLoopContinue_carries fuel agentCtx config streamFn body :
  fst (AgentLoopContinue W now Quote MarshalIndent fuel agentCtx config streamFn)
  = Some body ->
  throughout carries body.
Proof.
  unfold AgentLoopContinue, runLoop.
  destruct (last (Messages W agentCtx)); [|discriminate].
  destruct (eqs _ _); [discriminate|]. intros [= <-].
  pose proof (outerLoop_carries config streamFn). carry.
Qed.

End CarryLoop.

Section RunTranscript.

Import ai agent facade.
Local Open Scope string_scope.
Local Open Scope list_scope.

Context {W Obs : Type} (now : W -> Z * W).
Context (Quote : string -> string) (MarshalIndent : gmap string any -> string).
Context (agentOf : W -> Agent W Obs) (setAgent : Agent W Obs -> W -> W).
Context (skipSteeringOf : W -> bool) (setSkipSteering : bool -> W -> W).

Lemma carries_never_panics (ops : list StreamOp) :
  Forall carries ops ->
  ~ Exists (fun e => Type_ e = MessageEventEnd /\ Message_ e = None)
      (pushed ops).
Proof.
  intros Hall Hex. unfold pushed in Hex. apply Exists_exists in Hex.
  destruct Hex as (e & Hin & Hty & Hnone).
  apply list_elem_of_omap in Hin.
  destruct Hin as (o & Ho & Hoe). destruct o as [e'|]; [|discriminate].
  injection Hoe as ->. rewrite Forall_forall in Hall.
  specialize (Hall _ Ho Hty). rewrite Hnone in Hall.
  destruct Hall as [? ?]. discriminate.
Qed.

Lemma applyEvents_app (l1 l2 : list AgentEvent) (s : AgentState W) :
  applyEvents W (l1 ++ l2) s
  = Go.obind (applyEvents W l1 s) (applyEvents W l2).
Proof.
  revert s. induction l1 as [|e l1 IH]; intros s; [reflexivity|].
  cbn [app applyEvents]. destruct (applyEvent W e s); cbn [Go.obind]; auto.
Qed.

(** The body [Agent.runLoop] launches, once it has returned: its
    operations are those of a run of the loop. *)
Lemma launched_run fuel messages skip (a : Agent W Obs) h body w x ops w' :
  errorOf (facade.runLoop W Obs now Quote MarshalIndent agentOf setAgent
             skipSteeringOf setSkipSteering fuel messages skip a h) = None ->
  bodyOf (facade.runLoop W Obs now Quote MarshalIndent agentOf setAgent
            skipSteeringOf setSkipSteering fuel messages skip a h)
  = Some body ->
  body w = Ok (x, ops, w') ->
  Forall carries ops /\ reports ops
  /\ exists ch cx,
       agentAfter (facade.runLoop W Obs now Quote MarshalIndent agentOf
                     setAgent skipSteeringOf setSkipSteering fuel messages
                     skip a h)
       = started W Obs a ch cx.
Proof.
  unfold facade.runLoop.
  destruct (IsStreaming W (state W Obs a)); [discriminate|].
  destruct (st_Model W (state W Obs a)) as [model|]; [|discriminate].
  cbv zeta. destruct messages as [ms|].
  - cbn [errorOf bodyOf agentAfter fst snd]. intros _ [= <-] Hrun.
    split; [exact (AgentLoop_carries _ _ _ _ _ _ _ _ _ _ _ _ Hrun)|].
    split; [|eauto].
    unfold AgentLoop in Hrun. run_inv Hrun.
    apply runLoop_lifecycle in Hrun. destruct Hrun as [_ Hr].
    apply (reports_app [_]), (reports_app [_]), reports_app. exact Hr.
  - destruct (AgentLoopContinue W now Quote MarshalIndent fuel _ _ _)
      as [[body0|] [err|]] eqn:Hc;
      cbn [errorOf bodyOf agentAfter fst snd]; try discriminate.
    intros _ [= <-] Hrun.
    assert (Hb : fst (AgentLoopContinue W now Quote MarshalIndent fuel
                   {| SystemPrompt := st_SystemPrompt W (state W Obs a);
                      Messages := st_Messages W (state W Obs a);
                      Tools := st_Tools W (state W Obs a) |}
                   (loopConfig W Obs agentOf setAgent skipSteeringOf
                      setSkipSteering a model) (StreamFn_ W Obs a))
                 = Some body0) by (rewrite Hc; reflexivity).
    split; [exact (AgentLoopContinue_carries _ _ _ _ _ _ _ _ Hb _ _ _ _ Hrun)|].
    split; [|eauto].
    unfold AgentLoopContinue in Hb.
    destruct (last _); [|discriminate].
    destruct (eqs _ _); [discriminate|].
    cbn [fst] in Hb. injection Hb as <-. run_inv Hrun.
    apply runLoop_lifecycle in Hrun. destruct Hrun as [_ Hr].
    apply (reports_app [_]), (reports_app [_]). exact Hr.
Qed.

(** X23.  A run started by [Agent.runLoop] (through [PromptMessages] or
    [Continue]) whose loop returns: the goroutine of the facade gets
    through all events of the loop without a panic, and afterwards the
    transcript is the transcript at the start followed by the messages
    the run finalised by [message_end], the agent is no longer
    streaming, no stream message is left, the error is that of the last
    failed turn of the run (empty if none), and prompt, model, thinking
    level and tools are as before, no other method of the agent
    changing the state meanwhile.  The events the goroutine ranges over
    are the events the loop has pushed, in their order. *)
Theorem run_extends_transcript (fuel : nat)
  (messages : option (list AgentMessage)) (skip : bool) (a : Agent W Obs)
  (h : Heap) (body : M W unit) (w w' : W) (x : unit) (ops : list StreamOp) :
  errorOf (facade.runLoop W Obs now Quote MarshalIndent agentOf setAgent
             skipSteeringOf setSkipSteering fuel messages skip a h) = None ->
  bodyOf (facade.runLoop W Obs now Quote MarshalIndent agentOf setAgent
            skipSteeringOf setSkipSteering fuel messages skip a h)
  = Some body ->
  body w = Ok (x, ops, w') ->
  exists s',
    applyEvents W (pushed ops)
      (state W Obs
         (agentAfter (facade.runLoop W Obs now Quote MarshalIndent agentOf
                        setAgent skipSteeringOf setSkipSteering fuel messages
                        skip a h)))
    = Go.Done s'
    /\ st_Messages W s' = st_Messages W (state W Obs a) ++ finalised ops
    /\ IsStreaming W s' = false
    /\ StreamMessage W s' = None
    /\ Error W s' = default "" (last (turnErrors ops))
    /\ st_SystemPrompt W s' = st_SystemPrompt W (state W Obs a)
    /\ st_Model W s' = st_Model W (state W Obs a)
    /\ st_ThinkingLevel W s' = st_ThinkingLevel W (state W Obs a)
    /\ st_Tools W s' = st_Tools W (state W Obs a).
Proof.
  intros He Hb Hrun.
  destruct (launched_run _ _ _ _ _ _ _ _ _ _ He Hb Hrun)
    as (Hall & Hrep & ch & cx & ->).
  pose proof (applyEvents_spec ops (state W Obs (started W Obs a ch cx)))
    as Hspec.
  destruct (applyEvents W (pushed ops) (state W Obs (started W Obs a ch cx)))
    as [s'| |] eqn:Happ.
  - exists s'. split; [reflexivity|].
    destruct Hspec as ((Hm & (H1 & H2 & H3 & H4) & Hp & Herr & Hstr) & _).
    cbn in Hm, H1, H2, H3, H4, Herr.
    split; [exact Hm|].
    destruct Hrep as (pre & ms & ->).
    unfold pushed in Happ. rewrite omap_app in Happ. cbn [omap list_omap] in Happ.
    rewrite applyEvents_app in Happ.
    destruct (applyEvents W (omap _ pre) _) as [s1| |]; try discriminate.
    cbn in Happ. injection Happ as <-. cbn.
    repeat split; assumption.
  - contradiction.
  - exfalso. exact (carries_never_panics ops Hall Hspec).
Qed.

End RunTranscript.

Section FinishFacts.

Import ai agent facade.
Local Open Scope string_scope.
Local Open Scope list_scope.

Context {W Obs : Type} (now : W -> Z * W).
Context (Quote : string -> string) (MarshalIndent : gmap string any -> string).
Context (agentOf : W -> Agent W Obs) (setAgent : Agent W Obs -> W -> W).
Context (skipSteeringOf : W -> bool) (setSkipSteering : bool -> W -> W).

(** A start that returns no error has made a channel and a context that
    were not there and left them open. *)
Lemma runLoop_started fuel messages skip (a : Agent W Obs) h :
  errorOf (facade.runLoop W Obs now Quote MarshalIndent agentOf setAgent
             skipSteeringOf setSkipSteering fuel messages skip a h) = None ->
  IsStreaming W (state W Obs a) = false
  /\ is_Some (st_Model W (state W Obs a))
  /\ agentAfter (facade.runLoop W Obs now Quote MarshalIndent agentOf
                   setAgent skipSteeringOf setSkipSteering fuel messages
                   skip a h)
     = started W Obs a (fresh (dom (channels h))) (fresh (dom (contexts h)))
  /\ heapAfter (facade.runLoop W Obs now Quote MarshalIndent agentOf
                  setAgent skipSteeringOf setSkipSteering fuel messages
                  skip a h)
     = {| contexts := <[fresh (dom (contexts h)) := false]> (contexts h);
          channels := <[fresh (dom (channels h)) := false]> (channels h) |}.
Proof.
  unfold facade.runLoop.
  destruct (IsStreaming W (state W Obs a)); [discriminate|].
  destruct (st_Model W (state W Obs a)) as [model|]; [|discriminate].
  cbv zeta. destruct messages as [ms|].
  - cbn. eauto.
  - destruct (AgentLoopContinue W now Quote MarshalIndent fuel _ _ _)
      as [[body0|] [err|]]; cbn; try discriminate; eauto.
Qed.

Lemma fresh_channel (m : gmap nat bool) : m !! fresh (dom m) = None.
Proof. apply not_elem_of_dom. apply is_fresh. Qed.

(** X24.  From the start of a run to its end.  A start that returns no
    error has made a channel and a context that did not exist; the
    deferred function of the goroutine then leaves the agent idle (not
    streaming, nothing pending, no [running] channel, no cancel
    function) with its queues and listeners untouched, closes that
    channel and does not cancel the context; an agent with a model then
    accepts the next prompt, and a second run of the deferred function
    would panic on the nil channel. *)
Theorem run_ends_idle (fuel : nat) (messages : option (list AgentMessage))
  (skip : bool) (a b : Agent W Obs) (h : Heap) :
  errorOf (facade.runLoop W Obs now Quote MarshalIndent agentOf setAgent
             skipSteeringOf setSkipSteering fuel messages skip a h) = None ->
  running W Obs b
  = running W Obs
      (agentAfter (facade.runLoop W Obs now Quote MarshalIndent agentOf
                     setAgent skipSteeringOf setSkipSteering fuel messages
                     skip a h)) ->
  exists ch cx b' h',
    running W Obs b = Some ch
    /\ abortCancel W Obs
         (agentAfter (facade.runLoop W Obs now Quote MarshalIndent agentOf
                        setAgent skipSteeringOf setSkipSteering fuel messages
                        skip a h)) = Some cx
    /\ channels h !! ch = None /\ contexts h !! cx = None
    /\ finishRun W Obs b
         (heapAfter (facade.runLoop W Obs now Quote MarshalIndent agentOf
                       setAgent skipSteeringOf setSkipSteering fuel messages
                       skip a h))
       = Go.Done (b', h')
    /\ state W Obs b'
       = with_pending W (with_stream W (state W Obs b) false None) ∅
    /\ running W Obs b' = None /\ abortCancel W Obs b' = None
    /\ steeringQueue W Obs b' = steeringQueue W Obs b
    /\ followUpQueue W Obs b' = followUpQueue W Obs b
    /\ listeners W Obs b' = listeners W Obs b
    /\ channels h' = <[ch := true]> (channels h)
    /\ contexts h' = <[cx := false]> (contexts h)
    /\ finishRun W Obs b' h' = Go.Panics
    /\ (is_Some (st_Model W (state W Obs b)) ->
        forall fuel2 ms2 skip2,
          errorOf (facade.runLoop W Obs now Quote MarshalIndent agentOf
                     setAgent skipSteeringOf setSkipSteering fuel2 (Some ms2)
                     skip2 b' h') = None).
Proof.
  intros He Hb.
  destruct (runLoop_started _ _ _ _ _ He) as (Hs & Hm & Ha & Hh).
  rewrite Ha in Hb |- *. rewrite Hh. cbn [running started] in Hb.
  exists (fresh (dom (channels h))), (fresh (dom (contexts h))).
  unfold finishRun. rewrite Hb. cbn [channels contexts].
  unfold Channels, Contexts in *. rewrite lookup_insert_eq.
  eexists _, _. split; [reflexivity|]. split; [reflexivity|].
  split; [apply fresh_channel|]. split; [apply fresh_channel|].
  split; [reflexivity|]. cbn.
  split; [reflexivity|]. split; [reflexivity|]. split; [reflexivity|].
  split; [reflexivity|]. split; [reflexivity|]. split; [reflexivity|].
  split; [apply insert_insert_eq|]. split; [reflexivity|].
  split; [reflexivity|].
  intros [model Hmodel] fuel2 ms2 skip2.
  unfold facade.runLoop. cbn. rewrite Hmodel. reflexivity.
Qed.

(** X25.  [Reset] clears the transcript and the queues, so that
    [Continue] answers [no messages to continue from], but it neither
    ends nor aborts a run in progress: after [Reset] the agent accepts
    a new prompt at once and makes a second channel.  The goroutine
    that finishes first then closes the channel of the second run and
    takes it out of the agent, the channel of the first run is never
    closed, and the goroutine that finishes last panics on the nil
    channel. *)
Theorem Reset_during_run (fuel : nat) (ms : list AgentMessage) (skip : bool)
  (b : Agent W Obs) (h : Heap) (ch1 : nat) :
  running W Obs b = Some ch1 ->
  channels h !! ch1 = Some false ->
  is_Some (st_Model W (state W Obs b)) ->
  Continue W Obs now Quote MarshalIndent agentOf setAgent skipSteeringOf
    setSkipSteering fuel (Reset W Obs b) h
  = ((Some "no messages to continue from", None), Reset W Obs b, h)
  /\ HasQueuedMessages W Obs (Reset W Obs b) = false
  /\ errorOf (facade.runLoop W Obs now Quote MarshalIndent agentOf setAgent
                skipSteeringOf setSkipSteering fuel (Some ms) skip
                (Reset W Obs b) h) = None
  /\ exists ch2,
       running W Obs
         (agentAfter (facade.runLoop W Obs now Quote MarshalIndent agentOf
                        setAgent skipSteeringOf setSkipSteering fuel (Some ms)
                        skip (Reset W Obs b) h)) = Some ch2
       /\ ch2 <> ch1
       /\ forall c : Agent W Obs,
            running W Obs c = Some ch2 ->
            exists c' h3,
              finishRun W Obs c
                (heapAfter (facade.runLoop W Obs now Quote MarshalIndent
                              agentOf setAgent skipSteeringOf setSkipSteering
                              fuel (Some ms) skip (Reset W Obs b) h))
              = Go.Done (c', h3)
              /\ running W Obs c' = None
              /\ channels h3 !! ch2 = Some true
              /\ channels h3 !! ch1 = Some false
              /\ forall d : Agent W Obs,
                   running W Obs d = running W Obs c' ->
                   finishRun W Obs d h3 = Go.Panics.
Proof.
  intros Hrun Hopen [model Hmodel].
  split; [reflexivity|]. split; [reflexivity|].
  unfold facade.runLoop. cbn [Reset state IsStreaming st_Model].
  rewrite Hmodel. cbv zeta. cbn [errorOf agentAfter heapAfter fst snd].
  split; [reflexivity|].
  exists (fresh (dom (channels h))). cbn [running started].
  split; [reflexivity|].
  assert (Hne : fresh (dom (channels h)) <> ch1).
  { intros Heq. subst ch1. pose proof (fresh_channel (channels h)) as Hf.
    unfold Channels in *. congruence. }
  split; [exact Hne|].
  intros c Hc. unfold finishRun. rewrite Hc. cbn [channels contexts].
  unfold Channels, Contexts in *. rewrite lookup_insert_eq. eexists _, _. split; [reflexivity|].
  cbn [running channels]. split; [reflexivity|].
  split; [apply lookup_insert_eq|].
  split.
  { rewrite !lookup_insert_ne by exact Hne. exact Hopen. }
  intros d ->. reflexivity.
Qed.

End FinishFacts.

(** ** The proxy stream *)

Section ProxyFacts.

Import ai proxy.
Local Open Scope string_scope.
Local Open Scope list_scope.
Local Open Scope Z_scope.

Lemma ensureLoop_spec fuel content idx :
  (Z.to_nat (idx + 1) - length content <= fuel)%nat ->
  ensureLoop fuel content idx
  = content ++ replicate (Z.to_nat (idx + 1) - length content) emptyContent.
Proof.
  revert content. induction fuel as [|fuel IH]; intros content Hfuel.
  - cbn [ensureLoop].
    replace (Z.to_nat (idx + 1) - length content)%nat with 0%nat by lia.
    cbn. rewrite app_nil_r. reflexivity.
  - cbn [ensureLoop]. destruct (Z.of_nat (length content) <=? idx) eqn:Hle.
    + apply Z.leb_le in Hle. rewrite IH by (rewrite length_app; cbn; lia).
      rewrite length_app. cbn [length].
      replace (Z.to_nat (idx + 1) - length content)%nat
        with (S (Z.to_nat (idx + 1) - (length content + 1)))%nat by lia.
      cbn [replicate]. rewrite <- app_assoc. reflexivity.
    + apply Z.leb_gt in Hle.
      replace (Z.to_nat (idx + 1) - length content)%nat with 0%nat by lia.
      cbn. rewrite app_nil_r. reflexivity.
Qed.

Lemma ensureContentIndex_content (msg : AssistantMessage) (idx : Go.int) :
  am_Content (ensureContentIndex msg idx)
  = am_Content msg
    ++ replicate (Z.to_nat (idx + 1) - length (am_Content msg)) emptyContent.
Proof.
  unfold ensureContentIndex. cbn [am_Content with_Content].
  apply ensureLoop_spec. lia.
Qed.

Lemma ensureContentIndex_length (msg : AssistantMessage) (idx : Go.int) :
  Z.of_nat (length (am_Content (ensureContentIndex msg idx)))
  = Z.max (Z.of_nat (length (am_Content msg))) (idx + 1).
Proof.
  rewrite ensureContentIndex_content, length_app, length_replicate. lia.
Qed.

Lemma ensureContentIndex_id (msg : AssistantMessage) (idx : Go.int) :
  idx < Z.of_nat (length (am_Content msg)) -> ensureContentIndex msg idx = msg.
Proof.
  intros Hlt. unfold ensureContentIndex. rewrite ensureLoop_spec by lia.
  replace (Z.to_nat (idx + 1) - length (am_Content msg))%nat with 0%nat by lia.
  cbn [replicate]. rewrite app_nil_r. destruct msg; reflexivity.
Qed.

(** X26.  [ensureContentIndex] appends empty content blocks until the
    index exists: the content afterwards is the content before followed
    by as many empty blocks as are missing, its length is the larger of
    the old length and [idx + 1], an index that exists (or is negative)
    changes nothing, and no other field of the message is touched. *)
Theorem ensureContentIndex_extends (msg : AssistantMessage) (idx : Go.int) :
  am_Content (ensureContentIndex msg idx)
  = am_Content msg
    ++ replicate (Z.to_nat (idx + 1) - length (am_Content msg)) emptyContent
  /\ Z.of_nat (length (am_Content (ensureContentIndex msg idx)))
     = Z.max (Z.of_nat (length (am_Content msg))) (idx + 1)
  /\ (idx < Z.of_nat (length (am_Content msg)) ->
      ensureContentIndex msg idx = msg)
  /\ ensureContentIndex msg idx
     = with_Content msg (am_Content (ensureContentIndex msg idx)).
Proof.
  split; [apply ensureContentIndex_content|].
  split; [apply ensureContentIndex_length|].
  split; [apply ensureContentIndex_id|reflexivity].
Qed.

Lemma index_in_range {A} (s : list A) (i : Go.int) :
  0 <= i < Z.of_nat (length s) ->
  exists x, index s i = Go.Done x /\ s !! Z.to_nat i = Some x.
Proof.
  intros Hi. unfold index.
  assert (Hneg : (i <? 0) = false) by (apply Z.ltb_ge; lia). rewrite Hneg.
  destruct (lookup_lt_is_Some_2 s (Z.to_nat i)) as [x Hx]; [lia|].
  rewrite Hx. eauto.
Qed.

Lemma setIndex_in_range {A} (s : list A) (i : Go.int) (x : A) :
  0 <= i < Z.of_nat (length s) ->
  setIndex s i x = Go.Done (<[Z.to_nat i := x]> s).
Proof.
  intros Hi. unfold setIndex.
  assert (Hneg : (i <? 0) = false) by (apply Z.ltb_ge; lia). rewrite Hneg.
  assert (Hlt : (Z.to_nat i <? length s)%nat = true)
    by (apply Nat.ltb_lt; lia).
  rewrite Hlt. reflexivity.
Qed.

Lemma index_negative {A} (s : list A) (i : Go.int) :
  i < 0 -> index s i = Go.Panics.
Proof.
  intros Hi. unfold index.
  assert (Hneg : (i <? 0) = true) by (apply Z.ltb_lt; lia).
  rewrite Hneg. reflexivity.
Qed.

Lemma setIndex_negative {A} (s : list A) (i : Go.int) (x : A) :
  i < 0 -> setIndex s i x = Go.Panics.
Proof.
  intros Hi. unfold setIndex.
  assert (Hneg : (i <? 0) = true) by (apply Z.ltb_lt; lia).
  rewrite Hneg. reflexivity.
Qed.

Context (Unmarshal : string -> Map * option error).

Ltac pick := repeat first [left; reflexivity | right].
Ltac split3 := split; [|split].

Lemma processProxyEvent_cases (pe : ProxyAssistantMessageEvent)
  (partial : AssistantMessage) :
  match processProxyEvent Unmarshal pe partial with
  | Go.Done (ev, partial') =>
      (partial' = ensureContentIndex partial (pe_ContentIndex pe)
       \/ (exists c,
             0 <= pe_ContentIndex pe
             /\ In (pe_Type pe) blockTypes
             /\ partial'
                = with_Content (ensureContentIndex partial (pe_ContentIndex pe))
                    (<[Z.to_nat (pe_ContentIndex pe) := c]>
                       (am_Content
                          (ensureContentIndex partial (pe_ContentIndex pe)))))
       \/ (exists errorMessage,
             (pe_Type pe = "done" \/ pe_Type pe = "error")
             /\ partial'
                = with_outcome
                    (ensureContentIndex partial (pe_ContentIndex pe))
                    (pe_Reason pe) errorMessage (pe_Usage pe)))
      /\ (forall e, ev = Some e -> ev_Type e = pe_Type pe)
      /\ (In (pe_Type pe) blockTypes -> 0 <= pe_ContentIndex pe)
  | Go.Panics => pe_ContentIndex pe < 0 /\ In (pe_Type pe) blockTypes
  | Go.Blocks => False
  end.
Proof.
  unfold processProxyEvent. cbv zeta.
  set (idx := pe_ContentIndex pe).
  set (P := ensureContentIndex partial idx).
  assert (Hlen : idx < Z.of_nat (length (am_Content P))).
  { subst P. pose proof (ensureContentIndex_length partial idx). lia. }
  unfold store.
  assert (Hnb : forall ty, ~ In ty blockTypes -> In ty blockTypes -> 0 <= idx)
    by (intros; contradiction).
  destruct (Z_lt_ge_dec idx 0) as [Hneg|Hpos].
  - rewrite !index_negative, !setIndex_negative by exact Hneg.
    cbn [Go.obind]. unfold eqs.
    repeat (case_bool_decide;
            [ match goal with H : pe_Type pe = _ |- _ => rewrite H end;
              first [ split; [exact Hneg|unfold blockTypes; pick]
                    | split3;
                      [ first [ left; reflexivity
                              | right; right; eexists;
                                split; [first [left; reflexivity
                                              |right; reflexivity]
                                       |reflexivity] ]
                      | intros e [= <-]; reflexivity
                      | apply Hnb; unfold blockTypes; cbn;
                        intuition discriminate ] ]
            | ]).
    split3; [left; reflexivity|intros e He; discriminate|].
    apply Hnb. unfold blockTypes. cbn. intuition congruence.
  - assert (Hin : 0 <= idx < Z.of_nat (length (am_Content P))) by lia.
    rewrite !setIndex_in_range by exact Hin.
    destruct (index_in_range (am_Content P) idx Hin) as (c & Hc & Hlook).
    rewrite Hc. cbn [Go.obind]. unfold eqs.
    repeat (case_bool_decide;
            [ match goal with H : pe_Type pe = _ |- _ => rewrite H end;
              try (destruct (c_Text c));
              try (destruct (c_Thinking c));
              try (destruct (c_ToolCall c));
              rewrite ?setIndex_in_range by exact Hin; cbn [Go.obind];
              (split3;
               [ first [ left; reflexivity
                       | right; left; eexists; split; [lia|];
                         split; [unfold blockTypes; pick|reflexivity]
                       | right; right; eexists;
                         split; [first [left; reflexivity|right; reflexivity]
                                |reflexivity] ]
               | first [intros e [= <-]; reflexivity
                       |intros e He; discriminate]
               | intros _; lia ])
            | ]).
    split3; [left; reflexivity|intros e He; discriminate|intros _; lia].
Qed.

(** X27.  [processProxyEvent] panics exactly on an event for a content
    block ([text_], [thinking_] and [toolcall_] [start], [delta] and
    [end]) with a negative content index, and never waits.  Otherwise
    the content has grown to hold the index, every block but the one at
    the index is as before or a new empty one, role, api, provider,
    model and timestamp are untouched, stop reason, error message and
    usage change on [done] and [error] alone, and the event returned,
    if there is one, has the type of the wire event. *)
Theorem processProxyEvent_index (pe : ProxyAssistantMessageEvent)
  (partial : AssistantMessage) :
  (processProxyEvent Unmarshal pe partial = Go.Panics <->
   pe_ContentIndex pe < 0 /\ In (pe_Type pe) blockTypes)
  /\ processProxyEvent Unmarshal pe partial <> Go.Blocks
  /\ forall ev partial',
       processProxyEvent Unmarshal pe partial = Go.Done (ev, partial') ->
       Z.of_nat (length (am_Content partial'))
       = Z.max (Z.of_nat (length (am_Content partial))) (pe_ContentIndex pe + 1)
       /\ (forall j : nat,
             Z.of_nat j <> pe_ContentIndex pe ->
             am_Content partial' !! j
             = (am_Content partial
                ++ replicate (Z.to_nat (pe_ContentIndex pe + 1)
                              - length (am_Content partial)) emptyContent)
               !! j)
       /\ (am_Role partial' = am_Role partial
           /\ am_Api partial' = am_Api partial
           /\ am_Provider partial' = am_Provider partial
           /\ am_Model partial' = am_Model partial
           /\ am_Timestamp partial' = am_Timestamp partial)
       /\ (pe_Type pe <> "done" -> pe_Type pe <> "error" ->
           am_StopReason partial' = am_StopReason partial
           /\ am_ErrorMessage partial' = am_ErrorMessage partial
           /\ am_Usage partial' = am_Usage partial)
       /\ (forall e, ev = Some e -> ev_Type e = pe_Type pe).
Proof.
  pose proof (processProxyEvent_cases pe partial) as Hc.
  pose proof (ensureContentIndex_content partial (pe_ContentIndex pe))
    as Hcontent.
  pose proof (ensureContentIndex_length partial (pe_ContentIndex pe)) as Hlen.
  assert (Hrest : ensureContentIndex partial (pe_ContentIndex pe)
                  = with_Content partial
                      (am_Content
                         (ensureContentIndex partial (pe_ContentIndex pe))))
    by reflexivity.
  destruct (processProxyEvent Unmarshal pe partial) as [[ev partial']| |].
  - destruct Hc as (Hform & Hty & Hblock).
    split; [|split; [discriminate|]].
    + split; [discriminate|]. intros [Hneg Hin]. apply Hblock in Hin. lia.
    + intros ev0 partial0 [= <- <-]. rewrite <- Hcontent.
      destruct Hform as [->|[(c & Hpos & _ & ->)|(em & Hdone & ->)]].
      * rewrite Hrest. cbn. repeat split; auto.
      * rewrite Hrest. cbn [am_Content with_Content]. rewrite length_insert.
        split; [exact Hlen|]. split.
        { intros j Hj. apply list_lookup_insert_ne. lia. }
        cbn. repeat split; auto.
      * rewrite Hrest. cbn [am_Content with_Content with_outcome].
        split; [exact Hlen|]. split; [reflexivity|]. cbn.
        split; [repeat split|]. split; [|exact Hty].
        intros H1 H2. destruct Hdone; contradiction.
  - contradiction.
  - split; [|split; [discriminate|discriminate]].
    split; [intros _; exact Hc|reflexivity].
Qed.

Lemma append_assoc (a b c : string) : (a +:+ b) +:+ c = a +:+ b +:+ c.
Proof.
  induction a as [|x a IH]; [reflexivity|].
  change (String x ((a +:+ b) +:+ c) = String x (a +:+ b +:+ c)).
  rewrite IH. reflexivity.
Qed.

(** The three delta cases of [processProxyEvent]. *)
Lemma process_text_delta (pe : ProxyAssistantMessageEvent)
  (partial : AssistantMessage) :
  pe_Type pe = "text_delta" ->
  partialAfter Unmarshal pe partial
  = Go.obind (index (am_Content (ensureContentIndex partial (pe_ContentIndex pe)))
                (pe_ContentIndex pe)) (fun c =>
      match c_Text c with
      | Some t =>
          Go.obind
            (setIndex
               (am_Content (ensureContentIndex partial (pe_ContentIndex pe)))
               (pe_ContentIndex pe)
               (with_Text c {| txt_Type := txt_Type t;
                               txt_Text := txt_Text t +:+ pe_Delta pe;
                               txt_TextSignature := txt_TextSignature t |}))
            (fun content =>
               Go.Done (with_Content
                          (ensureContentIndex partial (pe_ContentIndex pe))
                          content))
      | None => Go.Done (ensureContentIndex partial (pe_ContentIndex pe))
      end).
Proof.
  intros Hty. unfold partialAfter, processProxyEvent, store. rewrite Hty.
  unfold eqs. cbv zeta.
  repeat (rewrite bool_decide_eq_false_2 by discriminate).
  rewrite bool_decide_eq_true_2 by reflexivity.
  destruct (index _ _) as [c| |]; cbn [Go.obind]; try reflexivity.
  destruct (c_Text c); cbn [Go.obind snd]; [|reflexivity].
  destruct (setIndex _ _ _); reflexivity.
Qed.

Lemma process_thinking_delta (pe : ProxyAssistantMessageEvent)
  (partial : AssistantMessage) :
  pe_Type pe = "thinking_delta" ->
  partialAfter Unmarshal pe partial
  = Go.obind (index (am_Content (ensureContentIndex partial (pe_ContentIndex pe)))
                (pe_ContentIndex pe)) (fun c =>
      match c_Thinking c with
      | Some t =>
          Go.obind
            (setIndex
               (am_Content (ensureContentIndex partial (pe_ContentIndex pe)))
               (pe_ContentIndex pe)
               (with_Thinking c
                  {| thk_Type := thk_Type t;
                     thk_Thinking := thk_Thinking t +:+ pe_Delta pe;
                     thk_ThinkingSignature := thk_ThinkingSignature t |}))
            (fun content =>
               Go.Done (with_Content
                          (ensureContentIndex partial (pe_ContentIndex pe))
                          content))
      | None => Go.Done (ensureContentIndex partial (pe_ContentIndex pe))
      end).
Proof.
  intros Hty. unfold partialAfter, processProxyEvent, store. rewrite Hty.
  unfold eqs. cbv zeta.
  repeat (rewrite bool_decide_eq_false_2 by discriminate).
  rewrite bool_decide_eq_true_2 by reflexivity.
  destruct (index _ _) as [c| |]; cbn [Go.obind]; try reflexivity.
  destruct (c_Thinking c); cbn [Go.obind snd]; [|reflexivity].
  destruct (setIndex _ _ _); reflexivity.
Qed.

Lemma process_toolcall_delta (pe : ProxyAssistantMessageEvent)
  (partial : AssistantMessage) :
  pe_Type pe = "toolcall_delta" ->
  partialAfter Unmarshal pe partial
  = Go.obind (index (am_Content (ensureContentIndex partial (pe_ContentIndex pe)))
                (pe_ContentIndex pe)) (fun c =>
      match c_ToolCall c with
      | Some t =>
          Go.obind
            (setIndex
               (am_Content (ensureContentIndex partial (pe_ContentIndex pe)))
               (pe_ContentIndex pe)
               (with_ToolCall c
                  {| tc_Type := tc_Type t; tc_ID := tc_ID t;
                     tc_Name := tc_Name t;
                     tc_Arguments := ParseStreamingJSON Unmarshal (pe_Delta pe);
                     tc_ThoughtSignature := tc_ThoughtSignature t |}))
            (fun content =>
               Go.Done (with_Content
                          (ensureContentIndex partial (pe_ContentIndex pe))
                          content))
      | None => Go.Done (ensureContentIndex partial (pe_ContentIndex pe))
      end).
Proof.
  intros Hty. unfold partialAfter, processProxyEvent, store. rewrite Hty.
  unfold eqs. cbv zeta.
  repeat (rewrite bool_decide_eq_false_2 by discriminate).
  rewrite bool_decide_eq_true_2 by reflexivity.
  destruct (index _ _) as [c| |]; cbn [Go.obind]; try reflexivity.
  destruct (c_ToolCall c); cbn [Go.obind snd]; [|reflexivity].
  destruct (setIndex _ _ _); reflexivity.
Qed.

Ltac two_deltas Hi :=
  match goal with
  | |- context [ensureContentIndex ?p ?i] =>
      let P := fresh "P" in
      set (P := ensureContentIndex p i) in *;
      let Hlen := fresh "Hlen" in
      assert (Hlen : i < Z.of_nat (length (am_Content P)))
        by (subst P; pose proof (ensureContentIndex_length p i); lia);
      destruct (Z_lt_ge_dec i 0) as [Hneg|Hpos];
      [ rewrite !index_negative by exact Hneg; reflexivity
      | let Hin := fresh "Hin" in
        assert (Hin : 0 <= i < Z.of_nat (length (am_Content P))) by lia;
        let c := fresh "c" in
        let Hc := fresh "Hc" in
        let Hlook := fresh "Hlook" in
        destruct (index_in_range (am_Content P) i Hin) as (c & Hc & Hlook);
        rewrite Hc; cbn [Go.obind] ]
  end.

(** X28.  Deltas of text and of thinking accumulate: two deltas for the
    same block, one after the other, leave the partial message that the
    delta made of the two texts leaves.  Deltas of a tool call do not:
    the arguments are parsed from the latest delta alone, so that the
    second delta leaves what it would have left without the first. *)
Theorem deltas_compose (pe1 pe2 pe12 : ProxyAssistantMessageEvent)
  (partial : AssistantMessage) :
  pe_ContentIndex pe2 = pe_ContentIndex pe1 ->
  pe_ContentIndex pe12 = pe_ContentIndex pe1 ->
  pe_Type pe2 = pe_Type pe1 ->
  pe_Type pe12 = pe_Type pe1 ->
  pe_Delta pe12 = pe_Delta pe1 +:+ pe_Delta pe2 ->
  (pe_Type pe1 = "text_delta" \/ pe_Type pe1 = "thinking_delta" ->
   Go.obind (partialAfter Unmarshal pe1 partial) (partialAfter Unmarshal pe2)
   = partialAfter Unmarshal pe12 partial)
  /\ (pe_Type pe1 = "toolcall_delta" ->
      Go.obind (partialAfter Unmarshal pe1 partial) (partialAfter Unmarshal pe2)
      = partialAfter Unmarshal pe2 partial).
Proof.
  intros Hi2 Hi12 Hty2 Hty12 Hd.
  assert (Hstep : forall (P : AssistantMessage) (c' : Content),
            0 <= pe_ContentIndex pe1 < Z.of_nat (length (am_Content P)) ->
            let P1 := with_Content P
                        (<[Z.to_nat (pe_ContentIndex pe1) := c']> (am_Content P))
            in
            ensureContentIndex P1 (pe_ContentIndex pe1) = P1
            /\ index (am_Content P1) (pe_ContentIndex pe1) = Go.Done c'
            /\ forall c'',
                 setIndex (am_Content P1) (pe_ContentIndex pe1) c''
                 = Go.Done (<[Z.to_nat (pe_ContentIndex pe1) := c'']>
                              (am_Content P))).
  { intros P c' Hin P1.
    assert (Hin1 : 0 <= pe_ContentIndex pe1
                   < Z.of_nat (length (am_Content P1)))
      by (subst P1; cbn [am_Content with_Content]; rewrite length_insert; lia).
    split; [apply ensureContentIndex_id; lia|]. split.
    - destruct (index_in_range _ _ Hin1) as (x & Hx & Hlook). rewrite Hx.
      subst P1. cbn [am_Content with_Content] in Hlook.
      rewrite list_lookup_insert_eq in Hlook by lia. congruence.
    - intros c''. rewrite setIndex_in_range by exact Hin1.
      subst P1. cbn [am_Content with_Content].
      rewrite list_insert_insert_eq. reflexivity. }
  split.
  - intros [Hty|Hty].
    + rewrite (process_text_delta pe1), (process_text_delta pe12)
        by congruence.
      rewrite Hi12. two_deltas Hi2.
      destruct (c_Text c) as [t|] eqn:Ht; cbn [Go.obind].
      * rewrite !setIndex_in_range by exact Hin. cbn [Go.obind].
        rewrite (process_text_delta pe2) by congruence. rewrite Hi2.
        destruct (Hstep P (with_Text c
                    {| txt_Type := txt_Type t;
                       txt_Text := txt_Text t +:+ pe_Delta pe1;
                       txt_TextSignature := txt_TextSignature t |}) Hin)
          as (Hid & Hidx & Hset).
        cbv zeta in Hid, Hidx, Hset. rewrite Hid, Hidx. cbn [Go.obind].
        cbn [c_Text with_Text]. rewrite Hset. cbn [Go.obind].
        cbn [txt_Type txt_Text txt_TextSignature].
        rewrite Hd, append_assoc. reflexivity.
      * rewrite (process_text_delta pe2) by congruence. rewrite Hi2.
        subst P. rewrite ensureContentIndex_id by lia.
        rewrite Hc. cbn [Go.obind]. rewrite Ht. reflexivity.
    + rewrite (process_thinking_delta pe1), (process_thinking_delta pe12)
        by congruence.
      rewrite Hi12. two_deltas Hi2.
      destruct (c_Thinking c) as [t|] eqn:Ht; cbn [Go.obind].
      * rewrite !setIndex_in_range by exact Hin. cbn [Go.obind].
        rewrite (process_thinking_delta pe2) by congruence. rewrite Hi2.
        destruct (Hstep P (with_Thinking c
                    {| thk_Type := thk_Type t;
                       thk_Thinking := thk_Thinking t +:+ pe_Delta pe1;
                       thk_ThinkingSignature := thk_ThinkingSignature t |}) Hin)
          as (Hid & Hidx & Hset).
        cbv zeta in Hid, Hidx, Hset. rewrite Hid, Hidx. cbn [Go.obind].
        cbn [c_Thinking with_Thinking]. rewrite Hset. cbn [Go.obind].
        cbn [thk_Type thk_Thinking thk_ThinkingSignature].
        rewrite Hd, append_assoc. reflexivity.
      * rewrite (process_thinking_delta pe2) by congruence. rewrite Hi2.
        subst P. rewrite ensureContentIndex_id by lia.
        rewrite Hc. cbn [Go.obind]. rewrite Ht. reflexivity.
  - intros Hty.
    rewrite (process_toolcall_delta pe1), (process_toolcall_delta pe2 partial)
      by congruence.
    rewrite Hi2. two_deltas Hi2.
    destruct (c_ToolCall c) as [t|] eqn:Ht; cbn [Go.obind].
    + rewrite !setIndex_in_range by exact Hin. cbn [Go.obind].
      rewrite (process_toolcall_delta pe2) by congruence. rewrite Hi2.
      destruct (Hstep P (with_ToolCall c
                  {| tc_Type := tc_Type t; tc_ID := tc_ID t;
                     tc_Name := tc_Name t;
                     tc_Arguments := ParseStreamingJSON Unmarshal (pe_Delta pe1);
                     tc_ThoughtSignature := tc_ThoughtSignature t |}) Hin)
        as (Hid & Hidx & Hset).
      cbv zeta in Hid, Hidx, Hset. rewrite Hid, Hidx. cbn [Go.obind].
      cbn [c_ToolCall with_ToolCall]. rewrite Hset. cbn [Go.obind].
      reflexivity.
    + rewrite (process_toolcall_delta pe2) by congruence. rewrite Hi2.
      subst P. rewrite ensureContentIndex_id by lia.
      rewrite Hc. cbn [Go.obind]. rewrite Ht. reflexivity.
Qed.

(** X29.  [emitProxyError] on a stream that is not yet resolved and has
    room: it returns, the partial message has stop reason [error] and
    the given error message, the stream has got one more event, of type
    [error] and carrying that message, and is closed; a consumer meets
    the events and the end of the stream, and [Result] returns the
    message. *)
Theorem emitProxyError_resolves (stream : AssistantMessageEventStream)
  (partial : AssistantMessage) (errMsg : string) :
  EventStream.unresolved stream ->
  (length (EventStream.ch stream) < EventStream.ch_cap)%nat ->
  exists partial' event stream',
    emitProxyError stream partial errMsg = Go.Done (partial', stream')
    /\ partial' = with_outcome partial StopReasonError errMsg None
    /\ EventStream.ch stream' = EventStream.ch stream ++ [event]
    /\ ev_Type event = EventError /\ ev_Error event = Some partial'
    /\ ev_Reason event = StopReasonError
    /\ EventStream.resolved_with (Some partial') stream'
    /\ EventStream.drain stream'
       = Go.Done (EventStream.ch stream ++ [event],
                  {| EventStream.ch := []; EventStream.ch_closed := true;
                     EventStream.once := true;
                     EventStream.resultCh := Some (Some partial') |})
    /\ EventStream.Result stream'
       = Go.Done (Some partial',
                  {| EventStream.ch := EventStream.ch stream ++ [event];
                     EventStream.ch_closed := true; EventStream.once := true;
                     EventStream.resultCh := None |}).
Proof.
  intros (Hr & Ho & Hc) Hlen.
  assert (Hcap : (EventStream.ch_cap <=? length (EventStream.ch stream))%nat
                 = false) by (apply Nat.leb_gt; exact Hlen).
  unfold emitProxyError, EventStream.Push, EventStream.End,
    EventStream.send_result, EventStream.send, EventStream.once_close,
    EventStream.close_ch, EventStream.try_send_result.
  cbn [assistantIsComplete ev_Type]. 
  assert (He : eqs EventError EventDone || eqs EventError EventError = true).
  { unfold eqs. rewrite bool_decide_eq_false_2 by discriminate.
    rewrite bool_decide_eq_true_2 by reflexivity. reflexivity. }
  unfold assistantIsComplete. cbn [ev_Type]. rewrite He, Hr.
  cbn [Go.obind EventStream.ch EventStream.ch_closed EventStream.once
         EventStream.resultCh].
  rewrite Hc, Hcap.
  cbn [Go.obind EventStream.ch EventStream.ch_closed EventStream.once
         EventStream.resultCh].
  rewrite Ho.
  cbn [Go.obind EventStream.ch EventStream.ch_closed EventStream.once
         EventStream.resultCh].
  eexists _, _, _. split; [reflexivity|]. split; [reflexivity|].
  cbn [EventStream.ch]. split; [reflexivity|].
  cbn [ev_Type ev_Error ev_Reason].
  split; [reflexivity|].
  assert (Hx : assistantExtractResult
                 {| ev_Type := EventError; ev_ContentIndex := 0; ev_Delta := "";
                    ev_Content := ""; ev_Partial := None; ev_Message := None;
                    ev_Error := Some (with_outcome partial StopReasonError
                                        errMsg None);
                    ev_ToolCallData := None; ev_Reason := StopReasonError |}
               = Some (with_outcome partial StopReasonError errMsg None)).
  { unfold assistantExtractResult, eqs. cbn [ev_Type ev_Error].
    rewrite bool_decide_eq_false_2 by discriminate.
    rewrite bool_decide_eq_true_2 by reflexivity. reflexivity. }
  rewrite Hx.
  split; [reflexivity|]. split; [reflexivity|].
  split; [repeat split|].
  split; [|reflexivity].
  unfold EventStream.drain.
  rewrite rangeLoop_closed; cbn [EventStream.ch EventStream.ch_closed];
    [reflexivity|reflexivity|lia].
Qed.

End ProxyFacts.

(** ** Examples for the properties above *)

Section FurtherExamples.

Import ai agent facade Examples.
Local Open Scope string_scope.
Local Open Scope list_scope.

(** X2 on a new stream: one event pushed, then [End]. *)
Lemma events_delivered_in_order_witness :
  exists s1 s2 s3,
    EventStream.PushAll assistantIsComplete assistantExtractResult
      [startEventOf (assistantText "ok" StopReasonStop)]
      EventStream.NewEventStream = Go.Done s1
    /\ EventStream.End (Some (assistantText "ok" StopReasonStop)) s1
       = Go.Done s2
    /\ EventStream.drain s2
       = Go.Done ([startEventOf (assistantText "ok" StopReasonStop)], s3)
    /\ EventStream.recv s3 = Go.Done (None, s3)
    /\ EventStream.Result s3
       = Go.Done (Some (assistantText "ok" StopReasonStop),
                  {| EventStream.ch := []; EventStream.ch_closed := true;
                     EventStream.once := true;
                     EventStream.resultCh := None |}).
Proof.
  apply (events_delivered_in_order assistantIsComplete assistantExtractResult
           [startEventOf (assistantText "ok" StopReasonStop)]
           (Some (assistantText "ok" StopReasonStop))
           EventStream.NewEventStream).
  - repeat split.
  - repeat constructor.
  - cbn. unfold EventStream.ch_cap. lia.
Defined.

(** X3 on a stream with 64 events in its buffer. *)
Lemma Push_waits_on_full_buffer_witness :
  length (EventStream.ch fullStream) = 64%nat
  /\ EventStream.Push assistantIsComplete assistantExtractResult
       (doneEventOf (assistantText "ok" StopReasonStop)) fullStream
     = Go.Blocks.
Proof.
  split; [reflexivity|].
  apply Push_waits_on_full_buffer; [repeat split|reflexivity].
Defined.

(** X4 on the stream of a provider that has pushed [start] and [done]. *)
Lemma Push_after_end_witness :
  EventStream.Push assistantIsComplete assistantExtractResult
    (startEventOf (assistantText "late" StopReasonStop))
    (streamOf (assistantText "ok" StopReasonStop))
  = Go.Panics
  /\ EventStream.Push assistantIsComplete assistantExtractResult
       (doneEventOf (assistantText "late" StopReasonStop))
       (streamOf (assistantText "ok" StopReasonStop))
     = Go.Blocks.
Proof.
  split.
  - exact (proj1 (Push_after_end assistantIsComplete assistantExtractResult
                    (startEventOf (assistantText "late" StopReasonStop))
                    (Some (assistantText "ok" StopReasonStop))
                    (streamOf (assistantText "ok" StopReasonStop))
                    (conj eq_refl (conj eq_refl eq_refl)))).
  - exact (proj1 (Push_after_end assistantIsComplete assistantExtractResult
                    (doneEventOf (assistantText "late" StopReasonStop))
                    (Some (assistantText "ok" StopReasonStop))
                    (streamOf (assistantText "ok" StopReasonStop))
                    (conj eq_refl (conj eq_refl eq_refl)))).
Defined.

(** X7 on the registry that holds [model0] alone. *)
Lemma registry_listings_witness :
  GetProviders (RegisterModels [model0] ∅) ["anthropic"]
  /\ GetModels "anthropic" (RegisterModels [model0] ∅) (Some [model0])
  /\ (forall p, p ∈ ["anthropic"] <->
                exists m, m ∈ [model0] /\ model_Provider m = p)
  /\ forall m, m ∈ [model0] <->
               GetModel "anthropic" (model_ID m) (RegisterModels [model0] ∅)
               = Some m.
Proof.
  assert (Hreg : RegisterModels [model0] ∅
                 = {[ "anthropic" := {[ "m" := model0 ]} ]}).
  { unfold RegisterModels, RegisterModel, ModelRegistry. cbn [fold_left].
    cbv zeta. cbn [model_Provider model_ID model0].
    rewrite lookup_empty. rewrite !insert_empty. reflexivity. }
  assert (Hps : GetProviders (RegisterModels [model0] ∅) ["anthropic"]).
  { unfold GetProviders. rewrite Hreg. unfold ModelRegistry.
    rewrite map_to_list_singleton. reflexivity. }
  assert (Hms : GetModels "anthropic" (RegisterModels [model0] ∅)
                  (Some [model0])).
  { unfold GetModels. rewrite Hreg. unfold ModelRegistry.
    rewrite lookup_singleton_eq. exists [model0]. split; [reflexivity|].
    rewrite map_to_list_singleton. reflexivity. }
  split; [exact Hps|]. split; [exact Hms|].
  destruct (registry_listings [model0] "anthropic" ["anthropic"]
              (Some [model0]) Hps Hms) as (_ & Hp & _ & _ & Hm).
  split; assumption.
Defined.

(** X11 with the provider that pushes [start] and [done], and with one
    that pushes 65 [start] events first. *)
Lemma Complete_returns_terminal_witness :
  Complete unit (Some model0) {| ctx_SystemPrompt := ""; ctx_Messages := [];
                                 ctx_Tools := [] |} None
    (RegisterApiProvider unit provider0 "" ∅) tt
  = Go.Done ((Some (assistantText "ok" StopReasonStop), None), tt)
  /\ Complete unit (Some model0) {| ctx_SystemPrompt := ""; ctx_Messages := [];
                                    ctx_Tools := [] |} None
       (RegisterApiProvider unit (chattyProvider 65) "" ∅) tt
     = Go.Blocks.
Proof.
  split.
  - refine (proj1 (Complete_returns_terminal model0 _ None
                     (RegisterApiProvider unit provider0 "" ∅) provider0
                     (fun _ _ _ w =>
                        (Some (streamOf (assistantText "ok" StopReasonStop)), w))
                     tt tt
                     [startEventOf (assistantText "ok" StopReasonStop)]
                     (doneEventOf (assistantText "ok" StopReasonStop))
                     _ _ _ _ _) _).
    + rewrite GetApiProvider_Register. reflexivity.
    + reflexivity.
    + reflexivity.
    + repeat constructor.
    + reflexivity.
    + cbn. lia.
  - refine (proj2 (proj2 (Complete_returns_terminal model0 _ None
                     (RegisterApiProvider unit (chattyProvider 65) "" ∅)
                     (chattyProvider 65)
                     (fun _ _ _ w =>
                        (Some (EventStream.producer assistantIsComplete
                                 assistantExtractResult
                                 (replicate 65
                                    (startEventOf
                                       (assistantText "ok" StopReasonStop))
                                  ++ [doneEventOf
                                        (assistantText "ok" StopReasonStop)])
                                 EventStream.NewEventStream), w))
                     tt tt
                     (replicate 65
                        (startEventOf (assistantText "ok" StopReasonStop)))
                     (doneEventOf (assistantText "ok" StopReasonStop))
                     _ _ _ _ _)) _).
    + rewrite GetApiProvider_Register. reflexivity.
    + reflexivity.
    + reflexivity.
    + apply Forall_replicate. reflexivity.
    + reflexivity.
    + rewrite length_replicate. lia.
Defined.

(** X23 on the scripted world: a prompt, a turn with three tool calls
    and a second turn. *)
Lemma run_extends_transcript_witness :
  errorOf start0 = None
  /\ bodyOf start0 = Some body0
  /\ match body0 toolWorld with
     | Ok (_, ops, _) =>
         exists s',
           applyEvents World (pushed ops)
             (state World (list string) (agentAfter start0)) = Go.Done s'
           /\ st_Messages World s' = finalised ops
           /\ length (finalised ops) = 6%nat
           /\ IsStreaming World s' = false
     | Fail _ => False
     end.
Proof.
  assert (He : errorOf start0 = None) by reflexivity.
  assert (Hb : bodyOf start0 = Some body0) by reflexivity.
  split; [exact He|]. split; [exact Hb|].
  destruct (body0 toolWorld) as [[[x ops] w']|why] eqn:Hrun.
  - destruct (run_extends_transcript now0 Quote0 MarshalIndent0 agentOf0
                setAgent0 skipSteeringOf0 setSkipSteering0 10
                (Some [userText "2+2?"]) false agentW heap0 body0 toolWorld w'
                x ops He Hb Hrun) as (s' & Happ & Hm & Hs & _).
    exists s'. split; [exact Happ|]. split; [exact Hm|].
    split; [|exact Hs].
    vm_compute in Hrun. injection Hrun as <- <- <-. reflexivity.
  - vm_compute in Hrun. discriminate.
Defined.

(** X24 on the run [start0] has started. *)
Lemma run_ends_idle_witness :
  errorOf start0 = None
  /\ exists b' h',
       finishRun World (list string) (agentAfter start0) (heapAfter start0)
       = Go.Done (b', h')
       /\ running World (list string) b' = None
       /\ IsStreaming World (state World (list string) b') = false
       /\ finishRun World (list string) b' h' = Go.Panics.
Proof.
  assert (He : errorOf start0 = None) by reflexivity.
  split; [exact He|].
  destruct (run_ends_idle now0 Quote0 MarshalIndent0 agentOf0 setAgent0
              skipSteeringOf0 setSkipSteering0 10 (Some [userText "2+2?"])
              false agentW (agentAfter start0) heap0 He eq_refl)
    as (ch & cx & b' & h' & _ & _ & _ & _ & Hfin & Hst & Hrun & _ & _ & _ & _
        & _ & _ & Hpanic & _).
  exists b', h'. split; [exact Hfin|]. split; [exact Hrun|].
  split; [rewrite Hst; reflexivity|exact Hpanic].
Defined.

(** X25: [Reset] and a second prompt while the run of [start0] is in
    progress. *)
Lemma Reset_during_run_witness :
  running World (list string) (agentAfter start0)
  = Some (fresh (dom (channels heap0)))
  /\ errorOf (facade.runLoop World (list string) now0 Quote0 MarshalIndent0
                agentOf0 setAgent0 skipSteeringOf0 setSkipSteering0 10
                (Some [userText "again"]) false
                (Reset World (list string) (agentAfter start0))
                (heapAfter start0)) = None
  /\ exists ch2,
       running World (list string)
         (agentAfter
            (facade.runLoop World (list string) now0 Quote0 MarshalIndent0
               agentOf0 setAgent0 skipSteeringOf0 setSkipSteering0 10
               (Some [userText "again"]) false
               (Reset World (list string) (agentAfter start0))
               (heapAfter start0))) = Some ch2
       /\ ch2 <> fresh (dom (channels heap0)).
Proof.
  split; [reflexivity|].
  destruct (Reset_during_run now0 Quote0 MarshalIndent0 agentOf0 setAgent0
              skipSteeringOf0 setSkipSteering0 10 [userText "again"] false
              (agentAfter start0) (heapAfter start0)
              (fresh (dom (channels heap0))))
    as (_ & _ & He & ch2 & Hch2 & Hne & _).
  - reflexivity.
  - apply lookup_insert_eq.
  - eexists. reflexivity.
  - split; [exact He|]. exists ch2. split; [exact Hch2|exact Hne].
Defined.

(** X28 on the deltas [Hel] and [lo] for a text block. *)
Lemma deltas_compose_witness :
  Go.obind (proxy.partialAfter Unmarshal0 (textDelta "Hel")
              (assistantText "" StopReasonStop))
    (proxy.partialAfter Unmarshal0 (textDelta "lo"))
  = proxy.partialAfter Unmarshal0 (textDelta "Hello")
      (assistantText "" StopReasonStop)
  /\ proxy.partialAfter Unmarshal0 (textDelta "Hello")
       (assistantText "" StopReasonStop)
     = Go.Done (assistantText "Hello" StopReasonStop).
Proof.
  split; [|reflexivity].
  apply (deltas_compose Unmarshal0 (textDelta "Hel") (textDelta "lo")
           (textDelta "Hello") (assistantText "" StopReasonStop));
    try reflexivity.
  left. reflexivity.
Defined.

(** X29 on a new stream. *)
Lemma emitProxyError_resolves_witness :
  exists stream',
    proxy.emitProxyError EventStream.NewEventStream
      (assistantText "" StopReasonStop) "request failed"
    = Go.Done (proxy.with_outcome (assistantText "" StopReasonStop)
                 StopReasonError "request failed" None, stream')
    /\ EventStream.Result stream'
       = Go.Done (Some (proxy.with_outcome (assistantText "" StopReasonStop)
                          StopReasonError "request failed" None),
                  {| EventStream.ch := EventStream.ch stream';
                     EventStream.ch_closed := true; EventStream.once := true;
                     EventStream.resultCh := None |}).
Proof.
  destruct (emitProxyError_resolves EventStream.NewEventStream
              (assistantText "" StopReasonStop) "request failed")
    as (partial' & event & stream' & Hrun & -> & Hch & _ & _ & _ & _ & _ & Hres).
  - repeat split.
  - cbn. unfold EventStream.ch_cap. lia.
  - exists stream'. split; [exact Hrun|]. rewrite Hres, Hch. reflexivity.
Defined.

(** X17 on the run with three tool calls, a steering message and a
    second turn. *)
Lemma run_follows_lifecycle_witness :
  match AgentLoop World now0 Quote0 MarshalIndent0 10 [userText "2+2?"]
          context0 config0 (Some streamFn0) toolWorld with
  | Ok (_, ops, _) =>
      follow Fresh (outline ops) = Some Finished
      /\ outline ops
         = [MAgentStart; MTurnStart; MTurnEnd; MTurnStart; MTurnEnd;
            MAgentEnd; MEnd]
  | Fail _ => False
  end.
Proof.
  pose proof (proj1 (run_follows_lifecycle now0 Quote0 MarshalIndent0 10
                       [userText "2+2?"] context0 config0 (Some streamFn0))
                toolWorld) as H.
  destruct (AgentLoop World now0 Quote0 MarshalIndent0 10 [userText "2+2?"]
              context0 config0 (Some streamFn0) toolWorld)
    as [[[x ops] w']|why] eqn:Hrun.
  - split; [exact (proj1 (H x ops w' eq_refl))|].
    vm_compute in Hrun. injection Hrun as <- <- <-. reflexivity.
  - vm_compute in Hrun. discriminate.
Defined.

(** X16 on the three calls with no steering provider: all three run,
    the third names no tool. *)
Lemma executeToolCalls_one_result_per_call_witness :
  exists results ops w',
    executeToolCalls World now0 Quote0 MarshalIndent0 [echoTool] threeCalls
      None steeredWorld
    = Ok ((results, []), ops, w')
    /\ map tr_ToolCallID results = ["t1"; "t2"; "t3"]
    /\ map tr_ToolName results = ["echo"; "echo"; "other"]
    /\ map tr_IsError results = [false; true; true]
    /\ toolBrackets ops = bracketsOf [call1; call2; call3].
Proof.
  destruct (executeToolCalls World now0 Quote0 MarshalIndent0 [echoTool]
              threeCalls None steeredWorld)
    as [[[[results steering] ops] w']|why] eqn:Hrun;
    [|vm_compute in Hrun; discriminate].
  destruct (executeToolCalls_one_result_per_call now0 Quote0 MarshalIndent0
              _ _ _ _ _ _ _ _ Hrun) as (Hids & Hnames & Hb & Hst).
  rewrite (Hst eq_refl) in *.
  exists results, ops, w'. split; [reflexivity|].
  split; [exact Hids|]. split; [exact Hnames|]. split; [|exact Hb].
  vm_compute in Hrun. injection Hrun as <- _ _. reflexivity.
Defined.

End FurtherExamples.
